(** * Torch-TensorRT dynamo exporter and runtime module: a shallow embedding

    The development follows two source files of the repository:

    - [py/torch_tensorrt/dynamo/_exporter.py]: the [export] dispatch, the
      constant lifter [lift], [get_duplicate_nodes], [inline_torch_modules],
      [copy_submodule_attributes], [create_trt_exp_program] and
      [inline_trt_modules];
    - [py/torch_tensorrt/dynamo/runtime/_TorchTensorRTModule.py]: the
      constructor, [forward] and [_pack_binding_names] of
      [TorchTensorRTModule].

    Python exceptions are values of an error monad, the mutable [torch.fx]
    graph is an explicit state (an ordered list of node records carrying
    their [users] dictionaries), and what the host framework supplies
    (the graph namespace, dead-code elimination, lint, the native engine)
    is a section variable of the pass that calls it. *)

From Stdlib Require Import List String Ascii ZArith Bool Arith Lia.
From Stdlib Require Import DecimalString.
Import ListNotations.
Local Open Scope list_scope.
Local Open Scope string_scope.

(* ===================================================================== *)
(** * Python values, exceptions and strings                               *)
(* ===================================================================== *)

Module Py.

(** The exceptions the two source files raise or let through. *)
Inductive Exn : Type :=
| ValueError (msg : string)
| AssertionError (msg : string)
| RuntimeError (msg : string)
| AttributeError (attr : string)
| KeyError (key : string)
| TypeError (msg : string)
| IndexError.

(** A computation that returns or raises. *)
Inductive Result (A : Type) : Type :=
| Ok (a : A)
| Raise (e : Exn).
Arguments Ok {A} a.
Arguments Raise {A} e.

Definition bind {A B : Type} (c : Result A) (k : A -> Result B) : Result B :=
  match c with
  | Ok a => k a
  | Raise e => Raise e
  end.

(** [assert cond, msg] *)
Definition assert (cond : bool) (msg : string) : Result unit :=
  if cond then Ok tt else Raise (AssertionError msg).

(** The values a caller can hand to an untyped Python parameter. *)
Inductive Val : Type :=
| PyNone
| PyBytes (b : list nat)
| PyByteArray (b : list nat)
| PyStr (s : string)
| PyInt (z : Z).

Definition is_none (v : Val) : bool :=
  match v with PyNone => true | _ => false end.

(** [isinstance(v, bytearray)] *)
Definition isinstance_bytearray (v : Val) : bool :=
  match v with PyByteArray _ => true | _ => false end.

(** [str(n)] for a natural number. *)
Definition str_of_nat (n : nat) : string :=
  NilEmpty.string_of_uint (Nat.to_uint n).

(** [str(z)] for an integer. *)
Definition str_of_Z (z : Z) : string :=
  NilEmpty.string_of_int (Z.to_int z).

(** [sub in s] *)
Fixpoint contains (sub s : string) : bool :=
  match s with
  | EmptyString => prefix sub EmptyString
  | String _ r => prefix sub s || contains sub r
  end.

(** [x in l] for a list of strings. *)
Definition mem_str (x : string) (l : list string) : bool :=
  existsb (String.eqb x) l.

(** [d.join(names)] for a one-character [d]. *)
Fixpoint join (d : ascii) (names : list string) : string :=
  match names with
  | [] => EmptyString
  | x :: r =>
      match r with
      | [] => x
      | _ :: _ => x ++ String d (join d r)
      end
  end.

(** [s.split(d)] for a one-character [d]: the result is never empty, and
    the empty string splits into one empty field. *)
Fixpoint split (d : ascii) (s : string) : list string :=
  match s with
  | EmptyString => [EmptyString]
  | String c r =>
      if Ascii.eqb c d then EmptyString :: split d r
      else match split d r with
           | h :: t => String c h :: t
           | [] => [String c EmptyString]
           end
  end.

(** [d in s] for a character. *)
Fixpoint has_char (d : ascii) (s : string) : bool :=
  match s with
  | EmptyString => false
  | String c r => Ascii.eqb c d || has_char d r
  end.

(** [s.replace(old, new)]: every non-overlapping occurrence, left to right.
    [skip] counts the characters of a match that are still to be dropped. *)
Fixpoint replace_from (old new : string) (skip : nat) (s : string) : string :=
  match s with
  | EmptyString =>
      match old with EmptyString => new | _ => EmptyString end
  | String c r =>
      match skip with
      | S k => replace_from old new k r
      | O =>
          if prefix old s
          then new ++ match old with
                      | EmptyString => String c (replace_from old new 0 r)
                      | _ => replace_from old new (String.length old - 1) r
                      end
          else String c (replace_from old new 0 r)
      end
  end.

Definition replace (old new s : string) : string := replace_from old new 0 s.

(** A Python [dict] with string keys, in insertion order. *)
Definition Dict (V : Type) : Type := list (string * V).

Fixpoint dict_get {V : Type} (d : Dict V) (k : string) : option V :=
  match d with
  | [] => None
  | (k', v) :: r => if String.eqb k' k then Some v else dict_get r k
  end.

Definition dict_mem {V : Type} (d : Dict V) (k : string) : bool :=
  match dict_get d k with Some _ => true | None => false end.

(** [d[k] = v]: an existing key keeps its position. *)
Fixpoint dict_set {V : Type} (d : Dict V) (k : string) (v : V) : Dict V :=
  match d with
  | [] => [(k, v)]
  | (k', v') :: r =>
      if String.eqb k' k then (k, v) :: r else (k', v') :: dict_set r k v
  end.

End Py.

Import Py.

Declare Scope py_scope.
Delimit Scope py_scope with py.
Notation "x <- c ;; k" := (Py.bind c (fun x => k))
  (at level 61, c at next level, right associativity) : py_scope.
Notation "c ;;; k" := (Py.bind c (fun _ => k))
  (at level 61, right associativity) : py_scope.
Local Open Scope py_scope.

(* ===================================================================== *)
(** * Tensors and the native engine                                       *)
(* ===================================================================== *)

(** What the passes read of a tensor: its sizes and strides; [t_data]
    stands for the contents. *)
Record Tensor : Type := mkTensor {
  t_shape : list Z;
  t_stride : list Z;
  t_data : list Z
}.

(** [torch.classes.tensorrt.Engine]: opaque, built from the serialized
    record the constructor of the runtime module assembles. *)
Record Engine : Type := mkEngine {
  engine_info : list Val
}.

(* ===================================================================== *)
(** * runtime/_TorchTensorRTModule.py                                     *)
(* ===================================================================== *)

Module Runtime.

(** [torch_tensorrt.Device], through its serialized form only. *)
Record Device : Type := mkDevice {
  device_repr : string
}.

(** The fields of [CompilationSettings] the constructor reads. *)
Record CompilationSettings : Type := mkSettings {
  device : option Device;
  hardware_compatible : bool;
  torch_executed_ops : list string
}.

(** The attributes [__init__] assigns. *)
Record TorchTensorRTModule : Type := mkModule {
  input_binding_names : list string;
  output_binding_names : list string;
  name : string;
  module_hardware_compatible : bool;
  settings : CompilationSettings;
  engine : option Engine
}.

(** [forward] returns one tensor or a tuple of tensors. *)
Inductive ForwardResult : Type :=
| OneTensor (t : Tensor)
| TensorTuple (ts : list Tensor).

Section WithRuntime.

(** What the native runtime and the host framework supply. *)
Variable delim : ascii.            (* SERIALIZED_ENGINE_BINDING_DELIM()[0] *)
Variable ABI_VERSION : string.     (* torch.ops.tensorrt.ABI_VERSION() *)
Variable current_device : Device.  (* Device._current_device() *)
Variable to_serialized_rt_device : Device -> string.
Variable pickle_b64 : CompilationSettings -> string.
Variable Engine_new : list Val -> Result Engine.
Variable as_cuda_tensor : Val -> Result Tensor.
Variable execute_engine : list Tensor -> Engine -> Result (list Tensor).

(** [_pack_binding_names] *)
Definition _pack_binding_names (binding_names : list string) : string :=
  join delim binding_names.

(** Modelled from the spec: the reader of a packed binding-name field lives
    in the native runtime, which is not among the sources; the spec has it
    split the packed string on the same delimiter. *)
Definition unpack_binding_names (packed : string) : list string :=
  split delim packed.

(** [encode_metadata]: a copy of the settings with every excluded operator
    renamed, then pickled and base64-encoded. *)
Definition encode_metadata (s : CompilationSettings) : string :=
  pickle_b64
    (mkSettings (device s) (hardware_compatible s)
       (map (fun op => "torch.ops." ++ op) (torch_executed_ops s))).

(** [str(int(b))] *)
Definition str_int_bool (b : bool) : string := if b then "1" else "0".

(** The eight-field record handed to the engine constructor. *)
Definition engine_record (self_name : string) (target_device : Device)
    (serialized_engine : Val) (ins outs : list string)
    (st : CompilationSettings) : list Val :=
  [ PyStr ABI_VERSION;
    PyStr (if String.eqb self_name "" then "tensorrt_engine"
           else self_name ++ "_engine");
    PyStr (to_serialized_rt_device target_device);
    serialized_engine;
    PyStr (_pack_binding_names ins);
    PyStr (_pack_binding_names outs);
    PyStr (str_int_bool (hardware_compatible st));
    PyStr (encode_metadata st) ].

(** [names if names is not None else []] *)
Definition or_empty (names : option (list string)) : list string :=
  match names with Some l => l | None => [] end.

(** [settings.device if settings.device is not None else
    Device._current_device()] *)
Definition target_device_of (st : CompilationSettings) : Device :=
  match device st with Some d => d | None => current_device end.

(** [__init__].  The type test on [serialized_engine] builds an exception
    object and drops it: the statement has no [raise]. *)
Definition __init__ (serialized_engine : Val) (name_ : string)
    (input_binding_names_ output_binding_names_ : option (list string))
    (settings_ : CompilationSettings) : Result TorchTensorRTModule :=
  let _ :=
    if negb (isinstance_bytearray serialized_engine)
    then Some (ValueError "Expected serialized engine as bytearray")
    else None in
  let ins := or_empty input_binding_names_ in
  let outs := or_empty output_binding_names_ in
  let target_device := target_device_of settings_ in
  if negb (is_none serialized_engine) then
    e <- Engine_new
           (engine_record name_ target_device serialized_engine ins outs
              settings_) ;;
    Ok (mkModule ins outs name_ (hardware_compatible settings_) settings_
          (Some e))
  else
    Ok (mkModule ins outs name_ (hardware_compatible settings_) settings_
          None).

(** [[torch.as_tensor(i).cuda() for i in inputs]] *)
Fixpoint as_cuda_tensors (inputs : list Val) : Result (list Tensor) :=
  match inputs with
  | [] => Ok []
  | i :: r =>
      t <- as_cuda_tensor i ;;
      ts <- as_cuda_tensors r ;;
      Ok (t :: ts)
  end.

(** [forward] *)
Definition forward (self : TorchTensorRTModule) (inputs : list Val)
    : Result ForwardResult :=
  match engine self with
  | None => Raise (RuntimeError "Engine has not been initialized yet.")
  | Some e =>
      assert (Nat.eqb (List.length inputs)
                (List.length (input_binding_names self)))
        ("Wrong number of inputs, expected "
           ++ str_of_nat (List.length (input_binding_names self))
           ++ " got " ++ str_of_nat (List.length inputs) ++ ".") ;;;
      input_tensors <- as_cuda_tensors inputs ;;
      outputs <- execute_engine input_tensors e ;;
      if Nat.eqb (List.length outputs) 1 then
        match outputs with
        | o :: _ => Ok (OneTensor o)
        | [] => Raise IndexError
        end
      else Ok (TensorTuple outputs)
  end.

End WithRuntime.

End Runtime.

(* ===================================================================== *)
(** * The torch.fx graph the passes rewrite                               *)
(* ===================================================================== *)

Module Fx.

(** A node is a Python object; [NodeId] is its identity.  Names are what
    the passes compare, identities are what arguments and [users] hold. *)
Definition NodeId : Type := nat.

Inductive Op : Type :=
| placeholder | get_attr | call_module | call_function | call_method | output.

Definition op_eqb (a b : Op) : bool :=
  match a, b with
  | placeholder, placeholder | get_attr, get_attr
  | call_module, call_module | call_function, call_function
  | call_method, call_method | output, output => true
  | _, _ => false
  end.

(** The callables the passes put in a [call_function] node. *)
Inductive Callable : Type :=
| execute_engine_default            (* torch.ops.tensorrt.execute_engine.default *)
| operator_getitem                  (* operator.getitem *)
| other_callable (qualname : string).

Inductive Target : Type :=
| TStr (s : string)
| TFn (f : Callable).

Definition is_execute_engine (t : Target) : bool :=
  match t with TFn execute_engine_default => true | _ => false end.

Definition is_getitem (t : Target) : bool :=
  match t with TFn operator_getitem => true | _ => false end.

(** [str(target)] as the passes print it, and the candidate name the graph
    derives from a target. *)
Definition target_to_str (t : Target) : string :=
  match t with
  | TStr s => s
  | TFn execute_engine_default => "execute_engine_default"
  | TFn operator_getitem => "getitem"
  | TFn (other_callable q) => q
  end.

(** Node arguments: nodes, integers, tuples of arguments, an engine handle
    (possibly [None]) and [None]. *)
#[warnings="-register-all"]
Inductive Arg : Type :=
| ANode (n : NodeId)
| AInt (z : Z)
| ATuple (l : list Arg)
| AEngine (e : option Engine)
| ANone.

(** [torch.fx.node.map_arg] *)
Fixpoint map_arg (f : NodeId -> Arg) (a : Arg) : Arg :=
  match a with
  | ANode n => f n
  | ATuple l => ATuple (map (map_arg f) l)
  | _ => a
  end.

(** [map_arg] with a function that may raise (a dictionary lookup). *)
Fixpoint map_arg_raising (f : NodeId -> Result Arg) (a : Arg) : Result Arg :=
  match a with
  | ANode n => f n
  | ATuple l =>
      l' <- (fix go (l : list Arg) : Result (list Arg) :=
               match l with
               | [] => Ok []
               | x :: r =>
                   x' <- map_arg_raising f x ;;
                   r' <- go r ;;
                   Ok (x' :: r')
               end) l ;;
      Ok (ATuple l')
  | _ => Ok a
  end.

Fixpoint map_args_raising (f : NodeId -> Result Arg) (l : list Arg)
    : Result (list Arg) :=
  match l with
  | [] => Ok []
  | x :: r =>
      x' <- map_arg_raising f x ;;
      r' <- map_args_raising f r ;;
      Ok (x' :: r')
  end.

(** The nodes an argument mentions, left to right. *)
Fixpoint arg_nodes (a : Arg) : list NodeId :=
  match a with
  | ANode n => [n]
  | ATuple l => flat_map arg_nodes l
  | _ => []
  end.

Definition args_nodes (l : list Arg) : list NodeId := flat_map arg_nodes l.

(** A shape-carrying placeholder tensor. *)
Record FakeTensor : Type := mkFake {
  shape : list Z;
  stride : list Z
}.

Inductive MetaVal : Type :=
| MFake (t : FakeTensor)
| MFakeList (l : list FakeTensor)
| MOther (s : string).

(** A node.  [users] is the node's [users] dictionary: its keys in
    insertion order.  Modelled nodes carry no keyword arguments. *)
Record Node : Type := mkNode {
  id : NodeId;
  name : string;
  op : Op;
  target : Target;
  args : list Arg;
  meta : Dict MetaVal;
  users : list NodeId
}.

Definition set_args (n : Node) (a : list Arg) : Node :=
  mkNode (id n) (name n) (op n) (target n) a (meta n) (users n).

Definition set_users (n : Node) (u : list NodeId) : Node :=
  mkNode (id n) (name n) (op n) (target n) (args n) (meta n) u.

Definition set_meta (n : Node) (m : Dict MetaVal) : Node :=
  mkNode (id n) (name n) (op n) (target n) (args n) m (users n).

(** A graph: its nodes in order, the next fresh identity, and the names the
    graph's namespace has handed out so far. *)
Record Graph : Type := mkGraph {
  nodes : list Node;
  next_id : NodeId;
  used_names : list string
}.

Definition mem_id (i : NodeId) (l : list NodeId) : bool :=
  existsb (Nat.eqb i) l.

(** [users.setdefault(u)] and [users.pop(u)] *)
Definition users_add (u : NodeId) (us : list NodeId) : list NodeId :=
  if mem_id u us then us else (us ++ [u])%list.

Definition users_del (u : NodeId) (us : list NodeId) : list NodeId :=
  filter (fun x => negb (Nat.eqb x u)) us.

Definition find_node (i : NodeId) (ns : list Node) : option Node :=
  find (fun n => Nat.eqb (id n) i) ns.

Definition get_node (g : Graph) (i : NodeId) : option Node :=
  find_node i (nodes g).

Definition args_of (g : Graph) (i : NodeId) : list Arg :=
  match get_node g i with Some n => args n | None => [] end.

Definition users_of (g : Graph) (i : NodeId) : list NodeId :=
  match get_node g i with Some n => users n | None => [] end.

Definition meta_of (g : Graph) (i : NodeId) : Dict MetaVal :=
  match get_node g i with Some n => meta n | None => [] end.

Definition map_nodes (f : Node -> Node) (g : Graph) : Graph :=
  mkGraph (map f (nodes g)) (next_id g) (used_names g).

(** A change [f] of the metadata of the node with identity [i]. *)
Definition meta_at (i : NodeId) (f : Dict MetaVal -> Dict MetaVal)
    (n : Node) : Node :=
  if Nat.eqb (id n) i then set_meta n (f (meta n)) else n.

(** [node.meta[k] = v] on the node with identity [i]. *)
Definition set_meta_of (g : Graph) (i : NodeId) (k : string) (v : MetaVal)
    : Graph :=
  map_nodes (meta_at i (fun m => dict_set m k v)) g.

(** [n.users.setdefault(u)] / [n.users.pop(u)] for the nodes [n] that the
    argument nodes [ins] name. *)
Definition add_user_if (ins : list NodeId) (u : NodeId) (n : Node) : Node :=
  if mem_id (id n) ins then set_users n (users_add u (users n)) else n.

Definition del_user_if (ins : list NodeId) (u : NodeId) (n : Node) : Node :=
  if mem_id (id n) ins then set_users n (users_del u (users n)) else n.

(** What [u] taking new arguments does to a node [n] of the graph. *)
Definition rewire (u : NodeId) (old_in : list NodeId) (new_args : list Arg)
    (n : Node) : Node :=
  let n1 := del_user_if old_in u n in
  let n2 := if Nat.eqb (id n) u then set_args n1 new_args else n1 in
  add_user_if (args_nodes new_args) u n2.

(** The private [__update_args_kwargs] of a node [u]: [u] leaves the
    [users] of every node it mentioned, takes its new arguments, and enters
    (at the end, if absent) the [users] of every node it now mentions. *)
Definition update_args (g : Graph) (u : NodeId) (new_args : list Arg)
    : Graph :=
  match get_node g u with
  | None => g
  | Some un => map_nodes (rewire u (args_nodes (args un)) new_args) g
  end.

Definition maybe_replace_node (old : NodeId) (replace_with : Arg)
    (n : NodeId) : Arg :=
  if Nat.eqb n old then replace_with else ANode n.

(** [Node.replace_all_uses_with]: every user of [old], in the order of the
    [users] dictionary, has its arguments rewritten; the method ends on the
    assertion that [old] has no user left. *)
Definition replace_uses (old : NodeId) (replace_with : Arg)
    (to_process : list NodeId) (g : Graph) : Graph :=
  fold_left
    (fun g use_node =>
       update_args g use_node
         (map (map_arg (maybe_replace_node old replace_with))
            (args_of g use_node)))
    to_process g.

Definition replace_all_uses_with (g : Graph) (old : NodeId)
    (replace_with : Arg) : Result Graph :=
  let g' := replace_uses old replace_with (users_of g old) g in
  assert (Nat.eqb (List.length (users_of g' old)) 0) "" ;;;
  Ok g'.

(** [Graph.erase_node]: refused while the node has users; the erased node
    leaves the [users] of the nodes it mentioned. *)
Definition erase_node (g : Graph) (i : NodeId) : Result Graph :=
  match users_of g i with
  | _ :: _ =>
      Raise (RuntimeError
               "Tried to erase Node but it still had users in the graph")
  | [] =>
      Ok (mkGraph
            (map (del_user_if (args_nodes (args_of g i)) i)
               (filter (fun n => negb (Nat.eqb (id n) i)) (nodes g)))
            (next_id g) (used_names g))
  end.

(** Where [inserting_before] / [inserting_after] put the next node;
    [inserting_before(None)] is the start of the graph. *)
Inductive InsertPoint : Type :=
| AtStart
| Before (anchor : NodeId)
| After (anchor : NodeId).

Fixpoint insert_before (a : NodeId) (x : Node) (l : list Node) : list Node :=
  match l with
  | [] => [x]
  | n :: r => if Nat.eqb (id n) a then x :: n :: r
              else n :: insert_before a x r
  end.

Fixpoint insert_after (a : NodeId) (x : Node) (l : list Node) : list Node :=
  match l with
  | [] => [x]
  | n :: r => if Nat.eqb (id n) a then n :: x :: r
              else n :: insert_after a x r
  end.

Definition insert_node (pt : InsertPoint) (x : Node) (l : list Node)
    : list Node :=
  match pt with
  | AtStart => x :: l
  | Before a => insert_before a x l
  | After a => insert_after a x l
  end.

Section WithNamespace.

(** The graph namespace: from the names in use and a candidate, a name. *)
Variable create_name : list string -> string -> string.

(** [Graph.create_node] at an insert point; the new node enters the
    [users] of the nodes its arguments mention. *)
Definition create_node (g : Graph) (pt : InsertPoint) (o : Op) (t : Target)
    (a : list Arg) (candidate : string) : Graph * Node :=
  let nid := next_id g in
  let nm := create_name (used_names g) candidate in
  let n := mkNode nid nm o t a [] [] in
  (mkGraph
     (map (add_user_if (args_nodes a) nid) (insert_node pt n (nodes g)))
     (S nid) (nm :: used_names g),
   n).

(** [Graph.call_function] and [Graph.placeholder] *)
Definition graph_call_function (g : Graph) (pt : InsertPoint) (f : Callable)
    (a : list Arg) : Graph * Node :=
  create_node g pt call_function (TFn f) a (target_to_str (TFn f)).

Definition graph_placeholder (g : Graph) (pt : InsertPoint) (nm : string)
    : Graph * Node :=
  create_node g pt placeholder (TStr nm) [] nm.

(** The [val_map] of [graph_copy]: nodes of the copied graph to nodes of
    the receiving graph. *)
Definition ValMap : Type := list (NodeId * NodeId).

Fixpoint val_map_get (vm : ValMap) (k : NodeId) : option NodeId :=
  match vm with
  | [] => None
  | (k', v) :: r => if Nat.eqb k' k then Some v else val_map_get r k
  end.

Definition val_map_lookup (vm : ValMap) (k : NodeId) : Result Arg :=
  match val_map_get vm k with
  | Some v => Ok (ANode v)
  | None => Raise (KeyError "node")
  end.

(** [Graph.node_copy] with [arg_transform = lambda n: val_map[n]] *)
Definition node_copy (g : Graph) (pt : InsertPoint) (n : Node) (vm : ValMap)
    : Result (Graph * Node) :=
  a <- map_args_raising (val_map_lookup vm) (args n) ;;
  let '(g1, c) := create_node g pt (op n) (target n) a (name n) in
  Ok (map_nodes (meta_at (id c) (fun _ => meta n)) g1, c).

(** [Graph.graph_copy]: nodes already in [val_map] are skipped, the output
    node ends the copy and yields its mapped argument, every other node is
    copied at the insert point. *)
Fixpoint graph_copy_nodes (g : Graph) (pt : InsertPoint) (src : list Node)
    (vm : ValMap) : Result (Graph * ValMap * Arg) :=
  match src with
  | [] => Ok (g, vm, ANone)
  | n :: r =>
      match val_map_get vm (id n) with
      | Some _ => graph_copy_nodes g pt r vm
      | None =>
          if op_eqb (op n) output then
            match args n with
            | a :: _ =>
                rv <- map_arg_raising (val_map_lookup vm) a ;;
                Ok (g, vm, rv)
            | [] => Raise IndexError
            end
          else
            r1 <- node_copy g pt n vm ;;
            let '(g1, c) := r1 in
            graph_copy_nodes g1 pt r ((id n, id c) :: vm)
      end
  end.

Definition graph_copy (g : Graph) (pt : InsertPoint) (src : Graph)
    (vm : ValMap) : Result (Graph * ValMap * Arg) :=
  graph_copy_nodes g pt (nodes src) vm.

End WithNamespace.

Section WithPurity.

(** [Node.is_impure] *)
Variable is_impure : Node -> bool.

(** [Graph.eliminate_dead_code]: in reverse order, a pure node without
    users is erased. *)
Definition eliminate_dead_code (g : Graph) : Graph :=
  fold_left
    (fun g i =>
       match get_node g i with
       | Some n =>
           if negb (is_impure n) && Nat.eqb (List.length (users n)) 0
           then match erase_node g i with Ok g' => g' | Raise _ => g end
           else g
       | None => g
       end)
    (rev (map id (nodes g))) g.

End WithPurity.

(** ** What the passes count, and when a graph is well formed *)

Definition count_nodes (p : Node -> bool) (g : Graph) : nat :=
  List.length (filter p (nodes g)).

Definition is_placeholder (n : Node) : bool := op_eqb (op n) placeholder.

Definition is_call_module_named (nm : string) (n : Node) : bool :=
  op_eqb (op n) call_module && String.eqb (name n) nm.

Definition is_engine_call (n : Node) : bool :=
  op_eqb (op n) call_function && is_execute_engine (target n).

Definition is_getitem_call (n : Node) : bool :=
  op_eqb (op n) call_function && is_getitem (target n).

(** What no rewriting of arguments, users or metadata changes in a node. *)
Definition skel (n : Node) : NodeId * string * Op * Target :=
  (id n, name n, op n, target n).

Definition ids (g : Graph) : list NodeId := map id (nodes g).

(** Every entry of a [users] dictionary is a node of the graph that
    mentions the owner in its arguments. *)
Definition users_sound (g : Graph) : Prop :=
  forall m u, In m (nodes g) -> In u (users m) ->
    exists un, get_node g u = Some un /\ In (id m) (args_nodes (args un)).

(** Identities are distinct and below the next fresh one, [users] entries
    are sound and not repeated. *)
Definition well_formed (g : Graph) : Prop :=
  NoDup (ids g)
  /\ (forall n, In n (nodes g) -> id n < next_id g)
  /\ users_sound g
  /\ (forall m, In m (nodes g) -> NoDup (users m)).


(** The identity [i] is in use, and only by call-module nodes. *)
Definition only_call_module_at (i : NodeId) (g : Graph) : Prop :=
  (forall n, In n (nodes g) -> id n = i -> op n = call_module)
  /\ i < next_id g.

(** Every argument of [n] is a node of the graph other than [n]. *)
Definition args_defined (g : Graph) (n : Node) : bool :=
  forallb
    (fun i => match get_node g i with
              | Some _ => negb (Nat.eqb i (id n))
              | None => false
              end)
    (args_nodes (args n)).

Fixpoint nodupb (l : list NodeId) : bool :=
  match l with
  | [] => true
  | x :: r => negb (mem_id x r) && nodupb r
  end.

(** The same, as a check that computes. *)
Definition check_graph (g : Graph) : bool :=
  nodupb (ids g)
  && forallb (fun n => Nat.ltb (id n) (next_id g)) (nodes g)
  && forallb
       (fun m =>
          nodupb (users m)
          && forallb
               (fun u =>
                  match get_node g u with
                  | Some un => mem_id (id m) (args_nodes (args un))
                  | None => false
                  end)
               (users m))
       (nodes g).

End Fx.

(* ===================================================================== *)
(** * dynamo/_exporter.py                                                 *)
(* ===================================================================== *)

Module Exporter.

Import Fx.

(** [torch.export.exported_program.InputKind] / [OutputKind] *)
Inductive InputKind : Type :=
| USER_INPUT | PARAMETER | BUFFER | CONSTANT_TENSOR.

Definition kind_eqb (a b : InputKind) : bool :=
  match a, b with
  | USER_INPUT, USER_INPUT | PARAMETER, PARAMETER
  | BUFFER, BUFFER | CONSTANT_TENSOR, CONSTANT_TENSOR => true
  | _, _ => false
  end.

(** [InputSpec(kind, TensorArgument(name), target)] *)
Record InputSpec : Type := mkInputSpec {
  kind : InputKind;
  arg_name : string;
  spec_target : Target
}.

(** [OutputSpec(OutputKind.USER_OUTPUT, TensorArgument(name), target)] *)
Record OutputSpec : Type := mkOutputSpec {
  out_arg_name : string;
  out_target : Target
}.

Record ExportGraphSignature : Type := mkSignature {
  input_specs : list InputSpec;
  output_specs : list OutputSpec
}.

(** The [user_inputs] property of a signature. *)
Definition user_inputs (sig : ExportGraphSignature) : list string :=
  map arg_name (filter (fun s => kind_eqb (kind s) USER_INPUT)
                  (input_specs sig)).

(** A value of the lifted state dict: a parameter or a plain tensor. *)
Inductive StateVal : Type :=
| SParameter (t : Tensor)
| STensor (t : Tensor).

Definition state_tensor (v : StateVal) : Tensor :=
  match v with SParameter t | STensor t => t end.

(** A child module, as the passes see it: its graph, its state dict and its
    [engine] attribute ([None] when the attribute is missing). *)
Record Submodule : Type := mkSubmodule {
  sm_graph : Graph;
  sm_state_dict : Dict Tensor;
  sm_engine : option (option Engine)
}.

(** A graph module: graph, [state_dict()], the names [named_parameters()] and
    [named_buffers()] yield, and [named_children()]. *)
Record GraphModule : Type := mkGraphModule {
  graph : Graph;
  state_dict : Dict Tensor;
  named_parameters : list string;
  named_buffers : list string;
  named_children : Dict Submodule
}.

Definition set_graph (gm : GraphModule) (g : Graph) : GraphModule :=
  mkGraphModule g (state_dict gm) (named_parameters gm) (named_buffers gm)
    (named_children gm).

Definition set_state_dict (gm : GraphModule) (sd : Dict Tensor)
    : GraphModule :=
  mkGraphModule (graph gm) sd (named_parameters gm) (named_buffers gm)
    (named_children gm).

(** [getattr(gm, name)] for a child module. *)
Definition getattr_module (gm : GraphModule) (nm : string)
    : Result Submodule :=
  match dict_get (named_children gm) nm with
  | Some m => Ok m
  | None => Raise (AttributeError nm)
  end.

(** An exported program, as its constructor stores what it is given. *)
Record ExportedProgram : Type := mkExportedProgram {
  ep_module : GraphModule;
  ep_graph : Graph;
  ep_signature : ExportGraphSignature;
  ep_state_dict : Dict StateVal
}.

(** What [export] returns. *)
Inductive Exported (TS : Type) : Type :=
| AsTorchScript (m : TS)
| AsExportedProgram (p : ExportedProgram)
| AsGraphModule (gm : GraphModule).
Arguments AsTorchScript {TS} m.
Arguments AsExportedProgram {TS} p.
Arguments AsGraphModule {TS} gm.

(** [list.insert(i, x)] *)
Fixpoint list_insert {A : Type} (i : nat) (x : A) (l : list A) : list A :=
  match i, l with
  | O, _ => x :: l
  | S _, [] => [x]
  | S k, y :: r => y :: list_insert k x r
  end.

(** [fake_mode.from_tensor(t)] *)
Definition from_tensor (t : Tensor) : FakeTensor :=
  mkFake (t_shape t) (t_stride t).

(** How the tensor library prints a list of sizes: [[2, 3]]. *)
Fixpoint sizes_str (l : list Z) : string :=
  match l with
  | [] => EmptyString
  | x :: r =>
      match r with
      | [] => str_of_Z x
      | _ :: _ => str_of_Z x ++ ", " ++ sizes_str r
      end
  end.

(** The tensor of shape [shp] with every stride 1. *)
Definition ones_strided (shp : list Z) : FakeTensor :=
  mkFake shp (repeat 1%Z (List.length shp)).

(** [torch.empty_strided(tuple(shape), tuple([1] * len(shape)))]: the
    tensor library refuses the first negative size it meets. *)
Definition empty_strided_ones (shp : list Z) : Result FakeTensor :=
  match find (fun d => Z.ltb d 0) shp with
  | Some d =>
      Raise (RuntimeError
               ("Trying to create tensor with negative dimension "
                ++ str_of_Z d ++ ": [" ++ sizes_str shp ++ "]"))
  | None => Ok (ones_strided shp)
  end.

(** [for idx in range(num_outputs): trt_node.meta["val"].append(
    torch.empty_strided(...))] *)
Fixpoint fake_outputs (out_shapes : list (list Z))
    : Result (list FakeTensor) :=
  match out_shapes with
  | [] => Ok []
  | shp :: r =>
      v <- empty_strided_ones shp ;;
      vs <- fake_outputs r ;;
      Ok (v :: vs)
  end.

Section Passes.

(** The host framework and the sibling packages, as the passes call them.
    [delete_all_unused_submodules] gives the module as the method leaves it:
    with a child go its entries of the state dict, of the parameters and of
    the buffers.  [ExportedProgram_new] is the call
    [ExportedProgram(gm, gm.graph, signature, state_dict, {}, [], [])]: the
    constructor verifies the graph against the signature and may raise. *)
Variable create_name : list string -> string -> string.
Variable is_impure : Node -> bool.
Variable lint : Graph -> Result unit.
Variable detect_fake_mode : list MetaVal -> bool.
Variable load_state_dict :
  GraphModule -> Dict Tensor -> Result (Dict Tensor).
Variable delete_all_unused_submodules : GraphModule -> GraphModule.
Variable run_shape_analysis :
  GraphModule -> list Tensor -> Result (Dict (list (list Z))).
Variable TorchScript : Type.
Variable jit_trace : GraphModule -> list Tensor -> Result TorchScript.
Variable ExportedProgram_new :
  GraphModule -> Graph -> ExportGraphSignature -> Dict StateVal
  -> Result ExportedProgram.

(** [gm.graph.eliminate_dead_code(); gm.graph.lint()] *)
Definition clean_graph (g : Graph) : Result Graph :=
  let g' := eliminate_dead_code is_impure g in
  lint g' ;;;
  Ok g'.

(** ** [lift] *)

(** [tuple(node.meta["val"] for node in gm.graph.nodes if node.op ==
    "placeholder")] *)
Fixpoint placeholder_vals (ns : list Node) : Result (list MetaVal) :=
  match ns with
  | [] => Ok []
  | n :: r =>
      if op_eqb (op n) placeholder then
        match dict_get (meta n) "val" with
        | Some v => vs <- placeholder_vals r ;; Ok (v :: vs)
        | None => Raise (KeyError "val")
        end
      else placeholder_vals r
  end.

(** The first placeholder whose name is a user input of the signature. *)
Definition first_user_input (g : Graph) (sig : ExportGraphSignature)
    : option Node :=
  find (fun n => op_eqb (op n) placeholder
                 && mem_str (name n) (user_inputs sig))
    (nodes g).

Definition inserting_before (n : option Node) : InsertPoint :=
  match n with
  | Some x => Before (id x)
  | None => AtStart
  end.

(** The loop over [gm.named_parameters()]: the first name equal to the
    target sets the kind and rewraps the state-dict entry, then breaks. *)
Fixpoint probe_parameters (names : list string) (tgt : string)
    (k : InputKind) (sd : Dict StateVal) : InputKind * Dict StateVal :=
  match names with
  | [] => (k, sd)
  | nm :: r =>
      if String.eqb tgt nm then
        (PARAMETER,
         match dict_get sd nm with
         | Some v => dict_set sd nm (SParameter (state_tensor v))
         | None => sd
         end)
      else probe_parameters r tgt k sd
  end.

(** The loop over [gm.named_buffers()], run after the one above whatever
    that one found. *)
Fixpoint probe_buffers (names : list string) (tgt : string) (k : InputKind)
    : InputKind :=
  match names with
  | [] => k
  | nm :: r => if String.eqb tgt nm then BUFFER else probe_buffers r tgt k
  end.

(** The kind [lift] gives a get-attr target. *)
Definition input_kind_of (gm : GraphModule) (tgt : string)
    (sd : Dict StateVal) : InputKind :=
  probe_buffers (named_buffers gm) tgt
    (fst (probe_parameters (named_parameters gm) tgt CONSTANT_TENSOR sd)).

(** The same kind, in closed form: the buffer probe has the last word. *)
Definition kind_by_buffer_first (gm : GraphModule) (tgt : string)
    : InputKind :=
  if mem_str tgt (named_buffers gm) then BUFFER
  else if mem_str tgt (named_parameters gm) then PARAMETER
  else CONSTANT_TENSOR.


(** The state of the loop of [lift]. *)
Record LiftState : Type := mkLiftState {
  ls_graph : Graph;
  ls_specs : list InputSpec;
  ls_state_dict : Dict StateVal;
  ls_idx : nat                      (* non_user_input_idx *)
}.

Definition broken_reference (n : Node) : string :=
  "The get_attr node : " ++ name n ++ " with target: "
  ++ target_to_str (target n)
  ++ " value could not be found in state_dict. Please check the input exported_program's graphmodule parameters.".

Definition target_in_state_dict (sd : Dict StateVal) (t : Target) : bool :=
  match t with
  | TStr s => dict_mem sd s
  | TFn _ => false
  end.

(** [for k, v in node.meta.items(): new.meta[k] = v] *)
Definition copy_meta (src : Dict MetaVal) (dst : Dict MetaVal)
    : Dict MetaVal :=
  fold_left (fun m kv => dict_set m (fst kv) (snd kv)) src dst.

(** The body of the loop for one get-attr node. *)
Definition lift_node (gm : GraphModule) (first : option Node) (n : Node)
    (st : LiftState) : Result LiftState :=
  if negb (target_in_state_dict (ls_state_dict st) (target n)) then
    Raise (ValueError (broken_reference n))
  else
    let tgt := target_to_str (target n) in
    match dict_get (ls_state_dict st) tgt with
    | None => Raise (KeyError tgt)
    | Some constant_tensor =>
        let '(k1, sd1) :=
          probe_parameters (named_parameters gm) tgt CONSTANT_TENSOR
            (ls_state_dict st) in
        let input_kind := probe_buffers (named_buffers gm) tgt k1 in
        let '(g1, ph) :=
          graph_placeholder create_name (ls_graph st)
            (inserting_before first) tgt in
        let g2 := map_nodes (meta_at (id ph) (copy_meta (meta n))) g1 in
        let g3 :=
          set_meta_of g2 (id ph) "val"
            (MFake (from_tensor (state_tensor constant_tensor))) in
        g4 <- replace_all_uses_with g3 (id n) (ANode (id ph)) ;;
        g5 <- erase_node g4 (id n) ;;
        Ok (mkLiftState g5
              (list_insert (ls_idx st)
                 (mkInputSpec input_kind (name ph) (target n)) (ls_specs st))
              sd1 (S (ls_idx st)))
    end.

(** The loop [for node in gm.graph.nodes].  The nodes the body inserts are
    placeholders and the node it erases is the current one, so the loop
    meets the nodes the graph had on entry; each is read in its current
    state. *)
Fixpoint lift_nodes (gm : GraphModule) (first : option Node)
    (todo : list NodeId) (st : LiftState) : Result LiftState :=
  match todo with
  | [] => Ok st
  | i :: r =>
      match get_node (ls_graph st) i with
      | Some n =>
          if op_eqb (op n) get_attr then
            st' <- lift_node gm first n st ;;
            lift_nodes gm first r st'
          else lift_nodes gm first r st
      | None => lift_nodes gm first r st
      end
  end.

(** [gm.state_dict()]: every entry a plain tensor. *)
Definition initial_state_dict (gm : GraphModule) : Dict StateVal :=
  map (fun kv => (fst kv, STensor (snd kv))) (state_dict gm).

(** A get-attr node whose target the state dict does not hold. *)
Definition is_broken_reference (sd : Dict StateVal) (n : Node) : bool :=
  op_eqb (op n) get_attr && negb (target_in_state_dict sd (target n)).

(** What the loop needs of the nodes still to visit: each is in the graph
    under its identity, with the skeleton it had on entry. *)
Definition still_there (st : LiftState) (l : list Node) : Prop :=
  forall m, In m l ->
    exists m', get_node (ls_graph st) (id m) = Some m' /\ skel m' = skel m.

Definition is_get_attr (n : Node) : bool := op_eqb (op n) get_attr.

(** The kind [lift] gives the target of a get-attr node. *)
Definition lifted_kind (gm : GraphModule) (n : Node) : InputKind :=
  kind_by_buffer_first gm (target_to_str (target n)).

Definition lift (gm : GraphModule) (graph_signature : ExportGraphSignature)
    : Result (GraphModule * ExportGraphSignature * Dict StateVal) :=
  let sd := initial_state_dict gm in
  vals <- placeholder_vals (nodes (graph gm)) ;;
  assert (detect_fake_mode vals) "" ;;;
  let first := first_user_input (graph gm) graph_signature in
  st <- lift_nodes gm first (map id (nodes (graph gm)))
          (mkLiftState (graph gm) (input_specs graph_signature) sd 0) ;;
  g <- clean_graph (ls_graph st) ;;
  Ok (set_graph gm g,
      mkSignature (ls_specs st) (output_specs graph_signature),
      ls_state_dict st).

(** ** [get_duplicate_nodes] *)

Definition get_duplicate_nodes (gm : GraphModule) (submodule : Submodule)
    : list Node * list Node :=
  let submodule_placeholder_inputs :=
    filter (fun n => op_eqb (op n) placeholder)
      (nodes (sm_graph submodule)) in
  let submodule_input_node_names := map name submodule_placeholder_inputs in
  let gm_node_names := map name (nodes (graph gm)) in
  let submodule_duplicate_inputs :=
    filter (fun n => mem_str (name n) gm_node_names)
      submodule_placeholder_inputs in
  let gm_duplicate_inputs :=
    filter (fun n => mem_str (name n) submodule_input_node_names)
      (nodes (graph gm)) in
  (submodule_duplicate_inputs, gm_duplicate_inputs).

(** ** [copy_submodule_attributes] *)

Definition updated_state_dict (gm_state_dict sub_state_dict : Dict Tensor)
    (submodule_name : string) : Dict Tensor :=
  fold_left
    (fun updated kv =>
       let parent_key := replace (submodule_name ++ ".") "" (fst kv) in
       if dict_mem sub_state_dict parent_key
       then dict_set updated parent_key (snd kv)
       else dict_set updated (fst kv) (snd kv))
    gm_state_dict [].

Definition copy_submodule_attributes (gm : GraphModule)
    (submodule : Submodule) (submodule_name : string) : Result GraphModule :=
  sd <- load_state_dict gm
          (updated_state_dict (state_dict gm) (sm_state_dict submodule)
             submodule_name) ;;
  Ok (set_state_dict gm sd).

(** ** [inline_torch_modules] *)

(** [val_map[k] = v] *)
Fixpoint val_map_set (vm : ValMap) (k v : NodeId) : ValMap :=
  match vm with
  | [] => [(k, v)]
  | (k', v') :: r =>
      if Nat.eqb k' k then (k, v) :: r else (k', v') :: val_map_set r k v
  end.

(** [for i in range(len(subs)): val_map[subs[i]] = gms[i]] *)
Definition duplicate_val_map (subs gms : list Node) : ValMap :=
  fold_left (fun vm p => val_map_set vm (id (fst p)) (id (snd p)))
    (combine subs gms) [].

(** [for idx in range(len(added)): added[idx].replace_all_uses_with(
    submodule_inputs[idx])] *)
Fixpoint replace_added_placeholders (g : Graph) (added : list Node)
    (submodule_inputs : list Arg) : Result Graph :=
  match added, submodule_inputs with
  | a :: ra, i :: ri =>
      g' <- replace_all_uses_with g (id a) i ;;
      replace_added_placeholders g' ra ri
  | _, _ => Ok g
  end.

(** [for idx in range(len(added)): gm.graph.erase_node(added[idx])] *)
Fixpoint erase_nodes (g : Graph) (l : list Node) : Result Graph :=
  match l with
  | [] => Ok g
  | a :: r => g' <- erase_node g (id a) ;; erase_nodes g' r
  end.

(** The body of the loop for one host-executed call-module node.  The
    [breakpoint()] calls of the source hand control to a debugger and change
    nothing; they have no counterpart here. *)
Definition inline_torch_module (gm : GraphModule) (gm_node : Node)
    : Result GraphModule :=
  submodule <- getattr_module gm (name gm_node) ;;
  let pt := Before (id gm_node) in
  let submodule_inputs := args gm_node in
  let '(submodule_duplicate_inputs, gm_duplicate_inputs) :=
    get_duplicate_nodes gm submodule in
  assert (Nat.eqb (List.length submodule_duplicate_inputs)
            (List.length gm_duplicate_inputs)) "" ;;;
  let val_map :=
    duplicate_val_map submodule_duplicate_inputs gm_duplicate_inputs in
  copied <- graph_copy create_name (graph gm) pt (sm_graph submodule)
              val_map ;;
  let '(g1, _, submodule_output) := copied in
  g2 <- (if Nat.eqb (List.length submodule_duplicate_inputs) 0 then
           let submodule_placeholder_input_names :=
             map name (filter (fun n => op_eqb (op n) placeholder)
                         (nodes (sm_graph submodule))) in
           let gm_added_placeholder_inputs :=
             filter (fun n => mem_str (name n)
                                submodule_placeholder_input_names)
               (nodes g1) in
           assert (Nat.eqb (List.length submodule_inputs)
                     (List.length gm_added_placeholder_inputs)) "" ;;;
           g' <- replace_added_placeholders g1 gm_added_placeholder_inputs
                   submodule_inputs ;;
           erase_nodes g' gm_added_placeholder_inputs
         else Ok g1) ;;
  g3 <- replace_all_uses_with g2 (id gm_node) submodule_output ;;
  gm' <- copy_submodule_attributes (set_graph gm g3) submodule
           (name gm_node) ;;
  g4 <- erase_node (graph gm') (id gm_node) ;;
  Ok (set_graph gm' g4).

(** The loop [for gm_node in gm.graph.nodes]: the copies go before the
    current node, so the loop meets the nodes the graph had on entry. *)
Fixpoint inline_torch_nodes (gm : GraphModule) (todo : list NodeId)
    : Result GraphModule :=
  match todo with
  | [] => Ok gm
  | i :: r =>
      match get_node (graph gm) i with
      | Some gm_node =>
          if op_eqb (op gm_node) call_module
             && contains "_run_on_gpu" (name gm_node)
          then
            gm' <- inline_torch_module gm gm_node ;;
            inline_torch_nodes gm' r
          else inline_torch_nodes gm r
      | None => inline_torch_nodes gm r
      end
  end.

Definition inline_torch_modules (gm : GraphModule) : Result GraphModule :=
  g <- clean_graph (graph gm) ;;
  inline_torch_nodes (set_graph gm g) (map id (nodes g)).

(** ** [inline_trt_modules] *)

(** [for idx, getitem_node in enumerate(trt_node.users):
    getitem_node.meta["val"] = trt_node.meta["val"][idx]] *)
Fixpoint backfill_users (g : Graph) (getitem_nodes : list NodeId)
    (idx : nat) (vals : list FakeTensor) : Result Graph :=
  match getitem_nodes with
  | [] => Ok g
  | u :: r =>
      match nth_error vals idx with
      | Some v => backfill_users (set_meta_of g u "val" (MFake v)) r (S idx)
                    vals
      | None => Raise IndexError
      end
  end.

(** The body of the loop for one accelerated child. *)
Definition inline_trt_module (outputs_map : Dict (list (list Z)))
    (gm : GraphModule) (nm : string) : Result GraphModule :=
  trt_module <- getattr_module gm nm ;;
  match filter (fun n => String.eqb (name n) nm) (nodes (graph gm)) with
  | [] => Raise (AssertionError "")
  | trt_module_node :: _ =>
      assert (negb (Nat.eqb (List.length (args trt_module_node)) 0)) "" ;;;
      match dict_get outputs_map (name trt_module_node) with
      | None => Raise (KeyError (name trt_module_node))
      | Some out_shapes =>
          let num_outputs := List.length out_shapes in
          match sm_engine trt_module with
          | None => Raise (AttributeError "engine")
          | Some eng =>
              let '(g1, trt_node) :=
                graph_call_function create_name (graph gm)
                  (Before (id trt_module_node)) execute_engine_default
                  [ATuple (args trt_module_node); AEngine eng] in
              let g1' := set_meta_of g1 (id trt_node) "val" (MFakeList []) in
              assert (Nat.ltb 0 num_outputs) "" ;;;
              vals <- fake_outputs out_shapes ;;
              let g2 := set_meta_of g1' (id trt_node) "val" (MFakeList vals) in
              g5 <- (if Nat.eqb num_outputs 1 then
                       let '(g3, getitem_output) :=
                         graph_call_function create_name g2
                           (After (id trt_node)) operator_getitem
                           [ANode (id trt_node); AInt 0] in
                       let g4 :=
                         set_meta_of g3 (id getitem_output) "val"
                           (MFakeList vals) in
                       replace_all_uses_with g4 (id trt_module_node)
                         (ANode (id getitem_output))
                     else
                       g3 <- replace_all_uses_with g2 (id trt_module_node)
                               (ANode (id trt_node)) ;;
                       backfill_users g3 (users_of g3 (id trt_node)) 0 vals) ;;
              g6 <- erase_node g5 (id trt_module_node) ;;
              Ok (set_graph gm g6)
          end
      end
  end.

(** The reading of the backfill by output index: every index-access node
    [getitem(e, i)] carries, as ["val"], entry [i] of the metadata list of
    the engine-call node [e]. *)
Definition backfilled_by_index (g : Graph) (e : NodeId) : Prop :=
  forall gn i vals,
    In gn (nodes g) ->
    is_getitem_call gn = true ->
    args gn = [ANode e; AInt (Z.of_nat i)] ->
    dict_get (meta_of g e) "val" = Some (MFakeList vals) ->
    dict_get (meta gn) "val" = option_map MFake (nth_error vals i).

(** The loop [for name, _ in gm.named_children()]. *)
Fixpoint inline_trt_children (outputs_map : Dict (list (list Z)))
    (gm : GraphModule) (children : list string) : Result GraphModule :=
  match children with
  | [] => Ok gm
  | nm :: r =>
      if negb (contains "_run_on_acc" nm)
      then inline_trt_children outputs_map gm r
      else
        gm' <- inline_trt_module outputs_map gm nm ;;
        inline_trt_children outputs_map gm' r
  end.

Definition inline_trt_modules (gm : GraphModule)
    (outputs_map : Dict (list (list Z))) : Result GraphModule :=
  inline_trt_children outputs_map gm (map fst (named_children gm)).

(** ** [transform], [create_trt_exp_program], [export] *)

(** The [breakpoint()] call of [transform] hands control to a debugger and
    changes nothing, like those of [inline_torch_modules]; it has no
    counterpart here. *)

Definition transform (gm : GraphModule) (inputs : list Tensor)
    : Result GraphModule :=
  outputs_map <- run_shape_analysis gm inputs ;;
  gm1 <- inline_trt_modules gm outputs_map ;;
  gm2 <- inline_torch_modules gm1 ;;
  let gm3 := delete_all_unused_submodules gm2 in
  g <- clean_graph (graph gm3) ;;
  Ok (set_graph gm3 g).

(** [for node in output_nodes] over the first argument of the output node. *)
Fixpoint output_specs_of (g : Graph) (outs : list Arg)
    : Result (list OutputSpec) :=
  match outs with
  | [] => Ok []
  | ANode i :: r =>
      match get_node g i with
      | Some n =>
          specs <- output_specs_of g r ;;
          Ok (mkOutputSpec (name n) (target n) :: specs)
      | None => Raise (AttributeError "name")
      end
  | _ :: _ => Raise (AttributeError "name")
  end.

(** [type(a).__name__] as the interpreter prints it in an error. *)
Definition type_name (a : Arg) : string :=
  match a with
  | ANode _ => "Node"
  | AInt _ => "int"
  | ATuple _ => "tuple"
  | AEngine (Some _) => "torch._C.ScriptObject"
  | AEngine None | ANone => "NoneType"
  end.

(** The message of the [TypeError] of [for node in a]. *)
Definition not_iterable (a : Arg) : string :=
  "'" ++ type_name a ++ "' object is not iterable".

Definition create_trt_exp_program (gm : GraphModule)
    : Result ExportedProgram :=
  let input_nodes :=
    filter (fun n => op_eqb (op n) placeholder) (nodes (graph gm)) in
  match filter (fun n => op_eqb (op n) output) (nodes (graph gm)) with
  | [] => Raise (AssertionError "")
  | out :: _ =>
      match args out with
      | [] => Raise IndexError
      | ATuple output_nodes :: _ =>
          let in_specs :=
            map (fun n => mkInputSpec USER_INPUT (name n) (target n))
              input_nodes in
          out_specs <- output_specs_of (graph gm) output_nodes ;;
          lifted <- lift gm (mkSignature in_specs out_specs) ;;
          let '(gm', trt_graph_signature, sd) := lifted in
          ExportedProgram_new gm' (graph gm') trt_graph_signature sd
      | a :: _ => Raise (TypeError (not_iterable a))
      end
  end.

Definition invalid_output_format (output_format : string) : string :=
  "Invalid output format " ++ output_format
  ++ " specified. Supported options include exported_program (or) ep | torchscript (or) ts | graph_module (or) fx".

Definition export (gm : GraphModule) (inputs : list Tensor)
    (output_format : string) : Result (Exported TorchScript) :=
  if String.eqb output_format "torchscript" || String.eqb output_format "ts"
  then
    m <- jit_trace gm inputs ;;
    Ok (AsTorchScript m)
  else if String.eqb output_format "exported_program"
          || String.eqb output_format "ep"
  then
    patched_module <- transform gm inputs ;;
    exp_program <- create_trt_exp_program patched_module ;;
    Ok (AsExportedProgram exp_program)
  else if String.eqb output_format "graph_module"
          || String.eqb output_format "fx"
  then Ok (AsGraphModule gm)
  else Raise (ValueError (invalid_output_format output_format)).

End Passes.

End Exporter.

(* ===================================================================== *)
(** * Worked instances                                                    *)
(* ===================================================================== *)

Module Demo.

Import Runtime Fx Exporter.

(** A tensor conversion that accepts integers only. *)
Definition demo_tensor (v : Val) : Result Tensor :=
  match v with
  | PyInt z => Ok (mkTensor [] [] [z])
  | _ => Raise (TypeError "not a tensor")
  end.

Definition demo_module : TorchTensorRTModule :=
  mkModule ["x"] ["y"] "m" false (mkSettings None false [])
    (Some (mkEngine [])).

(** A namespace that hands the candidate back. *)
Definition keep_name (used : list string) (candidate : string) : string :=
  candidate.

(** [x -> _run_on_acc_0(x) -> output]: one accelerated call. *)
Definition call_acc : Node :=
  mkNode 1 "_run_on_acc_0" call_module (TStr "_run_on_acc_0") [ANode 0] []
    [2].

Definition g_single : Graph :=
  mkGraph
    [ mkNode 0 "x" placeholder (TStr "x") [] [] [1];
      call_acc;
      mkNode 2 "output" output (TStr "output") [ATuple [ANode 1]] [] [] ]
    3 ["output"; "_run_on_acc_0"; "x"].

Definition acc_module : Submodule :=
  mkSubmodule (mkGraph [] 0 []) [] (Some (Some (mkEngine []))).

Definition gm_single : GraphModule :=
  mkGraphModule g_single [] [] [] [("_run_on_acc_0", acc_module)].

(** [x -> _run_on_acc_0(x) -> (getitem 0, getitem 1) -> output]: the
    partitioner's index-access nodes, in index order. *)
Definition call_acc2 : Node :=
  mkNode 1 "_run_on_acc_0" call_module (TStr "_run_on_acc_0") [ANode 0] []
    [2; 3].

Definition g_multi : Graph :=
  mkGraph
    [ mkNode 0 "x" placeholder (TStr "x") [] [] [1];
      call_acc2;
      mkNode 2 "getitem" call_function (TFn operator_getitem)
        [ANode 1; AInt 0] [] [4];
      mkNode 3 "getitem_1" call_function (TFn operator_getitem)
        [ANode 1; AInt 1] [] [4];
      mkNode 4 "output" output (TStr "output")
        [ATuple [ANode 2; ANode 3]] [] [] ]
    5 ["output"; "getitem_1"; "getitem"; "_run_on_acc_0"; "x"].

Definition gm_multi : GraphModule :=
  mkGraphModule g_multi [] [] [] [("_run_on_acc_0", acc_module)].

(** The same computation with the two index-access nodes created in the
    other order: element 1 is read first. *)
Definition g_swapped : Graph :=
  mkGraph
    [ mkNode 0 "x" placeholder (TStr "x") [] [] [1];
      call_acc2;
      mkNode 2 "getitem" call_function (TFn operator_getitem)
        [ANode 1; AInt 1] [] [4];
      mkNode 3 "getitem_1" call_function (TFn operator_getitem)
        [ANode 1; AInt 0] [] [4];
      mkNode 4 "output" output (TStr "output")
        [ATuple [ANode 3; ANode 2]] [] [] ]
    5 ["output"; "getitem_1"; "getitem"; "_run_on_acc_0"; "x"].

Definition gm_swapped : GraphModule :=
  mkGraphModule g_swapped [] [] [] [("_run_on_acc_0", acc_module)].

(** Declared outputs [(2,3)] and [(4,)]. *)
Definition two_outputs : Dict (list (list Z)) :=
  [("_run_on_acc_0", [[2; 3]; [4]]%Z)].

(** Placeholders and outputs are impure, the rest is pure; a lint that
    accepts; a fake mode that is found. *)
Definition demo_impure (n : Node) : bool :=
  match op n with
  | placeholder | output => true
  | _ => false
  end.

Definition lint_ok (g : Graph) : Result unit := Ok tt.

Definition fake_mode_found (vals : list MetaVal) : bool := true.

Definition some_tensor : Tensor := mkTensor [4]%Z [1]%Z [].

(** [linear(x, fc.weight, bn.running_mean)]: the buffer is read before the
    parameter. *)
Definition g_lift : Graph :=
  mkGraph
    [ mkNode 0 "bn_running_mean" get_attr (TStr "bn.running_mean") [] []
        [3];
      mkNode 1 "fc_weight" get_attr (TStr "fc.weight") [] [] [3];
      mkNode 2 "x" placeholder (TStr "x") []
        [("val", MFake (mkFake [1]%Z [1]%Z))] [3];
      mkNode 3 "linear" call_function (TFn (other_callable "linear"))
        [ANode 2; ANode 1; ANode 0] [] [4];
      mkNode 4 "output" output (TStr "output") [ATuple [ANode 3]] [] [] ]
    5 ["output"; "linear"; "x"; "fc_weight"; "bn_running_mean"].

Definition gm_lift : GraphModule :=
  mkGraphModule g_lift
    [("fc.weight", some_tensor); ("bn.running_mean", some_tensor)]
    ["fc.weight"] ["bn.running_mean"] [].




(** A constructor of exported programs that stores what it is given. *)
Definition stored (gm : GraphModule) (g : Graph)
    (sig : ExportGraphSignature) (sd : Dict StateVal)
    : Result ExportedProgram :=
  Ok (mkExportedProgram gm g sig sd).

(** A module in which the name [w] is listed both as a parameter and as a
    buffer. *)
Definition get_w : Node := mkNode 0 "w" get_attr (TStr "w") [] [] [2].

Definition g_both : Graph :=
  mkGraph
    [ get_w;
      mkNode 1 "x" placeholder (TStr "x") []
        [("val", MFake (mkFake [1]%Z [1]%Z))] [2];
      mkNode 2 "mul" call_function (TFn (other_callable "mul"))
        [ANode 1; ANode 0] [] [3];
      mkNode 3 "output" output (TStr "output") [ATuple [ANode 2]] [] [] ]
    4 ["output"; "mul"; "x"; "w"].

Definition gm_both : GraphModule :=
  mkGraphModule g_both [("w", some_tensor)] ["w"] ["w"] [].

Definition st_both : LiftState :=
  mkLiftState g_both [mkInputSpec USER_INPUT "x" (TStr "x")]
    (initial_state_dict gm_both) 0.

(** A graph whose get-attr node names a tensor the module does not hold. *)
Definition gm_broken : GraphModule :=
  mkGraphModule g_both [] [] [] [].

(** A graph with two get-attr nodes that name tensors the module does not
    hold. *)
Definition get_v : Node := mkNode 1 "v" get_attr (TStr "v") [] [] [3].

Definition g_two_broken : Graph :=
  mkGraph
    [ mkNode 0 "w" get_attr (TStr "w") [] [] [3];
      get_v;
      mkNode 2 "x" placeholder (TStr "x") []
        [("val", MFake (mkFake [1]%Z [1]%Z))] [3];
      mkNode 3 "mul" call_function (TFn (other_callable "mul"))
        [ANode 2; ANode 0; ANode 1] [] [4];
      mkNode 4 "output" output (TStr "output") [ATuple [ANode 3]] [] [] ]
    5 ["output"; "mul"; "x"; "v"; "w"].

Definition gm_two_broken : GraphModule :=
  mkGraphModule g_two_broken [] [] [] [].

(** [x -> _run_on_gpu_0(x) -> output], where the host-executed submodule
    computes [x + 1] from a placeholder that is also named [x]. *)
Definition call_gpu : Node :=
  mkNode 1 "_run_on_gpu_0" call_module (TStr "_run_on_gpu_0") [ANode 0] []
    [2].

Definition g_torch : Graph :=
  mkGraph
    [ mkNode 0 "x" placeholder (TStr "x") [] [] [1];
      call_gpu;
      mkNode 2 "output" output (TStr "output") [ATuple [ANode 1]] [] [] ]
    3 ["output"; "_run_on_gpu_0"; "x"].

Definition gpu_module : Submodule :=
  mkSubmodule
    (mkGraph
       [ mkNode 0 "x" placeholder (TStr "x") [] [] [1];
         mkNode 1 "add" call_function (TFn (other_callable "add"))
           [ANode 0; AInt 1] [] [2];
         mkNode 2 "output" output (TStr "output") [ANode 1] [] [] ]
       3 ["output"; "add"; "x"])
    [] None.

Definition gm_torch : GraphModule :=
  mkGraphModule g_torch [] [] [] [("_run_on_gpu_0", gpu_module)].

(** A [load_state_dict] that accepts what it is given. *)
Definition load_any (gm : GraphModule) (sd : Dict Tensor)
    : Result (Dict Tensor) := Ok sd.

(* DEMO-END *)

End Demo.

(* ===================================================================== *)
(** * Further code of the two files, and the shuffle converters

    What follows extends the embedding to the remaining methods of
    [TorchTensorRTModule] ([encode_metadata]'s inverse [decode_metadata],
    [get_extra_state], [set_extra_state] and the four profiling and
    layer-information methods) and to
    [py/torch_tensorrt/dynamo/conversion/impl/shuffle.py] ([reshape] and
    [pixel_shuffle]), and names a few notions the statements about the
    exporter passes use. *)

(* ===================================================================== *)
(** * What the passes return: vocabulary for the statements               *)
(* ===================================================================== *)

Module ExporterTerms.

Import Fx Exporter.

(** The targets of the get-attr nodes of a list of nodes, as strings. *)
Definition get_attr_targets (l : list Node) : list string :=
  map (fun n => target_to_str (target n)) (filter is_get_attr l).

(** What [lift] leaves under a key of the state dict: the tensor, wrapped
    as a parameter when the key names a parameter that a get-attr node of
    the graph reads. *)
Definition rewrapped (gm : GraphModule) (l : list Node) (k : string)
    (v : StateVal) : StateVal :=
  if mem_str k (named_parameters gm) && mem_str k (get_attr_targets l)
  then SParameter (state_tensor v)
  else v.

(** The spec [create_trt_exp_program] writes for a placeholder. *)
Definition user_input_spec (n : Node) : InputSpec :=
  mkInputSpec USER_INPUT (name n) (target n).

End ExporterTerms.

Module TorchTerms.

Import Fx Exporter.

(** The key under which the loop of [copy_submodule_attributes] stores the
    entry of a key of the parent's state dict. *)
Definition renamed_key (sub_state_dict : Dict Tensor)
    (submodule_name key : string) : string :=
  let parent_key := replace (submodule_name ++ ".") "" key in
  if dict_mem sub_state_dict parent_key then parent_key else key.

(** A parent graph that reads [b] before [a], and a host-executed
    submodule whose inputs are [a], then [b]. *)
Definition g_crossed : Graph :=
  mkGraph
    [ mkNode 0 "b" placeholder (TStr "b") [] [] [2];
      mkNode 1 "a" placeholder (TStr "a") [] [] [2];
      mkNode 2 "_run_on_gpu_0" call_module (TStr "_run_on_gpu_0")
        [ANode 1; ANode 0] [] [3];
      mkNode 3 "output" output (TStr "output") [ATuple [ANode 2]] [] [] ]
    4 ["output"; "_run_on_gpu_0"; "a"; "b"].

Definition crossed_module : Submodule :=
  mkSubmodule
    (mkGraph
       [ mkNode 0 "a" placeholder (TStr "a") [] [] [2];
         mkNode 1 "b" placeholder (TStr "b") [] [] [2];
         mkNode 2 "sub" call_function (TFn (other_callable "sub"))
           [ANode 0; ANode 1] [] [3];
         mkNode 3 "output" output (TStr "output") [ANode 2] [] [] ]
       4 ["output"; "sub"; "b"; "a"])
    [] None.

Definition gm_crossed : GraphModule :=
  mkGraphModule g_crossed [] [] [] [("_run_on_gpu_0", crossed_module)].

End TorchTerms.

Module TrtTerms.

Import Fx Exporter.

(** [x -> _run_on_acc_0(x)] read by three index-access nodes, two of them
    reading element 0. *)
Definition call_acc3 : Node :=
  mkNode 1 "_run_on_acc_0" call_module (TStr "_run_on_acc_0") [ANode 0] []
    [2; 3; 4].

Definition g_three : Graph :=
  mkGraph
    [ mkNode 0 "x" placeholder (TStr "x") [] [] [1];
      call_acc3;
      mkNode 2 "getitem" call_function (TFn operator_getitem)
        [ANode 1; AInt 0] [] [5];
      mkNode 3 "getitem_1" call_function (TFn operator_getitem)
        [ANode 1; AInt 1] [] [5];
      mkNode 4 "getitem_2" call_function (TFn operator_getitem)
        [ANode 1; AInt 0] [] [5];
      mkNode 5 "output" output (TStr "output")
        [ATuple [ANode 2; ANode 3; ANode 4]] [] [] ]
    6 ["output"; "getitem_2"; "getitem_1"; "getitem"; "_run_on_acc_0"; "x"].

Definition gm_three : GraphModule :=
  mkGraphModule g_three [] [] [] [("_run_on_acc_0", Demo.acc_module)].

End TrtTerms.

(* ===================================================================== *)
(** * runtime/_TorchTensorRTModule.py: the other methods                  *)
(* ===================================================================== *)

Module RuntimeMethods.

Import Runtime.

(** What [set_extra_state] can end on: an exception of a call it makes, or
    the error Python raises when a local variable is read that no statement
    executed so far has bound. *)
Inductive StateExn : Type :=
| Called (e : Exn)
| UnboundLocalError (var : string).

(** [SerializedTorchTensorRTModuleFmt]: the name, the serialized engine
    record or [None], and the two lists of binding names. *)
Record ExtraState : Type := mkExtraState {
  st_name : string;
  st_engine : option (list Val);
  st_inputs : list string;
  st_outputs : list string
}.

Definition set_name (m : TorchTensorRTModule) (nm : string)
    : TorchTensorRTModule :=
  mkModule (input_binding_names m) (output_binding_names m) nm
    (module_hardware_compatible m) (settings m) (engine m).

Definition set_engine (m : TorchTensorRTModule) (e : option Engine)
    : TorchTensorRTModule :=
  mkModule (input_binding_names m) (output_binding_names m) (name m)
    (module_hardware_compatible m) (settings m) e.

Definition set_input_binding_names (m : TorchTensorRTModule)
    (l : list string) : TorchTensorRTModule :=
  mkModule l (output_binding_names m) (name m)
    (module_hardware_compatible m) (settings m) (engine m).

Definition set_output_binding_names (m : TorchTensorRTModule)
    (l : list string) : TorchTensorRTModule :=
  mkModule (input_binding_names m) l (name m)
    (module_hardware_compatible m) (settings m) (engine m).

Definition set_hardware_compatible (m : TorchTensorRTModule) (b : bool)
    : TorchTensorRTModule :=
  mkModule (input_binding_names m) (output_binding_names m) (name m) b
    (settings m) (engine m).

Definition set_settings (m : TorchTensorRTModule) (s : CompilationSettings)
    : TorchTensorRTModule :=
  mkModule (input_binding_names m) (output_binding_names m) (name m)
    (module_hardware_compatible m) s (engine m).

(** [t[i]] on a tuple. *)
Definition index (t : list Val) (i : nat) : Result Val :=
  match nth_error t i with
  | Some v => Ok v
  | None => Raise IndexError
  end.

Section WithEngine.

(** The native runtime and the standard library, as the methods call
    them. *)
Variable ABI_TARGET_IDX NAME_IDX DEVICE_IDX ENGINE_IDX : nat.
Variable INPUT_BINDING_NAMES_IDX OUTPUT_BINDING_NAMES_IDX : nat.
Variable HW_COMPATIBLE_IDX SERIALIZED_METADATA_IDX : nat.
Variable Engine_new : list Val -> Result Engine.
Variable engine_getstate : Engine -> Result (list Val).
Variable b64decode : Val -> Result Val.
Variable int_of : Val -> Result Z.
Variable unpickle_b64 : string -> Result CompilationSettings.
Variable eval : string -> Result string.
Variable set_profile_path_prefix : Engine -> string -> Engine.
Variable engine_enable_profiling : Engine -> Result Engine.
Variable engine_disable_profiling : Engine -> Result Engine.
Variable get_engine_layer_info : Engine -> Result string.
Variable dump_engine_layer_info : Engine -> Result unit.

(** [{eval(op) for op in ops}] *)
Fixpoint eval_all (ops : list string) : Result (list string) :=
  match ops with
  | [] => Ok []
  | op :: r =>
      o <- eval op ;;
      os <- eval_all r ;;
      Ok (o :: os)
  end.

(** [decode_metadata]: [encode("utf-8")] is a method of strings. *)
Definition decode_metadata (encoded_settings : Val)
    : Result CompilationSettings :=
  match encoded_settings with
  | PyStr s =>
      st <- unpickle_b64 s ;;
      ops <- eval_all (torch_executed_ops st) ;;
      Ok (mkSettings (device st) (hardware_compatible st) ops)
  | _ => Raise (AttributeError "encode")
  end.

(** [get_extra_state] *)
Definition get_extra_state (self : TorchTensorRTModule)
    : Result ExtraState :=
  info <- match engine self with
          | Some e => i <- engine_getstate e ;; Ok (Some i)
          | None => Ok None
          end ;;
  Ok (mkExtraState (name self) info (input_binding_names self)
        (output_binding_names self)).

(** The engine the [if state[1] is not None] block of [set_extra_state]
    assigns. *)
Definition restored_engine (state : ExtraState) : Result (option Engine) :=
  match st_engine state with
  | Some serialized_engine_info =>
      blob <- index serialized_engine_info 3 ;;
      serialized_engine <- b64decode blob ;;
      abi <- index serialized_engine_info ABI_TARGET_IDX ;;
      nm <- index serialized_engine_info NAME_IDX ;;
      dev <- index serialized_engine_info DEVICE_IDX ;;
      ins <- index serialized_engine_info INPUT_BINDING_NAMES_IDX ;;
      outs <- index serialized_engine_info OUTPUT_BINDING_NAMES_IDX ;;
      hw <- index serialized_engine_info HW_COMPATIBLE_IDX ;;
      meta <- index serialized_engine_info SERIALIZED_METADATA_IDX ;;
      e <- Engine_new [abi; nm; dev; serialized_engine; ins; outs; hw; meta] ;;
      Ok (Some e)
  | None => Ok None
  end.

(** [bool(int(state[1][6])) if state[1] is not None else False] *)
Definition restored_hardware_compatible (state : ExtraState)
    : Result bool :=
  match st_engine state with
  | Some info =>
      v <- index info 6 ;;
      z <- int_of v ;;
      Ok (negb (Z.eqb z 0))
  | None => Ok false
  end.

(** [set_extra_state]: the module as the method leaves it, and the
    exception it ends on, if any.  The local [serialized_engine_info] is
    bound in the first branch of the conditional only, and read by the
    last statement whatever branch was taken. *)
Definition set_extra_state (self : TorchTensorRTModule) (state : ExtraState)
    : TorchTensorRTModule * option StateExn :=
  let self := set_name self (st_name state) in
  match restored_engine state with
  | Raise e => (self, Some (Called e))
  | Ok new_engine =>
      let self := set_engine self new_engine in
      let self := set_input_binding_names self (st_inputs state) in
      let self := set_output_binding_names self (st_outputs state) in
      match restored_hardware_compatible state with
      | Raise e => (self, Some (Called e))
      | Ok hw =>
          let self := set_hardware_compatible self hw in
          match st_engine state with
          | None => (self, Some (UnboundLocalError "serialized_engine_info"))
          | Some serialized_engine_info =>
              match (meta <- index serialized_engine_info 7 ;;
                     decode_metadata meta) with
              | Raise e => (self, Some (Called e))
              | Ok st => (set_settings self st, None)
              end
          end
      end
  end.

(** [enable_profiling] *)
Definition enable_profiling (self : TorchTensorRTModule)
    (profiling_results_dir : option string) : Result TorchTensorRTModule :=
  match engine self with
  | None => Raise (RuntimeError "Engine has not been initialized yet.")
  | Some e =>
      let e1 := match profiling_results_dir with
                | Some d => set_profile_path_prefix e d
                | None => e
                end in
      e2 <- engine_enable_profiling e1 ;;
      Ok (set_engine self (Some e2))
  end.

(** [disable_profiling] *)
Definition disable_profiling (self : TorchTensorRTModule)
    : Result TorchTensorRTModule :=
  match engine self with
  | None => Raise (RuntimeError "Engine has not been initialized yet.")
  | Some e =>
      e' <- engine_disable_profiling e ;;
      Ok (set_engine self (Some e'))
  end.

(** [get_layer_info] *)
Definition get_layer_info (self : TorchTensorRTModule) : Result string :=
  match engine self with
  | None => Raise (RuntimeError "Engine has not been initialized yet.")
  | Some e => get_engine_layer_info e
  end.

(** [dump_layer_info] *)
Definition dump_layer_info (self : TorchTensorRTModule) : Result unit :=
  match engine self with
  | None => Raise (RuntimeError "Engine has not been initialized yet.")
  | Some e => dump_engine_layer_info e
  end.

End WithEngine.

End RuntimeMethods.

(* ===================================================================== *)
(** * dynamo/conversion/impl/shuffle.py                                   *)
(* ===================================================================== *)

Module Shuffle.

(** What the two converters end on: an exception of [Py], or the error of
    an integer division by zero. *)
Inductive ShuffleExn : Type :=
| PyExn (e : Exn)
| ZeroDivisionError.

Inductive Res (A : Type) : Type :=
| Fine (a : A)
| Fail (e : ShuffleExn).
Arguments Fine {A} a.
Arguments Fail {A} e.

Definition and_then {A B : Type} (c : Res A) (k : A -> Res B) : Res B :=
  match c with
  | Fine a => k a
  | Fail e => Fail e
  end.

(** A network tensor: an input of the network, or an output of one of its
    layers. *)
Inductive ITensor : Type :=
| NetworkInput (name : string)
| OutputOf (layer : nat) (idx : nat).

(** A dimension handed to [reshape]: an integer or a shape tensor. *)
Inductive Dim : Type :=
| DInt (z : Z)
| DTensor (t : ITensor).

Definition is_int (d : Dim) : bool :=
  match d with DInt _ => true | DTensor _ => false end.

Fixpoint ints (shape : list Dim) : list Z :=
  match shape with
  | [] => []
  | DInt z :: r => z :: ints r
  | DTensor _ :: r => ints r
  end.

(** The layers the converters add: a shuffle layer with its reshape
    dimensions and, when the shape is dynamic, the shape tensor at its
    second input; the concatenation that builds that shape tensor; and the
    layers of the converters this file calls. *)
Inductive Layer : Type :=
| ShuffleLayer (input : ITensor) (reshape_dims : option (list Z))
    (shape_input : option ITensor) (layer_name : string)
| ConcatenationLayer (inputs : list ITensor) (axis : Z)
    (layer_name : string)
| ForeignLayer (description : string).

(** The network under construction: its layers in the order they were
    added. *)
Definition Network : Type := list Layer.

Fixpoint update_layer (i : nat) (f : Layer -> Layer) (net : Network)
    : Network :=
  match net, i with
  | [], _ => []
  | l :: r, O => f l :: r
  | l :: r, S k => l :: update_layer k f r
  end.

Definition set_reshape_dims (dims : list Z) (l : Layer) : Layer :=
  match l with
  | ShuffleLayer i _ s n => ShuffleLayer i (Some dims) s n
  | _ => l
  end.

Definition set_shape_input (t : ITensor) (l : Layer) : Layer :=
  match l with
  | ShuffleLayer i d _ n => ShuffleLayer i d (Some t) n
  | _ => l
  end.

Definition set_name (nm : string) (l : Layer) : Layer :=
  match l with
  | ShuffleLayer i d s _ => ShuffleLayer i d s nm
  | ConcatenationLayer i a _ => ConcatenationLayer i a nm
  | ForeignLayer _ => l
  end.

(** [t[-n:]] and [t[:-n]] on a tuple, for [n > 0]. *)
Definition last_n {A : Type} (n : nat) (t : list A) : list A :=
  skipn (List.length t - n) t.

Definition but_last_n {A : Type} (n : nat) (t : list A) : list A :=
  firstn (List.length t - n) t.

(** [list(range(n))] *)
Definition range (n : nat) : list nat := seq 0 n.

(** [l.insert(i, x)]: a negative index counts from the end, and an index
    out of range is clamped. *)
Definition py_insert {A : Type} (i : Z) (x : A) (l : list A) : list A :=
  let n := Z.of_nat (List.length l) in
  let j := if (i <? 0)%Z then Z.max 0 (n + i) else Z.min i n in
  Exporter.list_insert (Z.to_nat j) x l.

(** The three shapes [pixel_shuffle] computes. *)
Definition new_shape (shape : list Z)
    (upscale_factor in_channels in_height in_width : Z) : list Z :=
  (but_last_n 3 shape
   ++ [(in_channels / upscale_factor ^ 2)%Z; upscale_factor; upscale_factor;
       in_height; in_width])%list.

Definition permute_shape (rank : nat) : list nat :=
  py_insert (-1) (rank + 1) (py_insert (-2) rank (range rank)).

Definition output_shape (shape : list Z)
    (upscale_factor in_channels in_height in_width : Z) : list Z :=
  (but_last_n 3 shape
   ++ [(in_channels / upscale_factor ^ 2)%Z;
       (in_height * upscale_factor)%Z; (in_width * upscale_factor)%Z])%list.

(** The dimensions of a tensor after its axes are permuted: axis [j] of the
    result is axis [order[j]] of the tensor. *)
Definition permuted (order : list nat) (dims : list Z) : list Z :=
  map (fun i => nth i dims 0%Z) order.

Definition product (dims : list Z) : Z := fold_right Z.mul 1%Z dims.

Section WithNetwork.

(** The host converters and TensorRT, as the two functions call them. *)
Variable Tgt SourceIR : Type.
Variable shape_of : ITensor -> list Z.                    (* input.shape *)
Variable get_trt_tensor : Network -> Z -> string -> Network * ITensor.
Variable full_layer_name : Tgt -> string -> option SourceIR -> string.
Variable permute :
  Network -> Tgt -> option SourceIR -> string -> ITensor -> list nat ->
  Res (Network * ITensor).

(** The loop of [reshape] over a shape that is not all integers: a shape
    tensor is kept, an integer goes through [get_trt_tensor]. *)
Fixpoint to_trt_shape (net : Network) (name : string) (i : nat)
    (shape : list Dim) : Network * list ITensor :=
  match shape with
  | [] => (net, [])
  | DTensor s :: r =>
      let '(net', ts) := to_trt_shape net name (S i) r in
      (net', s :: ts)
  | DInt s :: r =>
      let '(net1, a) :=
        get_trt_tensor net s (name ++ "_" ++ str_of_nat i) in
      let '(net', ts) := to_trt_shape net1 name (S i) r in
      (net', a :: ts)
  end.

(** [reshape]: one shuffle layer, with static reshape dimensions when every
    dimension is an integer, and fed by a concatenated shape tensor
    otherwise. *)
Definition reshape (net : Network) (target : Tgt)
    (source_ir : option SourceIR) (name : string) (input : ITensor)
    (shape : list Dim) : Network * ITensor :=
  let layer := List.length net in
  let net1 := (net ++ [ShuffleLayer input None None ""])%list in
  let net2 :=
    if forallb is_int shape then
      update_layer layer (set_reshape_dims (ints shape)) net1
    else
      let '(net', trt_shape) := to_trt_shape net1 name 0 shape in
      let shape_layer := List.length net' in
      let net'' :=
        (net' ++ [ConcatenationLayer trt_shape 0
                    (name ++ "_output_shape")])%list in
      update_layer layer (set_shape_input (OutputOf shape_layer 0)) net'' in
  (update_layer layer (set_name (full_layer_name target name source_ir))
     net2,
   OutputOf layer 0).

(** [pixel_shuffle] *)
Definition pixel_shuffle (net : Network) (target : Tgt)
    (source_ir : option SourceIR) (name : string) (input : ITensor)
    (upscale_factor : Z) : Res (Network * ITensor) :=
  let shape := shape_of input in
  match last_n 3 shape with
  | [in_channels; in_height; in_width] =>
      if (upscale_factor ^ 2 =? 0)%Z then Fail ZeroDivisionError
      else
        let '(net1, reshaped_tensor) :=
          reshape net target source_ir (name ++ "_reshape1") input
            (map DInt
               (new_shape shape upscale_factor in_channels in_height
                  in_width)) in
        let rank := List.length shape in
        and_then
          (permute net1 target source_ir (name ++ "_permute")
             reshaped_tensor (permute_shape rank))
          (fun r =>
             let '(net2, permuted_tensor) := r in
             Fine (reshape net2 target source_ir (name ++ "_reshape2")
                     permuted_tensor
                     (map DInt
                        (output_shape shape upscale_factor in_channels
                           in_height in_width))))
  | l =>
      Fail (PyExn
              (ValueError
                 ("not enough values to unpack (expected 3, got "
                  ++ str_of_nat (List.length l) ++ ")")))
  end.

End WithNetwork.

End Shuffle.

Module ShuffleDemo.

Import Shuffle.

(** A network whose only input has shape [(1, 8, 2, 2)], a permute
    converter that adds one layer, a constant converter that is never
    needed, and layers named by their base name. *)
Definition demo_shape_of (t : ITensor) : list Z := [1; 8; 2; 2]%Z.

Definition flat_shape_of (t : ITensor) : list Z := [8; 2]%Z.

Definition demo_get_trt_tensor (net : Network) (z : Z) (nm : string)
    : Network * ITensor :=
  ((net ++ [ForeignLayer nm])%list, OutputOf (List.length net) 0).

Definition demo_layer_name (target : unit) (nm : string)
    (source_ir : option unit) : string := nm.

Definition demo_permute (net : Network) (target : unit)
    (source_ir : option unit) (nm : string) (t : ITensor)
    (order : list nat) : Res (Network * ITensor) :=
  Fine ((net ++ [ForeignLayer nm])%list, OutputOf (List.length net) 0).

End ShuffleDemo.

Module OrderTerms.

Import Fx Exporter.

(** The names of the placeholders of a graph, in graph order. *)
Definition placeholder_names (g : Graph) : list string :=
  map name (filter is_placeholder (nodes g)).

End OrderTerms.

(* ===================================================================== *)
(** * Facts: the graph primitives                                         *)
(* ===================================================================== *)

Module FxFacts.

Import Fx.

(** ** Membership and the [users] dictionaries *)

Lemma mem_id_In (i : NodeId) (l : list NodeId) :
  mem_id i l = true <-> In i l.
Proof.
  unfold mem_id. rewrite existsb_exists. split.
  - intros [x [Hx He]]. apply Nat.eqb_eq in He. subst x. exact Hx.
  - intros H. exists i. split; [exact H | apply Nat.eqb_refl].
Qed.

Lemma mem_id_not_In (i : NodeId) (l : list NodeId) :
  mem_id i l = false <-> ~ In i l.
Proof.
  rewrite <- mem_id_In. destruct (mem_id i l); split; intros H;
    try reflexivity; try discriminate; try (intros F; discriminate F).
  exfalso. apply H. reflexivity.
Qed.

Lemma users_del_In (x u : NodeId) (us : list NodeId) :
  In x (users_del u us) <-> In x us /\ x <> u.
Proof.
  unfold users_del. rewrite filter_In, negb_true_iff, Nat.eqb_neq. tauto.
Qed.

Lemma users_add_In (x u : NodeId) (us : list NodeId) :
  In x (users_add u us) <-> x = u \/ In x us.
Proof.
  unfold users_add. destruct (mem_id u us) eqn:E.
  - apply mem_id_In in E. split; [tauto | intros [-> | H]; assumption].
  - rewrite in_app_iff. simpl. split; intros H.
    + destruct H as [H | [H | []]]; [right | left]; congruence.
    + destruct H as [H | H]; [right; left | left]; congruence.
Qed.

Lemma users_del_NoDup (u : NodeId) (us : list NodeId) :
  NoDup us -> NoDup (users_del u us).
Proof. apply NoDup_filter. Qed.

Lemma users_add_NoDup (u : NodeId) (us : list NodeId) :
  NoDup us -> NoDup (users_add u us).
Proof.
  intros H. unfold users_add. destruct (mem_id u us) eqn:E; [exact H|].
  apply mem_id_not_In in E.
  apply NoDup_app; [exact H | repeat constructor; intros [] | ].
  intros x Hx [Hu | []]. subst x. exact (E Hx).
Qed.

Lemma users_del_absent (u : NodeId) (us : list NodeId) :
  ~ In u us -> users_del u us = us.
Proof.
  intros H. unfold users_del. induction us as [|x r IH]; simpl.
  - reflexivity.
  - destruct (Nat.eqb x u) eqn:E; simpl.
    + apply Nat.eqb_eq in E. subst x. exfalso. apply H. left. reflexivity.
    + rewrite IH; [reflexivity|]. intros F. apply H. right. exact F.
Qed.

Lemma nodupb_NoDup (l : list NodeId) : nodupb l = true -> NoDup l.
Proof.
  induction l as [|x r IH]; simpl; intros H.
  - constructor.
  - apply andb_true_iff in H as [Hx Hr]. apply negb_true_iff in Hx.
    constructor; [apply mem_id_not_In; exact Hx | exact (IH Hr)].
Qed.

(** ** Looking a node up by identity *)

Lemma find_node_Some (i : NodeId) (l : list Node) (n : Node) :
  find_node i l = Some n -> In n l /\ id n = i.
Proof.
  unfold find_node. intros H. apply find_some in H as [Hin He].
  apply Nat.eqb_eq in He. split; assumption.
Qed.

Lemma find_node_None (i : NodeId) (l : list Node) :
  find_node i l = None <-> ~ In i (map id l).
Proof.
  unfold find_node. split.
  - intros H Hin. apply in_map_iff in Hin as [n [He Hn]].
    apply (find_none _ _ H) in Hn. rewrite He, Nat.eqb_refl in Hn.
    discriminate.
  - intros H. destruct (find _ l) as [n|] eqn:E; [|reflexivity].
    apply find_some in E as [Hin He]. apply Nat.eqb_eq in He.
    exfalso. apply H. rewrite <- He. apply in_map. exact Hin.
Qed.

Lemma find_node_unique (l : list Node) (n : Node) :
  NoDup (map id l) -> In n l -> find_node (id n) l = Some n.
Proof.
  unfold find_node. induction l as [|m r IH]; simpl; intros Hnd Hin.
  - contradiction.
  - inversion Hnd as [|? ? Hm Hr]; subst.
    destruct Hin as [-> | Hin].
    + rewrite Nat.eqb_refl. reflexivity.
    + destruct (Nat.eqb (id m) (id n)) eqn:E.
      * apply Nat.eqb_eq in E. exfalso. apply Hm. rewrite E.
        apply in_map. exact Hin.
      * apply IH; assumption.
Qed.

Lemma find_node_map (f : Node -> Node) (i : NodeId) (l : list Node) :
  (forall n, id (f n) = id n) ->
  find_node i (map f l) = option_map f (find_node i l).
Proof.
  intros Hf. unfold find_node. induction l as [|m r IH]; simpl.
  - reflexivity.
  - rewrite Hf. destruct (Nat.eqb (id m) i); [reflexivity | exact IH].
Qed.

Lemma find_node_app (i : NodeId) (l1 l2 : list Node) :
  find_node i (l1 ++ l2)%list
  = match find_node i l1 with
    | Some n => Some n
    | None => find_node i l2
    end.
Proof.
  unfold find_node. induction l1 as [|m r IH]; simpl.
  - reflexivity.
  - destruct (Nat.eqb (id m) i); [reflexivity | exact IH].
Qed.

(** ** The node rewritings keep identity, name, operation and target *)

Lemma skel_set_users (n : Node) (u : list NodeId) :
  skel (set_users n u) = skel n.
Proof. reflexivity. Qed.

Lemma skel_add_user_if (ins : list NodeId) (u : NodeId) (n : Node) :
  skel (add_user_if ins u n) = skel n.
Proof. unfold add_user_if. destruct (mem_id _ _); reflexivity. Qed.

Lemma skel_del_user_if (ins : list NodeId) (u : NodeId) (n : Node) :
  skel (del_user_if ins u n) = skel n.
Proof. unfold del_user_if. destruct (mem_id _ _); reflexivity. Qed.

Lemma skel_meta_at (i : NodeId) (f : Dict MetaVal -> Dict MetaVal)
    (n : Node) :
  skel (meta_at i f n) = skel n.
Proof. unfold meta_at. destruct (Nat.eqb _ _); reflexivity. Qed.

Lemma skel_rewire (u : NodeId) (old_in : list NodeId) (a : list Arg)
    (n : Node) :
  skel (rewire u old_in a n) = skel n.
Proof.
  unfold rewire. rewrite skel_add_user_if.
  destruct (Nat.eqb (id n) u); [|apply skel_del_user_if].
  change (skel (set_args (del_user_if old_in u n) a))
    with (skel (del_user_if old_in u n)).
  apply skel_del_user_if.
Qed.

Lemma skel_id (n m : Node) : skel n = skel m -> id n = id m.
Proof. unfold skel. congruence. Qed.

Lemma skel_op (n m : Node) : skel n = skel m -> op n = op m.
Proof. unfold skel. congruence. Qed.

Lemma id_add_user_if (ins : list NodeId) (u : NodeId) (n : Node) :
  id (add_user_if ins u n) = id n.
Proof. apply skel_id, skel_add_user_if. Qed.

Lemma id_del_user_if (ins : list NodeId) (u : NodeId) (n : Node) :
  id (del_user_if ins u n) = id n.
Proof. apply skel_id, skel_del_user_if. Qed.

Lemma id_meta_at (i : NodeId) (f : Dict MetaVal -> Dict MetaVal) (n : Node) :
  id (meta_at i f n) = id n.
Proof. apply skel_id, skel_meta_at. Qed.

Lemma id_rewire (u : NodeId) (old_in : list NodeId) (a : list Arg)
    (n : Node) :
  id (rewire u old_in a n) = id n.
Proof. apply skel_id, skel_rewire. Qed.

Lemma map_skel_map (f : Node -> Node) (l : list Node) :
  (forall n, skel (f n) = skel n) -> map skel (map f l) = map skel l.
Proof.
  intros H. rewrite map_map. apply map_ext. exact H.
Qed.

Lemma map_id_skel (l : list Node) : map id l = map (fun s => fst (fst (fst s))) (map skel l).
Proof. rewrite map_map. reflexivity. Qed.

(** ** Arguments, users and metadata after each rewriting *)

Lemma args_add_user_if (ins : list NodeId) (u : NodeId) (n : Node) :
  args (add_user_if ins u n) = args n.
Proof. unfold add_user_if. destruct (mem_id _ _); reflexivity. Qed.

Lemma args_del_user_if (ins : list NodeId) (u : NodeId) (n : Node) :
  args (del_user_if ins u n) = args n.
Proof. unfold del_user_if. destruct (mem_id _ _); reflexivity. Qed.

Lemma args_meta_at (i : NodeId) (f : Dict MetaVal -> Dict MetaVal)
    (n : Node) :
  args (meta_at i f n) = args n.
Proof. unfold meta_at. destruct (Nat.eqb _ _); reflexivity. Qed.

Lemma users_meta_at (i : NodeId) (f : Dict MetaVal -> Dict MetaVal)
    (n : Node) :
  users (meta_at i f n) = users n.
Proof. unfold meta_at. destruct (Nat.eqb _ _); reflexivity. Qed.

Lemma meta_add_user_if (ins : list NodeId) (u : NodeId) (n : Node) :
  meta (add_user_if ins u n) = meta n.
Proof. unfold add_user_if. destruct (mem_id _ _); reflexivity. Qed.

Lemma meta_del_user_if (ins : list NodeId) (u : NodeId) (n : Node) :
  meta (del_user_if ins u n) = meta n.
Proof. unfold del_user_if. destruct (mem_id _ _); reflexivity. Qed.

Lemma args_rewire (u : NodeId) (old_in : list NodeId) (a : list Arg)
    (n : Node) :
  args (rewire u old_in a n) = if Nat.eqb (id n) u then a else args n.
Proof.
  unfold rewire. rewrite args_add_user_if.
  destruct (Nat.eqb (id n) u); [reflexivity | apply args_del_user_if].
Qed.

Lemma meta_rewire (u : NodeId) (old_in : list NodeId) (a : list Arg)
    (n : Node) :
  meta (rewire u old_in a n) = meta n.
Proof.
  unfold rewire. rewrite meta_add_user_if.
  destruct (Nat.eqb (id n) u); simpl; apply meta_del_user_if.
Qed.

Lemma users_add_user_if (ins : list NodeId) (u : NodeId) (n : Node) :
  users (add_user_if ins u n)
  = if mem_id (id n) ins then users_add u (users n) else users n.
Proof. unfold add_user_if. destruct (mem_id _ _); reflexivity. Qed.

Lemma users_del_user_if (ins : list NodeId) (u : NodeId) (n : Node) :
  users (del_user_if ins u n)
  = if mem_id (id n) ins then users_del u (users n) else users n.
Proof. unfold del_user_if. destruct (mem_id _ _); reflexivity. Qed.

Lemma users_rewire (u : NodeId) (old_in : list NodeId) (a : list Arg)
    (n : Node) :
  users (rewire u old_in a n)
  = let us := if mem_id (id n) old_in then users_del u (users n)
              else users n in
    if mem_id (id n) (args_nodes a) then users_add u us else us.
Proof.
  unfold rewire. rewrite users_add_user_if.
  destruct (Nat.eqb (id n) u).
  - change (id (set_args (del_user_if old_in u n) a))
      with (id (del_user_if old_in u n)).
    change (users (set_args (del_user_if old_in u n) a))
      with (users (del_user_if old_in u n)).
    rewrite id_del_user_if, users_del_user_if. reflexivity.
  - rewrite id_del_user_if, users_del_user_if. reflexivity.
Qed.

(** ** Arguments under [replace_all_uses_with] *)

Lemma Arg_nested_ind (P : Arg -> Prop) :
  (forall n, P (ANode n)) ->
  (forall z, P (AInt z)) ->
  (forall l, Forall P l -> P (ATuple l)) ->
  (forall e, P (AEngine e)) ->
  P ANone ->
  forall a, P a.
Proof.
  intros Hn Hi Ht He Hnone. fix IH 1. intros [n|z|l|e|].
  - apply Hn.
  - apply Hi.
  - apply Ht. induction l as [|x r IHl]; constructor; [apply IH | exact IHl].
  - apply He.
  - exact Hnone.
Qed.

Lemma arg_nodes_replaced_old (old : NodeId) (rep a : Arg) :
  ~ In old (arg_nodes rep) ->
  ~ In old (arg_nodes (map_arg (maybe_replace_node old rep) a)).
Proof.
  intros Hrep. induction a as [n|z|l IHl|e|] using Arg_nested_ind; simpl;
    try solve [intros []].
  - unfold maybe_replace_node. destruct (Nat.eqb n old) eqn:E.
    + exact Hrep.
    + simpl. intros [H | []]. subst n. rewrite Nat.eqb_refl in E.
      discriminate.
  - induction IHl as [|x r Hx Hr IH]; simpl.
    + intros [].
    + rewrite in_app_iff. intros [H | H]; [exact (Hx H) | exact (IH H)].
Qed.

Lemma args_nodes_replaced_old (old : NodeId) (rep : Arg) (l : list Arg) :
  ~ In old (arg_nodes rep) ->
  ~ In old (args_nodes (map (map_arg (maybe_replace_node old rep)) l)).
Proof.
  intros Hrep. unfold args_nodes. induction l as [|x r IH]; simpl.
  - intros [].
  - rewrite in_app_iff. intros [H | H]; [|exact (IH H)].
    exact (arg_nodes_replaced_old old rep x Hrep H).
Qed.

Lemma arg_nodes_replaced_new (old y : NodeId) (a : Arg) :
  In old (arg_nodes a) ->
  In y (arg_nodes (map_arg (maybe_replace_node old (ANode y)) a)).
Proof.
  induction a as [n|z|l IHl|e|] using Arg_nested_ind; simpl;
    try solve [intros []].
  - intros [H | []]. subst n. unfold maybe_replace_node.
    rewrite Nat.eqb_refl. left. reflexivity.
  - induction IHl as [|x r Hx Hr IH]; simpl.
    + intros [].
    + rewrite !in_app_iff. intros [H | H]; [left; exact (Hx H) | right; exact (IH H)].
Qed.

Lemma args_nodes_replaced_new (old y : NodeId) (l : list Arg) :
  In old (args_nodes l) ->
  In y (args_nodes (map (map_arg (maybe_replace_node old (ANode y))) l)).
Proof.
  unfold args_nodes. induction l as [|x r IH]; simpl.
  - intros [].
  - rewrite !in_app_iff. intros [H | H]; [left | right; exact (IH H)].
    exact (arg_nodes_replaced_new old y x H).
Qed.

(** ** Graphs after [map_nodes] *)

Lemma get_node_map_nodes (f : Node -> Node) (g : Graph) (i : NodeId) :
  (forall n, id (f n) = id n) ->
  get_node (map_nodes f g) i = option_map f (get_node g i).
Proof. intros Hf. unfold get_node. simpl. apply find_node_map. exact Hf. Qed.

Lemma get_node_In (g : Graph) (i : NodeId) (n : Node) :
  get_node g i = Some n -> In n (nodes g) /\ id n = i.
Proof. apply find_node_Some. Qed.

Lemma get_node_of_In (g : Graph) (n : Node) :
  NoDup (ids g) -> In n (nodes g) -> get_node g (id n) = Some n.
Proof. apply find_node_unique. Qed.

Lemma skel_map_nodes (f : Node -> Node) (g : Graph) :
  (forall n, skel (f n) = skel n) ->
  map skel (nodes (map_nodes f g)) = map skel (nodes g).
Proof. intros H. simpl. apply map_skel_map. exact H. Qed.

Lemma ids_of_skel (g g' : Graph) :
  map skel (nodes g') = map skel (nodes g) -> ids g' = ids g.
Proof.
  intros H. unfold ids. rewrite !map_id_skel, H. reflexivity.
Qed.

(** ** [update_args] *)

Lemma skel_update_args (g : Graph) (u : NodeId) (a : list Arg) :
  map skel (nodes (update_args g u a)) = map skel (nodes g).
Proof.
  unfold update_args. destruct (get_node g u) as [un|]; [|reflexivity].
  apply skel_map_nodes. intros m. apply skel_rewire.
Qed.

Lemma next_id_update_args (g : Graph) (u : NodeId) (a : list Arg) :
  next_id (update_args g u a) = next_id g.
Proof. unfold update_args. destruct (get_node g u); reflexivity. Qed.

Lemma get_node_update_args (g : Graph) (u : NodeId) (a : list Arg)
    (un : Node) (x : NodeId) :
  get_node g u = Some un ->
  get_node (update_args g u a) x
  = option_map (rewire u (args_nodes (args un)) a) (get_node g x).
Proof.
  intros Hu. unfold update_args. rewrite Hu.
  apply get_node_map_nodes. intros m. apply id_rewire.
Qed.

Lemma well_formed_update_args (g : Graph) (u : NodeId) (a : list Arg) :
  well_formed g -> well_formed (update_args g u a).
Proof.
  intros (Hnd & Hfresh & Hsound & Hund).
  destruct (get_node g u) as [un|] eqn:Hu;
    [|unfold update_args; rewrite Hu; repeat split; assumption].
  assert (Hids : ids (update_args g u a) = ids g)
    by (apply ids_of_skel, skel_update_args).
  assert (Hnodes : nodes (update_args g u a)
                   = map (rewire u (args_nodes (args un)) a) (nodes g))
    by (unfold update_args; rewrite Hu; reflexivity).
  destruct (get_node_In _ _ _ Hu) as [Hun_in Hun_id].
  repeat split.
  - rewrite Hids. exact Hnd.
  - intros n Hn. rewrite next_id_update_args. rewrite Hnodes in Hn.
    apply in_map_iff in Hn as [m [<- Hm]]. rewrite id_rewire.
    apply Hfresh. exact Hm.
  - intros m' x Hm' Hx. rewrite Hnodes in Hm'.
    apply in_map_iff in Hm' as [m [<- Hm]].
    rewrite id_rewire. rewrite users_rewire in Hx. cbv zeta in Hx.
    destruct (Nat.eq_dec x u) as [-> | Hxu].
    + exists (rewire u (args_nodes (args un)) a un). split.
      * rewrite (get_node_update_args g u a un u Hu), Hu. reflexivity.
      * rewrite args_rewire, Hun_id, Nat.eqb_refl.
        destruct (mem_id (id m) (args_nodes a)) eqn:Enew;
          [apply mem_id_In; exact Enew|].
        exfalso.
        destruct (mem_id (id m) (args_nodes (args un))) eqn:Eold.
        -- apply users_del_In in Hx as [_ Hx]. apply Hx. reflexivity.
        -- destruct (Hsound m u Hm Hx) as [un' [Hu' Hin]].
           rewrite Hu in Hu'. inversion Hu'; subst un'.
           apply mem_id_In in Hin. congruence.
    + assert (Hxm : In x (users m)).
      { destruct (mem_id (id m) (args_nodes a)).
        - apply users_add_In in Hx as [Hx | Hx]; [contradiction|].
          destruct (mem_id (id m) (args_nodes (args un)));
            [apply users_del_In in Hx as [Hx _]|]; exact Hx.
        - destruct (mem_id (id m) (args_nodes (args un)));
            [apply users_del_In in Hx as [Hx _]|]; exact Hx. }
      destruct (Hsound m x Hm Hxm) as [xn [Hxn Hin]].
      exists (rewire u (args_nodes (args un)) a xn). split.
      * rewrite (get_node_update_args g u a un x Hu), Hxn. reflexivity.
      * rewrite args_rewire.
        destruct (get_node_In _ _ _ Hxn) as [_ Hxid].
        rewrite Hxid. apply Nat.eqb_neq in Hxu. rewrite Hxu. exact Hin.
  - intros m' Hm'. rewrite Hnodes in Hm'.
    apply in_map_iff in Hm' as [m [<- Hm]]. rewrite users_rewire. cbv zeta.
    specialize (Hund m Hm).
    destruct (mem_id (id m) (args_nodes a));
      destruct (mem_id (id m) (args_nodes (args un)));
      auto using users_add_NoDup, users_del_NoDup.
Qed.

Lemma args_of_update_args (g : Graph) (u : NodeId) (a : list Arg)
    (un : Node) (x : NodeId) :
  get_node g u = Some un ->
  args_of (update_args g u a) x = if Nat.eqb x u then a else args_of g x.
Proof.
  intros Hu. unfold args_of. rewrite (get_node_update_args g u a un x Hu).
  destruct (get_node g x) as [xn|] eqn:Hx; simpl.
  - rewrite args_rewire. destruct (get_node_In _ _ _ Hx) as [_ ->].
    reflexivity.
  - destruct (Nat.eqb x u) eqn:E; [|reflexivity].
    apply Nat.eqb_eq in E. subst x. congruence.
Qed.

Lemma users_of_update_args (g : Graph) (u : NodeId) (a : list Arg)
    (un xn : Node) (x : NodeId) :
  get_node g u = Some un ->
  get_node g x = Some xn ->
  users_of (update_args g u a) x
  = let us := if mem_id x (args_nodes (args un)) then users_del u (users xn)
              else users xn in
    if mem_id x (args_nodes a) then users_add u us else us.
Proof.
  intros Hu Hx. unfold users_of.
  rewrite (get_node_update_args g u a un x Hu), Hx. simpl.
  rewrite users_rewire. destruct (get_node_In _ _ _ Hx) as [_ ->].
  reflexivity.
Qed.

Lemma meta_of_update_args (g : Graph) (u : NodeId) (a : list Arg)
    (x : NodeId) :
  meta_of (update_args g u a) x = meta_of g x.
Proof.
  destruct (get_node g u) as [un|] eqn:Hu;
    [|unfold update_args; rewrite Hu; reflexivity].
  unfold meta_of. rewrite (get_node_update_args g u a un x Hu).
  destruct (get_node g x); simpl; [apply meta_rewire | reflexivity].
Qed.

Lemma get_node_update_args_None (g : Graph) (u : NodeId) (a : list Arg)
    (x : NodeId) :
  get_node (update_args g u a) x = None <-> get_node g x = None.
Proof.
  destruct (get_node g u) as [un|] eqn:Hu;
    [|unfold update_args; rewrite Hu; tauto].
  rewrite (get_node_update_args g u a un x Hu).
  destruct (get_node g x); simpl; split; intros H; congruence.
Qed.

(** ** [replace_all_uses_with] *)

Lemma replace_uses_cons (old : NodeId) (rep : Arg) (u : NodeId)
    (us : list NodeId) (g : Graph) :
  replace_uses old rep (u :: us) g
  = replace_uses old rep us
      (update_args g u
         (map (map_arg (maybe_replace_node old rep)) (args_of g u))).
Proof. reflexivity. Qed.

Lemma well_formed_replace_uses (old : NodeId) (rep : Arg)
    (us : list NodeId) (g : Graph) :
  well_formed g -> well_formed (replace_uses old rep us g).
Proof.
  revert g. induction us as [|u r IH]; intros g Hwf; [exact Hwf|].
  rewrite replace_uses_cons. apply IH, well_formed_update_args, Hwf.
Qed.

Lemma skel_replace_uses (old : NodeId) (rep : Arg) (us : list NodeId)
    (g : Graph) :
  map skel (nodes (replace_uses old rep us g)) = map skel (nodes g).
Proof.
  revert g. induction us as [|u r IH]; intros g; [reflexivity|].
  rewrite replace_uses_cons, IH. apply skel_update_args.
Qed.

Lemma next_id_replace_uses (old : NodeId) (rep : Arg) (us : list NodeId)
    (g : Graph) :
  next_id (replace_uses old rep us g) = next_id g.
Proof.
  revert g. induction us as [|u r IH]; intros g; [reflexivity|].
  rewrite replace_uses_cons, IH. apply next_id_update_args.
Qed.

Lemma meta_of_replace_uses (old : NodeId) (rep : Arg) (us : list NodeId)
    (g : Graph) (x : NodeId) :
  meta_of (replace_uses old rep us g) x = meta_of g x.
Proof.
  revert g. induction us as [|u r IH]; intros g; [reflexivity|].
  rewrite replace_uses_cons, IH. apply meta_of_update_args.
Qed.

Lemma get_node_replace_uses_None (old : NodeId) (rep : Arg)
    (us : list NodeId) (g : Graph) (x : NodeId) :
  get_node (replace_uses old rep us g) x = None <-> get_node g x = None.
Proof.
  revert g. induction us as [|u r IH]; intros g; [tauto|].
  rewrite replace_uses_cons, IH. apply get_node_update_args_None.
Qed.

(** Once every user has been rewritten, [old] has none left. *)
Lemma replace_uses_clears (old : NodeId) (rep : Arg) (us : list NodeId)
    (g : Graph) :
  well_formed g ->
  ~ In old (arg_nodes rep) ->
  (forall x, In x (users_of g old) -> In x us) ->
  users_of (replace_uses old rep us g) old = [].
Proof.
  intros Hwf Hrep. revert g Hwf. induction us as [|u r IH]; intros g Hwf Hsub.
  - simpl. destruct (users_of g old) as [|x l]; [reflexivity|].
    destruct (Hsub x (or_introl eq_refl)).
  - rewrite replace_uses_cons.
    apply IH; [apply well_formed_update_args, Hwf|].
    intros x Hx.
    destruct Hwf as (Hnd & Hfresh & Hsound & Hund).
    destruct (get_node g old) as [on|] eqn:Hold.
    2:{ unfold users_of in Hx.
        assert (Hn : get_node
                       (update_args g u
                          (map (map_arg (maybe_replace_node old rep))
                             (args_of g u))) old = None)
          by (apply get_node_update_args_None; exact Hold).
        rewrite Hn in Hx. destruct Hx. }
    destruct (get_node_In _ _ _ Hold) as [Hon_in Hon_id].
    destruct (get_node g u) as [un|] eqn:Hu.
    + rewrite (users_of_update_args g u _ un on old Hu Hold) in Hx.
      cbv zeta in Hx.
      assert (Hnew : mem_id old
                       (args_nodes
                          (map (map_arg (maybe_replace_node old rep))
                             (args_of g u))) = false)
        by (apply mem_id_not_In, args_nodes_replaced_old; exact Hrep).
      rewrite Hnew in Hx.
      destruct (mem_id old (args_nodes (args un))) eqn:Eold.
      * apply users_del_In in Hx as [Hx Hne].
        assert (Hin : In x (u :: r))
          by (apply Hsub; unfold users_of; rewrite Hold; exact Hx).
        destruct Hin as [-> | Hin]; [contradiction | exact Hin].
      * assert (Hin : In x (u :: r))
          by (apply Hsub; unfold users_of; rewrite Hold; exact Hx).
        destruct Hin as [-> | Hin]; [|exact Hin].
        exfalso. destruct (Hsound on x Hon_in Hx) as [un' [Hu' Hmention]].
        rewrite Hu in Hu'. inversion Hu'; subst un'.
        rewrite Hon_id in Hmention. apply mem_id_In in Hmention. congruence.
    + unfold update_args in Hx. rewrite Hu in Hx.
      assert (Hin : In x (u :: r)) by (apply Hsub; exact Hx).
      destruct Hin as [-> | Hin]; [|exact Hin].
      exfalso. unfold users_of in Hx. rewrite Hold in Hx.
      destruct (Hsound on x Hon_in Hx) as [un' [Hu' _]]. congruence.
Qed.

Lemma replace_all_uses_with_ok (g : Graph) (old : NodeId) (rep : Arg) :
  well_formed g ->
  ~ In old (arg_nodes rep) ->
  replace_all_uses_with g old rep
  = Ok (replace_uses old rep (users_of g old) g).
Proof.
  intros Hwf Hrep. unfold replace_all_uses_with.
  rewrite (replace_uses_clears old rep (users_of g old) g Hwf Hrep);
    [reflexivity | tauto].
Qed.

(** The arguments of the users, and of nobody else, are rewritten. *)
Lemma args_of_replace_uses (old : NodeId) (rep : Arg) (us : list NodeId)
    (g : Graph) (x : NodeId) :
  NoDup us ->
  (forall u, In u us -> get_node g u <> None) ->
  args_of (replace_uses old rep us g) x
  = if mem_id x us
    then map (map_arg (maybe_replace_node old rep)) (args_of g x)
    else args_of g x.
Proof.
  revert g. induction us as [|u r IH]; intros g Hnd Hex; [reflexivity|].
  inversion Hnd as [|? ? Hur Hr]; subst.
  destruct (get_node g u) as [un|] eqn:Hu;
    [|exfalso; exact (Hex u (or_introl eq_refl) Hu)].
  rewrite replace_uses_cons, IH; [|exact Hr|].
  2:{ intros u' Hu' F. apply get_node_update_args_None in F.
      exact (Hex u' (or_intror Hu') F). }
  rewrite (args_of_update_args g u _ un x Hu).
  unfold mem_id at 2. simpl. fold (mem_id x r).
  destruct (Nat.eqb x u) eqn:E.
  - apply Nat.eqb_eq in E. subst x.
    apply mem_id_not_In in Hur. rewrite Hur. reflexivity.
  - reflexivity.
Qed.

(** A replacement node without users ends with the users of [old], in
    their order. *)
Lemma users_of_replace_uses_new (old y : NodeId) (us : list NodeId)
    (g : Graph) (yn : Node) :
  NoDup us ->
  get_node g y = Some yn ->
  (forall u, In u us ->
     get_node g u <> None /\ In old (args_nodes (args_of g u))) ->
  (forall x, In x (users yn) -> ~ In x us) ->
  users_of (replace_uses old (ANode y) us g) y = (users yn ++ us)%list.
Proof.
  revert g yn. induction us as [|u r IH]; intros g yn Hnd Hy Hus Hfresh.
  - simpl. unfold users_of. rewrite Hy. rewrite app_nil_r. reflexivity.
  - inversion Hnd as [|? ? Hur Hr]; subst.
    destruct (Hus u (or_introl eq_refl)) as [Hex Hmention].
    destruct (get_node g u) as [un|] eqn:Hu; [|contradiction].
    assert (Hargs : args_of g u = args un)
      by (unfold args_of; rewrite Hu; reflexivity).
    rewrite replace_uses_cons.
    set (a' := map (map_arg (maybe_replace_node old (ANode y)))
                 (args_of g u)).
    assert (Huy : ~ In u (users yn))
      by (intros F; exact (Hfresh u F (or_introl eq_refl))).
    assert (Hy1 : get_node (update_args g u a') y
                  = Some (rewire u (args_nodes (args un)) a' yn))
      by (rewrite (get_node_update_args g u a' un y Hu), Hy; reflexivity).
    assert (Husers1 : users (rewire u (args_nodes (args un)) a' yn)
                      = (users yn ++ [u])%list).
    { rewrite users_rewire. cbv zeta.
      destruct (get_node_In _ _ _ Hy) as [_ Hyid]. rewrite Hyid.
      assert (Hnew : mem_id y (args_nodes a') = true).
      { apply mem_id_In. unfold a'. apply args_nodes_replaced_new.
        exact Hmention. }
      rewrite Hnew, (users_del_absent u (users yn) Huy).
      replace (if mem_id y (args_nodes (args un)) then users yn
               else users yn) with (users yn)
        by (destruct (mem_id y (args_nodes (args un))); reflexivity).
      unfold users_add. apply mem_id_not_In in Huy. rewrite Huy.
      reflexivity. }
    rewrite (IH _ _ Hr Hy1).
    + rewrite Husers1, <- app_assoc. reflexivity.
    + intros u' Hu'. destruct (Hus u' (or_intror Hu')) as [Hex' Hm'].
      split.
      * intros F. apply get_node_update_args_None in F. exact (Hex' F).
      * rewrite (args_of_update_args g u a' un u' Hu).
        destruct (Nat.eqb u' u) eqn:E; [|exact Hm'].
        apply Nat.eqb_eq in E. subst u'. contradiction.
    + intros x Hx. rewrite Husers1 in Hx. apply in_app_iff in Hx.
      destruct Hx as [Hx | [<- | []]].
      * intros F. exact (Hfresh x Hx (or_intror F)).
      * exact Hur.
Qed.

(** ** Metadata updates *)

Lemma well_formed_same_wiring (f : Node -> Node) (g : Graph) :
  (forall n, skel (f n) = skel n) ->
  (forall n, args (f n) = args n) ->
  (forall n, users (f n) = users n) ->
  well_formed g -> well_formed (map_nodes f g).
Proof.
  intros Hs Ha Hu (Hnd & Hfresh & Hsound & Hund).
  assert (Hid : forall n, id (f n) = id n) by (intros n; apply skel_id, Hs).
  repeat split.
  - unfold ids. simpl. rewrite map_map.
    rewrite (map_ext _ id Hid). exact Hnd.
  - intros n Hn. simpl in Hn. apply in_map_iff in Hn as [m [<- Hm]].
    rewrite Hid. apply Hfresh, Hm.
  - intros m' x Hm' Hx. simpl in Hm'.
    apply in_map_iff in Hm' as [m [<- Hm]]. rewrite Hu in Hx.
    destruct (Hsound m x Hm Hx) as [xn [Hxn Hin]].
    exists (f xn). split.
    + rewrite (get_node_map_nodes f g x Hid), Hxn. reflexivity.
    + rewrite Ha, Hid. exact Hin.
  - intros m' Hm'. simpl in Hm'. apply in_map_iff in Hm' as [m [<- Hm]].
    rewrite Hu. apply Hund, Hm.
Qed.

Lemma well_formed_meta_at (i : NodeId) (f : Dict MetaVal -> Dict MetaVal)
    (g : Graph) :
  well_formed g -> well_formed (map_nodes (meta_at i f) g).
Proof.
  apply well_formed_same_wiring; intros n;
    [apply skel_meta_at | apply args_meta_at | apply users_meta_at].
Qed.

Lemma users_of_meta_at (i : NodeId) (f : Dict MetaVal -> Dict MetaVal)
    (g : Graph) (x : NodeId) :
  users_of (map_nodes (meta_at i f) g) x = users_of g x.
Proof.
  unfold users_of.
  rewrite (get_node_map_nodes _ g x (id_meta_at i f)).
  destruct (get_node g x); simpl; [apply users_meta_at | reflexivity].
Qed.

Lemma args_of_meta_at (i : NodeId) (f : Dict MetaVal -> Dict MetaVal)
    (g : Graph) (x : NodeId) :
  args_of (map_nodes (meta_at i f) g) x = args_of g x.
Proof.
  unfold args_of.
  rewrite (get_node_map_nodes _ g x (id_meta_at i f)).
  destruct (get_node g x); simpl; [apply args_meta_at | reflexivity].
Qed.

Lemma meta_of_meta_at (i : NodeId) (f : Dict MetaVal -> Dict MetaVal)
    (g : Graph) (x : NodeId) (xn : Node) :
  get_node g x = Some xn ->
  meta_of (map_nodes (meta_at i f) g) x
  = if Nat.eqb x i then f (meta xn) else meta xn.
Proof.
  intros Hx. unfold meta_of.
  rewrite (get_node_map_nodes _ g x (id_meta_at i f)), Hx. simpl.
  unfold meta_at. destruct (get_node_In _ _ _ Hx) as [_ ->].
  destruct (Nat.eqb x i); reflexivity.
Qed.

Lemma get_node_meta_at_None (i : NodeId) (f : Dict MetaVal -> Dict MetaVal)
    (g : Graph) (x : NodeId) :
  get_node (map_nodes (meta_at i f) g) x = None <-> get_node g x = None.
Proof.
  rewrite (get_node_map_nodes _ g x (id_meta_at i f)).
  destruct (get_node g x); simpl; split; congruence.
Qed.

Lemma dict_get_set_same {V : Type} (d : Dict V) (k : string) (v : V) :
  dict_get (dict_set d k v) k = Some v.
Proof.
  induction d as [|[k' v'] r IH]; simpl.
  - rewrite String.eqb_refl. reflexivity.
  - destruct (String.eqb k' k) eqn:E; simpl; rewrite ?E, ?String.eqb_refl;
      [reflexivity | exact IH].
Qed.

(** ** Inserting a node *)

Lemma insert_node_split (pt : InsertPoint) (x : Node) (l : list Node) :
  exists l1 l2, l = (l1 ++ l2)%list /\ insert_node pt x l = (l1 ++ x :: l2)%list.
Proof.
  destruct pt as [|a|a]; simpl.
  - exists [], l. split; reflexivity.
  - induction l as [|n r IH]; simpl.
    + exists [], []. split; reflexivity.
    + destruct (Nat.eqb (id n) a).
      * exists [], (n :: r). split; reflexivity.
      * destruct IH as (l1 & l2 & -> & ->).
        exists (n :: l1), l2. split; reflexivity.
  - induction l as [|n r IH]; simpl.
    + exists [], []. split; reflexivity.
    + destruct (Nat.eqb (id n) a).
      * exists [n], r. split; reflexivity.
      * destruct IH as (l1 & l2 & -> & ->).
        exists (n :: l1), l2. split; reflexivity.
Qed.

Lemma insert_before_at (a : NodeId) (x n : Node) (l1 l2 : list Node) :
  id n = a -> ~ In a (map id l1) ->
  insert_before a x (l1 ++ n :: l2) = (l1 ++ x :: n :: l2)%list.
Proof.
  intros Hn. induction l1 as [|m r IH]; simpl; intros Hl1.
  - rewrite Hn, Nat.eqb_refl. reflexivity.
  - destruct (Nat.eqb (id m) a) eqn:E.
    + apply Nat.eqb_eq in E. exfalso. apply Hl1. left. exact E.
    + rewrite IH; [reflexivity|]. intros F. apply Hl1. right. exact F.
Qed.

Lemma insert_after_at (a : NodeId) (x n : Node) (l1 l2 : list Node) :
  id n = a -> ~ In a (map id l1) ->
  insert_after a x (l1 ++ n :: l2) = (l1 ++ n :: x :: l2)%list.
Proof.
  intros Hn. induction l1 as [|m r IH]; simpl; intros Hl1.
  - rewrite Hn, Nat.eqb_refl. reflexivity.
  - destruct (Nat.eqb (id m) a) eqn:E.
    + apply Nat.eqb_eq in E. exfalso. apply Hl1. left. exact E.
    + rewrite IH; [reflexivity|]. intros F. apply Hl1. right. exact F.
Qed.

Lemma In_insert_node (pt : InsertPoint) (x n : Node) (l : list Node) :
  In n (insert_node pt x l) <-> n = x \/ In n l.
Proof.
  destruct (insert_node_split pt x l) as (l1 & l2 & -> & ->).
  rewrite !in_app_iff. simpl. split; intros H.
  - destruct H as [H | [H | H]]; auto.
  - destruct H as [H | [H | H]]; auto.
Qed.

Lemma find_node_insert_other (pt : InsertPoint) (x : Node) (l : list Node)
    (i : NodeId) :
  i <> id x -> find_node i (insert_node pt x l) = find_node i l.
Proof.
  intros Hi. destruct (insert_node_split pt x l) as (l1 & l2 & -> & ->).
  rewrite !find_node_app. destruct (find_node i l1); [reflexivity|].
  unfold find_node. simpl. destruct (Nat.eqb (id x) i) eqn:E; [|reflexivity].
  apply Nat.eqb_eq in E. congruence.
Qed.

Lemma find_node_insert_new (pt : InsertPoint) (x : Node) (l : list Node) :
  ~ In (id x) (map id l) -> find_node (id x) (insert_node pt x l) = Some x.
Proof.
  intros Hx. destruct (insert_node_split pt x l) as (l1 & l2 & -> & ->).
  rewrite find_node_app.
  assert (H1 : find_node (id x) l1 = None).
  { apply find_node_None. intros F. apply Hx. rewrite map_app.
    apply in_app_iff. left. exact F. }
  rewrite H1. unfold find_node. simpl. rewrite Nat.eqb_refl. reflexivity.
Qed.

Lemma NoDup_ids_insert (pt : InsertPoint) (x : Node) (l : list Node) :
  NoDup (map id l) -> ~ In (id x) (map id l) ->
  NoDup (map id (insert_node pt x l)).
Proof.
  intros Hnd Hx. destruct (insert_node_split pt x l) as (l1 & l2 & -> & ->).
  rewrite map_app in *. simpl.
  apply (NoDup_Add (Add_app (id x) (map id l1) (map id l2))).
  split; assumption.
Qed.

(** ** [create_node] *)

Section CreateNode.

Variable create_name : list string -> string -> string.
Variable g : Graph.
Variable pt : InsertPoint.
Variable o : Op.
Variable t : Target.
Variable a : list Arg.
Variable c : string.

Let g' : Graph := fst (create_node create_name g pt o t a c).
Let n0 : Node := snd (create_node create_name g pt o t a c).

Lemma created_node :
  n0 = mkNode (next_id g) (create_name (used_names g) c) o t a [] [].
Proof. reflexivity. Qed.

Lemma nodes_create_node :
  nodes g' = map (add_user_if (args_nodes a) (next_id g))
               (insert_node pt n0 (nodes g)).
Proof. reflexivity. Qed.

Lemma next_id_create_node : next_id g' = S (next_id g).
Proof. reflexivity. Qed.

Hypothesis Hwf : well_formed g.

Lemma fresh_id_not_in : ~ In (next_id g) (ids g).
Proof.
  destruct Hwf as (_ & Hfresh & _). intros F.
  apply in_map_iff in F as [n [He Hn]]. apply Hfresh in Hn. lia.
Qed.

Lemma get_node_create_node_old (x : NodeId) :
  x <> next_id g ->
  get_node g' x
  = option_map (add_user_if (args_nodes a) (next_id g)) (get_node g x).
Proof.
  intros Hx. unfold get_node. rewrite nodes_create_node.
  rewrite find_node_map by (intros n; apply id_add_user_if).
  rewrite find_node_insert_other by exact Hx. reflexivity.
Qed.

Lemma get_node_create_node_new :
  get_node g' (next_id g)
  = Some (add_user_if (args_nodes a) (next_id g) n0).
Proof.
  unfold get_node. rewrite nodes_create_node.
  rewrite find_node_map by (intros n; apply id_add_user_if).
  pose proof (find_node_insert_new pt n0 (nodes g) fresh_id_not_in) as H.
  change (id n0) with (next_id g) in H. rewrite H. reflexivity.
Qed.

Lemma users_of_create_node_old (x : NodeId) (xn : Node) :
  get_node g x = Some xn ->
  users_of g' x
  = if mem_id x (args_nodes a) then users_add (next_id g) (users xn)
    else users xn.
Proof.
  intros Hx. unfold users_of.
  assert (Hne : x <> next_id g).
  { intros ->. apply fresh_id_not_in.
    destruct (get_node_In _ _ _ Hx) as [Hin <-]. apply in_map. exact Hin. }
  rewrite (get_node_create_node_old x Hne), Hx. simpl.
  rewrite users_add_user_if. destruct (get_node_In _ _ _ Hx) as [_ ->].
  reflexivity.
Qed.

Lemma users_of_create_node_old_of (x : NodeId) :
  get_node g x <> None ->
  users_of g' x
  = if mem_id x (args_nodes a) then users_add (next_id g) (users_of g x)
    else users_of g x.
Proof.
  intros Hx. destruct (get_node g x) as [xn|] eqn:E; [|contradiction].
  rewrite (users_of_create_node_old x xn E). unfold users_of. rewrite E.
  reflexivity.
Qed.

Lemma args_of_create_node_old (x : NodeId) :
  x <> next_id g -> args_of g' x = args_of g x.
Proof.
  intros Hx. unfold args_of. rewrite (get_node_create_node_old x Hx).
  destruct (get_node g x); simpl; [apply args_add_user_if | reflexivity].
Qed.

Lemma meta_of_create_node_old (x : NodeId) :
  x <> next_id g -> meta_of g' x = meta_of g x.
Proof.
  intros Hx. unfold meta_of. rewrite (get_node_create_node_old x Hx).
  destruct (get_node g x); simpl; [apply meta_add_user_if | reflexivity].
Qed.

Lemma well_formed_create_node : well_formed g'.
Proof.
  pose proof fresh_id_not_in as Hnew.
  destruct Hwf as (Hnd & Hfresh & Hsound & Hund).
  repeat split.
  - unfold ids. rewrite nodes_create_node, map_map.
    rewrite (map_ext _ id (id_add_user_if _ _)).
    apply NoDup_ids_insert; assumption.
  - intros n Hn. rewrite nodes_create_node in Hn.
    apply in_map_iff in Hn as [m [<- Hm]]. rewrite id_add_user_if.
    rewrite next_id_create_node.
    apply In_insert_node in Hm as [-> | Hm].
    + simpl. lia.
    + apply Hfresh in Hm. lia.
  - intros m' x Hm' Hx. rewrite nodes_create_node in Hm'.
    apply in_map_iff in Hm' as [m [<- Hm]].
    rewrite id_add_user_if. rewrite users_add_user_if in Hx.
    apply In_insert_node in Hm.
    destruct (Nat.eq_dec x (next_id g)) as [-> | Hxn].
    + exists (add_user_if (args_nodes a) (next_id g) n0). split.
      * apply get_node_create_node_new.
      * rewrite args_add_user_if. simpl.
        destruct (mem_id (id m) (args_nodes a)) eqn:E;
          [apply mem_id_In; exact E|].
        exfalso. destruct Hm as [-> | Hm]; [destruct Hx|].
        destruct (Hsound m _ Hm Hx) as [un [Hu _]].
        apply Hnew. destruct (get_node_In _ _ _ Hu) as [Hin <-].
        apply in_map. exact Hin.
    + assert (Hxm : In x (users m)).
      { destruct (mem_id (id m) (args_nodes a)); [|exact Hx].
        apply users_add_In in Hx as [Hx | Hx]; [contradiction | exact Hx]. }
      destruct Hm as [-> | Hm]; [destruct Hxm|].
      destruct (Hsound m x Hm Hxm) as [xn [Hxnode Hin]].
      exists (add_user_if (args_nodes a) (next_id g) xn). split.
      * rewrite (get_node_create_node_old x Hxn), Hxnode. reflexivity.
      * rewrite args_add_user_if. exact Hin.
  - intros m' Hm'. rewrite nodes_create_node in Hm'.
    apply in_map_iff in Hm' as [m [<- Hm]]. rewrite users_add_user_if.
    assert (Hm_nd : NoDup (users m)).
    { apply In_insert_node in Hm as [-> | Hm]; [constructor | apply Hund, Hm]. }
    destruct (mem_id (id m) (args_nodes a)); auto using users_add_NoDup.
Qed.

End CreateNode.

(** ** [erase_node] *)

Lemma find_node_filter_other (i x : NodeId) (l : list Node) :
  x <> i ->
  find_node x (filter (fun n => negb (Nat.eqb (id n) i)) l) = find_node x l.
Proof.
  intros Hx. unfold find_node. induction l as [|m r IH]; simpl.
  - reflexivity.
  - destruct (Nat.eqb (id m) i) eqn:Ei; simpl.
    + apply Nat.eqb_eq in Ei.
      destruct (Nat.eqb (id m) x) eqn:Ex; [|exact IH].
      apply Nat.eqb_eq in Ex. congruence.
    + destruct (Nat.eqb (id m) x); [reflexivity | exact IH].
Qed.

Lemma find_node_filter_self (i : NodeId) (l : list Node) :
  find_node i (filter (fun n => negb (Nat.eqb (id n) i)) l) = None.
Proof.
  apply find_node_None. intros F. apply in_map_iff in F as [n [He Hn]].
  apply filter_In in Hn as [_ Hn]. rewrite He, Nat.eqb_refl in Hn.
  discriminate.
Qed.

Lemma NoDup_ids_filter (p : Node -> bool) (l : list Node) :
  NoDup (map id l) -> NoDup (map id (filter p l)).
Proof.
  induction l as [|m r IH]; simpl; intros H; [constructor|].
  inversion H as [|? ? Hm Hr]; subst.
  destruct (p m); simpl; [|exact (IH Hr)].
  constructor; [|exact (IH Hr)].
  intros F. apply Hm. apply in_map_iff in F as [n [He Hn]].
  apply filter_In in Hn as [Hn _]. rewrite <- He. apply in_map. exact Hn.
Qed.

Lemma filter_out_unique (i : NodeId) (n : Node) (l1 l2 : list Node) :
  id n = i -> NoDup (map id (l1 ++ n :: l2)) ->
  filter (fun m => negb (Nat.eqb (id m) i)) (l1 ++ n :: l2) = (l1 ++ l2)%list.
Proof.
  intros Hn Hnd. rewrite map_app in Hnd. simpl in Hnd.
  apply NoDup_remove_2 in Hnd. rewrite Hn in Hnd.
  assert (Hkeep : forall l, ~ In i (map id l) ->
            filter (fun m => negb (Nat.eqb (id m) i)) l = l).
  { induction l as [|m r IH]; simpl; intros H; [reflexivity|].
    destruct (Nat.eqb (id m) i) eqn:E; simpl.
    - apply Nat.eqb_eq in E. exfalso. apply H. left. exact E.
    - rewrite IH; [reflexivity|]. intros F. apply H. right. exact F. }
  rewrite filter_app. simpl. rewrite Hn, Nat.eqb_refl. simpl.
  rewrite !Hkeep; [reflexivity| |];
    intros F; apply Hnd, in_app_iff; [right | left]; exact F.
Qed.

Lemma erase_node_ok (g : Graph) (i : NodeId) :
  users_of g i = [] ->
  erase_node g i
  = Ok (mkGraph
          (map (del_user_if (args_nodes (args_of g i)) i)
             (filter (fun n => negb (Nat.eqb (id n) i)) (nodes g)))
          (next_id g) (used_names g)).
Proof. intros H. unfold erase_node. rewrite H. reflexivity. Qed.

Lemma erase_node_inv (g g' : Graph) (i : NodeId) :
  erase_node g i = Ok g' ->
  users_of g i = []
  /\ g' = mkGraph
            (map (del_user_if (args_nodes (args_of g i)) i)
               (filter (fun n => negb (Nat.eqb (id n) i)) (nodes g)))
            (next_id g) (used_names g).
Proof.
  unfold erase_node. destruct (users_of g i) as [|x r]; intros H.
  - inversion H. split; reflexivity.
  - discriminate H.
Qed.

Section EraseNode.

Variable g g' : Graph.
Variable i : NodeId.
Hypothesis Herase : erase_node g i = Ok g'.

Lemma nodes_erase_node :
  nodes g' = map (del_user_if (args_nodes (args_of g i)) i)
               (filter (fun n => negb (Nat.eqb (id n) i)) (nodes g)).
Proof. destruct (erase_node_inv g g' i Herase) as [_ ->]. reflexivity. Qed.

Lemma next_id_erase_node : next_id g' = next_id g.
Proof. destruct (erase_node_inv g g' i Herase) as [_ ->]. reflexivity. Qed.

Lemma get_node_erase_node_self : get_node g' i = None.
Proof.
  unfold get_node. rewrite nodes_erase_node.
  rewrite find_node_map by (intros n; apply id_del_user_if).
  rewrite find_node_filter_self. reflexivity.
Qed.

Lemma get_node_erase_node_other (x : NodeId) :
  x <> i ->
  get_node g' x
  = option_map (del_user_if (args_nodes (args_of g i)) i) (get_node g x).
Proof.
  intros Hx. unfold get_node. rewrite nodes_erase_node.
  rewrite find_node_map by (intros n; apply id_del_user_if).
  rewrite find_node_filter_other by exact Hx. reflexivity.
Qed.

Lemma args_of_erase_node_other (x : NodeId) :
  x <> i -> args_of g' x = args_of g x.
Proof.
  intros Hx. unfold args_of. rewrite (get_node_erase_node_other x Hx).
  destruct (get_node g x); simpl; [apply args_del_user_if | reflexivity].
Qed.

Lemma meta_of_erase_node_other (x : NodeId) :
  x <> i -> meta_of g' x = meta_of g x.
Proof.
  intros Hx. unfold meta_of. rewrite (get_node_erase_node_other x Hx).
  destruct (get_node g x); simpl; [apply meta_del_user_if | reflexivity].
Qed.

Lemma users_of_erase_node_other (x : NodeId) :
  x <> i ->
  users_of g' x
  = if mem_id x (args_nodes (args_of g i)) then users_del i (users_of g x)
    else users_of g x.
Proof.
  intros Hx. unfold users_of. rewrite (get_node_erase_node_other x Hx).
  destruct (get_node g x) as [xn|] eqn:E; simpl.
  - rewrite users_del_user_if. destruct (get_node_In _ _ _ E) as [_ ->].
    reflexivity.
  - destruct (mem_id x _); reflexivity.
Qed.

Lemma skel_erase_node :
  map skel (nodes g')
  = map skel (filter (fun n => negb (Nat.eqb (id n) i)) (nodes g)).
Proof.
  rewrite nodes_erase_node. apply map_skel_map.
  intros n. apply skel_del_user_if.
Qed.

Hypothesis Hwf : well_formed g.

Lemma well_formed_erase_node : well_formed g'.
Proof.
  destruct Hwf as (Hnd & Hfresh & Hsound & Hund).
  repeat split.
  - unfold ids. rewrite nodes_erase_node, map_map.
    rewrite (map_ext _ id (id_del_user_if _ _)).
    apply NoDup_ids_filter. exact Hnd.
  - intros n Hn. rewrite nodes_erase_node in Hn.
    apply in_map_iff in Hn as [m [<- Hm]]. rewrite id_del_user_if.
    rewrite next_id_erase_node. apply filter_In in Hm as [Hm _].
    apply Hfresh, Hm.
  - intros m' x Hm' Hx. rewrite nodes_erase_node in Hm'.
    apply in_map_iff in Hm' as [m [<- Hm]].
    apply filter_In in Hm as [Hm Hmi].
    rewrite id_del_user_if. rewrite users_del_user_if in Hx.
    assert (Hxm : In x (users m)).
    { destruct (mem_id (id m) _); [apply users_del_In in Hx as [Hx _]|];
        exact Hx. }
    destruct (Hsound m x Hm Hxm) as [xn [Hxn Hin]].
    assert (Hxi : x <> i).
    { intros ->.
      assert (Hmem : mem_id (id m) (args_nodes (args_of g i)) = true).
      { apply mem_id_In. unfold args_of. rewrite Hxn. exact Hin. }
      rewrite Hmem in Hx. apply users_del_In in Hx as [_ Hx].
      apply Hx. reflexivity. }
    exists (del_user_if (args_nodes (args_of g i)) i xn). split.
    + rewrite (get_node_erase_node_other x Hxi), Hxn. reflexivity.
    + rewrite args_del_user_if. exact Hin.
  - intros m' Hm'. rewrite nodes_erase_node in Hm'.
    apply in_map_iff in Hm' as [m [<- Hm]]. apply filter_In in Hm as [Hm _].
    rewrite users_del_user_if.
    destruct (mem_id (id m) _); auto using users_del_NoDup.
Qed.

End EraseNode.

(** ** From the check that computes to well-formedness *)

Lemma check_graph_sound (g : Graph) :
  check_graph g = true -> well_formed g.
Proof.
  unfold check_graph. intros H.
  apply andb_true_iff in H as [H H3]. apply andb_true_iff in H as [H1 H2].
  rewrite forallb_forall in H2, H3.
  repeat split.
  - apply nodupb_NoDup. exact H1.
  - intros n Hn. apply Nat.ltb_lt. apply H2. exact Hn.
  - intros m u Hm Hu. specialize (H3 m Hm).
    apply andb_true_iff in H3 as [_ H3]. rewrite forallb_forall in H3.
    specialize (H3 u Hu).
    destruct (get_node g u) as [un|]; [|discriminate].
    exists un. split; [reflexivity | apply mem_id_In; exact H3].
  - intros m Hm. specialize (H3 m Hm).
    apply andb_true_iff in H3 as [H3 _]. apply nodupb_NoDup. exact H3.
Qed.

(** ** Counting by what a rewriting keeps *)

Lemma count_by_skel (p : Node -> bool) (q : NodeId * string * Op * Target -> bool)
    (l : list Node) :
  (forall n, p n = q (skel n)) ->
  List.length (filter p l) = List.length (filter q (map skel l)).
Proof.
  intros H. induction l as [|n r IH]; simpl; [reflexivity|].
  rewrite H. destruct (q (skel n)); simpl; rewrite IH; reflexivity.
Qed.

Lemma filter_id_absent {A : Type} (f : A -> NodeId) (i : NodeId)
    (l : list A) :
  ~ In i (map f l) -> filter (fun x => negb (Nat.eqb (f x) i)) l = l.
Proof.
  induction l as [|m r IH]; simpl; intros H; [reflexivity|].
  destruct (Nat.eqb (f m) i) eqn:E; simpl.
  - apply Nat.eqb_eq in E. exfalso. apply H. left. exact E.
  - rewrite IH; [reflexivity|]. intros F. apply H. right. exact F.
Qed.

Lemma skel_filter_id (i : NodeId) (l : list Node) :
  map skel (filter (fun n => negb (Nat.eqb (id n) i)) l)
  = filter (fun s => negb (Nat.eqb (fst (fst (fst s))) i)) (map skel l).
Proof.
  induction l as [|m r IH]; simpl; [reflexivity|].
  destruct (Nat.eqb (id m) i); simpl; rewrite IH; reflexivity.
Qed.

Lemma args_defined_spec (g : Graph) (n : Node) (i : NodeId) :
  args_defined g n = true -> In i (args_nodes (args n)) ->
  get_node g i <> None /\ i <> id n.
Proof.
  unfold args_defined. rewrite forallb_forall. intros H Hi.
  specialize (H i Hi). destruct (get_node g i); [|discriminate].
  split; [discriminate|]. apply negb_true_iff, Nat.eqb_neq in H. exact H.
Qed.

Lemma node_id_fresh (g : Graph) (i : NodeId) :
  well_formed g -> get_node g i <> None -> i < next_id g.
Proof.
  intros (_ & Hfresh & _) H. destruct (get_node g i) as [n|] eqn:E;
    [|contradiction].
  destruct (get_node_In _ _ _ E) as [Hin <-]. apply Hfresh, Hin.
Qed.

Lemma user_exists (g : Graph) (m : Node) (u : NodeId) :
  well_formed g -> In m (nodes g) -> In u (users m) ->
  get_node g u <> None /\ In (id m) (args_nodes (args_of g u)).
Proof.
  intros (_ & _ & Hsound & _) Hm Hu.
  destruct (Hsound m u Hm Hu) as [un [Hun Hin]].
  unfold args_of. rewrite Hun. split; [discriminate | exact Hin].
Qed.

Lemma skel_insert_after (a : NodeId) (x : Node) (l : list Node)
    (S1 S2 : list (NodeId * string * Op * Target))
    (s : NodeId * string * Op * Target) :
  map skel l = (S1 ++ s :: S2)%list ->
  fst (fst (fst s)) = a ->
  ~ In a (map (fun s => fst (fst (fst s))) S1) ->
  map skel (insert_after a x l) = (S1 ++ s :: skel x :: S2)%list.
Proof.
  revert l. induction S1 as [|s1 r IH]; intros l Hl Hs Hnot.
  - destruct l as [|n l']; [discriminate|]. simpl in Hl.
    inversion Hl as [[Hn Hl']]. simpl.
    assert (Hid : id n = a) by (rewrite <- Hs, <- Hn; reflexivity).
    rewrite Hid, Nat.eqb_refl. simpl. rewrite Hl'. reflexivity.
  - destruct l as [|n l']; [discriminate|]. simpl in Hl.
    inversion Hl as [[Hn Hl']]. simpl.
    destruct (Nat.eqb (id n) a) eqn:E.
    + apply Nat.eqb_eq in E. exfalso. apply Hnot. left.
      rewrite <- Hn. exact E.
    + simpl. rewrite (IH l' Hl' Hs); [reflexivity|].
      intros F. apply Hnot. right. exact F.
Qed.

Lemma ids_of_split (g : Graph) (n : Node) (pre post : list Node) :
  well_formed g -> nodes g = (pre ++ n :: post)%list ->
  ~ In (id n) (map id pre) /\ ~ In (id n) (map id post)
  /\ (forall m, In m pre \/ In m post -> id m < next_id g).
Proof.
  intros (Hnd & Hfresh & _) Hsplit. unfold ids in Hnd.
  rewrite Hsplit, map_app in Hnd. simpl in Hnd.
  apply NoDup_remove_2 in Hnd. repeat split.
  - intros F. apply Hnd, in_app_iff. left. exact F.
  - intros F. apply Hnd, in_app_iff. right. exact F.
  - intros m Hm. apply Hfresh. rewrite Hsplit. apply in_app_iff.
    destruct Hm as [Hm | Hm]; [left | right; right]; exact Hm.
Qed.

Lemma skel_ids (l : list Node) :
  map (fun s : NodeId * string * Op * Target => fst (fst (fst s)))
    (map skel l) = map id l.
Proof. rewrite map_map. reflexivity. Qed.

Lemma find_node_same_skel (l l' : list Node) (x : NodeId) (n : Node) :
  map skel l' = map skel l -> find_node x l = Some n ->
  exists n', find_node x l' = Some n' /\ skel n' = skel n.
Proof.
  revert l'. induction l as [|m r IH]; intros l' Hs Hf; [discriminate|].
  destruct l' as [|m' r']; [discriminate|].
  pose proof (f_equal (hd (skel m)) Hs) as Hm.
  pose proof (f_equal (@tl _) Hs) as Hr.
  change (skel m' = skel m) in Hm.
  change (map skel r' = map skel r) in Hr.
  unfold find_node in *. simpl in Hf |- *.
  rewrite (skel_id _ _ Hm).
  destruct (Nat.eqb (id m) x).
  - inversion Hf; subst n. exists m'. split; [reflexivity | exact Hm].
  - apply IH; assumption.
Qed.

Lemma get_node_same_skel (g g' : Graph) (x : NodeId) (n : Node) :
  map skel (nodes g') = map skel (nodes g) -> get_node g x = Some n ->
  exists n', get_node g' x = Some n' /\ skel n' = skel n.
Proof. apply find_node_same_skel. Qed.

Lemma skel_fields (m m' : Node) :
  skel m' = skel m -> name m' = name m /\ op m' = op m /\ target m' = target m.
Proof. unfold skel. intros H. inversion H. auto. Qed.

(** ** Counting placeholders across the rewritings *)

Lemma count_placeholders_skel (g g' : Graph) :
  map skel (nodes g') = map skel (nodes g) ->
  count_nodes is_placeholder g' = count_nodes is_placeholder g.
Proof.
  intros H. unfold count_nodes.
  rewrite !(count_by_skel is_placeholder
              (fun s => op_eqb (snd (fst s)) placeholder))
    by reflexivity.
  rewrite H. reflexivity.
Qed.

Lemma only_call_module_at_skel (i : NodeId) (g g' : Graph) :
  map skel (nodes g') = map skel (nodes g) ->
  next_id g' = next_id g ->
  only_call_module_at i g -> only_call_module_at i g'.
Proof.
  intros Hs Hn [Hop Hlt]. split; [|rewrite Hn; exact Hlt].
  intros n' Hin Hid.
  assert (Hsk : In (skel n') (map skel (nodes g)))
    by (rewrite <- Hs; apply in_map; exact Hin).
  apply in_map_iff in Hsk as [n [Hsn Hn_in]].
  destruct (f_equal (fun s => (fst (fst (fst s)), snd (fst s))) Hsn).
  assert (Hidn : id n = id n') by (apply skel_id; exact Hsn).
  assert (Hopn : op n = op n') by (apply skel_op; exact Hsn).
  rewrite <- Hopn. apply Hop; [exact Hn_in | congruence].
Qed.

Lemma count_placeholders_create_node
    (create_name : list string -> string -> string) (g : Graph)
    (pt : InsertPoint) (o : Op) (t : Target) (a : list Arg) (c : string) :
  count_nodes is_placeholder (fst (create_node create_name g pt o t a c))
  = count_nodes is_placeholder g
    + (if op_eqb o placeholder then 1 else 0).
Proof.
  unfold count_nodes.
  rewrite !(count_by_skel is_placeholder
              (fun s => op_eqb (snd (fst s)) placeholder))
    by reflexivity.
  rewrite nodes_create_node.
  rewrite map_skel_map by (intros n; apply skel_add_user_if).
  destruct (insert_node_split pt
              (snd (create_node create_name g pt o t a c)) (nodes g))
    as (l1 & l2 & Hl & ->).
  rewrite Hl, !map_app, !filter_app, !length_app. simpl.
  destruct (op_eqb o placeholder); simpl; lia.
Qed.

Lemma only_call_module_at_create_node
    (create_name : list string -> string -> string) (g : Graph)
    (pt : InsertPoint) (o : Op) (t : Target) (a : list Arg) (c : string)
    (i : NodeId) :
  only_call_module_at i g ->
  only_call_module_at i (fst (create_node create_name g pt o t a c)).
Proof.
  intros [Hop Hlt]. split; [|rewrite next_id_create_node; lia].
  intros n' Hin Hid. rewrite nodes_create_node in Hin.
  apply in_map_iff in Hin as [n [<- Hn]].
  rewrite id_add_user_if in Hid.
  destruct (skel_fields _ _ (skel_add_user_if (args_nodes a) (next_id g) n))
    as (_ & -> & _).
  apply In_insert_node in Hn as [-> | Hn].
  - simpl in Hid. lia.
  - apply Hop; assumption.
Qed.

Lemma count_placeholders_erase_call_module (g g' : Graph) (i : NodeId) :
  erase_node g i = Ok g' ->
  only_call_module_at i g ->
  count_nodes is_placeholder g' = count_nodes is_placeholder g.
Proof.
  intros Herase [Hop _]. unfold count_nodes.
  rewrite !(count_by_skel is_placeholder
              (fun s => op_eqb (snd (fst s)) placeholder))
    by reflexivity.
  rewrite (skel_erase_node _ _ _ Herase).
  rewrite <- !(count_by_skel is_placeholder) by reflexivity.
  induction (nodes g) as [|n r IH]; simpl; [reflexivity|].
  destruct (Nat.eqb (id n) i) eqn:E; simpl.
  - apply Nat.eqb_eq in E.
    assert (Hn : op n = call_module) by (apply Hop; [left; reflexivity | exact E]).
    unfold is_placeholder at 2. rewrite Hn. simpl.
    apply IH. intros m Hm. apply Hop. right. exact Hm.
  - destruct (is_placeholder n); simpl; rewrite IH; try reflexivity;
      intros m Hm; apply Hop; right; exact Hm.
Qed.

End FxFacts.

(* ===================================================================== *)
(** * Facts: the runtime module                                           *)
(* ===================================================================== *)

Module RuntimeFacts.

Import Runtime Demo.

Section Packing.

Variable d : ascii.

Lemma split_no_delim (s : string) :
  has_char d s = false -> split d s = [s].
Proof.
  induction s as [|c r IH]; simpl; intros H.
  - reflexivity.
  - apply orb_false_iff in H as [Hc Hr].
    rewrite Hc, (IH Hr). reflexivity.
Qed.

Lemma split_field_then_delim (s t : string) :
  has_char d s = false -> split d (s ++ String d t) = s :: split d t.
Proof.
  induction s as [|c r IH]; simpl; intros H.
  - rewrite Ascii.eqb_refl. reflexivity.
  - apply orb_false_iff in H as [Hc Hr].
    rewrite Hc, (IH Hr). reflexivity.
Qed.

Lemma split_join (names : list string) :
  names <> [] ->
  (forall s, In s names -> has_char d s = false) ->
  split d (join d names) = names.
Proof.
  induction names as [|x r IH]; intros Hne Hall.
  - contradiction.
  - destruct r as [|y r'].
    + simpl. apply split_no_delim. apply Hall. left. reflexivity.
    + change (join d (x :: y :: r')) with (x ++ String d (join d (y :: r'))).
      rewrite split_field_then_delim by (apply Hall; left; reflexivity).
      f_equal. apply IH.
      * discriminate.
      * intros s Hs. apply Hall. right. exact Hs.
Qed.

(** Packing forgets whether there was no name or one empty name. *)
Lemma join_nil_is_join_empty_name : join d [] = join d [EmptyString].
Proof. reflexivity. Qed.

End Packing.

(** C6, as amended: for every non-empty list of binding names none of which
    contains the delimiter, splitting the packed string on the delimiter
    gives the list back. *)
Theorem unpack_pack_nonempty (delim : ascii) (names : list string) :
  names <> [] ->
  (forall s, In s names -> has_char delim s = false) ->
  unpack_binding_names delim (_pack_binding_names delim names) = names.
Proof.
  intros Hne Hall. unfold unpack_binding_names, _pack_binding_names.
  apply split_join; assumption.
Qed.

Lemma unpack_pack_nonempty_witness :
  unpack_binding_names "%" (_pack_binding_names "%" ["x.0"; "x.1"])
  = ["x.0"; "x.1"].
Proof.
  apply (unpack_pack_nonempty "%" ["x.0"; "x.1"]).
  - discriminate.
  - intros s [H | [H | []]]; subst s; reflexivity.
Defined.

(** C6, as stated, fails on the empty list of names: it packs to the empty
    string, which splits into one empty name. *)
Lemma unpack_pack_fails_on_no_names :
  ~ (forall (delim : ascii) (names : list string),
       (forall s, In s names -> has_char delim s = false) ->
       unpack_binding_names delim (_pack_binding_names delim names) = names).
Proof.
  intros H.
  specialize (H "%"%char [] (fun s (F : In s []) => match F with end)).
  discriminate H.
Qed.

Section Constructor.

Variable delim : ascii.
Variable ABI_VERSION : string.
Variable current_device : Device.
Variable to_serialized_rt_device : Device -> string.
Variable pickle_b64 : CompilationSettings -> string.
Variable Engine_new : list Val -> Result Engine.
Variable as_cuda_tensor : Val -> Result Tensor.
Variable execute_engine : list Tensor -> Engine -> Result (list Tensor).

Local Abbreviation init :=
  (__init__ delim ABI_VERSION current_device to_serialized_rt_device
     pickle_b64 Engine_new).
Local Abbreviation record :=
  (engine_record delim ABI_VERSION to_serialized_rt_device pickle_b64).
Local Abbreviation fwd := (forward as_cuda_tensor execute_engine).

(** C9: whatever the type of a [serialized_engine] that is not [None], the
    constructor raises nothing of its own: the value goes, unchanged, into
    the fourth field of the record handed to the engine constructor, and the
    constructor returns or raises exactly as that call does. *)
Theorem init_passes_serialized_engine_unchecked
    (serialized_engine : Val) (nm : string)
    (ins outs : option (list string)) (st : CompilationSettings) :
  serialized_engine <> PyNone ->
  let info :=
    record nm (target_device_of current_device st) serialized_engine (or_empty ins)
      (or_empty outs) st in
  nth_error info 3 = Some serialized_engine
  /\ init serialized_engine nm ins outs st
     = (e <- Engine_new info ;;
        Ok (mkModule (or_empty ins) (or_empty outs) nm
              (hardware_compatible st) st (Some e))).
Proof.
  intros Hnone info. split.
  - reflexivity.
  - unfold __init__.
    destruct serialized_engine; try contradiction; reflexivity.
Qed.

(** C10: with an engine and as many inputs as input binding names, [forward]
    returns the only output tensor itself when the engine returns exactly
    one, and the tuple of all outputs, in order, otherwise. *)
Theorem forward_single_or_tuple
    (self : TorchTensorRTModule) (e : Engine) (inputs : list Val)
    (input_tensors outputs : list Tensor) :
  engine self = Some e ->
  List.length inputs = List.length (input_binding_names self) ->
  as_cuda_tensors as_cuda_tensor inputs = Ok input_tensors ->
  execute_engine input_tensors e = Ok outputs ->
  fwd self inputs
  = match outputs with
    | [t] => Ok (OneTensor t)
    | _ => Ok (TensorTuple outputs)
    end.
Proof.
  intros He Hlen Hin Hout. unfold forward.
  rewrite He, Hlen, Nat.eqb_refl. simpl.
  rewrite Hin. simpl. rewrite Hout. simpl.
  destruct outputs as [|t [|t' r]]; reflexivity.
Qed.

End Constructor.

Lemma init_passes_serialized_engine_unchecked_witness :
  __init__ "%" "5" (mkDevice "cuda:0") device_repr (fun _ => "meta")
    (fun info => Ok (mkEngine info)) (PyStr "not a bytearray") "m" None None
    (mkSettings None false [])
  = Ok (mkModule [] [] "m" false (mkSettings None false [])
          (Some (mkEngine
                   [PyStr "5"; PyStr "m_engine"; PyStr "cuda:0";
                    PyStr "not a bytearray"; PyStr ""; PyStr ""; PyStr "0";
                    PyStr "meta"]))).
Proof.
  refine (proj2 (init_passes_serialized_engine_unchecked "%" "5"
                   (mkDevice "cuda:0") device_repr (fun _ => "meta")
                   (fun info => Ok (mkEngine info)) (PyStr "not a bytearray")
                   "m" None None (mkSettings None false []) _)).
  discriminate.
Defined.

Lemma forward_single_or_tuple_witness :
  forward demo_tensor (fun ts _ => Ok ts) demo_module [PyInt 3]
  = Ok (OneTensor (mkTensor [] [] [3%Z])).
Proof.
  apply (forward_single_or_tuple demo_tensor (fun ts _ => Ok ts) demo_module
           (mkEngine []) [PyInt 3] [mkTensor [] [] [3%Z]]
           [mkTensor [] [] [3%Z]]); reflexivity.
Defined.

End RuntimeFacts.

(* ===================================================================== *)
(** * Facts: lifting the constants                                        *)
(* ===================================================================== *)

Module LiftFacts.

Import Fx Exporter FxFacts.

(** ** The two probes *)

Lemma probe_parameters_kind (names : list string) (tgt : string)
    (k : InputKind) (sd : Dict StateVal) :
  fst (probe_parameters names tgt k sd)
  = if mem_str tgt names then PARAMETER else k.
Proof.
  unfold mem_str. induction names as [|nm r IH]; simpl; [reflexivity|].
  destruct (String.eqb tgt nm); [reflexivity | exact IH].
Qed.

Lemma probe_buffers_kind (names : list string) (tgt : string)
    (k : InputKind) :
  probe_buffers names tgt k = if mem_str tgt names then BUFFER else k.
Proof.
  unfold mem_str. induction names as [|nm r IH]; simpl; [reflexivity|].
  destruct (String.eqb tgt nm); [reflexivity | exact IH].
Qed.

Lemma input_kind_of_closed (gm : GraphModule) (tgt : string)
    (sd : Dict StateVal) :
  input_kind_of gm tgt sd = kind_by_buffer_first gm tgt.
Proof.
  unfold input_kind_of, kind_by_buffer_first.
  rewrite probe_buffers_kind, probe_parameters_kind. reflexivity.
Qed.


(** ** The state dict keeps its keys *)

Lemma dict_get_set_other {V : Type} (d : Dict V) (k k' : string) (v : V) :
  k' <> k -> dict_get (dict_set d k v) k' = dict_get d k'.
Proof.
  intros Hk. induction d as [|[k0 v0] r IH]; simpl.
  - destruct (String.eqb k k') eqn:E; [|reflexivity].
    apply String.eqb_eq in E. congruence.
  - destruct (String.eqb k0 k) eqn:E; simpl.
    + apply String.eqb_eq in E. subst k0.
      destruct (String.eqb k k') eqn:E'; [|reflexivity].
      apply String.eqb_eq in E'. congruence.
    + destruct (String.eqb k0 k'); [reflexivity | exact IH].
Qed.

Lemma dict_mem_set {V : Type} (d : Dict V) (k k' : string) (v : V) :
  dict_mem d k = true -> dict_mem (dict_set d k v) k' = dict_mem d k'.
Proof.
  intros Hk. unfold dict_mem in *.
  destruct (String.eqb k' k) eqn:E.
  - apply String.eqb_eq in E. subst k'. rewrite dict_get_set_same.
    destruct (dict_get d k); [reflexivity | discriminate].
  - apply String.eqb_neq in E. rewrite dict_get_set_other by exact E.
    reflexivity.
Qed.

Lemma probe_parameters_keys (names : list string) (tgt : string)
    (k : InputKind) (sd : Dict StateVal) (key : string) :
  dict_mem (snd (probe_parameters names tgt k sd)) key = dict_mem sd key.
Proof.
  induction names as [|nm r IH]; simpl; [reflexivity|].
  destruct (String.eqb tgt nm); [|exact IH]. simpl.
  destruct (dict_get sd nm) as [v|] eqn:E; [|reflexivity].
  apply dict_mem_set. unfold dict_mem. rewrite E. reflexivity.
Qed.

(** ** One iteration of the loop *)

Section LiftNode.

Variable create_name : list string -> string -> string.
Variable gm : GraphModule.
Variable first : option Node.
Variable n : Node.
Variable st : LiftState.
Variable tgt : string.

Hypothesis Hwf : well_formed (ls_graph st).
Hypothesis Hn : In n (nodes (ls_graph st)).
Hypothesis Htgt : target n = TStr tgt.
Hypothesis Hmem : dict_mem (ls_state_dict st) tgt = true.

Let g : Graph := ls_graph st.
Let ph : NodeId := next_id g.
Let g1 : Graph :=
  fst (graph_placeholder create_name g (inserting_before first) tgt).
Let g3 : Graph :=
  set_meta_of
    (map_nodes (meta_at ph (copy_meta (meta n))) g1) ph "val"
    (MFake (from_tensor
              (state_tensor
                 (match dict_get (ls_state_dict st) tgt with
                  | Some v => v
                  | None => STensor (mkTensor [] [] [])
                  end)))).
Let g4 : Graph := replace_uses (id n) (ANode ph) (users_of g3 (id n)) g3.

Lemma lift_node_guards :
  lift_node create_name gm first n st
  = (g4' <- replace_all_uses_with g3 (id n) (ANode ph) ;;
     g5 <- erase_node g4' (id n) ;;
     Ok (mkLiftState g5
           (list_insert (ls_idx st)
              (mkInputSpec (kind_by_buffer_first gm tgt)
                 (create_name (used_names g) tgt) (TStr tgt))
              (ls_specs st))
           (snd (probe_parameters (named_parameters gm) tgt CONSTANT_TENSOR
                   (ls_state_dict st)))
           (S (ls_idx st)))).
Proof.
  unfold lift_node. rewrite Htgt. simpl target_in_state_dict.
  rewrite Hmem. simpl negb. cbv iota. simpl target_to_str.
  unfold g3, g1, g, ph. unfold dict_mem in Hmem.
  destruct (dict_get (ls_state_dict st) tgt) as [v|]; [|discriminate].
  rewrite <- input_kind_of_closed with (sd := ls_state_dict st).
  unfold input_kind_of.
  destruct (probe_parameters (named_parameters gm) tgt CONSTANT_TENSOR
              (ls_state_dict st)) as [k1 sd1].
  reflexivity.
Qed.

Lemma lift_g3_wf : well_formed g3.
Proof.
  unfold g3, set_meta_of. do 2 apply well_formed_meta_at.
  apply well_formed_create_node. exact Hwf.
Qed.

Lemma lift_n_below : id n < ph.
Proof. destruct Hwf as (_ & Hfresh & _). apply Hfresh, Hn. Qed.

Lemma lift_ph_not_n : ~ In (id n) (arg_nodes (ANode ph)).
Proof. simpl. intros [F | []]. pose proof lift_n_below. lia. Qed.

Lemma lift_replace_ok :
  replace_all_uses_with g3 (id n) (ANode ph) = Ok g4.
Proof.
  apply replace_all_uses_with_ok; [exact lift_g3_wf | exact lift_ph_not_n].
Qed.

Lemma lift_g4_wf : well_formed g4.
Proof. apply well_formed_replace_uses, lift_g3_wf. Qed.

Lemma lift_g4_clear : users_of g4 (id n) = [].
Proof.
  unfold g4. apply replace_uses_clears;
    [exact lift_g3_wf | exact lift_ph_not_n | tauto].
Qed.

Lemma lift_g4_skel : map skel (nodes g4) = map skel (nodes g1).
Proof.
  unfold g4. rewrite skel_replace_uses. unfold g3, set_meta_of.
  rewrite !skel_map_nodes by (intros m; apply skel_meta_at). reflexivity.
Qed.

(** The iteration returns; the graph stays well formed, the lifted node is
    gone, a placeholder has taken the next identity, and every other node
    keeps its identity, name, operation and target. *)
Lemma lift_node_returns :
  exists g5,
    lift_node create_name gm first n st
    = Ok (mkLiftState g5
            (list_insert (ls_idx st)
               (mkInputSpec (kind_by_buffer_first gm tgt)
                  (create_name (used_names g) tgt) (TStr tgt))
               (ls_specs st))
            (snd (probe_parameters (named_parameters gm) tgt
                    CONSTANT_TENSOR (ls_state_dict st)))
            (S (ls_idx st)))
    /\ well_formed g5
    /\ next_id g5 = S (next_id g)
    /\ get_node g5 (id n) = None
    /\ (forall x xn, x <> id n -> get_node g x = Some xn ->
          exists xn', get_node g5 x = Some xn' /\ skel xn' = skel xn).
Proof.
  pose proof (erase_node_ok g4 (id n) lift_g4_clear) as Herase.
  eexists. split.
  { rewrite lift_node_guards, lift_replace_ok. cbn [bind].
    rewrite Herase. reflexivity. }
  split; [exact (well_formed_erase_node _ _ _ Herase lift_g4_wf)|].
  split.
  { simpl. unfold g4. rewrite next_id_replace_uses. reflexivity. }
  split; [exact (get_node_erase_node_self _ _ _ Herase)|].
  intros x xn Hx Hxn.
  assert (Hxph : x <> next_id g).
  { intros ->. assert (get_node g (next_id g) <> None) by congruence.
    apply (node_id_fresh g _ Hwf) in H. lia. }
  assert (H1 : get_node g1 x
               = Some (add_user_if (args_nodes []) (next_id g) xn)).
  { unfold g1, graph_placeholder.
    rewrite (get_node_create_node_old _ _ _ _ _ _ _ x Hxph), Hxn.
    reflexivity. }
  destruct (get_node_same_skel g1 g4 x _ lift_g4_skel H1)
    as (x4 & Hx4 & Hsk4).
  eexists. split.
  - rewrite (get_node_erase_node_other _ _ _ Herase x Hx), Hx4.
    reflexivity.
  - rewrite skel_del_user_if, Hsk4. apply skel_add_user_if.
Qed.

End LiftNode.

(** ** The loop over the nodes *)

Lemma target_in_same_keys (sd sd' : Dict StateVal) (t : Target) :
  (forall k, dict_mem sd' k = dict_mem sd k) ->
  target_in_state_dict sd' t = target_in_state_dict sd t.
Proof. intros H. destruct t; simpl; [apply H | reflexivity]. Qed.

Lemma list_insert_middle {A : Type} (l1 l2 : list A) (x : A) :
  list_insert (List.length l1) x (l1 ++ l2)%list = (l1 ++ x :: l2)%list.
Proof.
  induction l1 as [|y r IH]; simpl.
  - destruct l2; reflexivity.
  - rewrite IH. reflexivity.
Qed.

Lemma find_same {A : Type} (f g : A -> bool) (l : list A) :
  (forall x, f x = g x) -> find f l = find g l.
Proof.
  intros H. induction l as [|x r IH]; simpl; [reflexivity|].
  rewrite (H x), IH. reflexivity.
Qed.

Section LiftLoop.

Variable create_name : list string -> string -> string.
Variable gm : GraphModule.
Variable first : option Node.

Lemma lift_nodes_skip (st : LiftState) (m m' : Node) (l : list Node) :
  get_node (ls_graph st) (id m) = Some m' -> skel m' = skel m ->
  op_eqb (op m) get_attr = false ->
  lift_nodes create_name gm first (map id (m :: l)) st
  = lift_nodes create_name gm first (map id l) st.
Proof.
  intros Hm Hsk Hop. simpl. rewrite Hm.
  destruct (skel_fields m m' Hsk) as (_ & -> & _). rewrite Hop.
  reflexivity.
Qed.

Lemma lift_nodes_broken_head (st : LiftState) (m m' : Node)
    (l : list Node) :
  get_node (ls_graph st) (id m) = Some m' -> skel m' = skel m ->
  is_broken_reference (ls_state_dict st) m = true ->
  lift_nodes create_name gm first (map id (m :: l)) st
  = Raise (ValueError (broken_reference m)).
Proof.
  intros Hm Hsk Hb. unfold is_broken_reference in Hb.
  apply andb_true_iff in Hb as [Hop Habs].
  destruct (skel_fields m m' Hsk) as (Hname & Hop' & Htgt').
  simpl. rewrite Hm, Hop', Hop. unfold lift_node.
  rewrite Htgt', Habs. simpl. unfold broken_reference.
  rewrite Hname, Htgt'. reflexivity.
Qed.

(** A get-attr node whose target is present is lifted, and the nodes
    still to visit stay in place. *)
Lemma lift_nodes_lift_head (st : LiftState) (m m' : Node) (l : list Node) :
  well_formed (ls_graph st) ->
  NoDup (map id (m :: l)) ->
  still_there st (m :: l) ->
  get_node (ls_graph st) (id m) = Some m' -> skel m' = skel m ->
  op_eqb (op m) get_attr = true ->
  target_in_state_dict (ls_state_dict st) (target m) = true ->
  exists st',
    lift_nodes create_name gm first (map id (m :: l)) st
    = lift_nodes create_name gm first (map id l) st'
    /\ well_formed (ls_graph st')
    /\ still_there st' l
    /\ (forall k, dict_mem (ls_state_dict st') k
                  = dict_mem (ls_state_dict st) k)
    /\ ls_idx st' = S (ls_idx st)
    /\ exists s,
         ls_specs st' = list_insert (ls_idx st) s (ls_specs st)
         /\ kind s = kind_by_buffer_first gm (target_to_str (target m))
         /\ spec_target s = target m.
Proof.
  intros Hwf Hnd Hthere Hm Hsk Hop Hpresent.
  destruct (skel_fields m m' Hsk) as (Hname & Hop' & Htgt').
  destruct (target m) as [tgt|f] eqn:Et; [|discriminate Hpresent].
  simpl in Hpresent.
  destruct (get_node_In _ _ _ Hm) as [Hin Hid].
  destruct (lift_node_returns create_name gm first m' st tgt Hwf Hin Htgt'
              Hpresent)
    as (g5 & Hrun & Hwf5 & _ & _ & Hkeep).
  eexists. split.
  { simpl. rewrite Hm, Hop', Hop, Hrun. reflexivity. }
  simpl. split; [exact Hwf5|]. split.
  { intros m2 Hm2. inversion Hnd as [|? ? Hhead Hrest]; subst.
    destruct (Hthere m2 (or_intror Hm2)) as (m2' & Hm2' & Hsk2).
    assert (Hne : id m2 <> id m').
    { rewrite Hid. intros F. apply Hhead. rewrite <- F. apply in_map.
      exact Hm2. }
    destruct (Hkeep (id m2) m2' Hne Hm2') as (x & Hx & Hxs).
    exists x. split; [exact Hx | congruence]. }
  split; [intros k; apply probe_parameters_keys|].
  split; [reflexivity|].
  eexists. split; [reflexivity|]. split; reflexivity.
Qed.

Lemma still_there_tail (st : LiftState) (m : Node) (l : list Node) :
  still_there st (m :: l) -> still_there st l.
Proof. intros H x Hx. apply H. right. exact Hx. Qed.

(** Without a broken reference the loop returns: the lifted specs, in the
    order of the get-attr nodes, sit together at the running index. *)
Lemma lift_nodes_returns (l : list Node) :
  forall (st : LiftState) (A B : list InputSpec),
  well_formed (ls_graph st) ->
  NoDup (map id l) ->
  still_there st l ->
  (forall m, In m l -> is_broken_reference (ls_state_dict st) m = false) ->
  ls_specs st = (A ++ B)%list ->
  List.length A = ls_idx st ->
  exists st' lifted,
    lift_nodes create_name gm first (map id l) st = Ok st'
    /\ ls_specs st' = (A ++ lifted ++ B)%list
    /\ map kind lifted = map (lifted_kind gm) (filter is_get_attr l)
    /\ map spec_target lifted = map target (filter is_get_attr l)
    /\ well_formed (ls_graph st').
Proof.
  induction l as [|m r IH]; intros st A B Hwf Hnd Hthere Hok Hspecs Hlen.
  - exists st, []. simpl.
    split; [reflexivity|]. split; [exact Hspecs|].
    split; [reflexivity|]. split; [reflexivity | exact Hwf].
  - destruct (Hthere m (or_introl eq_refl)) as (m' & Hm & Hsk).
    pose proof (Hok m (or_introl eq_refl)) as Hm_ok.
    unfold is_broken_reference in Hm_ok.
    destruct (op_eqb (op m) get_attr) eqn:Hop.
    + simpl in Hm_ok. apply negb_false_iff in Hm_ok.
      destruct (lift_nodes_lift_head st m m' r Hwf Hnd Hthere Hm Hsk Hop
                  Hm_ok)
        as (st1 & Hrun & Hwf1 & Hthere1 & Hkeys & Hidx & s & Hs & Hk & Ht).
      inversion Hnd as [|? ? _ Hnd_r]; subst.
      destruct (IH st1 (A ++ [s])%list B Hwf1 Hnd_r Hthere1) as
        (st' & lifted & Hrun' & Hspecs' & Hkinds & Htargets & Hwf').
      * intros x Hx. unfold is_broken_reference.
        rewrite (target_in_same_keys _ _ _ Hkeys).
        apply (Hok x (or_intror Hx)).
      * rewrite Hs, Hspecs, <- Hlen, list_insert_middle, <- app_assoc.
        reflexivity.
      * rewrite length_app, Hidx, Hlen. simpl. lia.
      * exists st', (s :: lifted). rewrite Hrun, Hrun'.
        split; [reflexivity|]. split.
        { rewrite Hspecs', <- app_assoc. reflexivity. }
        assert (Hga : is_get_attr m = true) by exact Hop.
        simpl filter. rewrite !Hga. simpl.
        rewrite Hkinds, Htargets, Hk, Ht.
        split; [reflexivity|]. split; [reflexivity | exact Hwf'].
    + rewrite (lift_nodes_skip st m m' r Hm Hsk Hop).
      inversion Hnd as [|? ? _ Hnd_r]; subst.
      destruct (IH st A B Hwf Hnd_r (still_there_tail st m r Hthere))
        as (st' & lifted & Hrun' & Hspecs' & Hkinds & Htargets & Hwf');
        try assumption.
      * intros x Hx. apply Hok. right. exact Hx.
      * exists st', lifted.
        assert (Hga : is_get_attr m = false) by exact Hop.
        simpl filter. rewrite !Hga.
        split; [exact Hrun'|]. split; [exact Hspecs'|].
        split; [exact Hkinds|]. split; [exact Htargets | exact Hwf'].
Qed.

(** The loop stops at the first broken reference in the order of the
    graph: the get-attr nodes before it are lifted, the ones after it are
    never looked at. *)
Lemma lift_nodes_first_broken (l : list Node) :
  forall (st : LiftState) (m : Node),
  well_formed (ls_graph st) ->
  NoDup (map id l) ->
  still_there st l ->
  find (is_broken_reference (ls_state_dict st)) l = Some m ->
  lift_nodes create_name gm first (map id l) st
  = Raise (ValueError (broken_reference m)).
Proof.
  induction l as [|h r IH]; intros st m Hwf Hnd Hthere Hfind.
  - discriminate Hfind.
  - destruct (Hthere h (or_introl eq_refl)) as (h' & Hh & Hsk).
    simpl in Hfind.
    destruct (is_broken_reference (ls_state_dict st) h) eqn:Hhead.
    + inversion Hfind; subst m.
      apply (lift_nodes_broken_head st h h' r Hh Hsk Hhead).
    + inversion Hnd as [|? ? _ Hnd_r]; subst.
      unfold is_broken_reference in Hhead.
      destruct (op_eqb (op h) get_attr) eqn:Hop.
      * simpl in Hhead. apply negb_false_iff in Hhead.
        destruct (lift_nodes_lift_head st h h' r Hwf Hnd Hthere Hh Hsk Hop
                    Hhead)
          as (st1 & Hrun & Hwf1 & Hthere1 & Hkeys & _).
        rewrite Hrun. apply (IH st1 m Hwf1 Hnd_r Hthere1).
        rewrite <- Hfind. apply find_same. intros x.
        unfold is_broken_reference.
        rewrite (target_in_same_keys _ _ _ Hkeys). reflexivity.
      * rewrite (lift_nodes_skip st h h' r Hh Hsk Hop).
        apply (IH st m Hwf Hnd_r (still_there_tail st h r Hthere) Hfind).
Qed.

End LiftLoop.

(** ** [lift] as a whole *)

Lemma still_there_initially (g : Graph) (specs : list InputSpec)
    (sd : Dict StateVal) (idx : nat) :
  well_formed g -> still_there (mkLiftState g specs sd idx) (nodes g).
Proof.
  intros Hwf m Hm. exists m. split; [|reflexivity]. simpl.
  apply get_node_of_In; [apply Hwf | exact Hm].
Qed.

Section Lift.

Variable create_name : list string -> string -> string.
Variable is_impure : Node -> bool.
Variable lint : Graph -> Result unit.
Variable detect_fake_mode : list MetaVal -> bool.

Local Abbreviation lift_ :=
  (lift create_name is_impure lint detect_fake_mode).

(** Without a broken reference, the lifted specs come first, in the order
    of the get-attr nodes of the graph and each with the kind the probes
    give its target; the specs of the signature follow, unchanged. *)
Lemma lift_specs_in_graph_order (gm : GraphModule)
    (sig : ExportGraphSignature) (vals : list MetaVal) :
  check_graph (graph gm) = true ->
  (forall m, In m (nodes (graph gm)) ->
     is_broken_reference (initial_state_dict gm) m = false) ->
  placeholder_vals (nodes (graph gm)) = Ok vals ->
  detect_fake_mode vals = true ->
  exists st' lifted,
    lift_ gm sig
    = (g <- clean_graph is_impure lint (ls_graph st') ;;
       Ok (set_graph gm g,
           mkSignature (lifted ++ input_specs sig) (output_specs sig),
           ls_state_dict st'))
    /\ map kind lifted
       = map (lifted_kind gm) (filter is_get_attr (nodes (graph gm)))
    /\ map spec_target lifted
       = map target (filter is_get_attr (nodes (graph gm))).
Proof.
  intros Hcheck Hok Hvals Hfake. apply check_graph_sound in Hcheck.
  destruct (lift_nodes_returns create_name gm
              (first_user_input (graph gm) sig) (nodes (graph gm))
              (mkLiftState (graph gm) (input_specs sig)
                 (initial_state_dict gm) 0)
              [] (input_specs sig) Hcheck)
    as (st' & lifted & Hrun & Hspecs & Hkinds & Htargets & _);
    try reflexivity.
  - apply Hcheck.
  - apply still_there_initially. exact Hcheck.
  - exact Hok.
  - exists st', lifted. split; [|split; assumption].
    unfold lift. rewrite Hvals. cbn [bind]. rewrite Hfake. cbn [assert bind].
    rewrite Hrun. cbn [bind]. rewrite Hspecs. reflexivity.
Qed.

(** C8, as amended: a well-formed graph with a get-attr node whose target
    is not in the state dict is never lifted.  [m] being the first such
    node in the order of the graph, [lift] raises the [KeyError] of a
    placeholder without ["val"] if there is one; otherwise the assertion
    error if no fake mode is found; otherwise the value error whose
    message names [m] and its target. *)
Theorem lift_broken_reference_raises (gm : GraphModule)
    (sig : ExportGraphSignature) (m : Node) :
  check_graph (graph gm) = true ->
  find (is_broken_reference (initial_state_dict gm)) (nodes (graph gm))
  = Some m ->
  (forall r, lift_ gm sig <> Ok r)
  /\ (forall e,
        placeholder_vals (nodes (graph gm)) = Raise e ->
        lift_ gm sig = Raise e)
  /\ (forall vals,
        placeholder_vals (nodes (graph gm)) = Ok vals ->
        detect_fake_mode vals = false ->
        lift_ gm sig = Raise (AssertionError ""))
  /\ (forall vals,
        placeholder_vals (nodes (graph gm)) = Ok vals ->
        detect_fake_mode vals = true ->
        lift_ gm sig
        = Raise (ValueError
                   ("The get_attr node : " ++ name m
                    ++ " with target: " ++ target_to_str (target m)
                    ++ " value could not be found in state_dict. Please check the input exported_program's graphmodule parameters."))).
Proof.
  intros Hcheck Hfirst. apply check_graph_sound in Hcheck.
  assert (Hnone : forall e,
            placeholder_vals (nodes (graph gm)) = Raise e ->
            lift_ gm sig = Raise e).
  { intros e He. unfold lift. rewrite He. reflexivity. }
  assert (Hassert : forall vals,
            placeholder_vals (nodes (graph gm)) = Ok vals ->
            detect_fake_mode vals = false ->
            lift_ gm sig = Raise (AssertionError "")).
  { intros vals Hvals Hfake. unfold lift. rewrite Hvals. cbn [bind].
    rewrite Hfake. reflexivity. }
  assert (Hraise : forall vals,
            placeholder_vals (nodes (graph gm)) = Ok vals ->
            detect_fake_mode vals = true ->
            lift_ gm sig = Raise (ValueError (broken_reference m))).
  { intros vals Hvals Hfake.
    unfold lift. rewrite Hvals. cbn [bind]. rewrite Hfake.
    cbn [assert bind].
    rewrite (lift_nodes_first_broken create_name gm
               (first_user_input (graph gm) sig) (nodes (graph gm))
               (mkLiftState (graph gm) (input_specs sig)
                  (initial_state_dict gm) 0) m Hcheck);
      [reflexivity | apply Hcheck | | exact Hfirst].
    apply still_there_initially. exact Hcheck. }
  split; [|split; [exact Hnone | split; [exact Hassert | exact Hraise]]].
  intros r Hr.
  destruct (placeholder_vals (nodes (graph gm))) as [vals|err] eqn:Hvals.
  - destruct (detect_fake_mode vals) eqn:Hfake.
    + rewrite (Hraise vals eq_refl Hfake) in Hr. discriminate Hr.
    + rewrite (Hassert vals eq_refl Hfake) in Hr. discriminate Hr.
  - rewrite (Hnone err eq_refl) in Hr. discriminate Hr.
Qed.

End Lift.

Lemma lift_broken_reference_raises_witness :
  find (is_broken_reference (initial_state_dict Demo.gm_broken))
    (nodes (graph Demo.gm_broken)) = Some Demo.get_w
  /\ lift Demo.keep_name Demo.demo_impure Demo.lint_ok
       Demo.fake_mode_found Demo.gm_broken
       (mkSignature [mkInputSpec USER_INPUT "x" (TStr "x")] [])
     = Raise (ValueError
                "The get_attr node : w with target: w value could not be found in state_dict. Please check the input exported_program's graphmodule parameters.").
Proof.
  split; [reflexivity|].
  exact (proj2 (proj2 (proj2 (lift_broken_reference_raises Demo.keep_name
                         Demo.demo_impure Demo.lint_ok Demo.fake_mode_found
                         Demo.gm_broken
                         (mkSignature
                            [mkInputSpec USER_INPUT "x" (TStr "x")] [])
                         Demo.get_w eq_refl eq_refl)))
           [MFake (mkFake [1]%Z [1]%Z)] eq_refl eq_refl).
Defined.

(** C8, as stated, fails for the second of two get-attr nodes whose
    targets are absent: the error names the first one, and the loop never
    reaches the second. *)
Lemma second_broken_reference_is_not_named :
  ~ (forall (gm : GraphModule) (sig : ExportGraphSignature) (n : Node),
       check_graph (graph gm) = true ->
       In n (nodes (graph gm)) ->
       is_broken_reference (initial_state_dict gm) n = true ->
       lift Demo.keep_name Demo.demo_impure Demo.lint_ok
         Demo.fake_mode_found gm sig
       = Raise (ValueError (broken_reference n))).
Proof.
  intros H.
  specialize (H Demo.gm_two_broken
                (mkSignature [mkInputSpec USER_INPUT "x" (TStr "x")] [])
                Demo.get_v eq_refl (or_intror (or_introl eq_refl)) eq_refl).
  vm_compute in H. discriminate H.
Qed.



(** In the model the hypothesis on the two name tables cannot be dropped:
    the buffer probe runs after the parameter probe, whatever that one
    found, and has the last word on a name listed in both. *)
Lemma buffer_probe_has_last_word :
  exists st',
    lift_node Demo.keep_name Demo.gm_both None Demo.get_w Demo.st_both
    = Ok st'
    /\ nth_error (ls_specs st') 0
       = Some (mkInputSpec BUFFER "w" (TStr "w")).
Proof. eexists. split; reflexivity. Qed.

(** C1, at a graph that reads a buffer before a parameter: the input specs
    [lift] returns start with the buffer, then the parameter, then the user
    input.  These are the specs [create_trt_exp_program] hands to the
    constructor of the exported program, whatever the constructor does
    with them, and the specs of the program when the constructor stores
    what it is given. *)
Theorem lift_keeps_graph_order_not_kind_order :
  exists gm' sig' sd',
    lift Demo.keep_name Demo.demo_impure Demo.lint_ok Demo.fake_mode_found
      Demo.gm_lift
      (mkSignature [mkInputSpec USER_INPUT "x" (TStr "x")]
         [mkOutputSpec "linear" (TFn (other_callable "linear"))])
    = Ok (gm', sig', sd')
    /\ map kind (input_specs sig') = [BUFFER; PARAMETER; USER_INPUT]
    /\ map spec_target (input_specs sig')
       = [TStr "bn.running_mean"; TStr "fc.weight"; TStr "x"]
    /\ (forall new,
          create_trt_exp_program Demo.keep_name Demo.demo_impure
            Demo.lint_ok Demo.fake_mode_found new Demo.gm_lift
          = new gm' (graph gm') sig' sd')
    /\ exists ep,
         create_trt_exp_program Demo.keep_name Demo.demo_impure
           Demo.lint_ok Demo.fake_mode_found Demo.stored Demo.gm_lift
         = Ok ep
         /\ map kind (input_specs (ep_signature ep))
            = [BUFFER; PARAMETER; USER_INPUT]
         /\ map spec_target (input_specs (ep_signature ep))
            = [TStr "bn.running_mean"; TStr "fc.weight"; TStr "x"].
Proof.
  destruct (lift Demo.keep_name Demo.demo_impure Demo.lint_ok
              Demo.fake_mode_found Demo.gm_lift
              (mkSignature [mkInputSpec USER_INPUT "x" (TStr "x")]
                 [mkOutputSpec "linear" (TFn (other_callable "linear"))]))
    as [[[gm' sig'] sd']|err] eqn:E; [|vm_compute in E; discriminate E].
  exists gm', sig', sd'. split; [reflexivity|].
  assert (Hnew : forall new,
            create_trt_exp_program Demo.keep_name Demo.demo_impure
              Demo.lint_ok Demo.fake_mode_found new Demo.gm_lift
            = new gm' (graph gm') sig' sd').
  { intros new. unfold create_trt_exp_program.
    change (filter (fun n => op_eqb (op n) output)
              (nodes (graph Demo.gm_lift)))
      with [mkNode 4 "output" output (TStr "output") [ATuple [ANode 3]] []
              []].
    cbv beta iota zeta.
    change (args (mkNode 4 "output" output (TStr "output")
                    [ATuple [ANode 3]] [] []))
      with [ATuple [ANode 3]].
    cbv beta iota.
    change (output_specs_of (graph Demo.gm_lift) [ANode 3])
      with (Ok [mkOutputSpec "linear" (TFn (other_callable "linear"))]).
    cbn [bind].
    change (map (fun n => mkInputSpec USER_INPUT (name n) (target n))
              (filter (fun n => op_eqb (op n) placeholder)
                 (nodes (graph Demo.gm_lift))))
      with [mkInputSpec USER_INPUT "x" (TStr "x")].
    rewrite E. reflexivity. }
  vm_compute in E. inversion E; subst gm' sig' sd'. clear E.
  split; [reflexivity|]. split; [reflexivity|].
  split; [exact Hnew|].
  eexists. split; [rewrite Hnew; reflexivity|]. split; reflexivity.
Qed.

End LiftFacts.

(* ===================================================================== *)
(** * Facts: inlining the accelerated submodules                          *)
(* ===================================================================== *)

Module TrtFacts.

Import Fx Exporter FxFacts.

(** ** The body of the loop, once its guards have passed *)

Lemma name_of_filtered (nm : string) (l rest : list Node) (tn : Node) :
  filter (fun n => String.eqb (name n) nm) l = tn :: rest ->
  In tn l /\ name tn = nm.
Proof.
  intros H.
  assert (Hin : In tn (filter (fun n => String.eqb (name n) nm) l))
    by (rewrite H; left; reflexivity).
  apply filter_In in Hin as [Hin He]. apply String.eqb_eq in He.
  split; assumption.
Qed.

(** Shapes the tensor library accepts: no negative size. *)
Lemma empty_strided_ones_returns (shp : list Z) :
  forallb (fun d => Z.leb 0 d) shp = true ->
  empty_strided_ones shp = Ok (ones_strided shp).
Proof.
  intros H. unfold empty_strided_ones.
  destruct (find (fun d => Z.ltb d 0) shp) as [d|] eqn:E; [|reflexivity].
  apply find_some in E as [Hin Hneg].
  rewrite forallb_forall in H. specialize (H d Hin).
  apply Z.leb_le in H. apply Z.ltb_lt in Hneg. lia.
Qed.

Lemma fake_outputs_returns (out_shapes : list (list Z)) :
  forallb (forallb (fun d => Z.leb 0 d)) out_shapes = true ->
  fake_outputs out_shapes = Ok (map ones_strided out_shapes).
Proof.
  induction out_shapes as [|shp r IH]; intros H; [reflexivity|].
  simpl in H. apply andb_true_iff in H as [Hs Hr].
  simpl. rewrite (empty_strided_ones_returns shp Hs). cbn [bind].
  rewrite (IH Hr). reflexivity.
Qed.

Lemma inline_trt_module_guards
    (create_name : list string -> string -> string)
    (outputs_map : Dict (list (list Z))) (gm : GraphModule) (nm : string)
    (trt_module : Submodule) (tn : Node) (rest : list Node)
    (eng : option Engine) (out_shapes : list (list Z)) :
  dict_get (named_children gm) nm = Some trt_module ->
  filter (fun n => String.eqb (name n) nm) (nodes (graph gm)) = tn :: rest ->
  args tn <> [] ->
  dict_get outputs_map nm = Some out_shapes ->
  out_shapes <> [] ->
  sm_engine trt_module = Some eng ->
  inline_trt_module create_name outputs_map gm nm
  = (vals <- fake_outputs out_shapes ;;
     let e := next_id (graph gm) in
     let g2 :=
       set_meta_of
         (set_meta_of
            (fst (graph_call_function create_name (graph gm)
                    (Before (id tn)) execute_engine_default
                    [ATuple (args tn); AEngine eng]))
            e "val" (MFakeList []))
         e "val" (MFakeList vals) in
     g5 <- (if Nat.eqb (List.length out_shapes) 1 then
              replace_all_uses_with
                (set_meta_of
                   (fst (graph_call_function create_name g2 (After e)
                           operator_getitem [ANode e; AInt 0]))
                   (S e) "val" (MFakeList vals))
                (id tn) (ANode (S e))
            else
              g3 <- replace_all_uses_with g2 (id tn) (ANode e) ;;
              backfill_users g3 (users_of g3 e) 0 vals) ;;
     g6 <- erase_node g5 (id tn) ;;
     Ok (set_graph gm g6)).
Proof.
  intros Hsub Hnode Hargs Hout Hne Heng.
  destruct (name_of_filtered _ _ _ _ Hnode) as [_ Hname].
  unfold inline_trt_module, getattr_module. rewrite Hsub. simpl.
  rewrite Hnode, Hname, Hout, Heng.
  destruct (args tn) as [|a0 ar] eqn:Ea; [contradiction|].
  destruct out_shapes as [|s0 sr]; [contradiction|].
  reflexivity.
Qed.

(** ** The loop over the children *)

Lemma inline_trt_children_app
    (create_name : list string -> string -> string)
    (outputs_map : Dict (list (list Z))) (l1 l2 : list string)
    (gm : GraphModule) :
  inline_trt_children create_name outputs_map gm (l1 ++ l2)%list
  = (gm1 <- inline_trt_children create_name outputs_map gm l1 ;;
     inline_trt_children create_name outputs_map gm1 l2).
Proof.
  revert gm. induction l1 as [|c r IH]; intros gm; [reflexivity|].
  simpl. destruct (negb (contains "_run_on_acc" c)); [apply IH|].
  destruct (inline_trt_module create_name outputs_map gm c) as [gm1|e];
    [apply IH | reflexivity].
Qed.

Lemma inline_trt_children_others
    (create_name : list string -> string -> string)
    (outputs_map : Dict (list (list Z))) (l : list string)
    (gm : GraphModule) :
  forallb (fun c => negb (contains "_run_on_acc" c)) l = true ->
  inline_trt_children create_name outputs_map gm l = Ok gm.
Proof.
  induction l as [|c r IH]; intros H; [reflexivity|].
  simpl in H. apply andb_true_iff in H as [Hc Hr].
  simpl. rewrite Hc. apply IH, Hr.
Qed.

(** The pass, seen from one accelerated child: the loop reaches it with
    the module [gm0] the earlier children left, runs the body on it, and
    goes on from the result over the later children. *)
Lemma inline_trt_modules_at
    (create_name : list string -> string -> string)
    (outputs_map : Dict (list (list Z))) (gm gm0 gm1 : GraphModule)
    (before after : list string) (nm : string) :
  map fst (named_children gm) = (before ++ nm :: after)%list ->
  contains "_run_on_acc" nm = true ->
  inline_trt_children create_name outputs_map gm before = Ok gm0 ->
  inline_trt_module create_name outputs_map gm0 nm = Ok gm1 ->
  inline_trt_children create_name outputs_map gm (before ++ [nm])%list
  = Ok gm1
  /\ inline_trt_modules create_name gm outputs_map
     = inline_trt_children create_name outputs_map gm1 after
  /\ (forallb (fun c => negb (contains "_run_on_acc" c)) after = true ->
      inline_trt_modules create_name gm outputs_map = Ok gm1).
Proof.
  intros Hch Hacc Hbefore Hstep.
  assert (H1 : inline_trt_children create_name outputs_map gm
                 (before ++ [nm])%list = Ok gm1).
  { rewrite inline_trt_children_app, Hbefore. cbn [bind].
    simpl. rewrite Hacc. simpl. rewrite Hstep. reflexivity. }
  assert (H2 : inline_trt_modules create_name gm outputs_map
               = inline_trt_children create_name outputs_map gm1 after).
  { unfold inline_trt_modules. rewrite Hch.
    change (before ++ nm :: after)%list
      with (before ++ [nm] ++ after)%list.
    rewrite app_assoc, inline_trt_children_app, H1. reflexivity. }
  split; [exact H1|]. split; [exact H2|].
  intros Hafter. rewrite H2.
  apply inline_trt_children_others, Hafter.
Qed.


(** ** Backfilling the metadata of the users *)

Lemma backfill_users_cons (g : Graph) (u : NodeId) (r : list NodeId)
    (idx : nat) (vals : list FakeTensor) (v : FakeTensor) :
  nth_error vals idx = Some v ->
  backfill_users g (u :: r) idx vals
  = backfill_users (set_meta_of g u "val" (MFake v)) r (S idx) vals.
Proof. intros H. simpl. rewrite H. reflexivity. Qed.

Lemma backfill_users_returns (vals : list FakeTensor) (us : list NodeId)
    (idx : nat) (g : Graph) :
  idx + List.length us <= List.length vals ->
  exists g', backfill_users g us idx vals = Ok g'.
Proof.
  revert idx g. induction us as [|u r IH]; intros idx g Hlen.
  - exists g. reflexivity.
  - simpl in Hlen.
    destruct (nth_error vals idx) as [v|] eqn:E.
    + rewrite (backfill_users_cons g u r idx vals v E).
      apply IH. lia.
    + apply nth_error_None in E. lia.
Qed.

Lemma backfill_users_overflow (vals : list FakeTensor) (us : list NodeId)
    (idx : nat) (g : Graph) :
  idx <= List.length vals ->
  List.length vals < idx + List.length us ->
  backfill_users g us idx vals = Raise IndexError.
Proof.
  revert idx g. induction us as [|u r IH]; intros idx g Hidx Hlen.
  - simpl in Hlen. lia.
  - simpl in Hlen. destruct (nth_error vals idx) as [v|] eqn:E.
    + rewrite (backfill_users_cons g u r idx vals v E).
      assert (idx < List.length vals)
        by (apply nth_error_Some; congruence).
      apply IH; lia.
    + simpl. rewrite E. reflexivity.
Qed.

(** What a successful backfill changes: the ["val"] entry of the user at
    position [k] becomes entry [idx + k]; wiring and skeleton stay. *)
Lemma backfill_users_spec (vals : list FakeTensor) (us : list NodeId)
    (idx : nat) (g g' : Graph) :
  backfill_users g us idx vals = Ok g' ->
  (well_formed g -> well_formed g')
  /\ map skel (nodes g') = map skel (nodes g)
  /\ (forall x, users_of g' x = users_of g x)
  /\ (forall x, args_of g' x = args_of g x)
  /\ (forall x, get_node g' x = None <-> get_node g x = None)
  /\ (forall x, ~ In x us -> meta_of g' x = meta_of g x)
  /\ (NoDup us ->
      forall k u, nth_error us k = Some u -> get_node g u <> None ->
        dict_get (meta_of g' u) "val"
        = option_map MFake (nth_error vals (idx + k))).
Proof.
  revert idx g. induction us as [|u r IH]; intros idx g Hrun.
  - simpl in Hrun. inversion Hrun; subst g'.
    split; [|split; [|split; [|split; [|split; [|split]]]]];
      try tauto; try reflexivity; try (intros; reflexivity).
    intros _ k u Hk. destruct k; discriminate Hk.
  - simpl in Hrun. destruct (nth_error vals idx) as [v|] eqn:E;
      [|discriminate Hrun].
    destruct (IH _ _ Hrun) as (Hwf & Hskel & Husers & Hargs & Hnone & Hmeta
                               & Hval).
    unfold set_meta_of in *.
    split; [|split; [|split; [|split; [|split; [|split]]]]].
    + intros H. apply Hwf, well_formed_meta_at, H.
    + rewrite Hskel. apply skel_map_nodes. intros n. apply skel_meta_at.
    + intros x. rewrite Husers. apply users_of_meta_at.
    + intros x. rewrite Hargs. apply args_of_meta_at.
    + intros x. rewrite Hnone. apply get_node_meta_at_None.
    + intros x Hx. rewrite Hmeta by (intros F; apply Hx; right; exact F).
      unfold meta_of.
      rewrite (get_node_map_nodes _ g x (id_meta_at _ _)).
      destruct (get_node g x) as [xn|] eqn:Ex; [|reflexivity]. simpl.
      unfold meta_at. destruct (get_node_In _ _ _ Ex) as [_ ->].
      destruct (Nat.eqb x u) eqn:Exu; [|reflexivity].
      apply Nat.eqb_eq in Exu. exfalso. apply Hx. left. congruence.
    + intros Hnd k x Hk Hex. inversion Hnd as [|? ? Hur Hr]; subst.
      destruct k as [|k]; simpl in Hk.
      * inversion Hk; subst x. rewrite Hmeta by exact Hur.
        destruct (get_node g u) as [un|] eqn:Eu; [|contradiction].
        rewrite (meta_of_meta_at u _ g u un Eu), Nat.eqb_refl.
        rewrite dict_get_set_same, Nat.add_0_r, E. reflexivity.
      * rewrite (Hval Hr k x Hk).
        -- f_equal. f_equal. lia.
        -- intros F. apply get_node_meta_at_None in F. exact (Hex F).
Qed.

(** ** The engine-call node and its metadata *)

Section Inlining.

Variable create_name : list string -> string -> string.
Variable g : Graph.
Variable tn : Node.
Variable eng : option Engine.
Variable vals : list FakeTensor.

Hypothesis Hwf : well_formed g.
Hypothesis Htn : In tn (nodes g).
Hypothesis Hdef : args_defined g tn = true.

Let e : NodeId := next_id g.
Let a_e : list Arg := [ATuple (args tn); AEngine eng].
Let g1 : Graph :=
  fst (graph_call_function create_name g (Before (id tn))
         execute_engine_default a_e).
Let g2 : Graph :=
  set_meta_of (set_meta_of g1 e "val" (MFakeList [])) e "val"
    (MFakeList vals).
Let skel_e : NodeId * string * Op * Target :=
  (e, create_name (used_names g) "execute_engine_default", call_function,
   TFn execute_engine_default).

Lemma engine_args_nodes : args_nodes a_e = args_nodes (args tn).
Proof.
  unfold a_e, args_nodes. simpl. rewrite !app_nil_r. reflexivity.
Qed.

Lemma tn_below : id tn < e.
Proof. destruct Hwf as (_ & Hfresh & _). apply Hfresh, Htn. Qed.

Lemma engine_args_below (i : NodeId) :
  In i (args_nodes a_e) -> i < e /\ i <> id tn.
Proof.
  rewrite engine_args_nodes. intros Hi.
  destruct (args_defined_spec g tn i Hdef Hi) as [Hex Hne].
  split; [apply node_id_fresh; assumption | exact Hne].
Qed.

Lemma engine_stage_wf : well_formed g2.
Proof.
  unfold g2, set_meta_of. do 2 apply well_formed_meta_at.
  apply well_formed_create_node. exact Hwf.
Qed.

Lemma engine_stage_next_id : next_id g2 = S e.
Proof. reflexivity. Qed.

Lemma engine_stage_args_old (x : NodeId) :
  x <> e -> args_of g2 x = args_of g x.
Proof.
  intros Hx. unfold g2, set_meta_of. rewrite !args_of_meta_at.
  apply args_of_create_node_old; assumption.
Qed.

Lemma engine_stage_get_old_None (x : NodeId) :
  x <> e -> get_node g2 x = None <-> get_node g x = None.
Proof.
  intros Hx. unfold g2, set_meta_of. rewrite !get_node_meta_at_None.
  unfold g1, graph_call_function.
  rewrite (get_node_create_node_old _ _ _ _ _ _ _ x Hx).
  destruct (get_node g x); simpl; split; congruence.
Qed.

Lemma engine_stage_users_old (x : NodeId) (xn : Node) :
  get_node g x = Some xn -> ~ In x (args_nodes (args tn)) ->
  users_of g2 x = users xn.
Proof.
  intros Hx Hnot. unfold g2, set_meta_of. rewrite !users_of_meta_at.
  unfold g1, graph_call_function.
  rewrite (users_of_create_node_old _ _ _ _ _ _ _ Hwf x xn Hx).
  fold a_e. rewrite engine_args_nodes.
  apply mem_id_not_In in Hnot. rewrite Hnot. reflexivity.
Qed.

Lemma engine_stage_users_tn : users_of g2 (id tn) = users tn.
Proof.
  apply engine_stage_users_old.
  - apply get_node_of_In; [apply Hwf | exact Htn].
  - intros F. destruct (args_defined_spec g tn _ Hdef F) as [_ Hne].
    apply Hne. reflexivity.
Qed.

Lemma engine_stage_meta_old (x : NodeId) :
  x <> e -> meta_of g2 x = meta_of g x.
Proof.
  intros Hx. unfold g2, set_meta_of.
  assert (H1 : meta_of g1 x = meta_of g x)
    by (apply meta_of_create_node_old; assumption).
  unfold meta_of in *.
  rewrite !(get_node_map_nodes _ _ x (id_meta_at _ _)).
  destruct (get_node g1 x) as [xn|] eqn:E; simpl.
  - destruct (get_node_In _ _ _ E) as [_ Hid].
    unfold meta_at at 2. rewrite Hid.
    apply Nat.eqb_neq in Hx. rewrite Hx.
    unfold meta_at. rewrite Hid, Hx. exact H1.
  - exact H1.
Qed.

Lemma engine_stage_node :
  exists en,
    get_node g2 e = Some en
    /\ users en = []
    /\ args en = a_e
    /\ dict_get (meta en) "val" = Some (MFakeList vals)
    /\ skel en = skel_e.
Proof.
  assert (H1 : get_node g1 e
               = Some (add_user_if (args_nodes a_e) e
                         (mkNode e
                            (create_name (used_names g)
                               "execute_engine_default")
                            call_function (TFn execute_engine_default) a_e
                            [] []))).
  { unfold g1, graph_call_function.
    exact (get_node_create_node_new _ _ _ _ _ _ _ Hwf). }
  assert (Hmem : mem_id e (args_nodes a_e) = false).
  { apply mem_id_not_In. intros F. apply engine_args_below in F. lia. }
  unfold add_user_if in H1. simpl id in H1. rewrite Hmem in H1.
  unfold g2, set_meta_of.
  rewrite !(get_node_map_nodes _ _ e (id_meta_at _ _)), H1.
  simpl. unfold meta_at. simpl. rewrite !Nat.eqb_refl. simpl.
  eexists. split; [reflexivity|]. repeat split.
Qed.

Lemma engine_stage_skel (pre0 post0 : list Node) :
  nodes g = (pre0 ++ tn :: post0)%list ->
  map skel (nodes g2)
  = (map skel pre0 ++ skel_e :: skel tn :: map skel post0)%list.
Proof.
  intros Hsplit. unfold g2, set_meta_of.
  rewrite !skel_map_nodes by (intros n; apply skel_meta_at).
  unfold g1, graph_call_function. rewrite nodes_create_node.
  rewrite map_skel_map by (intros n; apply skel_add_user_if).
  simpl insert_node. rewrite Hsplit.
  rewrite insert_before_at; [|reflexivity|].
  - rewrite map_app. reflexivity.
  - destruct Hwf as (Hnd & _). unfold ids in Hnd. rewrite Hsplit in Hnd.
    rewrite map_app in Hnd. simpl in Hnd.
    apply NoDup_remove_2 in Hnd. intros F. apply Hnd, in_app_iff.
    left. exact F.
Qed.


(** ** One declared output: the index-access node *)

Let gi : NodeId := S e.
Let g3 : Graph :=
  fst (graph_call_function create_name g2 (After e) operator_getitem
         [ANode e; AInt 0]).
Let g4 : Graph := set_meta_of g3 gi "val" (MFakeList vals).
Let g5 : Graph := replace_uses (id tn) (ANode gi) (users tn) g4.
Let skel_gi : NodeId * string * Op * Target :=
  (gi, create_name (used_names g2) "getitem", call_function,
   TFn operator_getitem).

Lemma getitem_stage_wf : well_formed g4.
Proof.
  unfold g4, set_meta_of. apply well_formed_meta_at.
  apply well_formed_create_node. exact engine_stage_wf.
Qed.

Lemma tn_in_g2 : get_node g2 (id tn) <> None.
Proof.
  intros F. apply engine_stage_get_old_None in F.
  - rewrite (get_node_of_In g tn) in F; [discriminate | apply Hwf | exact Htn].
  - pose proof tn_below. lia.
Qed.

Lemma getitem_stage_users_tn : users_of g4 (id tn) = users tn.
Proof.
  unfold g4, set_meta_of. rewrite users_of_meta_at.
  unfold g3, graph_call_function.
  rewrite (users_of_create_node_old_of _ _ _ _ _ _ _ engine_stage_wf
             (id tn) tn_in_g2).
  assert (Hmem : mem_id (id tn) (args_nodes [ANode e; AInt 0]) = false).
  { apply mem_id_not_In. simpl. intros [F | []]. pose proof tn_below. lia. }
  rewrite Hmem. exact engine_stage_users_tn.
Qed.

Lemma getitem_stage_node :
  exists gn,
    get_node g4 gi = Some gn
    /\ users gn = []
    /\ args gn = [ANode e; AInt 0]
    /\ dict_get (meta gn) "val" = Some (MFakeList vals)
    /\ skel gn = skel_gi.
Proof.
  assert (H3 : get_node g3 gi
               = Some (add_user_if (args_nodes [ANode e; AInt 0]) gi
                         (mkNode gi (create_name (used_names g2) "getitem")
                            call_function (TFn operator_getitem)
                            [ANode e; AInt 0] [] []))).
  { unfold g3, graph_call_function.
    exact (get_node_create_node_new _ _ _ _ _ _ _ engine_stage_wf). }
  assert (Hmem : mem_id gi (args_nodes [ANode e; AInt 0]) = false).
  { apply mem_id_not_In. simpl. intros [F | []]. unfold gi in F. lia. }
  unfold add_user_if in H3. simpl id in H3. rewrite Hmem in H3.
  unfold g4, set_meta_of.
  rewrite (get_node_map_nodes _ _ gi (id_meta_at _ _)), H3.
  simpl. unfold meta_at. simpl. rewrite Nat.eqb_refl. simpl.
  eexists. split; [reflexivity|]. repeat split.
Qed.

Lemma getitem_stage_args_old (x : NodeId) :
  x < e -> args_of g4 x = args_of g x.
Proof.
  intros Hx. unfold g4, set_meta_of. rewrite args_of_meta_at.
  unfold g3, graph_call_function.
  rewrite args_of_create_node_old by (rewrite engine_stage_next_id; lia).
  apply engine_stage_args_old. lia.
Qed.

Lemma getitem_stage_skel (pre0 post0 : list Node) :
  nodes g = (pre0 ++ tn :: post0)%list ->
  map skel (nodes g4)
  = (map skel pre0 ++ skel_e :: skel_gi :: skel tn :: map skel post0)%list.
Proof.
  intros Hsplit. unfold g4, set_meta_of.
  rewrite skel_map_nodes by (intros n; apply skel_meta_at).
  unfold g3, graph_call_function. rewrite nodes_create_node.
  rewrite map_skel_map by (intros n; apply skel_add_user_if).
  simpl insert_node.
  apply skel_insert_after.
  - apply engine_stage_skel. exact Hsplit.
  - reflexivity.
  - rewrite skel_ids. intros F.
    destruct (ids_of_split g tn pre0 post0 Hwf Hsplit) as (_ & _ & Hlt).
    apply in_map_iff in F as [m [He Hm]].
    specialize (Hlt m (or_introl Hm)). fold e in Hlt. lia.
Qed.

Lemma users_tn_in_g4 (u : NodeId) :
  In u (users tn) ->
  get_node g4 u <> None /\ In (id tn) (args_nodes (args_of g4 u)).
Proof.
  intros Hu. rewrite <- getitem_stage_users_tn in Hu.
  unfold users_of in Hu.
  destruct (get_node g4 (id tn)) as [tn4|] eqn:E; [|destruct Hu].
  destruct (get_node_In _ _ _ E) as [Hin Hid]. rewrite <- Hid.
  apply (user_exists g4 tn4 u getitem_stage_wf Hin Hu).
Qed.

Lemma users_tn_old (u : NodeId) :
  In u (users tn) -> u < e /\ u <> id tn.
Proof.
  intros Hu. destruct (user_exists g tn u Hwf Htn Hu) as [Hex Hmention].
  split; [apply node_id_fresh; assumption|].
  intros ->. unfold args_of in Hmention.
  rewrite (get_node_of_In g tn) in Hmention by (apply Hwf || exact Htn).
  destruct (args_defined_spec g tn _ Hdef Hmention) as [_ Hne].
  apply Hne. reflexivity.
Qed.

Lemma single_replace_ok :
  replace_all_uses_with g4 (id tn) (ANode gi) = Ok g5.
Proof.
  rewrite replace_all_uses_with_ok.
  - rewrite getitem_stage_users_tn. reflexivity.
  - exact getitem_stage_wf.
  - simpl. intros [F | []]. pose proof tn_below. unfold gi in F. lia.
Qed.

Lemma single_wf : well_formed g5.
Proof. apply well_formed_replace_uses, getitem_stage_wf. Qed.

Lemma users_tn_NoDup : NoDup (users tn).
Proof. destruct Hwf as (_ & _ & _ & Hund). apply Hund, Htn. Qed.

Lemma single_users_getitem : users_of g5 gi = users tn.
Proof.
  destruct getitem_stage_node as (gn & Hgn & Husers & _).
  unfold g5.
  rewrite (users_of_replace_uses_new (id tn) gi (users tn) g4 gn
             users_tn_NoDup Hgn).
  - rewrite Husers. reflexivity.
  - exact users_tn_in_g4.
  - rewrite Husers. intros x [].
Qed.

Lemma single_users_tn : users_of g5 (id tn) = [].
Proof.
  unfold g5. apply replace_uses_clears.
  - exact getitem_stage_wf.
  - simpl. intros [F | []]. pose proof tn_below. unfold gi in F. lia.
  - intros x Hx. rewrite getitem_stage_users_tn in Hx. exact Hx.
Qed.

Lemma single_args_users (u : NodeId) :
  In u (users tn) ->
  args_of g5 u
  = map (map_arg (maybe_replace_node (id tn) (ANode gi))) (args_of g u).
Proof.
  intros Hu. unfold g5.
  rewrite args_of_replace_uses;
    [|exact users_tn_NoDup | intros u' Hu'; apply users_tn_in_g4, Hu'].
  assert (Hmem : mem_id u (users tn) = true) by (apply mem_id_In; exact Hu).
  rewrite Hmem, getitem_stage_args_old; [reflexivity|].
  apply users_tn_old, Hu.
Qed.

Lemma single_args_getitem : args_of g5 gi = [ANode e; AInt 0].
Proof.
  destruct getitem_stage_node as (gn & Hgn & _ & Hargs & _).
  unfold g5.
  rewrite args_of_replace_uses;
    [|exact users_tn_NoDup | intros u' Hu'; apply users_tn_in_g4, Hu'].
  assert (Hmem : mem_id gi (users tn) = false).
  { apply mem_id_not_In. intros F. apply users_tn_old in F. unfold gi in F.
    lia. }
  rewrite Hmem. unfold args_of. rewrite Hgn. exact Hargs.
Qed.

Lemma filter_tn_out (S1 S2 : list Node)
    (mid : list (NodeId * string * Op * Target)) :
  nodes g = (S1 ++ tn :: S2)%list ->
  ~ In (id tn) (map (fun s => fst (fst (fst s))) mid) ->
  filter (fun s => negb (Nat.eqb (fst (fst (fst s))) (id tn)))
    (map skel S1 ++ mid ++ skel tn :: map skel S2)%list
  = (map skel S1 ++ mid ++ map skel S2)%list.
Proof.
  intros Hsplit Hmid.
  destruct (ids_of_split g tn S1 S2 Hwf Hsplit) as (Hpre & Hpost & _).
  rewrite !filter_app. simpl. rewrite Nat.eqb_refl. simpl.
  rewrite !(filter_id_absent (fun s => fst (fst (fst s)))); try reflexivity;
    try (rewrite skel_ids); assumption.
Qed.

(** What the single-output branch leaves once the call-module node is
    erased. *)
Lemma single_erased :
  exists g6,
    erase_node g5 (id tn) = Ok g6
    /\ well_formed g6
    /\ get_node g6 (id tn) = None
    /\ users_of g6 gi = users tn
    /\ args_of g6 gi = [ANode e; AInt 0]
    /\ (forall u, In u (users tn) ->
          args_of g6 u
          = map (map_arg (maybe_replace_node (id tn) (ANode gi)))
              (args_of g u))
    /\ (forall pre0 post0, nodes g = (pre0 ++ tn :: post0)%list ->
          map skel (nodes g6)
          = (map skel pre0 ++ skel_e :: skel_gi :: map skel post0)%list).
Proof.
  pose proof (erase_node_ok g5 (id tn) single_users_tn) as Herase.
  eexists. split; [exact Herase|].
  pose proof tn_below as Hlt.
  assert (Hgi : gi <> id tn) by (unfold gi; lia).
  repeat split.
  - apply (well_formed_erase_node _ _ _ Herase single_wf).
  - apply (well_formed_erase_node _ _ _ Herase single_wf).
  - apply (well_formed_erase_node _ _ _ Herase single_wf).
  - apply (well_formed_erase_node _ _ _ Herase single_wf).
  - apply (get_node_erase_node_self _ _ _ Herase).
  - rewrite (users_of_erase_node_other _ _ _ Herase gi Hgi).
    rewrite single_users_getitem.
    rewrite users_del_absent;
      [destruct (mem_id gi _); reflexivity|].
    intros F. apply users_tn_old in F. destruct F as [_ F]. apply F.
    reflexivity.
  - rewrite (args_of_erase_node_other _ _ _ Herase gi Hgi).
    exact single_args_getitem.
  - intros u Hu.
    rewrite (args_of_erase_node_other _ _ _ Herase u);
      [apply single_args_users, Hu | apply users_tn_old, Hu].
  - intros pre0 post0 Hsplit.
    rewrite (skel_erase_node _ _ _ Herase), skel_filter_id.
    unfold g5. rewrite skel_replace_uses.
    rewrite (getitem_stage_skel pre0 post0 Hsplit).
    apply (filter_tn_out pre0 post0 [skel_e; skel_gi] Hsplit).
    simpl. unfold gi. intros [F | [F | []]]; lia.
Qed.

(** ** Several declared outputs: the users go to the engine-call node *)

Let g3m : Graph := replace_uses (id tn) (ANode e) (users tn) g2.

Lemma users_tn_in_g2 (u : NodeId) :
  In u (users tn) ->
  get_node g2 u <> None /\ In (id tn) (args_nodes (args_of g2 u)).
Proof.
  intros Hu. rewrite <- engine_stage_users_tn in Hu.
  unfold users_of in Hu.
  destruct (get_node g2 (id tn)) as [tn2|] eqn:E; [|destruct Hu].
  destruct (get_node_In _ _ _ E) as [Hin Hid]. rewrite <- Hid.
  apply (user_exists g2 tn2 u engine_stage_wf Hin Hu).
Qed.

Lemma engine_not_tn : ~ In (id tn) (arg_nodes (ANode e)).
Proof. simpl. intros [F | []]. pose proof tn_below. lia. Qed.

Lemma multi_replace_ok :
  replace_all_uses_with g2 (id tn) (ANode e) = Ok g3m.
Proof.
  rewrite replace_all_uses_with_ok.
  - rewrite engine_stage_users_tn. reflexivity.
  - exact engine_stage_wf.
  - exact engine_not_tn.
Qed.

Lemma multi_wf : well_formed g3m.
Proof. apply well_formed_replace_uses, engine_stage_wf. Qed.

Lemma multi_users_engine : users_of g3m e = users tn.
Proof.
  destruct engine_stage_node as (en & Hen & Husers & _).
  unfold g3m.
  rewrite (users_of_replace_uses_new (id tn) e (users tn) g2 en
             users_tn_NoDup Hen).
  - rewrite Husers. reflexivity.
  - exact users_tn_in_g2.
  - rewrite Husers. intros x [].
Qed.

Lemma multi_users_tn : users_of g3m (id tn) = [].
Proof.
  unfold g3m. apply replace_uses_clears.
  - exact engine_stage_wf.
  - exact engine_not_tn.
  - intros x Hx. rewrite engine_stage_users_tn in Hx. exact Hx.
Qed.

Lemma multi_args_users (u : NodeId) :
  In u (users tn) ->
  args_of g3m u
  = map (map_arg (maybe_replace_node (id tn) (ANode e))) (args_of g u).
Proof.
  intros Hu. unfold g3m.
  rewrite args_of_replace_uses;
    [|exact users_tn_NoDup | intros u' Hu'; apply users_tn_in_g2, Hu'].
  assert (Hmem : mem_id u (users tn) = true) by (apply mem_id_In; exact Hu).
  rewrite Hmem, engine_stage_args_old; [reflexivity|].
  apply users_tn_old in Hu. lia.
Qed.

Lemma multi_meta_engine :
  dict_get (meta_of g3m e) "val" = Some (MFakeList vals).
Proof.
  destruct engine_stage_node as (en & Hen & _ & _ & Hval & _).
  unfold g3m. rewrite meta_of_replace_uses. unfold meta_of.
  rewrite Hen. exact Hval.
Qed.

(** What the multiple-output branch leaves once the users are backfilled
    and the call-module node is erased. *)
Lemma multi_erased (g4m : Graph) :
  backfill_users g3m (users tn) 0 vals = Ok g4m ->
  exists g6,
    erase_node g4m (id tn) = Ok g6
    /\ well_formed g6
    /\ get_node g6 (id tn) = None
    /\ users_of g6 e = users tn
    /\ dict_get (meta_of g6 e) "val" = Some (MFakeList vals)
    /\ (forall u, In u (users tn) ->
          args_of g6 u
          = map (map_arg (maybe_replace_node (id tn) (ANode e)))
              (args_of g u))
    /\ (forall k u, nth_error (users tn) k = Some u ->
          dict_get (meta_of g6 u) "val"
          = option_map MFake (nth_error vals k))
    /\ (exists en, get_node g6 e = Some en /\ skel en = skel_e).
Proof.
  intros Hfill.
  destruct (backfill_users_spec vals (users tn) 0 g3m g4m Hfill)
    as (Hwf4 & Hskel4 & Husers & Hargs & Hnone & Hmeta & Hval).
  assert (Hclear : users_of g4m (id tn) = [])
    by (rewrite Husers; exact multi_users_tn).
  pose proof (erase_node_ok g4m (id tn) Hclear) as Herase.
  eexists. split; [exact Herase|].
  pose proof tn_below as Hlt.
  assert (He : e <> id tn) by lia.
  assert (Hwf6 := well_formed_erase_node _ _ _ Herase (Hwf4 multi_wf)).
  split; [exact Hwf6|].
  split; [apply (get_node_erase_node_self _ _ _ Herase)|].
  split; [|split; [|split; [|split]]].
  5:{ destruct engine_stage_node as (en & Hen & _ & _ & _ & Hsk).
      assert (Hs : map skel (nodes g4m) = map skel (nodes g2))
        by (rewrite Hskel4; unfold g3m; apply skel_replace_uses).
      destruct (get_node_same_skel g2 g4m e en Hs Hen) as (en4 & Hen4 & Hsk4).
      eexists. split.
      - rewrite (get_node_erase_node_other _ _ _ Herase e He), Hen4.
        reflexivity.
      - rewrite skel_del_user_if, Hsk4. exact Hsk. }
  - rewrite (users_of_erase_node_other _ _ _ Herase e He).
    rewrite Husers, multi_users_engine.
    rewrite users_del_absent; [destruct (mem_id e _); reflexivity|].
    intros F. apply users_tn_old in F. destruct F as [_ F]. apply F.
    reflexivity.
  - rewrite (meta_of_erase_node_other _ _ _ Herase e He).
    rewrite Hmeta; [exact multi_meta_engine|].
    intros F. apply users_tn_old in F. lia.
  - intros u Hu.
    rewrite (args_of_erase_node_other _ _ _ Herase u)
      by (apply users_tn_old, Hu).
    rewrite Hargs. apply multi_args_users, Hu.
  - intros k u Hk.
    assert (Hu : In u (users tn)) by (eapply nth_error_In; exact Hk).
    rewrite (meta_of_erase_node_other _ _ _ Herase u)
      by (apply users_tn_old, Hu).
    rewrite (Hval users_tn_NoDup k u Hk); [reflexivity|].
    intros F. apply get_node_replace_uses_None in F.
    exact (proj1 (users_tn_in_g2 u Hu) F).
Qed.

End Inlining.

(** ** Counting over a graph whose skeleton is known *)

Lemma count_split (q : NodeId * string * Op * Target -> bool)
    (S1 S2 mid : list (NodeId * string * Op * Target)) :
  List.length (filter q (S1 ++ mid ++ S2)%list)
  = List.length (filter q S1) + List.length (filter q mid)
    + List.length (filter q S2).
Proof. rewrite !filter_app, !length_app. lia. Qed.

Lemma count_nodes_skel (p : Node -> bool)
    (q : NodeId * string * Op * Target -> bool) (g : Graph) :
  (forall n, p n = q (skel n)) ->
  count_nodes p g = List.length (filter q (map skel (nodes g))).
Proof. intros H. unfold count_nodes. apply count_by_skel. exact H. Qed.

(** C4: when the loop of [inline_trt_modules] reaches an accelerated
    child with exactly one declared output, of non-negative sizes, it
    returns from it with a graph that has one call-module node of that name
    less, one more execute-engine node and one more index-access node; the
    index-access node reads element 0 of the engine-call node and follows
    it immediately, and it has taken over, in order, every user of the
    erased call-module node.  The pass goes on from that module over the
    later children, and returns it when none of them is accelerated.
    [gm0] is the module as the earlier children left it. *)
Theorem inline_trt_single_output
    (create_name : list string -> string -> string)
    (outputs_map : Dict (list (list Z))) (gm gm0 : GraphModule)
    (before after : list string) (nm : string)
    (trt_module : Submodule) (tn : Node) (rest : list Node)
    (eng : option Engine) (shp : list Z) :
  map fst (named_children gm) = (before ++ nm :: after)%list ->
  contains "_run_on_acc" nm = true ->
  inline_trt_children create_name outputs_map gm before = Ok gm0 ->
  check_graph (graph gm0) = true ->
  dict_get (named_children gm0) nm = Some trt_module ->
  sm_engine trt_module = Some eng ->
  filter (fun n => String.eqb (name n) nm) (nodes (graph gm0)) = tn :: rest ->
  op tn = call_module ->
  args tn <> [] ->
  args_defined (graph gm0) tn = true ->
  dict_get outputs_map nm = Some [shp] ->
  forallb (fun d => Z.leb 0 d) shp = true ->
  exists gm' en gn pre post,
    inline_trt_children create_name outputs_map gm (before ++ [nm])%list
    = Ok gm'
    /\ inline_trt_modules create_name gm outputs_map
       = inline_trt_children create_name outputs_map gm' after
    /\ (forallb (fun c => negb (contains "_run_on_acc" c)) after = true ->
        inline_trt_modules create_name gm outputs_map = Ok gm')
    /\ count_nodes (is_call_module_named nm) (graph gm') + 1
       = count_nodes (is_call_module_named nm) (graph gm0)
    /\ count_nodes is_engine_call (graph gm')
       = count_nodes is_engine_call (graph gm0) + 1
    /\ count_nodes is_getitem_call (graph gm')
       = count_nodes is_getitem_call (graph gm0) + 1
    /\ nodes (graph gm') = (pre ++ en :: gn :: post)%list
    /\ is_engine_call en = true
    /\ is_getitem_call gn = true
    /\ args gn = [ANode (id en); AInt 0]
    /\ users gn = users tn
    /\ (forall u, In u (users tn) ->
          args_of (graph gm') u
          = map (map_arg (maybe_replace_node (id tn) (ANode (id gn))))
              (args_of (graph gm0) u))
    /\ get_node (graph gm') (id tn) = None.
Proof.
  intros Hch Hacc Hbefore Hcheck Hsub Heng Hnode Hop Hargs Hdef Hout Hnn.
  apply check_graph_sound in Hcheck. rename Hcheck into Hwf.
  destruct (name_of_filtered _ _ _ _ Hnode) as [Htn Hname].
  pose (vals := map ones_strided [shp]).
  destruct (single_erased create_name (graph gm0) tn eng vals Hwf Htn Hdef)
    as (g6 & Herase & Hwf6 & Hgone & Husers & Hgargs & Huargs & Hskel).
  destruct (in_split _ _ Htn) as (pre0 & post0 & Hsplit).
  specialize (Hskel pre0 post0 Hsplit).
  destruct (map_eq_app _ _ _ _ Hskel) as (pre & l2 & Hn6 & Hpre & Hl2).
  destruct (map_eq_cons _ _ Hl2) as (en & l3 & -> & Hen & Hl3).
  destruct (map_eq_cons _ _ Hl3) as (gn & post & -> & Hgn & Hpost).
  assert (Hen_id : id en = next_id (graph gm0))
    by (apply (f_equal (fun s => fst (fst (fst s)))) in Hen; exact Hen).
  assert (Hgn_id : id gn = S (next_id (graph gm0)))
    by (apply (f_equal (fun s => fst (fst (fst s)))) in Hgn; exact Hgn).
  assert (Hgn_node : get_node g6 (id gn) = Some gn).
  { apply get_node_of_In; [apply Hwf6|]. rewrite Hn6.
    apply in_app_iff. right. right. left. reflexivity. }
  assert (Hstep : inline_trt_module create_name outputs_map gm0 nm
                  = Ok (set_graph gm0 g6)).
  { rewrite (inline_trt_module_guards create_name outputs_map gm0 nm
               trt_module tn rest eng [shp] Hsub Hnode Hargs Hout
               ltac:(discriminate) Heng).
    rewrite (fake_outputs_returns [shp])
      by (simpl; rewrite Hnn; reflexivity).
    cbn [bind]. cbv beta zeta.
    change (Nat.eqb (List.length [shp]) 1) with true.
    cbv iota.
    pose proof (single_replace_ok create_name (graph gm0) tn eng vals Hwf
                  Htn Hdef) as Hrep.
    unfold vals in Hrep, Herase. rewrite Hrep.
    cbn [bind]. rewrite Herase. reflexivity. }
  destruct (inline_trt_modules_at create_name outputs_map gm gm0
              (set_graph gm0 g6) before after nm Hch Hacc Hbefore Hstep)
    as (Hloop & Hpass & Hlast).
  exists (set_graph gm0 g6), en, gn, pre, post.
  split; [exact Hloop|]. split; [exact Hpass|]. split; [exact Hlast|].
  simpl graph.
  set (qm := fun s : NodeId * string * Op * Target =>
               op_eqb (snd (fst s)) call_module
               && String.eqb (snd (fst (fst s))) nm).
  set (qe := fun s : NodeId * string * Op * Target =>
               op_eqb (snd (fst s)) call_function
               && is_execute_engine (snd s)).
  set (qg := fun s : NodeId * string * Op * Target =>
               op_eqb (snd (fst s)) call_function && is_getitem (snd s)).
  assert (Hg0 : map skel (nodes (graph gm0))
                = (map skel pre0 ++ [skel tn] ++ map skel post0)%list)
    by (rewrite Hsplit, map_app; reflexivity).
  assert (Hg6 : map skel (nodes g6)
                = (map skel pre0
                   ++ [skel en; skel gn] ++ map skel post0)%list)
    by (rewrite Hskel, Hen, Hgn; reflexivity).
  assert (Hqm_tn : qm (skel tn) = true).
  { unfold qm, skel. simpl. rewrite Hop, Hname, String.eqb_refl.
    reflexivity. }
  assert (Hskel_en : snd (fst (skel en)) = call_function
                     /\ snd (skel en) = TFn execute_engine_default)
    by (rewrite Hen; split; reflexivity).
  assert (Hskel_gn : snd (fst (skel gn)) = call_function
                     /\ snd (skel gn) = TFn operator_getitem)
    by (rewrite Hgn; split; reflexivity).
  destruct Hskel_en as [Hen_op Hen_t]. destruct Hskel_gn as [Hgn_op Hgn_t].
  assert (Htn_op : snd (fst (skel tn)) = call_module) by exact Hop.
  assert (Hqm_en : qm (skel en) = false)
    by (unfold qm; rewrite Hen_op; reflexivity).
  assert (Hqm_gn : qm (skel gn) = false)
    by (unfold qm; rewrite Hgn_op; reflexivity).
  assert (Hqe_tn : qe (skel tn) = false)
    by (unfold qe; rewrite Htn_op; reflexivity).
  assert (Hqe_en : qe (skel en) = true)
    by (unfold qe; rewrite Hen_op, Hen_t; reflexivity).
  assert (Hqe_gn : qe (skel gn) = false)
    by (unfold qe; rewrite Hgn_op, Hgn_t; reflexivity).
  assert (Hqg_tn : qg (skel tn) = false)
    by (unfold qg; rewrite Htn_op; reflexivity).
  assert (Hqg_en : qg (skel en) = false)
    by (unfold qg; rewrite Hen_op, Hen_t; reflexivity).
  assert (Hqg_gn : qg (skel gn) = true)
    by (unfold qg; rewrite Hgn_op, Hgn_t; reflexivity).
  repeat split.
  - rewrite !(count_nodes_skel _ qm) by reflexivity.
    rewrite Hg0, Hg6, !count_split. simpl filter.
    rewrite Hqm_tn, Hqm_en, Hqm_gn. simpl. lia.
  - rewrite !(count_nodes_skel _ qe) by reflexivity.
    rewrite Hg0, Hg6, !count_split. simpl filter.
    rewrite Hqe_tn, Hqe_en, Hqe_gn. simpl. lia.
  - rewrite !(count_nodes_skel _ qg) by reflexivity.
    rewrite Hg0, Hg6, !count_split. simpl filter.
    rewrite Hqg_tn, Hqg_en, Hqg_gn. simpl. lia.
  - exact Hn6.
  - unfold is_engine_call. change (op en) with (snd (fst (skel en))).
    change (target en) with (snd (skel en)). rewrite Hen_op, Hen_t.
    reflexivity.
  - unfold is_getitem_call. change (op gn) with (snd (fst (skel gn))).
    change (target gn) with (snd (skel gn)). rewrite Hgn_op, Hgn_t.
    reflexivity.
  - rewrite Hen_id. rewrite <- Hgargs. rewrite <- Hgn_id.
    unfold args_of. rewrite Hgn_node. reflexivity.
  - rewrite <- Husers. rewrite <- Hgn_id. unfold users_of.
    rewrite Hgn_node. reflexivity.
  - intros u Hu. rewrite Hgn_id. apply Huargs, Hu.
  - exact Hgone.
Qed.

Lemma inline_trt_single_output_witness :
  exists gm',
    inline_trt_modules Demo.keep_name Demo.gm_single
      [("_run_on_acc_0", [[2; 3]%Z])] = Ok gm'
    /\ count_nodes (is_call_module_named "_run_on_acc_0") (graph gm') + 1
       = count_nodes (is_call_module_named "_run_on_acc_0")
           (graph Demo.gm_single)
    /\ count_nodes is_engine_call (graph gm')
       = count_nodes is_engine_call (graph Demo.gm_single) + 1
    /\ count_nodes is_getitem_call (graph gm')
       = count_nodes is_getitem_call (graph Demo.gm_single) + 1.
Proof.
  destruct (inline_trt_single_output Demo.keep_name
              [("_run_on_acc_0", [[2; 3]%Z])] Demo.gm_single Demo.gm_single
              [] [] "_run_on_acc_0" Demo.acc_module Demo.call_acc []
              (Some (mkEngine [])) [2; 3]%Z)
    as (gm' & en & gn & pre & post & _ & _ & Hpass & H1 & H2 & H3 & _);
    try reflexivity; try discriminate.
  exists gm'. split; [apply Hpass; reflexivity|].
  split; [exact H1|]. split; [exact H2 | exact H3].
Defined.

(** C2, as amended: when the loop of [inline_trt_modules] reaches an
    accelerated child with more than one declared output, all of
    non-negative sizes, and no more users of its call node than declared
    outputs, it returns from it with a graph in which the call-module node
    is gone, its users are the users of the new engine-call node, in the
    same order and with their arguments redirected to it, and the
    engine-call node carries one metadata entry per declared output.  The
    metadata are handed out along the users; so when the users are in
    index order (the user at position [k] reads element [k]), the
    index-access node that reads element [i] carries entry [i].  The pass
    goes on from that module over the later children, and returns it when
    none of them is accelerated.  [gm0] is the module as the earlier
    children left it. *)
Theorem inline_trt_multi_output
    (create_name : list string -> string -> string)
    (outputs_map : Dict (list (list Z))) (gm gm0 : GraphModule)
    (before after : list string) (nm : string)
    (trt_module : Submodule) (tn : Node) (rest : list Node)
    (eng : option Engine) (out_shapes : list (list Z)) :
  map fst (named_children gm) = (before ++ nm :: after)%list ->
  contains "_run_on_acc" nm = true ->
  inline_trt_children create_name outputs_map gm before = Ok gm0 ->
  check_graph (graph gm0) = true ->
  dict_get (named_children gm0) nm = Some trt_module ->
  sm_engine trt_module = Some eng ->
  filter (fun n => String.eqb (name n) nm) (nodes (graph gm0)) = tn :: rest ->
  args tn <> [] ->
  args_defined (graph gm0) tn = true ->
  dict_get outputs_map nm = Some out_shapes ->
  1 < List.length out_shapes ->
  forallb (forallb (fun d => Z.leb 0 d)) out_shapes = true ->
  List.length (users tn) <= List.length out_shapes ->
  (forall k u, nth_error (users tn) k = Some u ->
     args_of (graph gm0) u = [ANode (id tn); AInt (Z.of_nat k)]) ->
  let vals := map ones_strided out_shapes in
  exists gm' en,
    inline_trt_children create_name outputs_map gm (before ++ [nm])%list
    = Ok gm'
    /\ inline_trt_modules create_name gm outputs_map
       = inline_trt_children create_name outputs_map gm' after
    /\ (forallb (fun c => negb (contains "_run_on_acc" c)) after = true ->
        inline_trt_modules create_name gm outputs_map = Ok gm')
    /\ get_node (graph gm') (id tn) = None
    /\ get_node (graph gm') (next_id (graph gm0)) = Some en
    /\ is_engine_call en = true
    /\ users en = users tn
    /\ (forall u, In u (users tn) ->
          args_of (graph gm') u
          = map (map_arg (maybe_replace_node (id tn) (ANode (id en))))
              (args_of (graph gm0) u))
    /\ dict_get (meta en) "val" = Some (MFakeList vals)
    /\ List.length vals = List.length out_shapes
    /\ (forall u i, In u (users tn) ->
          args_of (graph gm0) u = [ANode (id tn); AInt (Z.of_nat i)] ->
          i < List.length out_shapes
          /\ args_of (graph gm') u = [ANode (id en); AInt (Z.of_nat i)]
          /\ dict_get (meta_of (graph gm') u) "val"
             = option_map MFake (nth_error vals i)).
Proof.
  intros Hch Hacc Hbefore Hcheck Hsub Heng Hnode Hargs Hdef Hout Hmany Hnn
         Hfew Hord vals.
  apply check_graph_sound in Hcheck. rename Hcheck into Hwf.
  destruct (name_of_filtered _ _ _ _ Hnode) as [Htn Hname].
  assert (Hlen : List.length vals = List.length out_shapes)
    by apply length_map.
  destruct (backfill_users_returns vals (users tn) 0
              (replace_uses (id tn) (ANode (next_id (graph gm0))) (users tn)
                 (set_meta_of
                    (set_meta_of
                       (fst (graph_call_function create_name (graph gm0)
                               (Before (id tn)) execute_engine_default
                               [ATuple (args tn); AEngine eng]))
                       (next_id (graph gm0)) "val" (MFakeList []))
                    (next_id (graph gm0)) "val" (MFakeList vals))))
    as [g4m Hfill]; [simpl; lia|].
  destruct (multi_erased create_name (graph gm0) tn eng vals Hwf Htn Hdef
              g4m Hfill)
    as (g6 & Herase & Hwf6 & Hgone & Husers & Hmeta & Huargs & Hvals
        & en & Hen & Hsk).
  assert (Hen_id : id en = next_id (graph gm0))
    by (apply (f_equal (fun s => fst (fst (fst s)))) in Hsk; exact Hsk).
  assert (Hstep : inline_trt_module create_name outputs_map gm0 nm
                  = Ok (set_graph gm0 g6)).
  { rewrite (inline_trt_module_guards create_name outputs_map gm0 nm
               trt_module tn rest eng out_shapes Hsub Hnode Hargs Hout
               ltac:(intros ->; simpl in Hmany; lia) Heng).
    rewrite (fake_outputs_returns out_shapes Hnn).
    cbn [bind]. cbv beta zeta.
    assert (Hne : Nat.eqb (List.length out_shapes) 1 = false)
      by (apply Nat.eqb_neq; lia).
    rewrite Hne.
    pose proof (multi_replace_ok create_name (graph gm0) tn eng vals Hwf Htn
                  Hdef) as Hrep.
    pose proof (multi_users_engine create_name (graph gm0) tn eng vals Hwf
                  Htn Hdef) as Hus.
    unfold vals in Hrep, Hus, Hfill, Herase. rewrite Hrep. cbn [bind].
    rewrite Hus, Hfill. cbn [bind]. rewrite Herase. reflexivity. }
  destruct (inline_trt_modules_at create_name outputs_map gm gm0
              (set_graph gm0 g6) before after nm Hch Hacc Hbefore Hstep)
    as (Hloop & Hpass & Hlast).
  exists (set_graph gm0 g6), en.
  split; [exact Hloop|]. split; [exact Hpass|]. split; [exact Hlast|].
  simpl graph.
  split; [exact Hgone|]. split; [exact Hen|].
  split.
  { unfold is_engine_call. change (op en) with (snd (fst (skel en))).
    change (target en) with (snd (skel en)). rewrite Hsk. reflexivity. }
  split.
  { rewrite <- Husers. unfold users_of. rewrite Hen. reflexivity. }
  split; [intros u Hu; rewrite Hen_id; apply Huargs, Hu|].
  split.
  { rewrite <- Hmeta. unfold meta_of. rewrite Hen. reflexivity. }
  split; [exact Hlen|].
  intros u i Hu Hi.
  destruct (In_nth_error _ _ Hu) as (k & Hk).
  pose proof (Hord k u Hk) as Hk_args. rewrite Hi in Hk_args.
  assert (Hik : i = k).
  { inversion Hk_args as [Hz]. apply Nat2Z.inj in Hz. exact Hz. }
  subst k.
  assert (Hlt : i < List.length (users tn))
    by (apply nth_error_Some; rewrite Hk; discriminate).
  split; [lia|]. split.
  - rewrite Hen_id, (Huargs u Hu), Hi. simpl.
    unfold maybe_replace_node. rewrite Nat.eqb_refl. reflexivity.
  - apply Hvals, Hk.
Qed.

Lemma inline_trt_multi_output_witness :
  exists gm',
    inline_trt_modules Demo.keep_name Demo.gm_multi Demo.two_outputs
    = Ok gm'
    /\ dict_get (meta_of (graph gm') 2) "val"
       = Some (MFake (mkFake [2; 3]%Z [1; 1]%Z))
    /\ dict_get (meta_of (graph gm') 3) "val"
       = Some (MFake (mkFake [4]%Z [1]%Z)).
Proof.
  assert (Hord : forall k u,
            nth_error (users Demo.call_acc2) k = Some u ->
            args_of (graph Demo.gm_multi) u
            = [ANode (id Demo.call_acc2); AInt (Z.of_nat k)]).
  { intros [|[|k]] u H; simpl in H.
    - inversion H; subst u. reflexivity.
    - inversion H; subst u. reflexivity.
    - destruct k; discriminate H. }
  destruct (inline_trt_multi_output Demo.keep_name Demo.two_outputs
              Demo.gm_multi Demo.gm_multi [] [] "_run_on_acc_0"
              Demo.acc_module Demo.call_acc2 [] (Some (mkEngine []))
              [[2; 3]; [4]]%Z)
    as (gm' & en & _ & _ & Hpass & _ & _ & _ & _ & _ & _ & _ & Hvals);
    try reflexivity; try discriminate; try (simpl; lia); try exact Hord.
  exists gm'. split; [apply Hpass; reflexivity|]. split.
  - apply (Hvals 2 0); [left; reflexivity | reflexivity].
  - apply (Hvals 3 1); [right; left; reflexivity | reflexivity].
Defined.

(** C2, as stated, fails when the users of the call node are not in index
    order: the index-access node that reads element 1 is the first user
    and receives entry 0. *)
Lemma backfill_is_by_position_not_index :
  ~ (forall gm',
       inline_trt_modules Demo.keep_name Demo.gm_swapped Demo.two_outputs
       = Ok gm' ->
       backfilled_by_index (graph gm') 5).
Proof.
  intros H.
  destruct (inline_trt_modules Demo.keep_name Demo.gm_swapped
              Demo.two_outputs) as [gm'|err] eqn:E;
    [|vm_compute in E; discriminate E].
  specialize (H gm' eq_refl).
  vm_compute in E. inversion E; subst gm'. clear E.
  specialize (H (mkNode 2 "getitem" call_function (TFn operator_getitem)
                   [ANode 5; AInt 1]
                   [("val", MFake (mkFake [2; 3]%Z [1; 1]%Z))] [4])
                1 [mkFake [2; 3]%Z [1; 1]%Z; mkFake [4]%Z [1]%Z]).
  simpl in H.
  assert (F : Some (MFake (mkFake [2; 3]%Z [1; 1]%Z))
              = Some (MFake (mkFake [4]%Z [1]%Z))).
  { apply H; auto. }
  discriminate F.
Qed.

End TrtFacts.

(* ===================================================================== *)
(** * Facts: inlining the host-executed submodules                        *)
(* ===================================================================== *)

Module TorchFacts.

Import Fx Exporter FxFacts.

(** ** The rename map of the duplicate inputs *)

Lemma val_map_get_set (vm : ValMap) (k v k' : NodeId) :
  val_map_get (val_map_set vm k v) k'
  = if Nat.eqb k k' then Some v else val_map_get vm k'.
Proof.
  induction vm as [|[k0 v0] r IH]; simpl.
  - reflexivity.
  - destruct (Nat.eqb k0 k) eqn:E; simpl.
    + apply Nat.eqb_eq in E. subst k0.
      destruct (Nat.eqb k k'); reflexivity.
    + destruct (Nat.eqb k0 k') eqn:E'; [|exact IH].
      destruct (Nat.eqb k k') eqn:E''; [|reflexivity].
      apply Nat.eqb_eq in E', E''. subst. rewrite Nat.eqb_refl in E.
      discriminate.
Qed.

Lemma fold_val_map_set_keys (ps : list (Node * Node)) (vm : ValMap)
    (k : NodeId) :
  (exists p q, In (p, q) ps /\ id p = k) \/ val_map_get vm k <> None ->
  val_map_get
    (fold_left (fun vm p => val_map_set vm (id (fst p)) (id (snd p))) ps vm)
    k <> None.
Proof.
  revert vm. induction ps as [|[p0 q0] r IH]; intros vm H; simpl.
  - destruct H as [(p & q & [] & _) | H]. exact H.
  - apply IH. destruct H as [(p & q & [Hpq | Hpq] & Hk) | H].
    + inversion Hpq; subst. right. simpl. rewrite val_map_get_set.
      rewrite Nat.eqb_refl. discriminate.
    + left. exists p, q. split; assumption.
    + right. simpl. rewrite val_map_get_set.
      destruct (Nat.eqb (id p0) k); [discriminate | exact H].
Qed.

Lemma combine_covers {A B : Type} (l : list A) (l' : list B) (x : A) :
  List.length l = List.length l' -> In x l ->
  exists y, In (x, y) (combine l l').
Proof.
  revert l'. induction l as [|a r IH]; intros l' Hlen Hx; [destruct Hx|].
  destruct l' as [|b r']; [discriminate|]. simpl in Hlen.
  destruct Hx as [-> | Hx].
  - exists b. left. reflexivity.
  - destruct (IH r' ltac:(lia) Hx) as [y Hy]. exists y. right. exact Hy.
Qed.

Lemma duplicate_val_map_covers (subs gms : list Node) (p : Node) :
  List.length subs = List.length gms -> In p subs ->
  val_map_get (duplicate_val_map subs gms) (id p) <> None.
Proof.
  intros Hlen Hp. unfold duplicate_val_map.
  apply fold_val_map_set_keys. left.
  destruct (combine_covers subs gms p Hlen Hp) as [q Hq].
  exists p, q. split; [exact Hq | reflexivity].
Qed.

(** ** [graph_copy] adds no placeholder when the rename map holds them all *)

Section GraphCopy.

Variable create_name : list string -> string -> string.
Variable pt : InsertPoint.
Variable i : NodeId.

Lemma node_copy_placeholders (g g1 : Graph) (n c : Node) (vm : ValMap) :
  node_copy create_name g pt n vm = Ok (g1, c) ->
  count_nodes is_placeholder g1
  = count_nodes is_placeholder g
    + (if op_eqb (op n) placeholder then 1 else 0)
  /\ (only_call_module_at i g -> only_call_module_at i g1)
  /\ id c = next_id g.
Proof.
  unfold node_copy.
  destruct (map_args_raising (val_map_lookup vm) (args n)) as [a|err];
    [|discriminate].
  cbn [bind]. intros H. inversion H; subst g1 c. clear H.
  split; [|split].
  - rewrite (count_placeholders_skel
               (fst (create_node create_name g pt (op n) (target n) a
                       (name n))))
      by (apply skel_map_nodes; intros m; apply skel_meta_at).
    apply count_placeholders_create_node.
  - intros Hq.
    apply (only_call_module_at_skel i
             (fst (create_node create_name g pt (op n) (target n) a
                     (name n)))).
    + apply skel_map_nodes. intros m. apply skel_meta_at.
    + reflexivity.
    + apply only_call_module_at_create_node. exact Hq.
  - reflexivity.
Qed.

Lemma graph_copy_nodes_placeholders (src : list Node) :
  forall (g : Graph) (vm : ValMap) (g' : Graph) (vm' : ValMap) (rv : Arg),
  (forall p, In p src -> op p = placeholder ->
     val_map_get vm (id p) <> None) ->
  graph_copy_nodes create_name g pt src vm = Ok (g', vm', rv) ->
  count_nodes is_placeholder g' = count_nodes is_placeholder g
  /\ (only_call_module_at i g -> only_call_module_at i g').
Proof.
  induction src as [|n r IH]; intros g vm g' vm' rv Hkeys Hrun.
  - simpl in Hrun. inversion Hrun; subst. split; [reflexivity | tauto].
  - simpl in Hrun.
    destruct (val_map_get vm (id n)) as [v|] eqn:Eget.
    + apply (IH g vm g' vm' rv); [|exact Hrun].
      intros p Hp. apply Hkeys. right. exact Hp.
    + assert (Hnot : op_eqb (op n) placeholder = false).
      { destruct (op_eqb (op n) placeholder) eqn:E; [|reflexivity].
        exfalso. apply (Hkeys n (or_introl eq_refl)); [|exact Eget].
        destruct (op n); try discriminate E. reflexivity. }
      destruct (op_eqb (op n) output).
      * destruct (args n) as [|a0 ar]; [discriminate|].
        destruct (map_arg_raising (val_map_lookup vm) a0); [|discriminate].
        cbn [bind] in Hrun. inversion Hrun; subst.
        split; [reflexivity | tauto].
      * destruct (node_copy create_name g pt n vm) as [[g1 c]|err] eqn:Ec;
          [|discriminate].
        cbn [bind] in Hrun.
        destruct (node_copy_placeholders g g1 n c vm Ec)
          as (Hcount & Hq & _).
        rewrite Hnot, Nat.add_0_r in Hcount.
        destruct (IH g1 ((id n, id c) :: vm) g' vm' rv) as [Hc' Hq'];
          [|exact Hrun|].
        -- intros p Hp Hop. simpl.
           destruct (Nat.eqb (id n) (id p)); [discriminate|].
           apply Hkeys; [right; exact Hp | exact Hop].
        -- split; [rewrite Hc'; exact Hcount | tauto].
Qed.

End GraphCopy.

(** ** [graph_copy] returns on a scoped graph *)

Section CopyReturns.

Variable vm : ValMap.
Variable seen : list NodeId.
Hypothesis Hseen : forall i, In i seen -> val_map_get vm i <> None.



End CopyReturns.


(** ** The body of the loop *)

Lemma filter_all {A : Type} (f : A -> bool) (l : list A) :
  (forall x, In x l -> f x = true) -> filter f l = l.
Proof.
  induction l as [|a r IH]; simpl; intros H; [reflexivity|].
  rewrite (H a (or_introl eq_refl)), IH; [reflexivity|].
  intros x Hx. apply H. right. exact Hx.
Qed.

Lemma filter_no_names (l : list Node) :
  filter (fun n : Node => mem_str (name n) []) l = [].
Proof. induction l as [|a r IH]; [reflexivity | exact IH]. Qed.

Lemma replace_all_uses_with_inv (g g' : Graph) (old : NodeId) (rep : Arg) :
  replace_all_uses_with g old rep = Ok g' ->
  g' = replace_uses old rep (users_of g old) g.
Proof.
  unfold replace_all_uses_with.
  destruct (Nat.eqb _ 0); simpl; intros H; [|discriminate].
  inversion H. reflexivity.
Qed.

Lemma only_call_module_at_node (g : Graph) (n : Node) :
  well_formed g -> In n (nodes g) -> op n = call_module ->
  only_call_module_at (id n) g.
Proof.
  intros (Hnd & Hfresh & _) Hn Hop. split; [|apply Hfresh, Hn].
  intros m Hm Hid.
  assert (Hsame : Some m = Some n).
  { rewrite <- (find_node_unique (nodes g) m Hnd Hm), Hid.
    apply find_node_unique; assumption. }
  inversion Hsame. exact Hop.
Qed.

Section InlineTorch.

Variable create_name : list string -> string -> string.
Variable load_state_dict :
  GraphModule -> Dict Tensor -> Result (Dict Tensor).

Local Abbreviation inline_ :=
  (inline_torch_module create_name load_state_dict).

(** C7: for a host-executed submodule all of whose input placeholders bear
    the name of a node of the parent graph, the inlining step raises the
    assertion error when the duplicate placeholders of the submodule and
    the parent nodes matching them by name differ in number, and whenever
    it returns, the parent graph has as many placeholders as before. *)
Theorem inline_torch_keeps_placeholder_count (gm : GraphModule)
    (gm_node : Node) (submodule : Submodule) :
  check_graph (graph gm) = true ->
  In gm_node (nodes (graph gm)) ->
  op gm_node = call_module ->
  dict_get (named_children gm) (name gm_node) = Some submodule ->
  (forall p, In p (nodes (sm_graph submodule)) -> op p = placeholder ->
     mem_str (name p) (map name (nodes (graph gm))) = true) ->
  (List.length (fst (get_duplicate_nodes gm submodule))
   <> List.length (snd (get_duplicate_nodes gm submodule)) ->
   inline_ gm gm_node = Raise (AssertionError ""))
  /\ (forall gm',
        inline_ gm gm_node = Ok gm' ->
        count_nodes is_placeholder (graph gm')
        = count_nodes is_placeholder (graph gm)).
Proof.
  intros Hcheck Hin Hop Hsub Hdup. apply check_graph_sound in Hcheck.
  set (sub_ph := filter (fun n => op_eqb (op n) placeholder)
                   (nodes (sm_graph submodule))).
  assert (Hsubs : fst (get_duplicate_nodes gm submodule) = sub_ph).
  { unfold get_duplicate_nodes. simpl. apply filter_all.
    intros p Hp. apply filter_In in Hp as [Hp Hpo].
    apply Hdup; [exact Hp|]. destruct (op p); try discriminate Hpo.
    reflexivity. }
  split.
  - intros Hne. unfold inline_torch_module, getattr_module.
    rewrite Hsub. cbn [bind].
    rewrite (surjective_pairing (get_duplicate_nodes gm submodule)).
    apply Nat.eqb_neq in Hne. rewrite Hne. reflexivity.
  - intros gm' Hrun. unfold inline_torch_module, getattr_module in Hrun.
    rewrite Hsub in Hrun. cbn [bind] in Hrun.
    rewrite (surjective_pairing (get_duplicate_nodes gm submodule)) in Hrun.
    rewrite Hsubs in Hrun.
    destruct (Nat.eqb (List.length sub_ph)
                (List.length (snd (get_duplicate_nodes gm submodule))))
      eqn:Hlen; [|discriminate Hrun].
    apply Nat.eqb_eq in Hlen. cbn [assert bind] in Hrun.
    destruct (graph_copy create_name (graph gm) (Before (id gm_node))
                (sm_graph submodule)
                (duplicate_val_map sub_ph
                   (snd (get_duplicate_nodes gm submodule))))
      as [[[g1 vm'] out]|err] eqn:Ecopy; [|discriminate Hrun].
    cbn [bind] in Hrun.
    destruct (graph_copy_nodes_placeholders create_name
                (Before (id gm_node)) (id gm_node)
                (nodes (sm_graph submodule)) (graph gm)
                (duplicate_val_map sub_ph
                   (snd (get_duplicate_nodes gm submodule)))
                g1 vm' out)
      as [Hcount1 Hq1]; [|exact Ecopy|].
    { intros p Hp Hpo. apply duplicate_val_map_covers; [exact Hlen|].
      unfold sub_ph. apply filter_In. split; [exact Hp|].
      rewrite Hpo. reflexivity. }
    specialize (Hq1 (only_call_module_at_node _ _ Hcheck Hin Hop)).
    assert (Hg2 : forall g2,
              (if Nat.eqb (List.length sub_ph) 0 then
                 assert (Nat.eqb (List.length (args gm_node))
                           (List.length
                              (filter
                                 (fun n => mem_str (name n)
                                             (map name sub_ph))
                                 (nodes g1)))) "" ;;;
                 g' <- replace_added_placeholders g1
                         (filter
                            (fun n => mem_str (name n) (map name sub_ph))
                            (nodes g1))
                         (args gm_node) ;;
                 erase_nodes g'
                   (filter (fun n => mem_str (name n) (map name sub_ph))
                      (nodes g1))
               else Ok g1) = Ok g2 -> g2 = g1).
    { intros g2. destruct (Nat.eqb (List.length sub_ph) 0) eqn:E0.
      - apply Nat.eqb_eq in E0. apply length_zero_iff_nil in E0.
        rewrite E0. simpl map.
        rewrite (filter_no_names (nodes g1)). simpl.
        destruct (Nat.eqb (List.length (args gm_node)) 0); simpl;
          intros H; [|discriminate H].
        inversion H. reflexivity.
      - intros H. inversion H. reflexivity. }
    unfold sub_ph in Hg2. fold sub_ph in Hg2.
    match type of Hrun with
    | bind ?c _ = _ => destruct c as [g2|err] eqn:E2; [|discriminate Hrun]
    end.
    apply Hg2 in E2. subst g2. cbn [bind] in Hrun.
    destruct (replace_all_uses_with g1 (id gm_node) out) as [g3|err] eqn:E3;
      [|discriminate Hrun].
    cbn [bind] in Hrun. apply replace_all_uses_with_inv in E3.
    unfold copy_submodule_attributes in Hrun.
    destruct (load_state_dict _ _) as [sd|err]; [|discriminate Hrun].
    cbn [bind] in Hrun. simpl graph in Hrun.
    destruct (erase_node g3 (id gm_node)) as [g4|err] eqn:E4;
      [|discriminate Hrun].
    cbn [bind] in Hrun. inversion Hrun; subst gm'. simpl graph.
    assert (Hs3 : map skel (nodes g3) = map skel (nodes g1))
      by (rewrite E3; apply skel_replace_uses).
    assert (Hn3 : next_id g3 = next_id g1)
      by (rewrite E3; apply next_id_replace_uses).
    rewrite (count_placeholders_erase_call_module g3 g4 (id gm_node) E4
               (only_call_module_at_skel _ _ _ Hs3 Hn3 Hq1)).
    rewrite (count_placeholders_skel _ _ Hs3). exact Hcount1.
Qed.

End InlineTorch.


Lemma inline_torch_keeps_placeholder_count_witness :
  exists gm',
    inline_torch_module Demo.keep_name Demo.load_any Demo.gm_torch
      Demo.call_gpu = Ok gm'
    /\ count_nodes is_placeholder (graph gm')
       = count_nodes is_placeholder (graph Demo.gm_torch).
Proof.
  destruct (inline_torch_module Demo.keep_name Demo.load_any Demo.gm_torch
              Demo.call_gpu) as [gm'|err] eqn:E;
    [|vm_compute in E; discriminate E].
  exists gm'. split; [reflexivity|].
  apply (proj2 (inline_torch_keeps_placeholder_count Demo.keep_name
                  Demo.load_any Demo.gm_torch Demo.call_gpu Demo.gpu_module
                  eq_refl (or_intror (or_introl eq_refl)) eq_refl eq_refl
                  ltac:(intros p [<- | [<- | [<- | []]]] Hp;
                        try discriminate Hp; reflexivity))).
  exact E.
Defined.

End TorchFacts.

(* ===================================================================== *)
(** * Facts: the [export] dispatch                                        *)
(* ===================================================================== *)

Module ExportFacts.

Import Fx Exporter.

Section Dispatch.

Variable create_name : list string -> string -> string.
Variable is_impure : Node -> bool.
Variable lint : Graph -> Result unit.
Variable detect_fake_mode : list MetaVal -> bool.
Variable load_state_dict :
  GraphModule -> Dict Tensor -> Result (Dict Tensor).
Variable delete_all_unused_submodules : GraphModule -> GraphModule.
Variable run_shape_analysis :
  GraphModule -> list Tensor -> Result (Dict (list (list Z))).
Variable TorchScript : Type.
Variable jit_trace : GraphModule -> list Tensor -> Result TorchScript.
Variable ExportedProgram_new :
  GraphModule -> Graph -> ExportGraphSignature -> Dict StateVal
  -> Result ExportedProgram.

Local Abbreviation export_ :=
  (export create_name is_impure lint detect_fake_mode load_state_dict
     delete_all_unused_submodules run_shape_analysis TorchScript jit_trace
     ExportedProgram_new).
Local Abbreviation transform_ :=
  (transform create_name is_impure lint load_state_dict
     delete_all_unused_submodules run_shape_analysis).
Local Abbreviation create_trt_exp_program_ :=
  (create_trt_exp_program create_name is_impure lint detect_fake_mode
     ExportedProgram_new).

Lemma not_in_cons (x a : string) (l : list string) :
  ~ In x (a :: l) -> String.eqb x a = false /\ ~ In x l.
Proof.
  intros H. split.
  - apply String.eqb_neq. intros ->. apply H. left. reflexivity.
  - intros F. apply H. right. exact F.
Qed.

(** C5: [export] takes the torchscript path on "torchscript" and "ts", the
    exported-program path on "exported_program" and "ep", returns the graph
    module it was given on "graph_module" and "fx", and on every other
    string raises the value error that quotes the string and lists the
    supported options. *)
Theorem export_dispatch (gm : GraphModule) (inputs : list Tensor)
    (output_format : string) :
  (In output_format ["torchscript"; "ts"] ->
   export_ gm inputs output_format
   = (m <- jit_trace gm inputs ;; Ok (AsTorchScript m)))
  /\ (In output_format ["exported_program"; "ep"] ->
      export_ gm inputs output_format
      = (patched_module <- transform_ gm inputs ;;
         exp_program <- create_trt_exp_program_ patched_module ;;
         Ok (AsExportedProgram exp_program)))
  /\ (In output_format ["graph_module"; "fx"] ->
      export_ gm inputs output_format = Ok (AsGraphModule gm))
  /\ (~ In output_format
          ["torchscript"; "ts"; "exported_program"; "ep"; "graph_module";
           "fx"] ->
      export_ gm inputs output_format
      = Raise (ValueError
                 ("Invalid output format " ++ output_format
                  ++ " specified. Supported options include exported_program (or) ep | torchscript (or) ts | graph_module (or) fx"))).
Proof.
  repeat split.
  - intros [<- | [<- | []]]; reflexivity.
  - intros [<- | [<- | []]]; reflexivity.
  - intros [<- | [<- | []]]; reflexivity.
  - intros H. unfold export.
    apply not_in_cons in H as [E1 H]. apply not_in_cons in H as [E2 H].
    apply not_in_cons in H as [E3 H]. apply not_in_cons in H as [E4 H].
    apply not_in_cons in H as [E5 H]. apply not_in_cons in H as [E6 _].
    rewrite E1, E2, E3, E4, E5, E6. reflexivity.
Qed.

End Dispatch.

Lemma export_dispatch_witness :
  export Demo.keep_name Demo.demo_impure Demo.lint_ok Demo.fake_mode_found
    (fun _ sd => Ok sd) (fun gm => gm) (fun _ _ => Ok []) unit
    (fun _ _ => Ok tt) Demo.stored Demo.gm_single [] "fx"
  = Ok (AsGraphModule Demo.gm_single)
  /\ export Demo.keep_name Demo.demo_impure Demo.lint_ok
       Demo.fake_mode_found (fun _ sd => Ok sd) (fun gm => gm)
       (fun _ _ => Ok []) unit (fun _ _ => Ok tt) Demo.stored
       Demo.gm_single [] "onnx"
     = Raise (ValueError
                "Invalid output format onnx specified. Supported options include exported_program (or) ep | torchscript (or) ts | graph_module (or) fx").
Proof.
  pose proof (export_dispatch Demo.keep_name Demo.demo_impure Demo.lint_ok
                Demo.fake_mode_found (fun _ sd => Ok sd) (fun gm => gm)
                (fun _ _ => Ok []) unit (fun _ _ => Ok tt) Demo.stored
                Demo.gm_single [])
    as H.
  split.
  - apply (proj1 (proj2 (proj2 (H "fx")))). right. left. reflexivity.
  - apply (proj2 (proj2 (proj2 (H "onnx")))).
    intros F. repeat (destruct F as [F | F]; [discriminate F|]).
    destruct F.
Defined.

End ExportFacts.

(* ===================================================================== *)
(** * Facts: dead-code elimination                                        *)
(* ===================================================================== *)

Module FxMore.

Import Fx FxFacts.

Section DeadCode.

Variable is_impure : Node -> bool.

(** What holds of a well-formed graph and survives the erasure of a pure
    node without users holds of the graph once the dead code is gone. *)
Lemma eliminate_dead_code_ind (P : Graph -> Prop) (g : Graph) :
  well_formed g -> P g ->
  (forall g1 g2 i n,
     well_formed g1 -> P g1 -> get_node g1 i = Some n ->
     is_impure n = false -> erase_node g1 i = Ok g2 -> P g2) ->
  well_formed (eliminate_dead_code is_impure g)
  /\ P (eliminate_dead_code is_impure g).
Proof.
  intros Hwf HP Hstep. unfold eliminate_dead_code.
  generalize (rev (map id (nodes g))). intros l.
  revert g Hwf HP. induction l as [|i r IH]; intros g Hwf HP; simpl.
  - split; assumption.
  - destruct (get_node g i) as [n|] eqn:Hn; [|apply IH; assumption].
    destruct (negb (is_impure n) && Nat.eqb (List.length (users n)) 0)
      eqn:Hdead; [|apply IH; assumption].
    destruct (erase_node g i) as [g2|err] eqn:Herase;
      [|apply IH; assumption].
    apply andb_true_iff in Hdead as [Hpure _].
    apply negb_true_iff in Hpure.
    apply IH.
    + exact (well_formed_erase_node _ _ _ Herase Hwf).
    + exact (Hstep g g2 i n Hwf HP Hn Hpure Herase).
Qed.

Lemma well_formed_eliminate_dead_code (g : Graph) :
  well_formed g -> well_formed (eliminate_dead_code is_impure g).
Proof.
  intros Hwf.
  apply (eliminate_dead_code_ind (fun _ => True) g Hwf I).
  intros. exact I.
Qed.

(** Dead-code elimination only erases: every node it leaves was there,
    with the same identity, name, operation and target. *)
Lemma eliminate_dead_code_keeps (g : Graph) :
  well_formed g ->
  forall x, In x (nodes (eliminate_dead_code is_impure g)) ->
  exists y, In y (nodes g) /\ skel x = skel y.
Proof.
  intros Hwf.
  apply (eliminate_dead_code_ind
           (fun g' => forall x, In x (nodes g') ->
                      exists y, In y (nodes g) /\ skel x = skel y)
           g Hwf).
  - intros x Hx. exists x. split; [exact Hx | reflexivity].
  - intros g1 g2 i n _ HP _ _ Herase x Hx.
    rewrite (nodes_erase_node _ _ _ Herase) in Hx.
    apply in_map_iff in Hx as (y & <- & Hy).
    apply filter_In in Hy as [Hy _].
    destruct (HP y Hy) as (z & Hz & Hsk).
    exists z. split; [exact Hz|]. rewrite skel_del_user_if. exact Hsk.
Qed.

(** Erasing a node that is not a placeholder keeps the number of
    placeholders. *)
Lemma count_placeholders_erase_other (g g' : Graph) (i : NodeId) (n : Node) :
  well_formed g ->
  get_node g i = Some n ->
  op n <> placeholder ->
  erase_node g i = Ok g' ->
  count_nodes is_placeholder g' = count_nodes is_placeholder g.
Proof.
  intros Hwf Hn Hop Herase. unfold count_nodes.
  rewrite !(count_by_skel is_placeholder
              (fun s => op_eqb (snd (fst s)) placeholder))
    by reflexivity.
  rewrite (skel_erase_node _ _ _ Herase).
  rewrite <- !(count_by_skel is_placeholder) by reflexivity.
  assert (Hall : forall m, In m (nodes g) -> id m = i ->
                 is_placeholder m = false).
  { intros m Hm Hid.
    assert (Hsame : Some m = Some n).
    { rewrite <- Hn, <- Hid. symmetry. apply get_node_of_In;
        [apply Hwf | exact Hm]. }
    inversion Hsame. subst m. unfold is_placeholder.
    destruct (op n); try reflexivity. contradiction. }
  induction (nodes g) as [|m r IH]; simpl; [reflexivity|].
  destruct (Nat.eqb (id m) i) eqn:E; simpl.
  - apply Nat.eqb_eq in E.
    rewrite (Hall m (or_introl eq_refl) E).
    apply IH. intros x Hx. apply Hall. right. exact Hx.
  - destruct (is_placeholder m); simpl; rewrite IH; try reflexivity;
      intros x Hx; apply Hall; right; exact Hx.
Qed.

(** Where placeholders count as impure, dead-code elimination keeps every
    one of them. *)
Lemma count_placeholders_eliminate_dead_code (g : Graph) :
  (forall n, op n = placeholder -> is_impure n = true) ->
  well_formed g ->
  count_nodes is_placeholder (eliminate_dead_code is_impure g)
  = count_nodes is_placeholder g.
Proof.
  intros Himp Hwf.
  apply (eliminate_dead_code_ind
           (fun g' => count_nodes is_placeholder g'
                      = count_nodes is_placeholder g)
           g Hwf eq_refl).
  intros g1 g2 i n Hwf1 HP Hn Hpure Herase.
  rewrite <- HP.
  apply (count_placeholders_erase_other g1 g2 i n Hwf1 Hn); [|exact Herase].
  intros Hop. rewrite (Himp n Hop) in Hpure. discriminate Hpure.
Qed.

End DeadCode.

End FxMore.

(* ===================================================================== *)
(** * Facts: what [lift] returns                                          *)
(* ===================================================================== *)

Module LiftMore.

Import Fx Exporter ExporterTerms FxFacts LiftFacts FxMore.

Local Abbreviation id_of := (fun s : NodeId * string * Op * Target =>
                               fst (fst (fst s))).

(** ** The state dict after one probe *)

Lemma probe_parameters_state (names : list string) (tgt : string)
    (k : InputKind) (sd : Dict StateVal) :
  snd (probe_parameters names tgt k sd)
  = if mem_str tgt names then
      match dict_get sd tgt with
      | Some v => dict_set sd tgt (SParameter (state_tensor v))
      | None => sd
      end
    else sd.
Proof.
  unfold mem_str. induction names as [|nm r IH]; simpl; [reflexivity|].
  destruct (String.eqb tgt nm) eqn:E; [|exact IH].
  apply String.eqb_eq in E. subst nm. reflexivity.
Qed.

Lemma dict_set_keys {V : Type} (d : Dict V) (k : string) (v : V) :
  dict_mem d k = true -> map fst (dict_set d k v) = map fst d.
Proof.
  unfold dict_mem. induction d as [|[k0 v0] r IH]; simpl.
  - discriminate.
  - destruct (String.eqb k0 k) eqn:E; simpl.
    + apply String.eqb_eq in E. subst k0. reflexivity.
    + intros H. rewrite (IH H). reflexivity.
Qed.

Lemma probe_parameters_key_order (names : list string) (tgt : string)
    (k : InputKind) (sd : Dict StateVal) :
  map fst (snd (probe_parameters names tgt k sd)) = map fst sd.
Proof.
  rewrite probe_parameters_state.
  destruct (mem_str tgt names); [|reflexivity].
  destruct (dict_get sd tgt) as [v|] eqn:E; [|reflexivity].
  apply dict_set_keys. unfold dict_mem. rewrite E. reflexivity.
Qed.

Lemma probe_parameters_lookup (names : list string) (tgt : string)
    (k : InputKind) (sd : Dict StateVal) (key : string) :
  dict_get (snd (probe_parameters names tgt k sd)) key
  = option_map
      (fun v => if mem_str key names && String.eqb key tgt
                then SParameter (state_tensor v) else v)
      (dict_get sd key).
Proof.
  rewrite probe_parameters_state.
  destruct (String.eqb key tgt) eqn:E.
  - apply String.eqb_eq in E. subst key.
    destruct (mem_str tgt names); simpl.
    + destruct (dict_get sd tgt) as [v|] eqn:Ev.
      * rewrite dict_get_set_same. reflexivity.
      * rewrite Ev. reflexivity.
    + destruct (dict_get sd tgt); reflexivity.
  - rewrite andb_false_r.
    assert (Hsame : dict_get
                      (if mem_str tgt names then
                         match dict_get sd tgt with
                         | Some v => dict_set sd tgt
                                       (SParameter (state_tensor v))
                         | None => sd
                         end
                       else sd) key = dict_get sd key).
    { destruct (mem_str tgt names); [|reflexivity].
      destruct (dict_get sd tgt); [|reflexivity].
      apply dict_get_set_other. apply String.eqb_neq. exact E. }
    rewrite Hsame. destruct (dict_get sd key); reflexivity.
Qed.

(** ** One iteration, in full *)

Section LiftNodeShape.

Variable create_name : list string -> string -> string.
Variable gm : GraphModule.
Variable first : option Node.
Variable n : Node.
Variable st : LiftState.
Variable tgt : string.

Hypothesis Hwf : well_formed (ls_graph st).
Hypothesis Hn : In n (nodes (ls_graph st)).
Hypothesis Htgt : target n = TStr tgt.
Hypothesis Hmem : dict_mem (ls_state_dict st) tgt = true.

(** The iteration returns; the nodes of the graph are, up to arguments,
    users and metadata, those it had with the new placeholder put at the
    insert point and the lifted node taken out. *)
Lemma lift_node_shape :
  exists st',
    lift_node create_name gm first n st = Ok st'
    /\ well_formed (ls_graph st')
    /\ map skel (nodes (ls_graph st'))
       = filter (fun s => negb (Nat.eqb (id_of s) (id n)))
           (map skel
              (insert_node (inserting_before first)
                 (mkNode (next_id (ls_graph st))
                    (create_name (used_names (ls_graph st)) tgt)
                    placeholder (TStr tgt) [] [] [])
                 (nodes (ls_graph st))))
    /\ ls_state_dict st'
       = snd (probe_parameters (named_parameters gm) tgt CONSTANT_TENSOR
                (ls_state_dict st)).
Proof.
  pose proof (lift_g4_clear create_name first n st tgt Hwf Hn) as Hclear.
  pose proof (erase_node_ok _ _ Hclear) as Herase.
  eexists. split.
  { rewrite (lift_node_guards create_name gm first n st tgt Htgt Hmem).
    rewrite (lift_replace_ok create_name first n st tgt Hwf Hn).
    cbn [bind]. rewrite Herase. reflexivity. }
  cbn [ls_graph ls_state_dict]. split.
  { exact (well_formed_erase_node _ _ _ Herase
             (lift_g4_wf create_name first n st tgt Hwf)). }
  split; [|reflexivity].
  cbn [nodes]. rewrite map_skel_map by apply skel_del_user_if.
  rewrite skel_filter_id.
  rewrite (lift_g4_skel create_name first n st tgt).
  unfold graph_placeholder. rewrite nodes_create_node.
  rewrite map_skel_map by apply skel_add_user_if. reflexivity.
Qed.

End LiftNodeShape.

(** ** Counting through one iteration *)

Lemma filter_filter_keeps {A : Type} (q r : A -> bool) (l : list A) :
  (forall s, In s l -> q s = true -> r s = true) ->
  filter q (filter r l) = filter q l.
Proof.
  induction l as [|x t IH]; intros H; simpl; [reflexivity|].
  destruct (r x) eqn:Er; simpl.
  - rewrite IH by (intros s Hs; apply H; right; exact Hs). reflexivity.
  - destruct (q x) eqn:Eq.
    + rewrite (H x (or_introl eq_refl) Eq) in Er. discriminate Er.
    + apply IH. intros s Hs. apply H. right. exact Hs.
Qed.

Lemma count_after_insert {A : Type} (q : A -> bool) (x : A)
    (l1 l2 : list A) :
  List.length (filter q (l1 ++ x :: l2))
  = List.length (filter q (l1 ++ l2)) + (if q x then 1 else 0).
Proof.
  rewrite !filter_app, !length_app. simpl.
  destruct (q x); simpl; lia.
Qed.

Section LiftCount.

Variable create_name : list string -> string -> string.
Variable gm : GraphModule.
Variable first : option Node.
Variable n : Node.
Variable st st' : LiftState.
Variable tgt : string.

Hypothesis Hwf : well_formed (ls_graph st).
Hypothesis Hn : In n (nodes (ls_graph st)).
Hypothesis Hop : op n = get_attr.
Hypothesis Hskel :
  map skel (nodes (ls_graph st'))
  = filter (fun s => negb (Nat.eqb (id_of s) (id n)))
      (map skel
         (insert_node (inserting_before first)
            (mkNode (next_id (ls_graph st))
               (create_name (used_names (ls_graph st)) tgt)
               placeholder (TStr tgt) [] [] [])
            (nodes (ls_graph st)))).

(** Every node the iteration leaves is the new placeholder or a node that
    was there, other than the lifted one. *)
Lemma lift_node_origin (x : Node) :
  In x (nodes (ls_graph st')) ->
  op x = placeholder
  \/ exists y, In y (nodes (ls_graph st)) /\ skel x = skel y
               /\ id y <> id n.
Proof.
  intros Hx. apply (in_map skel) in Hx. rewrite Hskel in Hx.
  apply filter_In in Hx as [Hx Hne].
  apply in_map_iff in Hx as (y & Hsk & Hy).
  apply In_insert_node in Hy as [-> | Hy].
  - left. rewrite (skel_op _ _ (eq_sym Hsk)). reflexivity.
  - right. exists y. split; [exact Hy|]. split; [symmetry; exact Hsk|].
    rewrite <- Hsk in Hne. apply negb_true_iff, Nat.eqb_neq in Hne.
    exact Hne.
Qed.

Lemma lift_node_counts :
  count_nodes is_placeholder (ls_graph st')
  = count_nodes is_placeholder (ls_graph st) + 1.
Proof.
  unfold count_nodes.
  rewrite !(count_by_skel is_placeholder
              (fun s => op_eqb (snd (fst s)) placeholder))
    by reflexivity.
  rewrite Hskel. rewrite filter_filter_keeps.
  - destruct (insert_node_split (inserting_before first)
                (mkNode (next_id (ls_graph st))
                   (create_name (used_names (ls_graph st)) tgt)
                   placeholder (TStr tgt) [] [] [])
                (nodes (ls_graph st)))
      as (l1 & l2 & Hl & ->).
    rewrite Hl, !map_app. simpl map.
    rewrite count_after_insert. reflexivity.
  - intros s Hs Hq. apply in_map_iff in Hs as (y & <- & Hy).
    apply negb_true_iff, Nat.eqb_neq. simpl.
    apply In_insert_node in Hy as [-> | Hy].
    + simpl. destruct Hwf as (_ & Hfresh & _).
      pose proof (Hfresh n Hn). lia.
    + intros Hid.
      assert (Hsame : Some y = Some n).
      { rewrite <- (get_node_of_In (ls_graph st) y) by
          (try apply Hwf; exact Hy).
        rewrite Hid. apply get_node_of_In; [apply Hwf | exact Hn]. }
      inversion Hsame. subst y. simpl in Hq. rewrite Hop in Hq.
      discriminate Hq.
Qed.

End LiftCount.

(** ** The loop *)

Section LiftLoopShape.

Variable create_name : list string -> string -> string.
Variable gm : GraphModule.
Variable first : option Node.

Lemma rewrapped_step (m : Node) (r : list Node) (tgt k : string)
    (sd : Dict StateVal) :
  is_get_attr m = true ->
  target m = TStr tgt ->
  option_map (rewrapped gm r k)
    (option_map
       (fun v => if mem_str k (named_parameters gm) && String.eqb k tgt
                 then SParameter (state_tensor v) else v)
       (dict_get sd k))
  = option_map (rewrapped gm (m :: r) k) (dict_get sd k).
Proof.
  intros Hga Ht. destruct (dict_get sd k) as [v|]; [|reflexivity].
  assert (Hmem : mem_str k (get_attr_targets (m :: r))
                 = String.eqb k tgt || mem_str k (get_attr_targets r)).
  { unfold get_attr_targets. simpl filter. rewrite Hga. simpl map.
    rewrite Ht. reflexivity. }
  simpl. f_equal. unfold rewrapped. rewrite Hmem.
  destruct (mem_str k (named_parameters gm));
    destruct (String.eqb k tgt);
    destruct (mem_str k (get_attr_targets r)); reflexivity.
Qed.

Lemma rewrapped_skip (m : Node) (r : list Node) (k : string)
    (v : StateVal) :
  is_get_attr m = false -> rewrapped gm (m :: r) k v = rewrapped gm r k v.
Proof.
  intros Hga. unfold rewrapped, get_attr_targets. simpl filter.
  rewrite Hga. reflexivity.
Qed.

(** Without a broken reference the loop returns a well-formed graph with
    no get-attr node left among the nodes it has visited, one placeholder
    more for each of them, and a state dict with the same keys. *)
Lemma lift_nodes_shape (l : list Node) :
  forall st : LiftState,
  well_formed (ls_graph st) ->
  NoDup (map id l) ->
  still_there st l ->
  (forall m, In m l -> is_broken_reference (ls_state_dict st) m = false) ->
  (forall x, In x (nodes (ls_graph st)) -> op x = get_attr ->
     In (id x) (map id l)) ->
  exists st',
    lift_nodes create_name gm first (map id l) st = Ok st'
    /\ well_formed (ls_graph st')
    /\ (forall x, In x (nodes (ls_graph st')) -> op x <> get_attr)
    /\ count_nodes is_placeholder (ls_graph st')
       = count_nodes is_placeholder (ls_graph st)
         + List.length (filter is_get_attr l)
    /\ map fst (ls_state_dict st') = map fst (ls_state_dict st)
    /\ (forall k, dict_get (ls_state_dict st') k
                  = option_map (rewrapped gm l k)
                      (dict_get (ls_state_dict st) k)).
Proof.
  induction l as [|m r IH]; intros st Hwf Hnd Hthere Hok Hall.
  - exists st. simpl. split; [reflexivity|]. split; [exact Hwf|].
    split; [intros x Hx Hop; exact (Hall x Hx Hop)|].
    split; [lia|]. split; [reflexivity|].
    intros k. destruct (dict_get (ls_state_dict st) k) as [v|];
      [|reflexivity].
    simpl. unfold rewrapped, get_attr_targets. simpl.
    rewrite andb_false_r. reflexivity.
  - destruct (Hthere m (or_introl eq_refl)) as (m' & Hm & Hsk).
    destruct (skel_fields m m' Hsk) as (Hname & Hop' & Htgt').
    destruct (get_node_In _ _ _ Hm) as [Hin Hid].
    inversion Hnd as [|? ? Hhead Hnd_r]; subst.
    pose proof (Hok m (or_introl eq_refl)) as Hm_ok.
    unfold is_broken_reference in Hm_ok.
    destruct (op_eqb (op m) get_attr) eqn:Hop.
    + simpl in Hm_ok. apply negb_false_iff in Hm_ok.
      assert (Hga : is_get_attr m = true) by exact Hop.
      assert (Hopm : op m' = get_attr).
      { rewrite Hop'. destruct (op m); try discriminate Hop. reflexivity. }
      destruct (target m) as [tgt|f] eqn:Et; [|discriminate Hm_ok].
      simpl in Hm_ok.
      destruct (lift_node_returns create_name gm first m' st tgt Hwf Hin
                  Htgt' Hm_ok)
        as (g5 & Hrun & _ & _ & _ & Hkeep).
      destruct (lift_node_shape create_name gm first m' st tgt Hwf Hin
                  Htgt' Hm_ok)
        as (st1 & Hrun1 & Hwf1 & Hskel & Hsd).
      assert (Hgraph : ls_graph st1 = g5).
      { rewrite Hrun in Hrun1. inversion Hrun1. reflexivity. }
      destruct (IH st1 Hwf1 Hnd_r) as
        (st' & Hrun' & Hwf' & Hnone & Hcount & Hkeys & Hlook).
      * intros m2 Hm2.
        destruct (Hthere m2 (or_intror Hm2)) as (m2' & Hm2' & Hsk2).
        assert (Hne : id m2 <> id m').
        { rewrite Hid. intros F. apply Hhead. rewrite <- F. apply in_map.
          exact Hm2. }
        destruct (Hkeep (id m2) m2' Hne Hm2') as (x & Hx & Hxs).
        exists x. rewrite Hgraph. split; [exact Hx | congruence].
      * intros x Hx. unfold is_broken_reference.
        rewrite (target_in_same_keys (ls_state_dict st)).
        -- apply (Hok x (or_intror Hx)).
        -- intros k. rewrite Hsd. apply probe_parameters_keys.
      * intros x Hx Hxop.
        destruct (lift_node_origin create_name first m' st st1 tgt Hskel
                    x Hx) as [Hph | (y & Hy & Hsky & Hney)].
        { rewrite Hph in Hxop. discriminate Hxop. }
        assert (Hyop : op y = get_attr)
          by (rewrite <- (skel_op _ _ Hsky); exact Hxop).
        rewrite (skel_id _ _ Hsky).
        destruct (Hall y Hy Hyop) as [F | F]; [|exact F].
        exfalso. apply Hney. rewrite <- F. symmetry. exact Hid.
      * exists st'. split.
        { simpl. rewrite Hm, Hopm. simpl. rewrite Hrun1. exact Hrun'. }
        split; [exact Hwf'|]. split; [exact Hnone|]. split.
        { rewrite Hcount.
          rewrite (lift_node_counts create_name first m' st st1 tgt Hwf
                     Hin Hopm Hskel).
          simpl filter. rewrite Hga. simpl. lia. }
        split.
        { rewrite Hkeys, Hsd. apply probe_parameters_key_order. }
        intros k. rewrite Hlook, Hsd, probe_parameters_lookup.
        apply rewrapped_step; [exact Hga | exact Et].
    + assert (Hga : is_get_attr m = false) by exact Hop.
      destruct (IH st Hwf Hnd_r (still_there_tail st m r Hthere)) as
        (st' & Hrun' & Hwf' & Hnone & Hcount & Hkeys & Hlook).
      * intros x Hx. apply Hok. right. exact Hx.
      * intros x Hx Hxop.
        destruct (Hall x Hx Hxop) as [F | F]; [|exact F].
        exfalso.
        assert (Hsame : Some x = Some m').
        { rewrite <- Hm, F. symmetry. apply get_node_of_In;
            [apply Hwf | exact Hx]. }
        inversion Hsame. subst x. rewrite Hop', Hxop in *.
        discriminate Hop.
      * exists st'. split.
        { rewrite (lift_nodes_skip create_name gm first st m m' r Hm Hsk
                     Hop). exact Hrun'. }
        split; [exact Hwf'|]. split; [exact Hnone|]. split.
        { rewrite Hcount. simpl filter. rewrite Hga. reflexivity. }
        split; [exact Hkeys|].
        intros k. rewrite Hlook.
        destruct (dict_get (ls_state_dict st) k) as [v|]; [|reflexivity].
        simpl. rewrite (rewrapped_skip m r k v Hga). reflexivity.
Qed.

End LiftLoopShape.

(** ** [lift] as a whole *)

Lemma initial_state_dict_keys (gm : GraphModule) :
  map fst (initial_state_dict gm) = map fst (state_dict gm).
Proof.
  unfold initial_state_dict. rewrite map_map. reflexivity.
Qed.

Lemma initial_state_dict_lookup (gm : GraphModule) (k : string) :
  dict_get (initial_state_dict gm) k
  = option_map STensor (dict_get (state_dict gm) k).
Proof.
  unfold initial_state_dict.
  induction (state_dict gm) as [|[k0 t] r IH]; simpl; [reflexivity|].
  destruct (String.eqb k0 k); [reflexivity | exact IH].
Qed.

Lemma lifted_kind_not_user_input (gm : GraphModule) (n : Node) :
  lifted_kind gm n <> USER_INPUT.
Proof.
  unfold lifted_kind, kind_by_buffer_first.
  destruct (mem_str _ (named_buffers gm)); [discriminate|].
  destruct (mem_str _ (named_parameters gm)); discriminate.
Qed.

Lemma filter_user_inputs_lifted (gm : GraphModule) (ns : list Node)
    (lifted : list InputSpec) :
  map kind lifted = map (lifted_kind gm) ns ->
  filter (fun s => kind_eqb (kind s) USER_INPUT) lifted = [].
Proof.
  revert ns. induction lifted as [|s r IH]; intros ns H; [reflexivity|].
  destruct ns as [|n ns']; [discriminate H|].
  simpl in H. inversion H as [[Hk Hr]]. simpl.
  pose proof (lifted_kind_not_user_input gm n) as Hne.
  rewrite Hk. destruct (lifted_kind gm n); try (exfalso; apply Hne;
    reflexivity); simpl; exact (IH ns' Hr).
Qed.

Section LiftWhole.

Variable create_name : list string -> string -> string.
Variable is_impure : Node -> bool.
Variable lint : Graph -> Result unit.
Variable detect_fake_mode : list MetaVal -> bool.

Local Abbreviation lift_ :=
  (lift create_name is_impure lint detect_fake_mode).

(** The run of [lift] on a graph without a broken reference, up to the
    final cleaning of the graph. *)
Lemma lift_steps (gm : GraphModule) (sig : ExportGraphSignature)
    (vals : list MetaVal) :
  check_graph (graph gm) = true ->
  (forall m, In m (nodes (graph gm)) ->
     is_broken_reference (initial_state_dict gm) m = false) ->
  placeholder_vals (nodes (graph gm)) = Ok vals ->
  detect_fake_mode vals = true ->
  exists st' lifted,
    lift_ gm sig
    = (lint (eliminate_dead_code is_impure (ls_graph st')) ;;;
       Ok (set_graph gm (eliminate_dead_code is_impure (ls_graph st')),
           mkSignature (lifted ++ input_specs sig) (output_specs sig),
           ls_state_dict st'))
    /\ map kind lifted
       = map (lifted_kind gm) (filter is_get_attr (nodes (graph gm)))
    /\ map spec_target lifted
       = map target (filter is_get_attr (nodes (graph gm)))
    /\ well_formed (ls_graph st')
    /\ (forall x, In x (nodes (ls_graph st')) -> op x <> get_attr)
    /\ count_nodes is_placeholder (ls_graph st')
       = count_nodes is_placeholder (graph gm)
         + count_nodes is_get_attr (graph gm)
    /\ map fst (ls_state_dict st') = map fst (state_dict gm)
    /\ (forall k, dict_get (ls_state_dict st') k
                  = option_map
                      (fun t => rewrapped gm (nodes (graph gm)) k
                                  (STensor t))
                      (dict_get (state_dict gm) k)).
Proof.
  intros Hcheck Hok Hvals Hfake.
  pose proof (check_graph_sound _ Hcheck) as Hwf.
  set (st0 := mkLiftState (graph gm) (input_specs sig)
                (initial_state_dict gm) 0).
  destruct (lift_nodes_returns create_name gm
              (first_user_input (graph gm) sig) (nodes (graph gm))
              st0 [] (input_specs sig) Hwf)
    as (st' & lifted & Hrun & Hspecs & Hkinds & Htargets & _);
    try reflexivity.
  { apply Hwf. }
  { apply still_there_initially. exact Hwf. }
  { exact Hok. }
  destruct (lift_nodes_shape create_name gm
              (first_user_input (graph gm) sig) (nodes (graph gm))
              st0 Hwf)
    as (st2 & Hrun2 & Hwf2 & Hnone & Hcount & Hkeys & Hlook).
  { apply Hwf. }
  { apply still_there_initially. exact Hwf. }
  { exact Hok. }
  { intros x Hx _. apply in_map. exact Hx. }
  assert (Hsame : st2 = st').
  { rewrite Hrun in Hrun2. inversion Hrun2. reflexivity. }
  subst st2.
  exists st', lifted. split.
  { unfold lift. rewrite Hvals. cbn [bind]. rewrite Hfake.
    cbn [assert bind]. fold st0. rewrite Hrun. cbn [bind].
    unfold clean_graph.
    destruct (lint (eliminate_dead_code is_impure (ls_graph st')));
      [|reflexivity].
    cbn [bind]. rewrite Hspecs. reflexivity. }
  split; [exact Hkinds|]. split; [exact Htargets|].
  split; [exact Hwf2|]. split; [exact Hnone|].
  split; [exact Hcount|]. split.
  { rewrite Hkeys. apply initial_state_dict_keys. }
  intros k. rewrite Hlook. simpl ls_state_dict.
  rewrite initial_state_dict_lookup.
  destruct (dict_get (state_dict gm) k); reflexivity.
Qed.

Lemma lift_run (gm : GraphModule) (sig : ExportGraphSignature)
    (vals : list MetaVal) :
  check_graph (graph gm) = true ->
  (forall m, In m (nodes (graph gm)) ->
     is_broken_reference (initial_state_dict gm) m = false) ->
  placeholder_vals (nodes (graph gm)) = Ok vals ->
  detect_fake_mode vals = true ->
  (forall g, lint g = Ok tt) ->
  exists st' lifted,
    lift_ gm sig
    = Ok (set_graph gm (eliminate_dead_code is_impure (ls_graph st')),
          mkSignature (lifted ++ input_specs sig) (output_specs sig),
          ls_state_dict st')
    /\ map kind lifted
       = map (lifted_kind gm) (filter is_get_attr (nodes (graph gm)))
    /\ map spec_target lifted
       = map target (filter is_get_attr (nodes (graph gm)))
    /\ well_formed (ls_graph st')
    /\ (forall x, In x (nodes (ls_graph st')) -> op x <> get_attr)
    /\ count_nodes is_placeholder (ls_graph st')
       = count_nodes is_placeholder (graph gm)
         + count_nodes is_get_attr (graph gm)
    /\ map fst (ls_state_dict st') = map fst (state_dict gm)
    /\ (forall k, dict_get (ls_state_dict st') k
                  = option_map
                      (fun t => rewrapped gm (nodes (graph gm)) k
                                  (STensor t))
                      (dict_get (state_dict gm) k)).
Proof.
  intros Hcheck Hok Hvals Hfake Hlint.
  destruct (lift_steps gm sig vals Hcheck Hok Hvals Hfake)
    as (st' & lifted & Hrun & Hrest).
  exists st', lifted. split; [|exact Hrest].
  rewrite Hrun, Hlint. reflexivity.
Qed.

(** X1: on a well-formed graph whose get-attr targets are all in the state
    dict, [lift] returns; the signature it returns holds one new spec per
    get-attr node, in the order of these nodes and with the kind and the
    target of each, followed by the specs it was given; none of the new
    specs is a user input, so the user inputs of the signature are those
    it had. *)
Theorem lift_puts_lifted_specs_first (gm : GraphModule)
    (sig : ExportGraphSignature) (vals : list MetaVal) :
  check_graph (graph gm) = true ->
  (forall m, In m (nodes (graph gm)) ->
     is_broken_reference (initial_state_dict gm) m = false) ->
  placeholder_vals (nodes (graph gm)) = Ok vals ->
  detect_fake_mode vals = true ->
  (forall g, lint g = Ok tt) ->
  exists gm' lifted sd',
    lift_ gm sig
    = Ok (gm', mkSignature (lifted ++ input_specs sig) (output_specs sig),
          sd')
    /\ map kind lifted
       = map (lifted_kind gm) (filter is_get_attr (nodes (graph gm)))
    /\ map spec_target lifted
       = map target (filter is_get_attr (nodes (graph gm)))
    /\ user_inputs
         (mkSignature (lifted ++ input_specs sig) (output_specs sig))
       = user_inputs sig.
Proof.
  intros Hcheck Hok Hvals Hfake Hlint.
  destruct (lift_run gm sig vals Hcheck Hok Hvals Hfake Hlint)
    as (st' & lifted & Hrun & Hkinds & Htargets & _).
  exists (set_graph gm (eliminate_dead_code is_impure (ls_graph st'))),
    lifted, (ls_state_dict st').
  split; [exact Hrun|]. split; [exact Hkinds|]. split; [exact Htargets|].
  unfold user_inputs. simpl input_specs. rewrite filter_app.
  rewrite (filter_user_inputs_lifted gm _ lifted Hkinds). reflexivity.
Qed.

(** X2: the graph [lift] returns is well formed and has no get-attr node
    left; where placeholders count as impure it has one placeholder more
    for each get-attr node it had. *)
Theorem lift_leaves_no_get_attr (gm : GraphModule)
    (sig : ExportGraphSignature) (vals : list MetaVal) :
  check_graph (graph gm) = true ->
  (forall m, In m (nodes (graph gm)) ->
     is_broken_reference (initial_state_dict gm) m = false) ->
  placeholder_vals (nodes (graph gm)) = Ok vals ->
  detect_fake_mode vals = true ->
  (forall g, lint g = Ok tt) ->
  (forall n, op n = placeholder -> is_impure n = true) ->
  exists gm' sig' sd',
    lift_ gm sig = Ok (gm', sig', sd')
    /\ well_formed (graph gm')
    /\ (forall x, In x (nodes (graph gm')) -> op x <> get_attr)
    /\ count_nodes is_placeholder (graph gm')
       = count_nodes is_placeholder (graph gm)
         + count_nodes is_get_attr (graph gm).
Proof.
  intros Hcheck Hok Hvals Hfake Hlint Himp.
  destruct (lift_run gm sig vals Hcheck Hok Hvals Hfake Hlint)
    as (st' & lifted & Hrun & _ & _ & Hwf' & Hnone & Hcount & _).
  eexists _, _, _. split; [exact Hrun|]. simpl graph.
  split; [apply well_formed_eliminate_dead_code; exact Hwf'|]. split.
  - intros x Hx.
    destruct (eliminate_dead_code_keeps is_impure _ Hwf' x Hx)
      as (y & Hy & Hsk).
    rewrite (skel_op _ _ Hsk). apply Hnone. exact Hy.
  - rewrite (count_placeholders_eliminate_dead_code is_impure _ Himp Hwf').
    exact Hcount.
Qed.

(** X3: the state dict [lift] returns has the keys of the module's state
    dict, in the same order; under a key it holds the module's tensor,
    wrapped as a parameter exactly when the key names a parameter that
    some get-attr node of the graph reads. *)
Theorem lift_state_dict_rewraps_read_parameters (gm : GraphModule)
    (sig : ExportGraphSignature) (vals : list MetaVal) :
  check_graph (graph gm) = true ->
  (forall m, In m (nodes (graph gm)) ->
     is_broken_reference (initial_state_dict gm) m = false) ->
  placeholder_vals (nodes (graph gm)) = Ok vals ->
  detect_fake_mode vals = true ->
  (forall g, lint g = Ok tt) ->
  exists gm' sig' sd',
    lift_ gm sig = Ok (gm', sig', sd')
    /\ map fst sd' = map fst (state_dict gm)
    /\ (forall k t,
          dict_get (state_dict gm) k = Some t ->
          dict_get sd' k
          = Some (if mem_str k (named_parameters gm)
                     && mem_str k (get_attr_targets (nodes (graph gm)))
                  then SParameter t else STensor t)).
Proof.
  intros Hcheck Hok Hvals Hfake Hlint.
  destruct (lift_run gm sig vals Hcheck Hok Hvals Hfake Hlint)
    as (st' & lifted & Hrun & _ & _ & _ & _ & _ & Hkeys & Hlook).
  eexists _, _, _. split; [exact Hrun|]. split; [exact Hkeys|].
  intros k t Hk. rewrite Hlook, Hk. simpl. unfold rewrapped.
  destruct (mem_str k (named_parameters gm)
            && mem_str k (get_attr_targets (nodes (graph gm))));
    reflexivity.
Qed.

End LiftWhole.

Lemma lift_puts_lifted_specs_first_witness :
  exists gm' lifted sd',
    lift Demo.keep_name Demo.demo_impure Demo.lint_ok Demo.fake_mode_found
      Demo.gm_lift (mkSignature [mkInputSpec USER_INPUT "x" (TStr "x")] [])
    = Ok (gm',
          mkSignature
            (lifted ++ [mkInputSpec USER_INPUT "x" (TStr "x")]) [], sd')
    /\ map kind lifted = [BUFFER; PARAMETER]
    /\ map spec_target lifted = [TStr "bn.running_mean"; TStr "fc.weight"]
    /\ user_inputs
         (mkSignature
            (lifted ++ [mkInputSpec USER_INPUT "x" (TStr "x")]) [])
       = ["x"].
Proof.
  apply (lift_puts_lifted_specs_first Demo.keep_name Demo.demo_impure
           Demo.lint_ok Demo.fake_mode_found Demo.gm_lift
           (mkSignature [mkInputSpec USER_INPUT "x" (TStr "x")] [])
           [MFake (mkFake [1]%Z [1]%Z)]).
  - reflexivity.
  - intros m [<- | [<- | [<- | [<- | [<- | []]]]]]; reflexivity.
  - reflexivity.
  - reflexivity.
  - reflexivity.
Defined.

Lemma lift_leaves_no_get_attr_witness :
  exists gm' sig' sd',
    lift Demo.keep_name Demo.demo_impure Demo.lint_ok Demo.fake_mode_found
      Demo.gm_lift (mkSignature [mkInputSpec USER_INPUT "x" (TStr "x")] [])
    = Ok (gm', sig', sd')
    /\ well_formed (graph gm')
    /\ (forall x, In x (nodes (graph gm')) -> op x <> get_attr)
    /\ count_nodes is_placeholder (graph gm') = 1 + 2.
Proof.
  apply (lift_leaves_no_get_attr Demo.keep_name Demo.demo_impure
           Demo.lint_ok Demo.fake_mode_found Demo.gm_lift
           (mkSignature [mkInputSpec USER_INPUT "x" (TStr "x")] [])
           [MFake (mkFake [1]%Z [1]%Z)]).
  - reflexivity.
  - intros m [<- | [<- | [<- | [<- | [<- | []]]]]]; reflexivity.
  - reflexivity.
  - reflexivity.
  - reflexivity.
  - intros n Hn. unfold Demo.demo_impure. rewrite Hn. reflexivity.
Defined.

Lemma lift_state_dict_rewraps_read_parameters_witness :
  exists gm' sig' sd',
    lift Demo.keep_name Demo.demo_impure Demo.lint_ok Demo.fake_mode_found
      Demo.gm_lift (mkSignature [mkInputSpec USER_INPUT "x" (TStr "x")] [])
    = Ok (gm', sig', sd')
    /\ map fst sd' = ["fc.weight"; "bn.running_mean"]
    /\ (forall k t,
          dict_get (state_dict Demo.gm_lift) k = Some t ->
          dict_get sd' k
          = Some (if mem_str k ["fc.weight"]
                     && mem_str k ["bn.running_mean"; "fc.weight"]
                  then SParameter t else STensor t)).
Proof.
  apply (lift_state_dict_rewraps_read_parameters Demo.keep_name
           Demo.demo_impure Demo.lint_ok Demo.fake_mode_found Demo.gm_lift
           (mkSignature [mkInputSpec USER_INPUT "x" (TStr "x")] [])
           [MFake (mkFake [1]%Z [1]%Z)]).
  - reflexivity.
  - intros m [<- | [<- | [<- | [<- | [<- | []]]]]]; reflexivity.
  - reflexivity.
  - reflexivity.
  - reflexivity.
Defined.

(** ** The edges of [lift] *)

Lemma placeholder_vals_missing (l : list Node) :
  (exists n, In n l /\ op n = placeholder /\ dict_get (meta n) "val" = None)
  -> placeholder_vals l = Raise (KeyError "val").
Proof.
  induction l as [|m r IH]; intros (n & Hn & Hop & Hval).
  - destruct Hn.
  - simpl. destruct (op_eqb (op m) placeholder) eqn:Em.
    + destruct (dict_get (meta m) "val") as [v|] eqn:Ev; [|reflexivity].
      destruct Hn as [-> | Hn]; [congruence|].
      rewrite IH; [reflexivity|]. exists n. repeat split; assumption.
    + destruct Hn as [-> | Hn].
      * rewrite Hop in Em. discriminate Em.
      * apply IH. exists n. repeat split; assumption.
Qed.

Section LiftEdges.

Variable create_name : list string -> string -> string.
Variable is_impure : Node -> bool.
Variable lint : Graph -> Result unit.
Variable detect_fake_mode : list MetaVal -> bool.

Local Abbreviation lift_ :=
  (lift create_name is_impure lint detect_fake_mode).

Lemma lift_nodes_nothing (gm : GraphModule) (first : option Node)
    (st : LiftState) (l : list NodeId) :
  (forall x, In x (nodes (ls_graph st)) -> op x <> get_attr) ->
  lift_nodes create_name gm first l st = Ok st.
Proof.
  intros Hnone. induction l as [|i r IH]; simpl; [reflexivity|].
  destruct (get_node (ls_graph st) i) as [n|] eqn:Hn; [|exact IH].
  destruct (get_node_In _ _ _ Hn) as [Hin _].
  pose proof (Hnone n Hin) as Hop.
  destruct (op n); try exact IH. contradiction.
Qed.

(** X4: on a graph without get-attr nodes [lift] changes neither the
    signature nor the state dict, whose entries stay plain tensors; the
    graph is only cleaned of dead code.  No assumption on the graph is
    needed. *)
Theorem lift_nothing_to_lift (gm : GraphModule)
    (sig : ExportGraphSignature) (vals : list MetaVal) :
  (forall x, In x (nodes (graph gm)) -> op x <> get_attr) ->
  placeholder_vals (nodes (graph gm)) = Ok vals ->
  detect_fake_mode vals = true ->
  lift_ gm sig
  = (g <- clean_graph is_impure lint (graph gm) ;;
     Ok (set_graph gm g, sig, initial_state_dict gm)).
Proof.
  intros Hnone Hvals Hfake. unfold lift.
  rewrite Hvals. cbn [bind]. rewrite Hfake. cbn [assert bind].
  rewrite lift_nodes_nothing by exact Hnone. cbn [bind ls_graph].
  destruct sig as [ins outs]. reflexivity.
Qed.

(** X5: [lift] reads the ["val"] metadata of every placeholder before it
    touches the graph: a placeholder without one makes it raise the key
    error, and a tuple of values in which no fake mode is found makes it
    raise the assertion error, whatever the get-attr nodes are. *)
Theorem lift_needs_placeholder_vals_and_fake_mode (gm : GraphModule)
    (sig : ExportGraphSignature) :
  ((exists n, In n (nodes (graph gm)) /\ op n = placeholder
              /\ dict_get (meta n) "val" = None) ->
   lift_ gm sig = Raise (KeyError "val"))
  /\ (forall vals,
        placeholder_vals (nodes (graph gm)) = Ok vals ->
        detect_fake_mode vals = false ->
        lift_ gm sig = Raise (AssertionError "")).
Proof.
  split.
  - intros H. unfold lift. rewrite (placeholder_vals_missing _ H).
    reflexivity.
  - intros vals Hvals Hfake. unfold lift. rewrite Hvals. cbn [bind].
    rewrite Hfake. reflexivity.
Qed.

End LiftEdges.

Lemma lift_nothing_to_lift_witness :
  lift Demo.keep_name Demo.demo_impure Demo.lint_ok Demo.fake_mode_found
    (mkGraphModule (mkGraph [] 0 []) [("w", Demo.some_tensor)] ["w"] [] [])
    (mkSignature [] [])
  = Ok (mkGraphModule (mkGraph [] 0 []) [("w", Demo.some_tensor)] ["w"] []
          [],
        mkSignature [] [], [("w", STensor Demo.some_tensor)]).
Proof.
  apply (lift_nothing_to_lift Demo.keep_name Demo.demo_impure Demo.lint_ok
           Demo.fake_mode_found
           (mkGraphModule (mkGraph [] 0 []) [("w", Demo.some_tensor)] ["w"]
              [] [])
           (mkSignature [] []) []).
  - intros x [].
  - reflexivity.
  - reflexivity.
Defined.

Lemma lift_needs_placeholder_vals_and_fake_mode_witness :
  lift Demo.keep_name Demo.demo_impure Demo.lint_ok Demo.fake_mode_found
    Demo.gm_torch (mkSignature [] [])
  = Raise (KeyError "val")
  /\ lift Demo.keep_name Demo.demo_impure Demo.lint_ok (fun _ => false)
       Demo.gm_lift (mkSignature [] [])
     = Raise (AssertionError "").
Proof.
  split.
  - apply (proj1 (lift_needs_placeholder_vals_and_fake_mode Demo.keep_name
                    Demo.demo_impure Demo.lint_ok Demo.fake_mode_found
                    Demo.gm_torch (mkSignature [] []))).
    exists (mkNode 0 "x" placeholder (TStr "x") [] [] [1]).
    split; [left; reflexivity|]. split; reflexivity.
  - apply (proj2 (lift_needs_placeholder_vals_and_fake_mode Demo.keep_name
                    Demo.demo_impure Demo.lint_ok (fun _ => false)
                    Demo.gm_lift (mkSignature [] []))
             [MFake (mkFake [1]%Z [1]%Z)]); reflexivity.
Defined.

End LiftMore.

(* ===================================================================== *)
(** * Facts: [create_trt_exp_program]                                     *)
(* ===================================================================== *)

Module ProgramMore.

Import Fx Exporter ExporterTerms FxFacts LiftFacts LiftMore.

Lemma output_specs_of_nodes (g : Graph) (ns : list Node) :
  (forall n, In n ns -> get_node g (id n) = Some n) ->
  output_specs_of g (map (fun n => ANode (id n)) ns)
  = Ok (map (fun n => mkOutputSpec (name n) (target n)) ns).
Proof.
  induction ns as [|n r IH]; intros H; simpl; [reflexivity|].
  rewrite (H n (or_introl eq_refl)).
  rewrite IH by (intros m Hm; apply H; right; exact Hm). reflexivity.
Qed.

Lemma output_specs_of_not_a_node (g : Graph) (outs : list Arg) :
  (exists a, In a outs /\ forall i, a <> ANode i) ->
  output_specs_of g outs = Raise (AttributeError "name").
Proof.
  induction outs as [|a r IH]; intros (b & Hb & Hnot).
  - destruct Hb.
  - destruct a as [i| | | |]; try reflexivity.
    simpl. destruct (get_node g i); [|reflexivity].
    destruct Hb as [<- | Hb]; [exfalso; apply (Hnot i); reflexivity|].
    rewrite IH; [reflexivity|]. exists b. split; assumption.
Qed.

Lemma user_inputs_of_placeholders (l : list Node) (outs : list OutputSpec) :
  user_inputs (mkSignature (map user_input_spec l) outs) = map name l.
Proof.
  unfold user_inputs. simpl input_specs.
  induction l as [|n r IH]; simpl; [reflexivity|].
  f_equal. exact IH.
Qed.

Section Program.

Variable create_name : list string -> string -> string.
Variable is_impure : Node -> bool.
Variable lint : Graph -> Result unit.
Variable detect_fake_mode : list MetaVal -> bool.
Variable ExportedProgram_new :
  GraphModule -> Graph -> ExportGraphSignature -> Dict StateVal
  -> Result ExportedProgram.

Local Abbreviation create_ :=
  (create_trt_exp_program create_name is_impure lint detect_fake_mode
     ExportedProgram_new).

(** X6: for a well-formed graph whose get-attr targets are all in the
    state dict, whose placeholders carry ["val"] with a fake mode found
    from them, and whose output node returns a tuple of nodes of the
    graph, [create_trt_exp_program] lifts and lints the graph and, when the
    lint passes, is the call of the constructor of the exported program on
    the lifted module, the graph of that module, a signature and the state
    dict of [lift].  The signature lists the lifted constants first, in
    graph order, then one user input per placeholder the graph had, in
    graph order, and one user output per returned node; its user inputs
    are exactly the names of these placeholders. *)
Theorem create_trt_exp_program_signature (gm : GraphModule)
    (vals : list MetaVal) (out : Node) (rest : list Node)
    (returned : list Node) (more : list Arg) :
  check_graph (graph gm) = true ->
  (forall m, In m (nodes (graph gm)) ->
     is_broken_reference (initial_state_dict gm) m = false) ->
  placeholder_vals (nodes (graph gm)) = Ok vals ->
  detect_fake_mode vals = true ->
  filter (fun n => op_eqb (op n) output) (nodes (graph gm)) = out :: rest ->
  args out = ATuple (map (fun n => ANode (id n)) returned) :: more ->
  (forall n, In n returned -> In n (nodes (graph gm))) ->
  exists gm' sig' sd' lifted,
    create_ gm
    = (lint (graph gm') ;;; ExportedProgram_new gm' (graph gm') sig' sd')
    /\ input_specs sig'
       = (lifted
          ++ map user_input_spec
               (filter is_placeholder (nodes (graph gm))))%list
    /\ map kind lifted
       = map (lifted_kind gm) (filter is_get_attr (nodes (graph gm)))
    /\ map spec_target lifted
       = map target (filter is_get_attr (nodes (graph gm)))
    /\ output_specs sig'
       = map (fun n => mkOutputSpec (name n) (target n)) returned
    /\ user_inputs sig'
       = map name (filter is_placeholder (nodes (graph gm)))
    /\ map fst sd' = map fst (state_dict gm).
Proof.
  intros Hcheck Hok Hvals Hfake Hout Hargs Hret.
  pose proof (check_graph_sound _ Hcheck) as Hwf.
  set (ins := map user_input_spec
                (filter is_placeholder (nodes (graph gm)))).
  set (outs := map (fun n => mkOutputSpec (name n) (target n)) returned).
  destruct (lift_steps create_name is_impure lint detect_fake_mode gm
              (mkSignature ins outs) vals Hcheck Hok Hvals Hfake)
    as (st' & lifted & Hrun & Hkinds & Htargets & _ & _ & _ & Hkeys & _).
  set (gm' := set_graph gm
                (eliminate_dead_code is_impure (ls_graph st'))) in Hrun.
  exists gm', (mkSignature (lifted ++ ins) outs), (ls_state_dict st'),
    lifted.
  split.
  { unfold create_trt_exp_program. rewrite Hout, Hargs.
    rewrite output_specs_of_nodes.
    - cbn [bind]. fold outs.
      change (map (fun n => mkInputSpec USER_INPUT (name n) (target n))
                (filter (fun n => op_eqb (op n) placeholder)
                   (nodes (graph gm)))) with ins.
      rewrite Hrun. simpl graph.
      destruct (lint (eliminate_dead_code is_impure (ls_graph st')));
        reflexivity.
    - intros n Hn. apply get_node_of_In; [apply Hwf | apply Hret, Hn]. }
  simpl. split; [reflexivity|]. split; [exact Hkinds|].
  split; [exact Htargets|]. split; [reflexivity|].
  split; [|exact Hkeys].
  unfold user_inputs. simpl input_specs. rewrite filter_app.
  rewrite (filter_user_inputs_lifted gm _ lifted Hkinds).
  apply (user_inputs_of_placeholders _ outs).
Qed.

(** X7: [create_trt_exp_program] raises the assertion error on a graph
    without an output node, the type error of the interpreter when the
    output node returns a single value instead of a tuple, and the
    attribute error when the returned tuple holds something that is not a
    node; in each case before anything is lifted or constructed. *)
Theorem create_trt_exp_program_rejects (gm : GraphModule) :
  (filter (fun n => op_eqb (op n) output) (nodes (graph gm)) = [] ->
   create_ gm = Raise (AssertionError ""))
  /\ (forall out rest a more,
        filter (fun n => op_eqb (op n) output) (nodes (graph gm))
        = out :: rest ->
        args out = a :: more ->
        (forall l, a <> ATuple l) ->
        create_ gm
        = Raise (TypeError
                   ("'" ++ type_name a ++ "' object is not iterable")))
  /\ (forall out rest outs more,
        filter (fun n => op_eqb (op n) output) (nodes (graph gm))
        = out :: rest ->
        args out = ATuple outs :: more ->
        (exists a, In a outs /\ forall i, a <> ANode i) ->
        create_ gm = Raise (AttributeError "name")).
Proof.
  split; [|split].
  - intros H. unfold create_trt_exp_program. rewrite H. reflexivity.
  - intros out rest a more Hout Hargs Hnot.
    unfold create_trt_exp_program. rewrite Hout, Hargs.
    destruct a as [i|z|l|e|]; try reflexivity.
    exfalso. apply (Hnot l). reflexivity.
  - intros out rest outs more Hout Hargs Hbad.
    unfold create_trt_exp_program. rewrite Hout, Hargs.
    rewrite (output_specs_of_not_a_node _ _ Hbad). reflexivity.
Qed.

End Program.

Lemma create_trt_exp_program_signature_witness :
  exists gm' sig' sd' lifted,
    create_trt_exp_program Demo.keep_name Demo.demo_impure Demo.lint_ok
      Demo.fake_mode_found Demo.stored Demo.gm_lift
    = (Demo.lint_ok (graph gm') ;;; Demo.stored gm' (graph gm') sig' sd')
    /\ input_specs sig'
       = (lifted ++ [mkInputSpec USER_INPUT "x" (TStr "x")])%list
    /\ map kind lifted = [BUFFER; PARAMETER]
    /\ map spec_target lifted = [TStr "bn.running_mean"; TStr "fc.weight"]
    /\ output_specs sig'
       = [mkOutputSpec "linear" (TFn (other_callable "linear"))]
    /\ user_inputs sig' = ["x"]
    /\ map fst sd' = ["fc.weight"; "bn.running_mean"].
Proof.
  apply (create_trt_exp_program_signature Demo.keep_name Demo.demo_impure
           Demo.lint_ok Demo.fake_mode_found Demo.stored Demo.gm_lift
           [MFake (mkFake [1]%Z [1]%Z)]
           (mkNode 4 "output" output (TStr "output") [ATuple [ANode 3]] []
              [])
           []
           [mkNode 3 "linear" call_function (TFn (other_callable "linear"))
              [ANode 2; ANode 1; ANode 0] [] [4]]
           []).
  - reflexivity.
  - intros m [<- | [<- | [<- | [<- | [<- | []]]]]]; reflexivity.
  - reflexivity.
  - reflexivity.
  - reflexivity.
  - reflexivity.
  - intros n [<- | []]. simpl. tauto.
Defined.

Lemma create_trt_exp_program_rejects_witness :
  create_trt_exp_program Demo.keep_name Demo.demo_impure Demo.lint_ok
    Demo.fake_mode_found Demo.stored
    (mkGraphModule (mkGraph [] 0 []) [] [] [] [])
  = Raise (AssertionError "")
  /\ create_trt_exp_program Demo.keep_name Demo.demo_impure Demo.lint_ok
       Demo.fake_mode_found Demo.stored
       (mkGraphModule (sm_graph Demo.gpu_module) [] [] [] [])
     = Raise (TypeError "'Node' object is not iterable").
Proof.
  split.
  - apply (proj1 (create_trt_exp_program_rejects Demo.keep_name
                    Demo.demo_impure Demo.lint_ok Demo.fake_mode_found
                    Demo.stored
                    (mkGraphModule (mkGraph [] 0 []) [] [] [] []))).
    reflexivity.
  - apply (proj1 (proj2 (create_trt_exp_program_rejects Demo.keep_name
                           Demo.demo_impure Demo.lint_ok
                           Demo.fake_mode_found Demo.stored
                           (mkGraphModule (sm_graph Demo.gpu_module) [] []
                              [] [])))
             (mkNode 2 "output" output (TStr "output") [ANode 1] [] []) []
             (ANode 1) []); try reflexivity.
    discriminate.
Defined.

End ProgramMore.

(* ===================================================================== *)
(** * Facts: the placeholders of the lifted graph follow the input specs  *)
(* ===================================================================== *)

Module OrderFacts.

Import Fx Exporter ExporterTerms OrderTerms FxFacts LiftFacts FxMore
  LiftMore ProgramMore.

Local Open Scope list_scope.

Local Abbreviation Skel := (NodeId * string * Op * Target)%type.
Local Abbreviation id_of := (fun s : Skel => fst (fst (fst s))).
Local Abbreviation name_of := (fun s : Skel => snd (fst (fst s))).
Local Abbreviation is_ph := (fun s : Skel => op_eqb (snd (fst s)) placeholder).
Local Abbreviation ph_names :=
  (fun S : list Skel => map name_of (filter is_ph S)).
Local Abbreviation other_than :=
  (fun (i : NodeId) (s : Skel) => negb (Nat.eqb (id_of s) i)).

Lemma placeholder_names_skel (g : Graph) :
  placeholder_names g = ph_names (map skel (nodes g)).
Proof.
  unfold placeholder_names.
  induction (nodes g) as [|n r IH]; simpl; [reflexivity|].
  unfold is_placeholder at 1.
  destruct (op_eqb (op n) placeholder); simpl; rewrite IH; reflexivity.
Qed.

Lemma skel_insert_before (a : NodeId) (x : Node) (l : list Node)
    (S1 S2 : list Skel) (s : Skel) :
  map skel l = (S1 ++ s :: S2)%list ->
  id_of s = a ->
  ~ In a (map id_of S1) ->
  map skel (insert_before a x l) = (S1 ++ skel x :: s :: S2)%list.
Proof.
  revert l. induction S1 as [|s1 r IH]; intros l Hl Hs Hnot.
  - destruct l as [|n l']; [discriminate|]. simpl in Hl.
    inversion Hl as [[Hn Hl']]. simpl.
    assert (Hid : id n = a) by (rewrite <- Hs, <- Hn; reflexivity).
    rewrite Hid, Nat.eqb_refl. simpl. rewrite Hl'. reflexivity.
  - destruct l as [|n l']; [discriminate|]. simpl in Hl.
    inversion Hl as [[Hn Hl']]. simpl.
    destruct (Nat.eqb (id n) a) eqn:E.
    + apply Nat.eqb_eq in E. exfalso. apply Hnot. left.
      rewrite <- Hn. exact E.
    + simpl. rewrite (IH l' Hl' Hs); [reflexivity|].
      intros F. apply Hnot. right. exact F.
Qed.

Lemma ph_names_other_than (i : NodeId) (S : list Skel) :
  (forall s, In s S -> is_ph s = true -> id_of s <> i) ->
  ph_names (filter (other_than i) S) = ph_names S.
Proof.
  intros H. cbv beta. rewrite filter_filter_keeps; [reflexivity|].
  intros s Hs Hq. apply negb_true_iff, Nat.eqb_neq. exact (H s Hs Hq).
Qed.

Lemma ph_names_app (S1 S2 : list Skel) :
  ph_names (S1 ++ S2)%list = (ph_names S1 ++ ph_names S2)%list.
Proof. cbv beta. rewrite filter_app, map_app. reflexivity. Qed.

(** ** One iteration, seen from the anchor *)

Section OrderStep.

Variable create_name : list string -> string -> string.
Variable g g' : Graph.
Variable n : Node.
Variable a : NodeId.
Variable tgt : string.
Variable S1 S2 : list Skel.
Variable sf : Skel.

Let ph0 : Node :=
  mkNode (next_id g) (create_name (used_names g) tgt) placeholder (TStr tgt)
    [] [] [].

Hypothesis Hwf : well_formed g.
Hypothesis Hn : In n (nodes g).
Hypothesis Hop : op n = get_attr.
Hypothesis Hsplit : map skel (nodes g) = (S1 ++ sf :: S2)%list.
Hypothesis Hsf : id_of sf = a.
Hypothesis Hph : is_ph sf = true.
Hypothesis Hfresh : ~ In a (map id_of S1).
Hypothesis Hskel :
  map skel (nodes g')
  = filter (other_than (id n))
      (map skel (insert_node (Before a) ph0 (nodes g))).

Lemma placeholders_are_not_lifted (s : Skel) :
  In s (map skel (nodes g)) -> is_ph s = true -> id_of s <> id n.
Proof.
  intros Hs Hq Hid. apply in_map_iff in Hs as (y & <- & Hy).
  assert (Hsame : Some y = Some n).
  { rewrite <- (get_node_of_In g y) by (try apply Hwf; exact Hy).
    simpl in Hid. rewrite Hid. apply get_node_of_In; [apply Hwf | exact Hn]. }
  inversion Hsame. subst y. simpl in Hq. rewrite Hop in Hq.
  discriminate Hq.
Qed.

Lemma anchor_below : a < next_id g.
Proof.
  assert (Hin : In sf (map skel (nodes g)))
    by (rewrite Hsplit; apply in_app_iff; right; left; reflexivity).
  apply in_map_iff in Hin as (y & Hy & Hyin). subst a.
  rewrite <- Hy. simpl. destruct Hwf as (_ & Hlt & _). apply Hlt, Hyin.
Qed.

(** The new placeholder goes right before the anchor; what stood before
    the anchor, the lifted node apart, still stands before it. *)
Lemma order_step :
  map skel (nodes g')
  = ((filter (other_than (id n)) S1 ++ [skel ph0])
     ++ sf :: filter (other_than (id n)) S2)%list
  /\ ~ In a (map id_of (filter (other_than (id n)) S1 ++ [skel ph0]))
  /\ ph_names (filter (other_than (id n)) S1 ++ [skel ph0])
     = (ph_names S1 ++ [create_name (used_names g) tgt])%list
  /\ ph_names (sf :: filter (other_than (id n)) S2) = ph_names (sf :: S2).
Proof.
  pose proof anchor_below as Hlt.
  assert (Hn_lt : id n < next_id g)
    by (destruct Hwf as (_ & Hb & _); apply Hb, Hn).
  assert (Hsf_n : other_than (id n) sf = true).
  { apply negb_true_iff, Nat.eqb_neq.
    apply placeholders_are_not_lifted; [|exact Hph].
    rewrite Hsplit. apply in_app_iff. right. left. reflexivity. }
  assert (Hph0_n : other_than (id n) (skel ph0) = true)
    by (apply negb_true_iff, Nat.eqb_neq; simpl; lia).
  split; [|split; [|split]].
  - rewrite Hskel. simpl insert_node.
    rewrite (skel_insert_before a ph0 (nodes g) S1 S2 sf Hsplit Hsf Hfresh).
    rewrite filter_app. cbn [filter]. cbv beta in Hsf_n, Hph0_n.
    rewrite Hsf_n, Hph0_n. rewrite <- app_assoc. reflexivity.
  - rewrite map_app. intros F. apply in_app_iff in F as [F | F].
    + apply Hfresh. apply in_map_iff in F as (s & Hs & Hin).
      apply filter_In in Hin as [Hin _]. apply in_map_iff.
      exists s. split; assumption.
    + simpl in F. lia.
  - rewrite ph_names_app. f_equal.
    apply ph_names_other_than. intros s Hs.
    apply placeholders_are_not_lifted. rewrite Hsplit.
    apply in_app_iff. left. exact Hs.
  - cbv beta. cbn [filter]. cbv beta in Hph. rewrite Hph. cbn [map].
    f_equal. apply (ph_names_other_than (id n) S2). intros s Hs.
    apply placeholders_are_not_lifted. rewrite Hsplit.
    apply in_app_iff. right. right. exact Hs.
Qed.

End OrderStep.

(** ** The loop, seen from the anchor *)

Section OrderLoop.

Variable create_name : list string -> string -> string.
Variable gm : GraphModule.
Variable f : Node.

(** Without a broken reference and with a placeholder [f] to insert
    before, the loop returns; the new placeholders stand right before [f],
    in the order of the new specs and under the names these specs carry;
    the placeholders from [f] on are those there were. *)
Lemma lift_nodes_order (l : list Node) :
  forall (st : LiftState) (A B : list InputSpec) (S1 S2 : list Skel)
         (sf : Skel),
  well_formed (ls_graph st) ->
  NoDup (map id l) ->
  still_there st l ->
  (forall m, In m l -> is_broken_reference (ls_state_dict st) m = false) ->
  ls_specs st = A ++ B ->
  List.length A = ls_idx st ->
  map skel (nodes (ls_graph st)) = S1 ++ sf :: S2 ->
  id_of sf = id f ->
  is_ph sf = true ->
  ~ In (id f) (map id_of S1) ->
  exists st' lifted S1' S2',
    lift_nodes create_name gm (Some f) (map id l) st = Ok st'
    /\ ls_specs st' = A ++ lifted ++ B
    /\ map skel (nodes (ls_graph st')) = S1' ++ sf :: S2'
    /\ ph_names S1' = ph_names S1 ++ map arg_name lifted
    /\ ph_names (sf :: S2') = ph_names (sf :: S2)
    /\ well_formed (ls_graph st').
Proof.
  induction l as [|m r IH];
    intros st A B S1 S2 sf Hwf Hnd Hthere Hok Hspecs Hlen Hsplit Hsf Hph
      Hfresh.
  - exists st, [], S1, S2. simpl.
    split; [reflexivity|]. split; [exact Hspecs|].
    split; [exact Hsplit|]. split; [|split; [reflexivity | exact Hwf]].
    rewrite app_nil_r. reflexivity.
  - destruct (Hthere m (or_introl eq_refl)) as (m' & Hm & Hsk).
    destruct (skel_fields m m' Hsk) as (Hname & Hop' & Htgt').
    destruct (get_node_In _ _ _ Hm) as [Hin Hid].
    inversion Hnd as [|? ? Hhead Hnd_r]; subst.
    pose proof (Hok m (or_introl eq_refl)) as Hm_ok.
    unfold is_broken_reference in Hm_ok.
    destruct (op_eqb (op m) get_attr) eqn:Hop.
    + simpl in Hm_ok. apply negb_false_iff in Hm_ok.
      assert (Hopm : op m' = get_attr).
      { rewrite Hop'. destruct (op m); try discriminate Hop. reflexivity. }
      destruct (target m) as [tgt|fn] eqn:Et; [|discriminate Hm_ok].
      simpl in Hm_ok.
      destruct (lift_node_returns create_name gm (Some f) m' st tgt Hwf Hin
                  Htgt' Hm_ok)
        as (g5 & Hrun & _ & _ & _ & Hkeep).
      destruct (lift_node_shape create_name gm (Some f) m' st tgt Hwf Hin
                  Htgt' Hm_ok)
        as (st1 & Hrun1 & Hwf1 & Hskel & Hsd).
      rewrite Hrun in Hrun1. inversion Hrun1 as [Hst1]. clear Hrun1.
      rewrite <- Hst1 in Hwf1, Hskel, Hsd. simpl in Hwf1, Hskel, Hsd.
      destruct (order_step create_name (ls_graph st) g5 m' (id f) tgt S1 S2
                  sf Hwf Hin Hopm Hsplit Hsf Hph Hfresh Hskel)
        as (Hsk5 & Hfresh5 & Hnames1 & Hnames2).
      set (s := mkInputSpec (kind_by_buffer_first gm tgt)
                  (create_name (used_names (ls_graph st)) tgt) (TStr tgt))
        in *.
      destruct (IH (mkLiftState g5
                      (list_insert (ls_idx st) s (ls_specs st))
                      (snd (probe_parameters (named_parameters gm) tgt
                              CONSTANT_TENSOR (ls_state_dict st)))
                      (S (ls_idx st)))
                  (A ++ [s]) B
                  (filter (other_than (id m')) S1
                   ++ [skel (mkNode (next_id (ls_graph st))
                               (create_name (used_names (ls_graph st)) tgt)
                               placeholder (TStr tgt) [] [] [])])
                  (filter (other_than (id m')) S2) sf Hwf1 Hnd_r)
        as (st' & lifted & S1' & S2' & Hrun' & Hspecs' & Hsk' & Hn1 & Hn2
            & Hwf').
      * intros m2 Hm2.
        destruct (Hthere m2 (or_intror Hm2)) as (m2' & Hm2' & Hsk2).
        assert (Hne : id m2 <> id m').
        { rewrite Hid. intros F. apply Hhead. rewrite <- F. apply in_map.
          exact Hm2. }
        destruct (Hkeep (id m2) m2' Hne Hm2') as (x & Hx & Hxs).
        exists x. split; [exact Hx | congruence].
      * intros x Hx. unfold is_broken_reference. simpl ls_state_dict.
        rewrite (target_in_same_keys (ls_state_dict st)).
        -- apply (Hok x (or_intror Hx)).
        -- intros k. apply probe_parameters_keys.
      * simpl. rewrite Hspecs, <- Hlen, list_insert_middle, <- app_assoc.
        reflexivity.
      * simpl. rewrite length_app, Hlen. simpl. lia.
      * exact Hsk5.
      * exact Hsf.
      * exact Hph.
      * exact Hfresh5.
      * exists st', (s :: lifted), S1', S2'. split.
        { simpl. rewrite Hm, Hopm. simpl. rewrite Hrun. exact Hrun'. }
        split; [rewrite Hspecs', <- app_assoc; reflexivity|].
        split; [exact Hsk'|]. split.
        { rewrite Hn1, Hnames1, <- app_assoc. reflexivity. }
        split; [rewrite Hn2; exact Hnames2 | exact Hwf'].
    + destruct (IH st A B S1 S2 sf Hwf Hnd_r
                  (still_there_tail st m r Hthere))
        as (st' & lifted & S1' & S2' & Hrun' & Hrest); try assumption.
      * intros x Hx. apply Hok. right. exact Hx.
      * exists st', lifted, S1', S2'. split; [|exact Hrest].
        rewrite (lift_nodes_skip create_name gm (Some f) st m m' r Hm Hsk
                   Hop). exact Hrun'.
Qed.

End OrderLoop.

(** ** Dead-code elimination keeps the placeholders in place *)

Lemma ph_names_of_nodes (l : list Node) :
  ph_names (map skel l) = map name (filter is_placeholder l).
Proof.
  cbv beta. induction l as [|n r IH]; simpl; [reflexivity|].
  unfold is_placeholder at 1.
  destruct (op_eqb (op n) placeholder); simpl; rewrite IH; reflexivity.
Qed.

Lemma placeholder_names_erase_other (g g' : Graph) (i : NodeId) (n : Node) :
  well_formed g ->
  get_node g i = Some n ->
  op n <> placeholder ->
  erase_node g i = Ok g' ->
  placeholder_names g' = placeholder_names g.
Proof.
  intros Hwf Hn Hop Herase.
  rewrite !placeholder_names_skel.
  rewrite (skel_erase_node _ _ _ Herase), skel_filter_id.
  apply (ph_names_other_than i). intros s Hs Hq Hid.
  apply in_map_iff in Hs as (y & <- & Hy). simpl in Hid, Hq.
  assert (Hsame : Some y = Some n).
  { rewrite <- Hn, <- Hid. symmetry. apply get_node_of_In;
      [apply Hwf | exact Hy]. }
  inversion Hsame. subst y. apply Hop.
  destruct (op n); try discriminate Hq. reflexivity.
Qed.

Lemma placeholder_names_eliminate_dead_code (is_impure : Node -> bool)
    (g : Graph) :
  (forall n, op n = placeholder -> is_impure n = true) ->
  well_formed g ->
  placeholder_names (eliminate_dead_code is_impure g) = placeholder_names g.
Proof.
  intros Himp Hwf.
  apply (eliminate_dead_code_ind is_impure
           (fun g' => placeholder_names g' = placeholder_names g)
           g Hwf eq_refl).
  intros g1 g2 i n Hwf1 HP Hn Hpure Herase.
  rewrite <- HP.
  apply (placeholder_names_erase_other g1 g2 i n Hwf1 Hn); [|exact Herase].
  intros Hop. rewrite (Himp n Hop) in Hpure. discriminate Hpure.
Qed.

Lemma find_split {A : Type} (p : A -> bool) (l : list A) (x : A) :
  find p l = Some x ->
  exists pre post,
    l = pre ++ x :: post /\ (forall y, In y pre -> p y = false).
Proof.
  induction l as [|a r IH]; intros H; [discriminate H|].
  simpl in H. destruct (p a) eqn:E.
  - inversion H. subst a. exists [], r. split; [reflexivity|].
    intros y [].
  - destruct (IH H) as (pre & post & -> & Hpre).
    exists (a :: pre), post. split; [reflexivity|].
    intros y [<- | Hy]; [exact E | exact (Hpre y Hy)].
Qed.

(** ** [lift] and [create_trt_exp_program] *)

Section Order.

Variable create_name : list string -> string -> string.
Variable is_impure : Node -> bool.
Variable lint : Graph -> Result unit.
Variable detect_fake_mode : list MetaVal -> bool.
Variable ExportedProgram_new :
  GraphModule -> Graph -> ExportGraphSignature -> Dict StateVal
  -> Result ExportedProgram.

Local Abbreviation lift_ :=
  (lift create_name is_impure lint detect_fake_mode).
Local Abbreviation create_ :=
  (create_trt_exp_program create_name is_impure lint detect_fake_mode
     ExportedProgram_new).

Lemma lift_order_steps (gm : GraphModule) (sig : ExportGraphSignature)
    (vals : list MetaVal) (f : Node) (pre post : list Node) :
  check_graph (graph gm) = true ->
  (forall m, In m (nodes (graph gm)) ->
     is_broken_reference (initial_state_dict gm) m = false) ->
  placeholder_vals (nodes (graph gm)) = Ok vals ->
  detect_fake_mode vals = true ->
  (forall n, op n = placeholder -> is_impure n = true) ->
  first_user_input (graph gm) sig = Some f ->
  nodes (graph gm) = pre ++ f :: post ->
  exists st' lifted,
    lift_ gm sig
    = (lint (eliminate_dead_code is_impure (ls_graph st')) ;;;
       Ok (set_graph gm (eliminate_dead_code is_impure (ls_graph st')),
           mkSignature (lifted ++ input_specs sig) (output_specs sig),
           ls_state_dict st'))
    /\ map kind lifted
       = map (lifted_kind gm) (filter is_get_attr (nodes (graph gm)))
    /\ map spec_target lifted
       = map target (filter is_get_attr (nodes (graph gm)))
    /\ placeholder_names (eliminate_dead_code is_impure (ls_graph st'))
       = map name (filter is_placeholder pre)
         ++ map arg_name lifted
         ++ map name (filter is_placeholder (f :: post)).
Proof.
  intros Hcheck Hok Hvals Hfake Himp Hfirst Hsplit.
  pose proof (check_graph_sound _ Hcheck) as Hwf.
  assert (Hf : is_placeholder f = true).
  { unfold first_user_input in Hfirst. apply find_some in Hfirst as [_ H].
    apply andb_true_iff in H as [H _]. exact H. }
  destruct (ids_of_split (graph gm) f pre post Hwf Hsplit) as (Hpre & _).
  set (st0 := mkLiftState (graph gm) (input_specs sig)
                (initial_state_dict gm) 0).
  destruct (lift_nodes_order create_name gm f (nodes (graph gm)) st0 []
              (input_specs sig) (map skel pre) (map skel post) (skel f) Hwf)
    as (st' & lifted & S1' & S2' & Hrun & Hspecs & Hsk & Hn1 & Hn2 & Hwf');
    try reflexivity.
  { apply Hwf. }
  { apply still_there_initially. exact Hwf. }
  { exact Hok. }
  { simpl. rewrite Hsplit, map_app. reflexivity. }
  { exact Hf. }
  { rewrite skel_ids. exact Hpre. }
  destruct (lift_nodes_returns create_name gm (Some f) (nodes (graph gm))
              st0 [] (input_specs sig) Hwf)
    as (st2 & lifted2 & Hrun2 & Hspecs2 & Hkinds & Htargets & _);
    try reflexivity.
  { apply Hwf. }
  { apply still_there_initially. exact Hwf. }
  { exact Hok. }
  assert (Hsame : st2 = st').
  { rewrite Hrun in Hrun2. inversion Hrun2. reflexivity. }
  subst st2.
  assert (Hl : lifted2 = lifted).
  { rewrite Hspecs in Hspecs2. simpl in Hspecs2.
    apply app_inv_tail in Hspecs2. symmetry. exact Hspecs2. }
  subst lifted2.
  exists st', lifted. split.
  { unfold lift. rewrite Hvals. cbn [bind]. rewrite Hfake.
    cbn [assert bind]. rewrite Hfirst. fold st0. rewrite Hrun. cbn [bind].
    unfold clean_graph.
    destruct (lint (eliminate_dead_code is_impure (ls_graph st')));
      [|reflexivity].
    cbn [bind]. rewrite Hspecs. reflexivity. }
  split; [exact Hkinds|]. split; [exact Htargets|].
  rewrite (placeholder_names_eliminate_dead_code is_impure _ Himp Hwf').
  rewrite placeholder_names_skel, Hsk, ph_names_app, Hn1, Hn2.
  change (skel f :: map skel post) with (map skel (f :: post)).
  rewrite !ph_names_of_nodes, <- app_assoc. reflexivity.
Qed.

Lemma lift_order (gm : GraphModule) (sig : ExportGraphSignature)
    (vals : list MetaVal) (f : Node) (pre post : list Node) :
  check_graph (graph gm) = true ->
  (forall m, In m (nodes (graph gm)) ->
     is_broken_reference (initial_state_dict gm) m = false) ->
  placeholder_vals (nodes (graph gm)) = Ok vals ->
  detect_fake_mode vals = true ->
  (forall g, lint g = Ok tt) ->
  (forall n, op n = placeholder -> is_impure n = true) ->
  first_user_input (graph gm) sig = Some f ->
  nodes (graph gm) = pre ++ f :: post ->
  exists st' lifted,
    lift_ gm sig
    = Ok (set_graph gm (eliminate_dead_code is_impure (ls_graph st')),
          mkSignature (lifted ++ input_specs sig) (output_specs sig),
          ls_state_dict st')
    /\ placeholder_names (eliminate_dead_code is_impure (ls_graph st'))
       = map name (filter is_placeholder pre)
         ++ map arg_name lifted
         ++ map name (filter is_placeholder (f :: post)).
Proof.
  intros Hcheck Hok Hvals Hfake Hlint Himp Hfirst Hsplit.
  destruct (lift_order_steps gm sig vals f pre post Hcheck Hok Hvals Hfake
              Himp Hfirst Hsplit)
    as (st' & lifted & Hrun & _ & _ & Hnames).
  exists st', lifted. split; [|exact Hnames].
  rewrite Hrun, Hlint. reflexivity.
Qed.

(** X8: where the signature names a placeholder of the graph as a user
    input, the placeholders [lift] adds stand, in the order of the specs it
    adds and under the names these specs carry, right before the first
    such placeholder; the placeholders before and from that one on keep
    their places. *)
Theorem lift_inserts_before_first_user_input (gm : GraphModule)
    (sig : ExportGraphSignature) (vals : list MetaVal) (f : Node)
    (pre post : list Node) :
  check_graph (graph gm) = true ->
  (forall m, In m (nodes (graph gm)) ->
     is_broken_reference (initial_state_dict gm) m = false) ->
  placeholder_vals (nodes (graph gm)) = Ok vals ->
  detect_fake_mode vals = true ->
  (forall g, lint g = Ok tt) ->
  (forall n, op n = placeholder -> is_impure n = true) ->
  first_user_input (graph gm) sig = Some f ->
  nodes (graph gm) = pre ++ f :: post ->
  exists gm' lifted sd',
    lift_ gm sig
    = Ok (gm', mkSignature (lifted ++ input_specs sig) (output_specs sig),
          sd')
    /\ placeholder_names (graph gm')
       = map name (filter is_placeholder pre)
         ++ map arg_name lifted
         ++ map name (filter is_placeholder (f :: post)).
Proof.
  intros Hcheck Hok Hvals Hfake Hlint Himp Hfirst Hsplit.
  destruct (lift_order gm sig vals f pre post Hcheck Hok Hvals Hfake Hlint
              Himp Hfirst Hsplit)
    as (st' & lifted & Hrun & Hnames).
  exists (set_graph gm (eliminate_dead_code is_impure (ls_graph st'))),
    lifted, (ls_state_dict st').
  split; [exact Hrun | exact Hnames].
Qed.

(** X9: when the graph has a placeholder, what [create_trt_exp_program]
    hands to the constructor of the exported program, once the lint has
    passed, keeps the contract between graph and signature: the
    placeholders of the graph, in graph order, bear the names of the input
    specs, in order. *)
Theorem exported_placeholders_follow_input_specs (gm : GraphModule)
    (vals : list MetaVal) (out : Node) (rest : list Node)
    (returned : list Node) (more : list Arg) :
  check_graph (graph gm) = true ->
  (forall m, In m (nodes (graph gm)) ->
     is_broken_reference (initial_state_dict gm) m = false) ->
  placeholder_vals (nodes (graph gm)) = Ok vals ->
  detect_fake_mode vals = true ->
  (forall n, op n = placeholder -> is_impure n = true) ->
  filter (fun n => op_eqb (op n) output) (nodes (graph gm)) = out :: rest ->
  args out = ATuple (map (fun n => ANode (id n)) returned) :: more ->
  (forall n, In n returned -> In n (nodes (graph gm))) ->
  filter is_placeholder (nodes (graph gm)) <> [] ->
  exists gm' sig' sd',
    create_ gm
    = (lint (graph gm') ;;; ExportedProgram_new gm' (graph gm') sig' sd')
    /\ placeholder_names (graph gm') = map arg_name (input_specs sig').
Proof.
  intros Hcheck Hok Hvals Hfake Himp Hout Hargs Hret Hsome.
  pose proof (check_graph_sound _ Hcheck) as Hwf.
  assert (Hex : exists x, In x (nodes (graph gm))
                          /\ is_placeholder x = true).
  { destruct (filter is_placeholder (nodes (graph gm))) as [|x r] eqn:E;
      [exfalso; apply Hsome; reflexivity|].
    exists x. apply filter_In. rewrite E. left. reflexivity. }
  clear Hsome. destruct Hex as (x0 & Hx0 & Hx0p).
  set (phs := filter is_placeholder (nodes (graph gm))).
  set (ins := map user_input_spec phs).
  set (outs := map (fun n => mkOutputSpec (name n) (target n)) returned).
  set (sig := mkSignature ins outs).
  assert (Huser : user_inputs sig = map name phs)
    by apply user_inputs_of_placeholders.
  assert (Hp : forall x, In x (nodes (graph gm)) ->
               is_placeholder x && mem_str (name x) (user_inputs sig)
               = is_placeholder x).
  { intros x Hx. destruct (is_placeholder x) eqn:E; [|reflexivity].
    simpl. rewrite Huser. unfold mem_str. apply existsb_exists.
    exists (name x). split; [|apply String.eqb_refl].
    apply in_map. apply filter_In. split; assumption. }
  destruct (first_user_input (graph gm) sig) as [f|] eqn:Hfirst.
  2:{ exfalso. unfold first_user_input in Hfirst.
      pose proof (find_none _ _ Hfirst x0 Hx0) as Hnone.
      cbv beta in Hnone.
      change (op_eqb (op x0) placeholder) with (is_placeholder x0)
        in Hnone.
      rewrite (Hp x0 Hx0), Hx0p in Hnone. discriminate Hnone. }
  pose proof Hfirst as Hfind. unfold first_user_input in Hfind.
  destruct (find_split _ _ _ Hfind) as (pre & post & Hsplit & Hpre).
  assert (Hpre_none : filter is_placeholder pre = []).
  { assert (Hall : forall x, In x pre -> is_placeholder x = false).
    { intros x Hx. rewrite <- (Hp x).
      - exact (Hpre x Hx).
      - rewrite Hsplit. apply in_app_iff. left. exact Hx. }
    clear - Hall. induction pre as [|a r IH]; [reflexivity|].
    simpl. rewrite (Hall a (or_introl eq_refl)).
    apply IH. intros x Hx. apply Hall. right. exact Hx. }
  assert (Hrest : filter is_placeholder (f :: post) = phs).
  { unfold phs. rewrite Hsplit, filter_app, Hpre_none. reflexivity. }
  destruct (lift_order_steps gm sig vals f pre post Hcheck Hok Hvals Hfake
              Himp Hfirst Hsplit)
    as (st' & lifted & Hrun & _ & _ & Hnames).
  exists (set_graph gm (eliminate_dead_code is_impure (ls_graph st'))),
    (mkSignature (lifted ++ ins) outs), (ls_state_dict st').
  split.
  { unfold create_trt_exp_program. rewrite Hout, Hargs.
    rewrite output_specs_of_nodes.
    - cbn [bind]. fold outs.
      change (map (fun n => mkInputSpec USER_INPUT (name n) (target n))
                (filter (fun n => op_eqb (op n) placeholder)
                   (nodes (graph gm)))) with ins.
      fold sig. rewrite Hrun. simpl graph.
      destruct (lint (eliminate_dead_code is_impure (ls_graph st')));
        reflexivity.
    - intros n Hn. apply get_node_of_In; [apply Hwf | apply Hret, Hn]. }
  simpl. rewrite Hnames, Hpre_none, Hrest. simpl.
  rewrite map_app. f_equal. unfold ins. rewrite map_map. reflexivity.
Qed.

End Order.

Lemma lift_inserts_before_first_user_input_witness :
  exists gm' lifted sd',
    lift Demo.keep_name Demo.demo_impure Demo.lint_ok Demo.fake_mode_found
      Demo.gm_lift (mkSignature [mkInputSpec USER_INPUT "x" (TStr "x")] [])
    = Ok (gm',
          mkSignature
            (lifted ++ [mkInputSpec USER_INPUT "x" (TStr "x")]) [], sd')
    /\ placeholder_names (graph gm') = [] ++ map arg_name lifted ++ ["x"].
Proof.
  apply (lift_inserts_before_first_user_input Demo.keep_name
           Demo.demo_impure Demo.lint_ok Demo.fake_mode_found Demo.gm_lift
           (mkSignature [mkInputSpec USER_INPUT "x" (TStr "x")] [])
           [MFake (mkFake [1]%Z [1]%Z)]
           (mkNode 2 "x" placeholder (TStr "x") []
              [("val", MFake (mkFake [1]%Z [1]%Z))] [3])
           [ mkNode 0 "bn_running_mean" get_attr (TStr "bn.running_mean") []
               [] [3];
             mkNode 1 "fc_weight" get_attr (TStr "fc.weight") [] [] [3] ]
           [ mkNode 3 "linear" call_function (TFn (other_callable "linear"))
               [ANode 2; ANode 1; ANode 0] [] [4];
             mkNode 4 "output" output (TStr "output") [ATuple [ANode 3]] []
               [] ]).
  - reflexivity.
  - intros m [<- | [<- | [<- | [<- | [<- | []]]]]]; reflexivity.
  - reflexivity.
  - reflexivity.
  - reflexivity.
  - intros n Hn. unfold Demo.demo_impure. rewrite Hn. reflexivity.
  - reflexivity.
  - reflexivity.
Defined.

Lemma exported_placeholders_follow_input_specs_witness :
  exists gm' sig' sd',
    create_trt_exp_program Demo.keep_name Demo.demo_impure Demo.lint_ok
      Demo.fake_mode_found Demo.stored Demo.gm_lift
    = (Demo.lint_ok (graph gm') ;;; Demo.stored gm' (graph gm') sig' sd')
    /\ placeholder_names (graph gm') = map arg_name (input_specs sig').
Proof.
  apply (exported_placeholders_follow_input_specs Demo.keep_name
           Demo.demo_impure Demo.lint_ok Demo.fake_mode_found Demo.stored
           Demo.gm_lift
           [MFake (mkFake [1]%Z [1]%Z)]
           (mkNode 4 "output" output (TStr "output") [ATuple [ANode 3]] []
              [])
           []
           [mkNode 3 "linear" call_function (TFn (other_callable "linear"))
              [ANode 2; ANode 1; ANode 0] [] [4]]
           []).
  - reflexivity.
  - intros m [<- | [<- | [<- | [<- | [<- | []]]]]]; reflexivity.
  - reflexivity.
  - reflexivity.
  - intros n Hn. unfold Demo.demo_impure. rewrite Hn. reflexivity.
  - reflexivity.
  - reflexivity.
  - intros n [<- | []]. simpl. tauto.
  - discriminate.
Defined.

End OrderFacts.

(* ===================================================================== *)
(** * Facts: inlining the host-executed submodules                        *)
(* ===================================================================== *)

Module TorchMore.

Import Fx Exporter TorchTerms FxFacts TorchFacts FxMore.

(** ** [get_duplicate_nodes] *)

Lemma mem_str_In (x : string) (l : list string) :
  mem_str x l = true <-> In x l.
Proof.
  unfold mem_str. rewrite existsb_exists. split.
  - intros (y & Hy & E). apply String.eqb_eq in E. subst y. exact Hy.
  - intros H. exists x. split; [exact H | apply String.eqb_refl].
Qed.

Lemma map_name_filter (p : string -> bool) (l : list Node) :
  map name (filter (fun n => p (name n)) l) = filter p (map name l).
Proof.
  induction l as [|n r IH]; simpl; [reflexivity|].
  destruct (p (name n)); simpl; rewrite IH; reflexivity.
Qed.

(** X10: when no two nodes of the parent graph and no two placeholders of
    the submodule bear the same name, the two lists [get_duplicate_nodes]
    returns hold the same names and are equally long, so the assertion of
    [inline_torch_modules] on their lengths holds. *)
Theorem get_duplicate_nodes_same_names (gm : GraphModule)
    (submodule : Submodule) :
  NoDup (map name (nodes (graph gm))) ->
  NoDup (map name (filter is_placeholder (nodes (sm_graph submodule)))) ->
  (forall s, In s (map name (fst (get_duplicate_nodes gm submodule)))
             <-> In s (map name (snd (get_duplicate_nodes gm submodule))))
  /\ List.length (fst (get_duplicate_nodes gm submodule))
     = List.length (snd (get_duplicate_nodes gm submodule)).
Proof.
  intros Hg Hs. unfold get_duplicate_nodes. cbn [fst snd].
  change (filter (fun n => op_eqb (op n) placeholder)
            (nodes (sm_graph submodule)))
    with (filter is_placeholder (nodes (sm_graph submodule))).
  set (ph := filter is_placeholder (nodes (sm_graph submodule))) in *.
  rewrite (map_name_filter
             (fun s => mem_str s (map name (nodes (graph gm)))) ph).
  rewrite (map_name_filter (fun s => mem_str s (map name ph))
             (nodes (graph gm))).
  assert (Hsame : forall s,
            In s (filter (fun s => mem_str s (map name (nodes (graph gm))))
                    (map name ph))
            <-> In s (filter (fun s => mem_str s (map name ph))
                        (map name (nodes (graph gm))))).
  { intros s. rewrite !filter_In, !mem_str_In. tauto. }
  split; [exact Hsame|].
  rewrite <- (length_map name
                (filter (fun n => mem_str (name n)
                                    (map name (nodes (graph gm)))) ph)).
  rewrite <- (length_map name
                (filter (fun n => mem_str (name n) (map name ph))
                   (nodes (graph gm)))).
  rewrite (map_name_filter
             (fun s => mem_str s (map name (nodes (graph gm)))) ph).
  rewrite (map_name_filter (fun s => mem_str s (map name ph))
             (nodes (graph gm))).
  apply Nat.le_antisymm; apply NoDup_incl_length;
    try (apply NoDup_filter; assumption);
    intros s Hs'; apply Hsame; exact Hs'.
Qed.

Lemma get_duplicate_nodes_same_names_witness :
  (forall s,
     In s (map name (fst (get_duplicate_nodes gm_crossed crossed_module)))
     <-> In s (map name
                 (snd (get_duplicate_nodes gm_crossed crossed_module))))
  /\ List.length (fst (get_duplicate_nodes gm_crossed crossed_module))
     = List.length (snd (get_duplicate_nodes gm_crossed crossed_module)).
Proof.
  apply (get_duplicate_nodes_same_names gm_crossed crossed_module).
  - simpl. repeat constructor; simpl; intuition discriminate.
  - simpl. repeat constructor; simpl; intuition discriminate.
Defined.

(** ** The body of the loop returns *)



(** ** The rename map *)

Lemma fold_val_map_set_other (r r' : list Node) (vm : ValMap) (x : NodeId) :
  ~ In x (map id r) ->
  val_map_get
    (fold_left (fun vm p => val_map_set vm (id (fst p)) (id (snd p)))
       (combine r r') vm) x
  = val_map_get vm x.
Proof.
  revert r' vm. induction r as [|a t IH]; intros r' vm Hx; [reflexivity|].
  destruct r' as [|b t']; [reflexivity|]. simpl.
  rewrite IH by (intros F; apply Hx; right; exact F).
  rewrite val_map_get_set.
  destruct (Nat.eqb (id a) x) eqn:E; [|reflexivity].
  apply Nat.eqb_eq in E. exfalso. apply Hx. left. exact E.
Qed.

Lemma fold_val_map_set_nth (subs gms : list Node) :
  forall (vm : ValMap) (k : nat) (p q : Node),
  NoDup (map id subs) ->
  nth_error subs k = Some p ->
  nth_error gms k = Some q ->
  val_map_get
    (fold_left (fun vm p => val_map_set vm (id (fst p)) (id (snd p)))
       (combine subs gms) vm) (id p)
  = Some (id q).
Proof.
  revert gms. induction subs as [|a t IH]; intros gms vm k p q Hnd Hp Hq.
  - destruct k; discriminate Hp.
  - destruct gms as [|b t']; [destruct k; discriminate Hq|].
    inversion Hnd as [|? ? Hhead Hrest]; subst.
    destruct k as [|k']; simpl in Hp, Hq.
    + inversion Hp; inversion Hq; subst. simpl.
      rewrite fold_val_map_set_other by exact Hhead.
      rewrite val_map_get_set, Nat.eqb_refl. reflexivity.
    + simpl. apply (IH t' _ k' p q Hrest Hp Hq).
Qed.

(** X12: the rename map that [inline_torch_modules] hands to [graph_copy]
    pairs by position: the duplicate placeholder at position [k] of the
    submodule is mapped to the name-matching parent node at position [k],
    whether or not the two bear the same name. *)
Theorem duplicate_val_map_pairs_by_position (subs gms : list Node)
    (k : nat) (p q : Node) :
  NoDup (map id subs) ->
  nth_error subs k = Some p ->
  nth_error gms k = Some q ->
  val_map_get (duplicate_val_map subs gms) (id p) = Some (id q).
Proof.
  intros Hnd Hp Hq. unfold duplicate_val_map.
  apply (fold_val_map_set_nth subs gms [] k p q Hnd Hp Hq).
Qed.

Lemma duplicate_val_map_pairs_by_position_witness :
  map name (fst (get_duplicate_nodes gm_crossed crossed_module))
  = ["a"; "b"]
  /\ map name (snd (get_duplicate_nodes gm_crossed crossed_module))
     = ["b"; "a"]
  /\ val_map_get
       (duplicate_val_map
          (fst (get_duplicate_nodes gm_crossed crossed_module))
          (snd (get_duplicate_nodes gm_crossed crossed_module)))
       (id (mkNode 0 "a" placeholder (TStr "a") [] [] [2]))
     = Some (id (mkNode 0 "b" placeholder (TStr "b") [] [] [2])).
Proof.
  split; [reflexivity|]. split; [reflexivity|].
  apply (duplicate_val_map_pairs_by_position
           (fst (get_duplicate_nodes gm_crossed crossed_module))
           (snd (get_duplicate_nodes gm_crossed crossed_module)) 0).
  - simpl. repeat constructor; simpl; intuition discriminate.
  - reflexivity.
  - reflexivity.
Defined.

(** ** [copy_submodule_attributes]: the keys of the new state dict *)

Lemma updated_state_dict_fold (gm_sd sub_sd : Dict Tensor) (nm : string) :
  updated_state_dict gm_sd sub_sd nm
  = fold_left
      (fun d kv => dict_set d (renamed_key sub_sd nm (fst kv)) (snd kv))
      gm_sd [].
Proof.
  unfold updated_state_dict. generalize (@nil (string * Tensor)).
  induction gm_sd as [|kv r IH]; intros d; simpl; [reflexivity|].
  rewrite <- IH. f_equal. unfold renamed_key.
  destruct (dict_mem sub_sd _); reflexivity.
Qed.

Lemma find_app_first {A : Type} (f : A -> bool) (l1 l2 : list A) :
  find f (l1 ++ l2)
  = match find f l1 with Some x => Some x | None => find f l2 end.
Proof.
  induction l1 as [|a r IH]; simpl; [reflexivity|].
  destruct (f a); [reflexivity | exact IH].
Qed.

Lemma dict_get_set {V : Type} (d : Dict V) (k k' : string) (v : V) :
  dict_get (dict_set d k v) k'
  = if String.eqb k k' then Some v else dict_get d k'.
Proof.
  destruct (String.eqb k k') eqn:E.
  - apply String.eqb_eq in E. subst k'. apply dict_get_set_same.
  - apply LiftFacts.dict_get_set_other. intros F. subst k'.
    rewrite String.eqb_refl in E. discriminate E.
Qed.

Lemma fold_dict_set_lookup {V : Type} (f : string -> string)
    (l : list (string * V)) :
  forall (d : Dict V) (k : string),
  dict_get (fold_left (fun d kv => dict_set d (f (fst kv)) (snd kv)) l d) k
  = match find (fun kv => String.eqb (f (fst kv)) k) (rev l) with
    | Some kv => Some (snd kv)
    | None => dict_get d k
    end.
Proof.
  induction l as [|a r IH]; intros d k; simpl; [reflexivity|].
  rewrite IH, find_app_first.
  destruct (find _ (rev r)); [reflexivity|].
  simpl. rewrite dict_get_set.
  destruct (String.eqb (f (fst a)) k); reflexivity.
Qed.

(** X13: in the state dict [copy_submodule_attributes] loads, a key holds
    the value of the last entry of the parent's state dict that the loop
    stores under it: an entry goes under its key with every occurrence of
    the submodule name and a dot removed when the submodule's state dict
    has that key, and under its own key otherwise; of two entries that go
    under one key the later wins. *)
Theorem updated_state_dict_last_write_wins (gm_sd sub_sd : Dict Tensor)
    (nm k : string) :
  dict_get (updated_state_dict gm_sd sub_sd nm) k
  = option_map snd
      (find (fun kv => String.eqb (renamed_key sub_sd nm (fst kv)) k)
         (rev gm_sd)).
Proof.
  rewrite updated_state_dict_fold.
  rewrite (fold_dict_set_lookup (renamed_key sub_sd nm) gm_sd [] k).
  destruct (find _ (rev gm_sd)); reflexivity.
Qed.

Lemma prefix_app (s t : string) : prefix s (s ++ t) = true.
Proof.
  induction s as [|c r IH]; simpl; [destruct t; reflexivity|].
  destruct (ascii_dec c c) as [_ | F]; [exact IH | contradiction].
Qed.

Lemma replace_from_no_match (old new s : string) :
  old <> "" -> contains old s = false -> replace_from old new 0 s = s.
Proof.
  intros Hold. induction s as [|c r IH]; intros H.
  - simpl. destruct old; [contradiction | reflexivity].
  - change (contains old (String c r))
      with (prefix old (String c r) || contains old r) in H.
    apply orb_false_iff in H as [Hp Hr].
    change (replace_from old new 0 (String c r))
      with (if prefix old (String c r)
            then new ++ match old with
                        | EmptyString => String c (replace_from old new 0 r)
                        | _ => replace_from old new (String.length old - 1) r
                        end
            else String c (replace_from old new 0 r)).
    rewrite Hp, (IH Hr). reflexivity.
Qed.

Lemma replace_from_skip (old new p s : string) :
  replace_from old new (String.length p) (p ++ s) = replace_from old new 0 s.
Proof.
  induction p as [|c r IH]; [reflexivity|]. simpl. exact IH.
Qed.

Lemma replace_strips_prefix (old k : string) :
  old <> "" -> contains old k = false -> replace old "" (old ++ k) = k.
Proof.
  intros Hold Hk. destruct old as [|c0 r0]; [contradiction|].
  unfold replace.
  change (replace_from (String c0 r0) "" 0 (String c0 r0 ++ k))
    with (if prefix (String c0 r0) (String c0 r0 ++ k)
          then "" ++ replace_from (String c0 r0) ""
                       (String.length (String c0 r0) - 1) (r0 ++ k)
          else String c0 (replace_from (String c0 r0) "" 0 (r0 ++ k))).
  rewrite prefix_app.
  replace (String.length (String c0 r0) - 1) with (String.length r0)
    by (simpl; lia).
  simpl append. rewrite replace_from_skip.
  apply replace_from_no_match; [discriminate | exact Hk].
Qed.

Lemma dotted_not_empty (nm : string) : nm ++ "." <> "".
Proof. destruct nm; discriminate. Qed.

(** X14: the key [copy_submodule_attributes] stores an entry under.  A
    key that does not mention the submodule name followed by a dot is
    kept; a key made of that prefix and a rest that does not mention it is
    stored under the rest when the submodule's state dict has the rest as
    a key, and kept otherwise. *)
Theorem renamed_key_strips_submodule_prefix (sub_sd : Dict Tensor)
    (nm k : string) :
  contains (nm ++ ".") k = false ->
  renamed_key sub_sd nm k = k
  /\ renamed_key sub_sd nm ((nm ++ ".") ++ k)
     = if dict_mem sub_sd k then k else (nm ++ ".") ++ k.
Proof.
  intros Hk. unfold renamed_key. split.
  - unfold replace.
    rewrite (replace_from_no_match _ _ _ (dotted_not_empty nm) Hk).
    destruct (dict_mem sub_sd k); reflexivity.
  - rewrite (replace_strips_prefix _ _ (dotted_not_empty nm) Hk).
    reflexivity.
Qed.

Lemma renamed_key_strips_submodule_prefix_witness :
  renamed_key [("weight", Demo.some_tensor)] "_run_on_gpu_0" "weight"
  = "weight"
  /\ renamed_key [("weight", Demo.some_tensor)] "_run_on_gpu_0"
       (("_run_on_gpu_0" ++ ".") ++ "weight")
     = "weight".
Proof.
  apply (renamed_key_strips_submodule_prefix [("weight", Demo.some_tensor)]
           "_run_on_gpu_0" "weight").
  reflexivity.
Defined.

End TorchMore.

(* ===================================================================== *)
(** * Facts: [transform] and the two loops it runs                        *)
(* ===================================================================== *)

Module TransformMore.

Import Fx Exporter FxFacts FxMore.

Section Transform.

Variable create_name : list string -> string -> string.
Variable is_impure : Node -> bool.
Variable lint : Graph -> Result unit.
Variable load_state_dict :
  GraphModule -> Dict Tensor -> Result (Dict Tensor).
Variable delete_all_unused_submodules : GraphModule -> GraphModule.
Variable run_shape_analysis :
  GraphModule -> list Tensor -> Result (Dict (list (list Z))).

Local Abbreviation transform_ :=
  (transform create_name is_impure lint load_state_dict
     delete_all_unused_submodules run_shape_analysis).




(** The loop passes over the nodes at the head of its list that are in
    the graph and are not host-executed call-module nodes. *)
Lemma inline_torch_nodes_head (gm : GraphModule) (l : list Node)
    (r : list NodeId) :
  NoDup (ids (graph gm)) ->
  (forall x, In x l -> In x (nodes (graph gm))) ->
  (forall x, In x l -> op x = call_module ->
     contains "_run_on_gpu" (name x) = false) ->
  inline_torch_nodes create_name load_state_dict gm (map id l ++ r)%list
  = inline_torch_nodes create_name load_state_dict gm r.
Proof.
  intros Hnd Hin Hskip. induction l as [|x l' IH]; [reflexivity|].
  simpl. rewrite (get_node_of_In _ _ Hnd (Hin x (or_introl eq_refl))).
  assert (Hx : op_eqb (op x) call_module
               && contains "_run_on_gpu" (name x) = false).
  { destruct (op_eqb (op x) call_module) eqn:Hop; [|reflexivity].
    simpl. apply (Hskip x (or_introl eq_refl)).
    destruct (op x); try discriminate Hop. reflexivity. }
  rewrite Hx. apply IH.
  - intros y Hy. apply Hin. right. exact Hy.
  - intros y Hy. apply Hskip. right. exact Hy.
Qed.

(** X30: [inline_torch_modules] cleans and lints the graph; its loop then
    passes over the nodes before the first call-module node with
    [_run_on_gpu] in its name, runs the inlining step on that node, and
    goes on, with the module the step returns, over the nodes that
    followed it; an error of the step is the error of the pass. *)
Theorem inline_torch_modules_first_call (gm : GraphModule) (g : Graph)
    (pre post : list Node) (gm_node : Node) :
  check_graph (graph gm) = true ->
  clean_graph is_impure lint (graph gm) = Ok g ->
  nodes g = (pre ++ gm_node :: post)%list ->
  (forall x, In x pre -> op x = call_module ->
     contains "_run_on_gpu" (name x) = false) ->
  op gm_node = call_module ->
  contains "_run_on_gpu" (name gm_node) = true ->
  inline_torch_modules create_name is_impure lint load_state_dict gm
  = (gm' <- inline_torch_module create_name load_state_dict
              (set_graph gm g) gm_node ;;
     inline_torch_nodes create_name load_state_dict gm' (map id post)).
Proof.
  intros Hcheck Hclean Hsplit Hpre Hop Hname.
  apply check_graph_sound in Hcheck.
  assert (Hwf : well_formed g).
  { unfold clean_graph in Hclean.
    destruct (lint (eliminate_dead_code is_impure (graph gm)));
      [|discriminate Hclean].
    cbn [bind] in Hclean. inversion Hclean; subst g.
    apply well_formed_eliminate_dead_code. exact Hcheck. }
  unfold inline_torch_modules. rewrite Hclean. cbn [bind].
  rewrite Hsplit, map_app.
  rewrite (inline_torch_nodes_head (set_graph gm g) pre).
  - simpl map. cbn [inline_torch_nodes]. simpl graph.
    rewrite (get_node_of_In g gm_node); [|apply Hwf|].
    + rewrite Hop, Hname. reflexivity.
    + rewrite Hsplit. apply in_app_iff. right. left. reflexivity.
  - apply Hwf.
  - intros x Hx. simpl graph. rewrite Hsplit. apply in_app_iff. left.
    exact Hx.
  - exact Hpre.
Qed.

End Transform.


Lemma inline_torch_modules_first_call_witness :
  inline_torch_modules Demo.keep_name Demo.demo_impure Demo.lint_ok
    Demo.load_any Demo.gm_torch
  = (gm' <- inline_torch_module Demo.keep_name Demo.load_any Demo.gm_torch
              Demo.call_gpu ;;
     inline_torch_nodes Demo.keep_name Demo.load_any gm' [2]).
Proof.
  apply (inline_torch_modules_first_call Demo.keep_name Demo.demo_impure
           Demo.lint_ok Demo.load_any Demo.gm_torch Demo.g_torch
           [mkNode 0 "x" placeholder (TStr "x") [] [] [1]]
           [mkNode 2 "output" output (TStr "output") [ATuple [ANode 1]] []
              []]
           Demo.call_gpu).
  - reflexivity.
  - reflexivity.
  - reflexivity.
  - intros x [<- | []] Hop. discriminate Hop.
  - reflexivity.
  - reflexivity.
Defined.

End TransformMore.

(* ===================================================================== *)
(** * Facts: the edges of inlining an accelerated submodule               *)
(* ===================================================================== *)

Module TrtMore.

Import Fx Exporter TrtTerms FxFacts TrtFacts.

Section Rejects.

Variable create_name : list string -> string -> string.
Variable outputs_map : Dict (list (list Z)).
Variable gm : GraphModule.
Variable nm : string.

Local Abbreviation inline_ :=
  (inline_trt_module create_name outputs_map gm nm).

(** X16: what one step of [inline_trt_modules] checks, in the order it
    checks it: the child is an attribute of the module, some node of the
    graph bears the child's name, the first such node has arguments, the
    shape map has an entry for it, the child has an [engine] attribute, and
    the entry declares at least one output. *)
Theorem inline_trt_module_rejects :
  (dict_get (named_children gm) nm = None ->
   inline_ = Raise (AttributeError nm))
  /\ (forall trt_module,
        dict_get (named_children gm) nm = Some trt_module ->
        (filter (fun n => String.eqb (name n) nm) (nodes (graph gm)) = [] ->
         inline_ = Raise (AssertionError ""))
        /\ (forall tn rest,
              filter (fun n => String.eqb (name n) nm) (nodes (graph gm))
              = tn :: rest ->
              (args tn = [] -> inline_ = Raise (AssertionError ""))
              /\ (args tn <> [] ->
                  (dict_get outputs_map nm = None ->
                   inline_ = Raise (KeyError nm))
                  /\ (forall out_shapes,
                        dict_get outputs_map nm = Some out_shapes ->
                        (sm_engine trt_module = None ->
                         inline_ = Raise (AttributeError "engine"))
                        /\ (sm_engine trt_module <> None ->
                            out_shapes = [] ->
                            inline_ = Raise (AssertionError "")))))).
Proof.
  split.
  { intros H. unfold inline_trt_module, getattr_module. rewrite H.
    reflexivity. }
  intros trt_module Hsub. split.
  { intros H. unfold inline_trt_module, getattr_module.
    rewrite Hsub. cbn [bind]. rewrite H. reflexivity. }
  intros tn rest Hnode.
  destruct (name_of_filtered _ _ _ _ Hnode) as [_ Hname]. split.
  { intros H. unfold inline_trt_module, getattr_module.
    rewrite Hsub. cbn [bind]. rewrite Hnode, H. reflexivity. }
  intros Hargs.
  assert (Hpass : assert (negb (Nat.eqb (List.length (args tn)) 0)) ""
                  = Ok tt).
  { destruct (args tn); [contradiction | reflexivity]. }
  split.
  { intros H. unfold inline_trt_module, getattr_module.
    rewrite Hsub. cbn [bind]. rewrite Hnode, Hpass. cbn [bind].
    rewrite Hname, H. reflexivity. }
  intros out_shapes Hout. split.
  { intros H. unfold inline_trt_module, getattr_module.
    rewrite Hsub. cbn [bind]. rewrite Hnode, Hpass. cbn [bind].
    rewrite Hname, Hout, H. reflexivity. }
  intros Heng ->. unfold inline_trt_module, getattr_module.
  rewrite Hsub. cbn [bind]. rewrite Hnode, Hpass. cbn [bind].
  rewrite Hname, Hout.
  destruct (sm_engine trt_module) as [eng|]; [|contradiction].
  reflexivity.
Qed.

End Rejects.

Lemma inline_trt_module_rejects_witness :
  inline_trt_module Demo.keep_name [] Demo.gm_single "_run_on_acc_1"
  = Raise (AttributeError "_run_on_acc_1")
  /\ inline_trt_module Demo.keep_name [] Demo.gm_single "_run_on_acc_0"
     = Raise (KeyError "_run_on_acc_0").
Proof.
  split.
  - apply (proj1 (inline_trt_module_rejects Demo.keep_name []
                    Demo.gm_single "_run_on_acc_1")).
    reflexivity.
  - apply (proj1 (proj2 (proj2 (proj2 (inline_trt_module_rejects
                                         Demo.keep_name [] Demo.gm_single
                                         "_run_on_acc_0")
                                  Demo.acc_module eq_refl)
                           Demo.call_acc
                           [] eq_refl)
                    ltac:(discriminate))).
    reflexivity.
Defined.

(** X17: with several declared outputs, all of non-negative sizes, and
    more users of the call node than declared outputs, the step raises the
    index error: the loop over the users reads the metadata list past its
    end. *)
Theorem inline_trt_module_too_many_users
    (create_name : list string -> string -> string)
    (outputs_map : Dict (list (list Z))) (gm : GraphModule) (nm : string)
    (trt_module : Submodule) (tn : Node) (rest : list Node)
    (eng : option Engine) (out_shapes : list (list Z)) :
  check_graph (graph gm) = true ->
  dict_get (named_children gm) nm = Some trt_module ->
  sm_engine trt_module = Some eng ->
  filter (fun n => String.eqb (name n) nm) (nodes (graph gm)) = tn :: rest ->
  args tn <> [] ->
  args_defined (graph gm) tn = true ->
  dict_get outputs_map nm = Some out_shapes ->
  1 < List.length out_shapes ->
  forallb (forallb (fun d => Z.leb 0 d)) out_shapes = true ->
  List.length out_shapes < List.length (users tn) ->
  inline_trt_module create_name outputs_map gm nm = Raise IndexError.
Proof.
  intros Hcheck Hsub Heng Hnode Hargs Hdef Hout Hmany Hnn Hover.
  apply check_graph_sound in Hcheck. rename Hcheck into Hwf.
  destruct (name_of_filtered _ _ _ _ Hnode) as [Htn Hname].
  pose (vals := map ones_strided out_shapes).
  assert (Hlen : List.length vals = List.length out_shapes)
    by apply length_map.
  rewrite (inline_trt_module_guards create_name outputs_map gm nm
             trt_module tn rest eng out_shapes Hsub Hnode Hargs Hout
             ltac:(intros ->; simpl in Hmany; lia) Heng).
  rewrite (fake_outputs_returns out_shapes Hnn). cbn [bind].
  cbv beta zeta.
  assert (Hne : Nat.eqb (List.length out_shapes) 1 = false)
    by (apply Nat.eqb_neq; lia).
  rewrite Hne.
  pose proof (multi_replace_ok create_name (graph gm) tn eng vals Hwf Htn
                Hdef) as Hrep.
  pose proof (multi_users_engine create_name (graph gm) tn eng vals Hwf
                Htn Hdef) as Hus.
  unfold vals in Hrep, Hus. rewrite Hrep. cbn [bind]. rewrite Hus.
  rewrite backfill_users_overflow; [reflexivity | lia|].
  fold vals. rewrite Hlen. simpl. exact Hover.
Qed.

Lemma inline_trt_module_too_many_users_witness :
  inline_trt_module Demo.keep_name Demo.two_outputs gm_three "_run_on_acc_0"
  = Raise IndexError.
Proof.
  apply (inline_trt_module_too_many_users Demo.keep_name Demo.two_outputs
           gm_three "_run_on_acc_0" Demo.acc_module call_acc3 []
           (Some (mkEngine [])) [[2; 3]; [4]]%Z);
    try reflexivity.
  - discriminate.
  - simpl. lia.
  - simpl. lia.
Defined.

(** X18: a step of [inline_trt_modules] that passes its checks, with
    declared outputs of non-negative sizes, and with one declared output
    or with no more users of the call node than declared outputs, returns
    a module whose graph is again well formed: identities are distinct and
    every [users] entry is matched by an argument.  The state dict and the
    children of the module are untouched. *)
Theorem inline_trt_module_keeps_well_formed
    (create_name : list string -> string -> string)
    (outputs_map : Dict (list (list Z))) (gm : GraphModule) (nm : string)
    (trt_module : Submodule) (tn : Node) (rest : list Node)
    (eng : option Engine) (out_shapes : list (list Z)) :
  check_graph (graph gm) = true ->
  dict_get (named_children gm) nm = Some trt_module ->
  sm_engine trt_module = Some eng ->
  filter (fun n => String.eqb (name n) nm) (nodes (graph gm)) = tn :: rest ->
  args tn <> [] ->
  args_defined (graph gm) tn = true ->
  dict_get outputs_map nm = Some out_shapes ->
  out_shapes <> [] ->
  forallb (forallb (fun d => Z.leb 0 d)) out_shapes = true ->
  List.length out_shapes = 1
  \/ List.length (users tn) <= List.length out_shapes ->
  exists gm',
    inline_trt_module create_name outputs_map gm nm = Ok gm'
    /\ well_formed (graph gm')
    /\ state_dict gm' = state_dict gm
    /\ named_children gm' = named_children gm.
Proof.
  intros Hcheck Hsub Heng Hnode Hargs Hdef Hout Hne Hnn Hcase.
  apply check_graph_sound in Hcheck. rename Hcheck into Hwf.
  destruct (name_of_filtered _ _ _ _ Hnode) as [Htn Hname].
  pose (vals := map ones_strided out_shapes).
  rewrite (inline_trt_module_guards create_name outputs_map gm nm
             trt_module tn rest eng out_shapes Hsub Hnode Hargs Hout Hne
             Heng).
  rewrite (fake_outputs_returns out_shapes Hnn). cbn [bind].
  cbv beta zeta.
  destruct (Nat.eqb (List.length out_shapes) 1) eqn:E1.
  - destruct (single_erased create_name (graph gm) tn eng vals Hwf Htn
                Hdef)
      as (g6 & Herase & Hwf6 & _).
    pose proof (single_replace_ok create_name (graph gm) tn eng vals Hwf
                  Htn Hdef) as Hrep.
    unfold vals in Hrep, Herase.
    exists (set_graph gm g6). split.
    + rewrite Hrep. cbn [bind]. rewrite Herase. reflexivity.
    + split; [exact Hwf6|]. split; reflexivity.
  - apply Nat.eqb_neq in E1.
    destruct Hcase as [Hone | Hfew]; [contradiction|].
    assert (Hlen : List.length vals = List.length out_shapes)
      by apply length_map.
    destruct (backfill_users_returns vals (users tn) 0
                (replace_uses (id tn) (ANode (next_id (graph gm)))
                   (users tn)
                   (set_meta_of
                      (set_meta_of
                         (fst (graph_call_function create_name (graph gm)
                                 (Before (id tn)) execute_engine_default
                                 [ATuple (args tn); AEngine eng]))
                         (next_id (graph gm)) "val" (MFakeList []))
                      (next_id (graph gm)) "val" (MFakeList vals))))
      as [g4m Hfill]; [simpl; lia|].
    destruct (multi_erased create_name (graph gm) tn eng vals Hwf Htn Hdef
                g4m Hfill)
      as (g6 & Herase & Hwf6 & _).
    pose proof (multi_replace_ok create_name (graph gm) tn eng vals Hwf Htn
                  Hdef) as Hrep.
    pose proof (multi_users_engine create_name (graph gm) tn eng vals Hwf
                  Htn Hdef) as Hus.
    unfold vals in Hrep, Hus, Hfill, Herase.
    exists (set_graph gm g6). split.
    + rewrite Hrep. cbn [bind]. rewrite Hus, Hfill. cbn [bind].
      rewrite Herase. reflexivity.
    + split; [exact Hwf6|]. split; reflexivity.
Qed.

Lemma inline_trt_module_keeps_well_formed_witness :
  exists gm',
    inline_trt_module Demo.keep_name Demo.two_outputs Demo.gm_multi
      "_run_on_acc_0" = Ok gm'
    /\ well_formed (graph gm')
    /\ state_dict gm' = state_dict Demo.gm_multi
    /\ named_children gm' = named_children Demo.gm_multi.
Proof.
  apply (inline_trt_module_keeps_well_formed Demo.keep_name
           Demo.two_outputs Demo.gm_multi "_run_on_acc_0" Demo.acc_module
           Demo.call_acc2 [] (Some (mkEngine [])) [[2; 3]; [4]]%Z);
    try reflexivity.
  - discriminate.
  - discriminate.
  - right. simpl. lia.
Defined.




End TrtMore.

(* ===================================================================== *)
(** * Facts: the runtime module without an engine, and its saved state    *)
(* ===================================================================== *)

Module RuntimeMore.

Import Runtime RuntimeMethods.

Section Methods.

Variable delim : ascii.
Variable ABI_VERSION : string.
Variable current_device : Device.
Variable to_serialized_rt_device : Device -> string.
Variable pickle_b64 : CompilationSettings -> string.
Variable Engine_new : list Val -> Result Engine.
Variable as_cuda_tensor : Val -> Result Tensor.
Variable execute_engine : list Tensor -> Engine -> Result (list Tensor).
Variable ABI_TARGET_IDX NAME_IDX DEVICE_IDX ENGINE_IDX : nat.
Variable INPUT_BINDING_NAMES_IDX OUTPUT_BINDING_NAMES_IDX : nat.
Variable HW_COMPATIBLE_IDX SERIALIZED_METADATA_IDX : nat.
Variable engine_getstate : Engine -> Result (list Val).
Variable b64decode : Val -> Result Val.
Variable int_of : Val -> Result Z.
Variable unpickle_b64 : string -> Result CompilationSettings.
Variable eval : string -> Result string.
Variable set_profile_path_prefix : Engine -> string -> Engine.
Variable engine_enable_profiling : Engine -> Result Engine.
Variable engine_disable_profiling : Engine -> Result Engine.
Variable get_engine_layer_info : Engine -> Result string.
Variable dump_engine_layer_info : Engine -> Result unit.

Local Abbreviation init :=
  (__init__ delim ABI_VERSION current_device to_serialized_rt_device
     pickle_b64 Engine_new).
Local Abbreviation fwd := (forward as_cuda_tensor execute_engine).
Local Abbreviation set_state :=
  (set_extra_state ABI_TARGET_IDX NAME_IDX DEVICE_IDX
     INPUT_BINDING_NAMES_IDX OUTPUT_BINDING_NAMES_IDX HW_COMPATIBLE_IDX
     SERIALIZED_METADATA_IDX Engine_new b64decode int_of unpickle_b64 eval).
Local Abbreviation not_initialized :=
  (RuntimeError "Engine has not been initialized yet.").

(** X19: constructed without a serialized engine, the module has no
    engine: the constructor returns without calling the native engine
    constructor, the binding names default to the empty list, and
    [forward], [enable_profiling], [disable_profiling], [get_layer_info]
    and [dump_layer_info] all raise the same runtime error, whatever their
    arguments. *)
Theorem module_without_engine_raises (nm : string)
    (ins outs : option (list string)) (st : CompilationSettings) :
  let m := mkModule (or_empty ins) (or_empty outs) nm
             (hardware_compatible st) st None in
  init PyNone nm ins outs st = Ok m
  /\ (forall inputs, fwd m inputs = Raise not_initialized)
  /\ (forall dir,
        enable_profiling set_profile_path_prefix engine_enable_profiling m
          dir = Raise not_initialized)
  /\ disable_profiling engine_disable_profiling m = Raise not_initialized
  /\ get_layer_info get_engine_layer_info m = Raise not_initialized
  /\ dump_layer_info dump_engine_layer_info m = Raise not_initialized.
Proof.
  intros m. repeat split; reflexivity.
Qed.

(** X20: the saved state of a module without an engine cannot be
    restored.  [get_extra_state] returns it, with [None] for the engine;
    [set_extra_state] on it assigns the name, the engine ([None]), the
    binding names and the hardware-compatibility flag ([False]), then ends
    on the unbound-local error of its last statement, which reads a
    variable that only the other branch binds; the settings keep their old
    value. *)
Theorem state_without_engine_is_not_restored
    (m self : TorchTensorRTModule) :
  engine m = None ->
  exists state,
    get_extra_state engine_getstate m = Ok state
    /\ st_engine state = None
    /\ set_state self state
       = (mkModule (input_binding_names m) (output_binding_names m)
            (name m) false (settings self) None,
          Some (UnboundLocalError "serialized_engine_info")).
Proof.
  intros He.
  exists (mkExtraState (name m) None (input_binding_names m)
            (output_binding_names m)).
  split; [|split; reflexivity].
  unfold get_extra_state. rewrite He. reflexivity.
Qed.

(** X21: how [forward] fails.  Without an engine it raises the runtime
    error whatever the inputs; with one, a wrong number of inputs raises
    the assertion error that names both numbers, before any input is
    converted; an input that cannot be converted raises before the engine
    runs; and an error of the engine is the error of [forward]. *)
Theorem forward_failures (self : TorchTensorRTModule)
    (inputs : list Val) :
  (engine self = None -> fwd self inputs = Raise not_initialized)
  /\ (forall e,
        engine self = Some e ->
        (List.length inputs <> List.length (input_binding_names self) ->
         fwd self inputs
         = Raise (AssertionError
                    ("Wrong number of inputs, expected "
                     ++ str_of_nat (List.length (input_binding_names self))
                     ++ " got " ++ str_of_nat (List.length inputs) ++ ".")))
        /\ (List.length inputs = List.length (input_binding_names self) ->
            (forall ex,
               as_cuda_tensors as_cuda_tensor inputs = Raise ex ->
               fwd self inputs = Raise ex)
            /\ (forall ts ex,
                  as_cuda_tensors as_cuda_tensor inputs = Ok ts ->
                  execute_engine ts e = Raise ex ->
                  fwd self inputs = Raise ex))).
Proof.
  split.
  - intros He. unfold forward. rewrite He. reflexivity.
  - intros e He. split.
    + intros Hne. unfold forward. rewrite He.
      apply Nat.eqb_neq in Hne. rewrite Hne. reflexivity.
    + intros Hlen. split.
      * intros ex Hex. unfold forward.
        rewrite He, Hlen, Nat.eqb_refl. simpl. rewrite Hex. reflexivity.
      * intros ts ex Hts Hex. unfold forward.
        rewrite He, Hlen, Nat.eqb_refl. simpl. rewrite Hts. simpl.
        rewrite Hex. reflexivity.
Qed.

(** X22: [decode_metadata] undoes [encode_metadata] when unpickling gives
    back the pickled settings and evaluating the name [torch.ops.<op>]
    gives back the operator [<op>]: the prefix that the encoder puts
    before every excluded operator is the one the decoder evaluates
    away. *)
Theorem decode_metadata_undoes_encode_metadata (s : CompilationSettings) :
  unpickle_b64
    (pickle_b64
       (mkSettings (device s) (hardware_compatible s)
          (map (fun op => "torch.ops." ++ op) (torch_executed_ops s))))
  = Ok (mkSettings (device s) (hardware_compatible s)
          (map (fun op => "torch.ops." ++ op) (torch_executed_ops s))) ->
  (forall op, In op (torch_executed_ops s) ->
     eval ("torch.ops." ++ op) = Ok op) ->
  decode_metadata unpickle_b64 eval (PyStr (encode_metadata pickle_b64 s))
  = Ok s.
Proof.
  intros Hpickle Heval. unfold decode_metadata, encode_metadata.
  rewrite Hpickle. cbn [bind torch_executed_ops device hardware_compatible].
  assert (Hops : forall l,
            (forall op, In op l -> eval ("torch.ops." ++ op) = Ok op) ->
            eval_all eval (map (fun op => "torch.ops." ++ op) l) = Ok l).
  { induction l as [|op r IH]; intros H; [reflexivity|].
    cbn [map eval_all]. rewrite (H op (or_introl eq_refl)). cbn [bind].
    rewrite IH by (intros x Hx; apply H; right; exact Hx).
    reflexivity. }
  rewrite (Hops _ Heval). cbn [bind]. destruct s; reflexivity.
Qed.

(** X23: a restore that succeeds leaves nothing of the module it started
    from: [set_extra_state] assigns every attribute, so the module it
    leaves depends on the state alone. *)
Theorem set_extra_state_overwrites_everything
    (self1 self2 : TorchTensorRTModule) (state : ExtraState) :
  snd (set_state self1 state) = None ->
  set_state self1 state = set_state self2 state.
Proof.
  unfold set_extra_state.
  destruct (restored_engine _ _ _ _ _ _ _ _ _ state) as [e|ex];
    [|discriminate].
  destruct (restored_hardware_compatible int_of state) as [hw|ex];
    [|discriminate].
  destruct (st_engine state) as [info|]; [|discriminate].
  destruct (bind (index info 7) _) as [st|ex]; [|discriminate].
  reflexivity.
Qed.

End Methods.

Lemma state_without_engine_is_not_restored_witness :
  exists state,
    get_extra_state (fun e => Ok (engine_info e))
      (mkModule ["x"] ["y"] "m" true (mkSettings None true []) None)
    = Ok state
    /\ st_engine state = None
    /\ set_extra_state 0 1 2 4 5 6 7 (fun info => Ok (mkEngine info))
         (fun v => Ok v) (fun _ => Ok 1%Z)
         (fun _ => Ok (mkSettings None false [])) (fun op => Ok op)
         Demo.demo_module state
       = (mkModule ["x"] ["y"] "m" false (mkSettings None false []) None,
          Some (UnboundLocalError "serialized_engine_info")).
Proof.
  apply (state_without_engine_is_not_restored
           (fun info => Ok (mkEngine info)) 0 1 2 4 5 6 7
           (fun e => Ok (engine_info e)) (fun v => Ok v) (fun _ => Ok 1%Z)
           (fun _ => Ok (mkSettings None false [])) (fun op => Ok op)
           (mkModule ["x"] ["y"] "m" true (mkSettings None true []) None)
           Demo.demo_module).
  reflexivity.
Defined.

Lemma forward_failures_witness :
  forward Demo.demo_tensor (fun ts _ => Ok ts) Demo.demo_module []
  = Raise (AssertionError "Wrong number of inputs, expected 1 got 0.")
  /\ forward Demo.demo_tensor (fun ts _ => Ok ts) Demo.demo_module
       [PyStr "three"]
     = Raise (TypeError "not a tensor").
Proof.
  pose proof (fun inputs =>
                proj2 (forward_failures Demo.demo_tensor
                         (fun ts _ => Ok ts) Demo.demo_module inputs)
                  (mkEngine []) eq_refl) as H.
  split.
  - apply (proj1 (H [])). discriminate.
  - apply (proj1 (proj2 (H [PyStr "three"]) eq_refl)). reflexivity.
Defined.

Lemma decode_metadata_undoes_encode_metadata_witness :
  decode_metadata
    (fun _ => Ok (mkSettings None true ["torch.ops.aten.add"]))
    (fun _ => Ok "aten.add")
    (PyStr (encode_metadata (fun _ => "gASV")
              (mkSettings None true ["aten.add"])))
  = Ok (mkSettings None true ["aten.add"]).
Proof.
  apply (decode_metadata_undoes_encode_metadata (fun _ => "gASV")
           (fun _ => Ok (mkSettings None true ["torch.ops.aten.add"]))
           (fun _ => Ok "aten.add") (mkSettings None true ["aten.add"])).
  - reflexivity.
  - intros op [<- | []]. reflexivity.
Defined.

Lemma set_extra_state_overwrites_everything_witness :
  set_extra_state 0 1 2 4 5 6 7 (fun info => Ok (mkEngine info))
    (fun v => Ok v) (fun _ => Ok 1%Z)
    (fun _ => Ok (mkSettings None true [])) (fun op => Ok op)
    Demo.demo_module
    (mkExtraState "n"
       (Some [PyStr "5"; PyStr "n_engine"; PyStr "cuda:0"; PyBytes [];
              PyStr "a"; PyStr "b"; PyStr "1"; PyStr "gASV"])
       ["a"] ["b"])
  = set_extra_state 0 1 2 4 5 6 7 (fun info => Ok (mkEngine info))
      (fun v => Ok v) (fun _ => Ok 1%Z)
      (fun _ => Ok (mkSettings None true [])) (fun op => Ok op)
      (mkModule [] [] "" false (mkSettings None false []) None)
      (mkExtraState "n"
         (Some [PyStr "5"; PyStr "n_engine"; PyStr "cuda:0"; PyBytes [];
                PyStr "a"; PyStr "b"; PyStr "1"; PyStr "gASV"])
         ["a"] ["b"]).
Proof.
  apply (set_extra_state_overwrites_everything
           (fun info => Ok (mkEngine info)) 0 1 2 4 5 6 7 (fun v => Ok v)
           (fun _ => Ok 1%Z) (fun _ => Ok (mkSettings None true []))
           (fun op => Ok op) Demo.demo_module
           (mkModule [] [] "" false (mkSettings None false []) None)).
  reflexivity.
Defined.

End RuntimeMore.

(* ===================================================================== *)
(** * Facts: the shapes of [pixel_shuffle]                                *)
(* ===================================================================== *)

Module ShuffleFacts.

Import Shuffle ShuffleDemo.

(** ** Slices of a shape with at least three dimensions *)

Lemma last_three_split (shape : list Z) :
  3 <= List.length shape ->
  exists batch c h w, shape = (batch ++ [c; h; w])%list.
Proof.
  intros H.
  exists (firstn (List.length shape - 3) shape).
  pose proof (firstn_skipn (List.length shape - 3) shape) as Hsplit.
  assert (Hlen : List.length (skipn (List.length shape - 3) shape) = 3)
    by (rewrite length_skipn; lia).
  destruct (skipn (List.length shape - 3) shape) as [|c [|h [|w [|x r]]]];
    try discriminate Hlen.
  exists c, h, w. symmetry. exact Hsplit.
Qed.

Lemma last_n_app (batch : list Z) (c h w : Z) :
  last_n 3 (batch ++ [c; h; w])%list = [c; h; w].
Proof.
  unfold last_n. rewrite length_app. simpl List.length.
  replace (List.length batch + 3 - 3) with (List.length batch + 0) by lia.
  rewrite skipn_app, Nat.add_0_r, skipn_all.
  replace (List.length batch - List.length batch) with 0 by lia.
  reflexivity.
Qed.

Lemma but_last_n_app (batch : list Z) (c h w : Z) :
  but_last_n 3 (batch ++ [c; h; w])%list = batch.
Proof.
  unfold but_last_n. rewrite length_app. simpl List.length.
  replace (List.length batch + 3 - 3) with (List.length batch) by lia.
  rewrite firstn_app, firstn_all, Nat.sub_diag. simpl.
  apply app_nil_r.
Qed.

Lemma last_n_short (shape : list Z) :
  List.length shape < 3 -> last_n 3 shape = shape.
Proof.
  intros H. unfold last_n.
  replace (List.length shape - 3) with 0 by lia. reflexivity.
Qed.

(** ** The order of the axes *)

Lemma list_insert_at {A : Type} (k : nat) (x : A) (l1 l2 : list A) :
  List.length l1 = k ->
  Exporter.list_insert k x (l1 ++ l2) = (l1 ++ x :: l2)%list.
Proof. intros <-. apply LiftFacts.list_insert_middle. Qed.

Lemma seq_last_two (b : nat) :
  seq 0 (b + 3) = (seq 0 (S b) ++ [b + 1; b + 2])%list.
Proof.
  replace (b + 3) with (S b + 2) by lia. rewrite seq_app.
  replace (seq (0 + S b) 2) with [b + 1; b + 2]; [reflexivity|].
  simpl. f_equal; [lia|]. f_equal. lia.
Qed.

Lemma permute_shape_closed (b : nat) :
  permute_shape (b + 3)
  = (seq 0 (S b) ++ [b + 3; b + 1; b + 4; b + 2])%list.
Proof.
  unfold permute_shape, py_insert, range.
  rewrite length_seq.
  change (-2 <? 0)%Z with true. change (-1 <? 0)%Z with true. cbv iota.
  replace (Z.to_nat (Z.max 0 (Z.of_nat (b + 3) + -2))) with (S b) by lia.
  rewrite seq_last_two.
  rewrite (list_insert_at (S b) (b + 3) (seq 0 (S b)) [b + 1; b + 2])
    by apply length_seq.
  rewrite length_app, length_seq. simpl List.length.
  replace (Z.to_nat (Z.max 0 (Z.of_nat (S b + 3) + -1))) with (S b + 2)
    by lia.
  change (seq 0 (S b) ++ [b + 3; b + 1; b + 2])%list
    with (seq 0 (S b) ++ [b + 3; b + 1] ++ [b + 2])%list.
  rewrite app_assoc.
  rewrite (list_insert_at (S b + 2) (b + 3 + 1)
             (seq 0 (S b) ++ [b + 3; b + 1]) [b + 2])
    by (rewrite length_app, length_seq; reflexivity).
  rewrite <- app_assoc. simpl.
  replace (b + 3 + 1) with (b + 4) by lia. reflexivity.
Qed.

Lemma permuted_prefix (l1 l2 : list Z) :
  permuted (seq 0 (List.length l1)) (l1 ++ l2)%list = l1.
Proof.
  unfold permuted. revert l2.
  induction l1 as [|x r IH] using rev_ind; intros l2; [reflexivity|].
  rewrite length_app. simpl List.length.
  replace (List.length r + 1) with (S (List.length r)) by lia.
  rewrite seq_S, map_app. simpl map.
  rewrite <- app_assoc. rewrite IH. f_equal.
  rewrite app_nth2 by lia. rewrite Nat.sub_diag. reflexivity.
Qed.

(** ** The layers *)

Lemma update_layer_last (f : Layer -> Layer) (net : Network) (l : Layer) :
  update_layer (List.length net) f (net ++ [l])%list = (net ++ [f l])%list.
Proof.
  induction net as [|x r IH]; simpl; [reflexivity|].
  rewrite IH. reflexivity.
Qed.

Lemma all_ints (dims : list Z) :
  forallb is_int (map DInt dims) = true /\ ints (map DInt dims) = dims.
Proof.
  induction dims as [|z r [IH1 IH2]]; [split; reflexivity|].
  simpl. rewrite IH1, IH2. split; reflexivity.
Qed.

Section Converters.

Variable Tgt SourceIR : Type.
Variable shape_of : ITensor -> list Z.
Variable get_trt_tensor : Network -> Z -> string -> Network * ITensor.
Variable full_layer_name : Tgt -> string -> option SourceIR -> string.
Variable permute :
  Network -> Tgt -> option SourceIR -> string -> ITensor -> list nat ->
  Res (Network * ITensor).

Local Abbreviation reshape_ :=
  (reshape Tgt SourceIR get_trt_tensor full_layer_name).
Local Abbreviation pixel_shuffle_ :=
  (pixel_shuffle Tgt SourceIR shape_of get_trt_tensor full_layer_name
     permute).

Lemma reshape_ints (net : Network) (target : Tgt)
    (source_ir : option SourceIR) (name : string) (input : ITensor)
    (dims : list Z) :
  reshape_ net target source_ir name input (map DInt dims)
  = ((net ++ [ShuffleLayer input (Some dims) None
                (full_layer_name target name source_ir)])%list,
     OutputOf (List.length net) 0).
Proof.
  unfold reshape. destruct (all_ints dims) as [-> ->].
  rewrite !update_layer_last. reflexivity.
Qed.

(** X24: [reshape] to a shape of integers adds one layer and nothing else:
    a shuffle layer on the input, with these integers as its reshape
    dimensions, no shape tensor, and the name [set_layer_name] gives it;
    the layers the network had stay as they were, and the tensor returned
    is output 0 of the new layer.  [get_trt_tensor] is not called. *)
Theorem reshape_of_integers_adds_one_layer (net : Network) (target : Tgt)
    (source_ir : option SourceIR) (name : string) (input : ITensor)
    (shape : list Dim) :
  forallb is_int shape = true ->
  reshape_ net target source_ir name input shape
  = ((net ++ [ShuffleLayer input (Some (ints shape)) None
                (full_layer_name target name source_ir)])%list,
     OutputOf (List.length net) 0).
Proof.
  intros H. unfold reshape. rewrite H.
  rewrite !update_layer_last. reflexivity.
Qed.

(** X25: how [pixel_shuffle] fails, before it adds any layer: on an input
    of fewer than three dimensions the unpacking of the last three raises
    the value error that names how many there were; on an input of three
    or more and an upscale factor of zero the division raises. *)
Theorem pixel_shuffle_failures (net : Network) (target : Tgt)
    (source_ir : option SourceIR) (name : string) (input : ITensor)
    (upscale_factor : Z) :
  (List.length (shape_of input) < 3 ->
   pixel_shuffle_ net target source_ir name input upscale_factor
   = Fail (PyExn
             (ValueError
                ("not enough values to unpack (expected 3, got "
                 ++ str_of_nat (List.length (shape_of input)) ++ ")"))))
  /\ (3 <= List.length (shape_of input) ->
      upscale_factor = 0%Z ->
      pixel_shuffle_ net target source_ir name input upscale_factor
      = Fail ZeroDivisionError).
Proof.
  split.
  - intros H. unfold pixel_shuffle. rewrite (last_n_short _ H).
    destruct (shape_of input) as [|a [|b [|c r]]]; try reflexivity.
    simpl in H. lia.
  - intros H ->. unfold pixel_shuffle.
    destruct (last_three_split _ H) as (batch & c & h & w & ->).
    rewrite last_n_app. reflexivity.
Qed.

(** X26: on an input of shape [batch + (C, H, W)] and a factor [r] other
    than zero, [pixel_shuffle] adds a shuffle layer that reshapes the input
    to [batch + (C // r**2, r, r, H, W)], hands its output to the permute
    converter with the axes [0 .. len(batch)] followed by the last four in
    the order height, first factor, width, second factor, and adds a
    second shuffle layer that reshapes the result to
    [batch + (C // r**2, H * r, W * r)]. *)
Theorem pixel_shuffle_layers (net : Network) (target : Tgt)
    (source_ir : option SourceIR) (name : string) (input : ITensor)
    (r : Z) (batch : list Z) (c h w : Z) :
  shape_of input = (batch ++ [c; h; w])%list ->
  r <> 0%Z ->
  let b := List.length batch in
  pixel_shuffle_ net target source_ir name input r
  = and_then
      (permute
         (net ++ [ShuffleLayer input
                    (Some (batch ++ [(c / r ^ 2)%Z; r; r; h; w])%list) None
                    (full_layer_name target (name ++ "_reshape1")
                       source_ir)])%list
         target source_ir (name ++ "_permute")
         (OutputOf (List.length net) 0)
         (seq 0 (S b) ++ [b + 3; b + 1; b + 4; b + 2])%list)
      (fun res =>
         Fine ((fst res
                ++ [ShuffleLayer (snd res)
                      (Some (batch ++ [(c / r ^ 2)%Z; (h * r)%Z;
                                       (w * r)%Z])%list)
                      None
                      (full_layer_name target (name ++ "_reshape2")
                         source_ir)])%list,
               OutputOf (List.length (fst res)) 0)).
Proof.
  intros Hshape Hr b. unfold pixel_shuffle. rewrite Hshape.
  rewrite last_n_app.
  assert (Hsq : (r ^ 2 =? 0)%Z = false) by (apply Z.eqb_neq; nia).
  rewrite Hsq. unfold new_shape, output_shape.
  rewrite but_last_n_app, !reshape_ints.
  rewrite length_app. simpl List.length.
  rewrite permute_shape_closed.
  destruct (permute _ _ _ _ _ _) as [[net2 t2]|e]; [|reflexivity].
  simpl and_then. rewrite reshape_ints. reflexivity.
Qed.

End Converters.

(** X27: the order [pixel_shuffle] hands to the permute converter is a
    rearrangement of all the axes of the reshaped tensor, and it turns the
    dimensions [batch + (C', r, r, H, W)] into [batch + (C', H, r, W, r)]:
    each factor [r] comes to stand next to the dimension it enlarges. *)
Theorem permute_shape_interleaves_the_factors (batch : list Z)
    (c' r h w : Z) :
  let rank := List.length batch + 3 in
  permuted (permute_shape rank) (batch ++ [c'; r; r; h; w])%list
  = (batch ++ [c'; h; r; w; r])%list
  /\ NoDup (permute_shape rank)
  /\ List.length (permute_shape rank) = rank + 2
  /\ (forall i, In i (permute_shape rank) -> i < rank + 2).
Proof.
  intros rank. unfold rank. rewrite permute_shape_closed.
  set (b := List.length batch).
  split; [|split; [|split]].
  - unfold permuted. rewrite map_app.
    change (batch ++ [c'; r; r; h; w])%list
      with (batch ++ [c'] ++ [r; r; h; w])%list.
    rewrite app_assoc.
    assert (Hb : S b = List.length (batch ++ [c'])%list)
      by (rewrite length_app; simpl; unfold b; lia).
    rewrite Hb.
    pose proof (permuted_prefix (batch ++ [c'])%list [r; r; h; w]) as Hpre.
    unfold permuted in Hpre. rewrite Hpre. rewrite <- app_assoc.
    f_equal. simpl app at 1. f_equal. simpl map.
    rewrite !app_nth2 by (rewrite <- Hb; lia). rewrite <- Hb.
    replace (b + 3 - S b) with 2 by lia.
    replace (b + 1 - S b) with 0 by lia.
    replace (b + 4 - S b) with 3 by lia.
    replace (b + 2 - S b) with 1 by lia. reflexivity.
  - apply NoDup_app; [apply seq_NoDup | |].
    + repeat constructor; simpl; lia.
    + intros x Hx Hy. apply in_seq in Hx. simpl in Hy. lia.
  - rewrite length_app, length_seq. simpl. lia.
  - intros i Hi. apply in_app_iff in Hi as [Hi | Hi].
    + apply in_seq in Hi. lia.
    + simpl in Hi. lia.
Qed.

Lemma product_app (l1 l2 : list Z) :
  product (l1 ++ l2)%list = (product l1 * product l2)%Z.
Proof.
  unfold product. induction l1 as [|x r IH]; simpl.
  - destruct (fold_right Z.mul 1%Z l2); reflexivity.
  - rewrite IH. ring.
Qed.

(** X28: [pixel_shuffle] keeps the number of elements exactly when the
    square of the factor divides the number of channels: then the shape of
    the first reshape and the shape of the result both have as many
    elements as the input; and for a non-empty input and a factor other
    than zero, a result with as many elements as the input means that the
    square of the factor divides the channels. *)
Theorem pixel_shuffle_keeps_element_count (batch : list Z) (c h w r : Z) :
  let shape := (batch ++ [c; h; w])%list in
  ((r ^ 2 | c)%Z ->
   product (new_shape shape r c h w) = product shape
   /\ product (output_shape shape r c h w) = product shape)
  /\ (r <> 0%Z -> product shape <> 0%Z ->
      product (output_shape shape r c h w) = product shape ->
      (r ^ 2 | c)%Z).
Proof.
  intros shape. unfold shape, new_shape, output_shape.
  rewrite but_last_n_app, !product_app.
  change (product [c; h; w]) with (c * (h * (w * 1)))%Z.
  change (product [(c / r ^ 2)%Z; r; r; h; w])
    with (c / r ^ 2 * (r * (r * (h * (w * 1)))))%Z.
  change (product [(c / r ^ 2)%Z; (h * r)%Z; (w * r)%Z])
    with (c / r ^ 2 * (h * r * (w * r * 1)))%Z.
  split.
  - intros [q Hq]. subst c.
    destruct (Z.eq_dec r 0) as [-> | Hr].
    + change (0 ^ 2)%Z with 0%Z. split; ring.
    + rewrite Z.div_mul by (rewrite Z.pow_2_r; nia). split; ring.
  - intros Hr Hne Heq.
    set (q := (c / r ^ 2)%Z) in *.
    assert (Hb : product batch <> 0%Z)
      by (intros F; apply Hne; rewrite F; ring).
    assert (Hh : h <> 0%Z) by (intros F; apply Hne; rewrite F; ring).
    assert (Hw : w <> 0%Z) by (intros F; apply Hne; rewrite F; ring).
    assert (Hmul : (product batch * h * w * (q * r ^ 2 - c) = 0)%Z).
    { transitivity (product batch * (q * (h * r * (w * r * 1)))
                    - product batch * (c * (h * (w * 1))))%Z;
        [ring | lia]. }
    exists q.
    apply Z.mul_eq_0 in Hmul as [Hmul | Hmul]; [|lia].
    apply Z.mul_eq_0 in Hmul as [Hmul | Hmul]; [|contradiction].
    apply Z.mul_eq_0 in Hmul as [Hmul | Hmul]; contradiction.
Qed.

Lemma reshape_of_integers_adds_one_layer_witness :
  reshape unit unit demo_get_trt_tensor demo_layer_name
    [ForeignLayer "conv"] tt None "flatten" (OutputOf 0 0)
    [DInt 1; DInt (-1)]
  = ([ForeignLayer "conv";
      ShuffleLayer (OutputOf 0 0) (Some [1; -1]%Z) None "flatten"],
     OutputOf 1 0).
Proof.
  apply (reshape_of_integers_adds_one_layer unit unit demo_get_trt_tensor
           demo_layer_name [ForeignLayer "conv"] tt None "flatten"
           (OutputOf 0 0) [DInt 1; DInt (-1)]).
  reflexivity.
Defined.

Lemma pixel_shuffle_failures_witness :
  pixel_shuffle unit unit flat_shape_of demo_get_trt_tensor demo_layer_name
    demo_permute [] tt None "ps" (NetworkInput "x") 2
  = Fail (PyExn
            (ValueError "not enough values to unpack (expected 3, got 2)"))
  /\ pixel_shuffle unit unit demo_shape_of demo_get_trt_tensor
       demo_layer_name demo_permute [] tt None "ps" (NetworkInput "x") 0
     = Fail ZeroDivisionError.
Proof.
  split.
  - apply (proj1 (pixel_shuffle_failures unit unit flat_shape_of
                    demo_get_trt_tensor demo_layer_name demo_permute [] tt
                    None "ps" (NetworkInput "x") 2)).
    simpl. lia.
  - apply (proj2 (pixel_shuffle_failures unit unit demo_shape_of
                    demo_get_trt_tensor demo_layer_name demo_permute [] tt
                    None "ps" (NetworkInput "x") 0)).
    + simpl. lia.
    + reflexivity.
Defined.

Lemma pixel_shuffle_layers_witness :
  pixel_shuffle unit unit demo_shape_of demo_get_trt_tensor demo_layer_name
    demo_permute [] tt None "ps" (NetworkInput "x") 2
  = Fine ([ShuffleLayer (NetworkInput "x") (Some [1; 2; 2; 2; 2; 2]%Z) None
             "ps_reshape1";
           ForeignLayer "ps_permute";
           ShuffleLayer (OutputOf 1 0) (Some [1; 2; 4; 4]%Z) None
             "ps_reshape2"],
          OutputOf 2 0).
Proof.
  etransitivity.
  - apply (pixel_shuffle_layers unit unit demo_shape_of demo_get_trt_tensor
             demo_layer_name demo_permute [] tt None "ps" (NetworkInput "x")
             2 [1]%Z 8 2 2).
    + reflexivity.
    + discriminate.
  - reflexivity.
Defined.

Lemma pixel_shuffle_keeps_element_count_witness :
  product (new_shape [1; 8; 2; 2]%Z 2 8 2 2) = product [1; 8; 2; 2]%Z
  /\ product (output_shape [1; 8; 2; 2]%Z 2 8 2 2)
     = product [1; 8; 2; 2]%Z.
Proof.
  apply (proj1 (pixel_shuffle_keeps_element_count [1]%Z 8 2 2 2)).
  exists 2%Z. reflexivity.
Defined.

End ShuffleFacts.
